(** * gninja: [main.go], embedded in Rocq

    The development follows [main.go] function by function: first the
    simulation ([update] and what it calls, [handleInput], and the frame
    loop of [run]), then the rendering ([render] and the [draw*]
    functions).  Of [run], the goroutine that polls the events and the
    ticker are not embedded: a run is the list of its frames, each with the
    event that is pending, if any ([runFrames]); [runFrame] is the frame up
    to the call of [render].

    Conventions of the embedding.

    - [float64] quantities are exact rationals ([Q]); rounding, infinities
      and NaN are not modelled.  Literals are written as in the source.
    - Go's [int] is a [Z] kept in the 64-bit range by [wrap64] after every
      arithmetic operation; [/] and [%] truncate towards zero ([Z.quot],
      [Z.rem]); the conversion [int(x)] of a float truncates towards zero.
    - [time.Time] is a number of nanoseconds, [0] being the zero [Time];
      [time.Duration] is a number of nanoseconds; [Sub] saturates as Go's.
    - [time.Now()], [rand.Float64()], [rand.Intn(n)] and the functions of
      package [math] that have no rational counterpart are supplied by a
      [Runtime]: streams of readings together with the number of readings
      consumed so far.
    - The game is one mutable [Game] value; the code is written in a state
      monad [M] over the pair of the game and the runtime.  A loop
      [for i := range xs] whose body updates [xs[i]] in place is a
      traversal ([forEachM]) whose result is stored back; the loop bodies
      never read the other entries of the slice they traverse.  The
      pack-and-truncate idiom [active := xs[:0]; ... append] is [filter].
    - The screen is written to only: a drawing function is the list of the
      calls of [SetContent] that it makes, in their order, and [None] when
      it panics (an index out of range). *)

From Stdlib Require Import QArith Qround Qminmax Qabs Lqa ZArith Lia Ascii Bool.
From Stdlib Require DecimalString.
From stdpp Require Import strings gmap list.

(** ** Numbers *)

Definition Qltb (x y : Q) : bool := negb (Qle_bool y x).
Definition Qgtb (x y : Q) : bool := Qltb y x.
Definition Qgeb (x y : Q) : bool := Qle_bool y x.

Infix "<?" := Qltb (at level 70, no associativity) : Q_scope.
Infix "<=?" := Qle_bool (at level 70, no associativity) : Q_scope.
Infix ">?" := Qgtb (at level 70, no associativity) : Q_scope.
Infix ">=?" := Qgeb (at level 70, no associativity) : Q_scope.
Infix "=?" := Qeq_bool (at level 70, no associativity) : Q_scope.

(** [float64(n)] and [int(x)]. *)
Definition float64 (n : Z) : Q := inject_Z n.
Definition int (x : Q) : Z := Z.quot (Qnum x) (Zpos (Qden x)).

(** Go's [int] on a 64-bit platform. *)
Definition wrap64 (z : Z) : Z := ((z + 2 ^ 63) mod 2 ^ 64 - 2 ^ 63)%Z.
Definition int_add (a b : Z) : Z := wrap64 (a + b).
Definition int_sub (a b : Z) : Z := wrap64 (a - b).
Definition int_mul (a b : Z) : Z := wrap64 (a * b).
Definition int_neg (a : Z) : Z := wrap64 (- a).
Definition int_div (a b : Z) : Z := wrap64 (Z.quot a b).
Definition int_rem (a b : Z) : Z := Z.rem a b.

(** [math.Pi], [math.Abs], [math.Min]. *)
Definition mathPi : Q := 3.141592653589793.
Definition mathAbs (x : Q) : Q := Qabs x.
Definition mathMin (x y : Q) : Q := Qmin x y.

(** ** Time *)

Definition Time := Z.
Definition Duration := Z.
Bind Scope Z_scope with Time Duration.

Definition Millisecond : Duration := 1000000%Z.
Definition Second : Duration := 1000000000%Z.
Definition minDuration : Duration := (- 2 ^ 63)%Z.
Definition maxDuration : Duration := (2 ^ 63 - 1)%Z.

(** [time.Time{}] and [t.IsZero()]. *)
Definition zeroTime : Time := 0%Z.
Definition IsZero (t : Time) : bool := (t =? 0)%Z.

(** [t.Sub(u)]: the difference, saturated to the range of a [Duration]. *)
Definition Sub (t u : Time) : Duration :=
  let d := (t - u)%Z in
  if (d <? minDuration)%Z then minDuration
  else if (maxDuration <? d)%Z then maxDuration
  else d.

(** [t.After(u)] and [t.Add(d)]. *)
Definition After (t u : Time) : bool := (u <? t)%Z.
Definition Add (t : Time) (d : Duration) : Time := (t + d)%Z.

(** [time.Duration(x)] of a float, and the product of two durations. *)
Definition DurationOf (x : Q) : Duration := int x.
Definition dur_mul (a b : Duration) : Duration := wrap64 (a * b).
Definition dur_add (a b : Duration) : Duration := wrap64 (a + b).
Definition dur_sub (a b : Duration) : Duration := wrap64 (a - b).

(** ** Constants *)

Definition PlayerWidth : Z := 4.
Definition PlayerHeight : Z := 3.
Definition EnemyWidth : Z := 4.
Definition EnemyHeight : Z := 3.

(** ** Data model *)

Record Vec2 := mkVec2 { X : Q; Y : Q }.

Module Player.
Record t := mk {
  Pos : Vec2;
  Vel : Vec2;
  Facing : Z;
  MoveDir : Z;
  Width : Z;
  Height : Z;
  OnGround : bool;
  OnPlatform : bool;
  LastOnGroundTime : Time
}.
Definition setPos (v : Vec2) (p : t) : t :=
  let '(mk _ b c d e f g h i) := p in mk v b c d e f g h i.
Definition setVel (v : Vec2) (p : t) : t :=
  let '(mk a _ c d e f g h i) := p in mk a v c d e f g h i.
Definition setFacing (v : Z) (p : t) : t :=
  let '(mk a b _ d e f g h i) := p in mk a b v d e f g h i.
Definition setMoveDir (v : Z) (p : t) : t :=
  let '(mk a b c _ e f g h i) := p in mk a b c v e f g h i.
Definition setOnGround (v : bool) (p : t) : t :=
  let '(mk a b c d e f _ h i) := p in mk a b c d e f v h i.
Definition setOnPlatform (v : bool) (p : t) : t :=
  let '(mk a b c d e f g _ i) := p in mk a b c d e f g v i.
Definition setLastOnGroundTime (v : Time) (p : t) : t :=
  let '(mk a b c d e f g h _) := p in mk a b c d e f g h v.
Definition setPosX (v : Q) (p : t) : t := setPos (mkVec2 v (Y (Pos p))) p.
Definition setPosY (v : Q) (p : t) : t := setPos (mkVec2 (X (Pos p)) v) p.
Definition setVelY (v : Q) (p : t) : t := setVel (mkVec2 (X (Vel p)) v) p.
End Player.
Abbreviation Player := Player.t.

Module Projectile.
Record t := mk {
  Pos : Vec2;
  PrevPos : Vec2;
  Dir : Z;
  Active : bool;
  Frame : Z;
  IsEnemy : bool
}.
Definition setPos (v : Vec2) (p : t) : t :=
  let '(mk _ b c d e f) := p in mk v b c d e f.
Definition setPrevPos (v : Vec2) (p : t) : t :=
  let '(mk a _ c d e f) := p in mk a v c d e f.
Definition setActive (v : bool) (p : t) : t :=
  let '(mk a b c _ e f) := p in mk a b c v e f.
Definition setFrame (v : Z) (p : t) : t :=
  let '(mk a b c d _ f) := p in mk a b c d v f.
Definition setPosX (v : Q) (p : t) : t := setPos (mkVec2 v (Y (Pos p))) p.
End Projectile.
Abbreviation Projectile := Projectile.t.

Module Enemy.
Record t := mk {
  Pos : Vec2;
  Vel : Vec2;
  Facing : Z;
  Width : Z;
  Height : Z;
  Active : bool;
  CanShoot : bool;
  LastShot : Time;
  NextShotDelay : Duration;
  OnGround : bool;
  JumpCooldown : Time
}.
Definition setPos (v : Vec2) (p : t) : t :=
  let '(mk _ b c d e f g h i j k) := p in mk v b c d e f g h i j k.
Definition setVel (v : Vec2) (p : t) : t :=
  let '(mk a _ c d e f g h i j k) := p in mk a v c d e f g h i j k.
Definition setFacing (v : Z) (p : t) : t :=
  let '(mk a b _ d e f g h i j k) := p in mk a b v d e f g h i j k.
Definition setActive (v : bool) (p : t) : t :=
  let '(mk a b c d e _ g h i j k) := p in mk a b c d e v g h i j k.
Definition setLastShot (v : Time) (p : t) : t :=
  let '(mk a b c d e f g _ i j k) := p in mk a b c d e f g v i j k.
Definition setNextShotDelay (v : Duration) (p : t) : t :=
  let '(mk a b c d e f g h _ j k) := p in mk a b c d e f g h v j k.
Definition setOnGround (v : bool) (p : t) : t :=
  let '(mk a b c d e f g h i _ k) := p in mk a b c d e f g h i v k.
Definition setJumpCooldown (v : Time) (p : t) : t :=
  let '(mk a b c d e f g h i j _) := p in mk a b c d e f g h i j v.
Definition setPosX (v : Q) (p : t) : t := setPos (mkVec2 v (Y (Pos p))) p.
Definition setPosY (v : Q) (p : t) : t := setPos (mkVec2 (X (Pos p)) v) p.
Definition setVelY (v : Q) (p : t) : t := setVel (mkVec2 (X (Vel p)) v) p.
End Enemy.
Abbreviation Enemy := Enemy.t.

Module DeathParticle.
Record t := mk {
  Pos : Vec2;
  Vel : Vec2;
  Char : ascii;
  OnGround : bool;
  Bounces : Z;
  GroundTime : Time;
  Active : bool;
  EnemyID : Z;
  IsRed : bool;
  AngularVel : Q;
  Angle : Q;
  FallsThrough : bool;
  IsHead : bool;
  IsRolling : bool;
  RollDistance : Q;
  RollSpeed : Q;
  BouncedFromPlatform : bool;
  WasOnPlatform : bool;
  HasSplattedFromPlatform : bool;
  LastBloodEmit : Time;
  HasHitGround : bool
}.
Definition setPos (v : Vec2) (p : t) : t :=
  let '(mk _ b c d e f g h i j k l m n o q r s u w x) := p in
  mk v b c d e f g h i j k l m n o q r s u w x.
Definition setVel (v : Vec2) (p : t) : t :=
  let '(mk a _ c d e f g h i j k l m n o q r s u w x) := p in
  mk a v c d e f g h i j k l m n o q r s u w x.
Definition setOnGround (v : bool) (p : t) : t :=
  let '(mk a b c _ e f g h i j k l m n o q r s u w x) := p in
  mk a b c v e f g h i j k l m n o q r s u w x.
Definition setBounces (v : Z) (p : t) : t :=
  let '(mk a b c d _ f g h i j k l m n o q r s u w x) := p in
  mk a b c d v f g h i j k l m n o q r s u w x.
Definition setGroundTime (v : Time) (p : t) : t :=
  let '(mk a b c d e _ g h i j k l m n o q r s u w x) := p in
  mk a b c d e v g h i j k l m n o q r s u w x.
Definition setActive (v : bool) (p : t) : t :=
  let '(mk a b c d e f _ h i j k l m n o q r s u w x) := p in
  mk a b c d e f v h i j k l m n o q r s u w x.
Definition setIsRolling (v : bool) (p : t) : t :=
  let '(mk a b c d e f g h i j k l m _ o q r s u w x) := p in
  mk a b c d e f g h i j k l m v o q r s u w x.
Definition setRollDistance (v : Q) (p : t) : t :=
  let '(mk a b c d e f g h i j k l m n _ q r s u w x) := p in
  mk a b c d e f g h i j k l m n v q r s u w x.
Definition setBouncedFromPlatform (v : bool) (p : t) : t :=
  let '(mk a b c d e f g h i j k l m n o q _ s u w x) := p in
  mk a b c d e f g h i j k l m n o q v s u w x.
Definition setWasOnPlatform (v : bool) (p : t) : t :=
  let '(mk a b c d e f g h i j k l m n o q r _ u w x) := p in
  mk a b c d e f g h i j k l m n o q r v u w x.
Definition setLastBloodEmit (v : Time) (p : t) : t :=
  let '(mk a b c d e f g h i j k l m n o q r s u _ x) := p in
  mk a b c d e f g h i j k l m n o q r s u v x.
Definition setHasHitGround (v : bool) (p : t) : t :=
  let '(mk a b c d e f g h i j k l m n o q r s u w _) := p in
  mk a b c d e f g h i j k l m n o q r s u w v.
Definition setPosX (v : Q) (p : t) : t := setPos (mkVec2 v (Y (Pos p))) p.
Definition setPosY (v : Q) (p : t) : t := setPos (mkVec2 (X (Pos p)) v) p.
Definition setVelX (v : Q) (p : t) : t := setVel (mkVec2 v (Y (Vel p))) p.
Definition setVelY (v : Q) (p : t) : t := setVel (mkVec2 (X (Vel p)) v) p.
End DeathParticle.
Abbreviation DeathParticle := DeathParticle.t.

Module BloodParticle.
Record t := mk {
  Pos : Vec2;
  Vel : Vec2;
  Char : ascii;
  Active : bool;
  Lifetime : Q;
  EnemyID : Z
}.
Definition setPos (v : Vec2) (p : t) : t :=
  let '(mk _ b c d e f) := p in mk v b c d e f.
Definition setVel (v : Vec2) (p : t) : t :=
  let '(mk a _ c d e f) := p in mk a v c d e f.
Definition setActive (v : bool) (p : t) : t :=
  let '(mk a b c _ e f) := p in mk a b c v e f.
Definition setLifetime (v : Q) (p : t) : t :=
  let '(mk a b c d _ f) := p in mk a b c d v f.
End BloodParticle.
Abbreviation BloodParticle := BloodParticle.t.

(** [Corpse]: the temporarily mobile body after a decapitation. *)
Module Corpse.
Record t := mk {
  Pos : Vec2;
  Vel : Vec2;
  Facing : Z;
  OnGround : bool;
  Active : bool;
  EnemyID : Z;
  EndTime : Time;
  MoveDir : Z;
  LastDirChange : Time;
  DirDuration : Duration;
  LastBloodEmit : Time;
  WasOnPlatform : bool
}.
Definition setPos (v : Vec2) (p : t) : t :=
  let '(mk _ b c d e f g h i j k l) := p in mk v b c d e f g h i j k l.
Definition setVel (v : Vec2) (p : t) : t :=
  let '(mk a _ c d e f g h i j k l) := p in mk a v c d e f g h i j k l.
Definition setOnGround (v : bool) (p : t) : t :=
  let '(mk a b c _ e f g h i j k l) := p in mk a b c v e f g h i j k l.
Definition setActive (v : bool) (p : t) : t :=
  let '(mk a b c d _ f g h i j k l) := p in mk a b c d v f g h i j k l.
Definition setMoveDir (v : Z) (p : t) : t :=
  let '(mk a b c d e f g _ i j k l) := p in mk a b c d e f g v i j k l.
Definition setLastDirChange (v : Time) (p : t) : t :=
  let '(mk a b c d e f g h _ j k l) := p in mk a b c d e f g h v j k l.
Definition setDirDuration (v : Duration) (p : t) : t :=
  let '(mk a b c d e f g h i _ k l) := p in mk a b c d e f g h i v k l.
Definition setLastBloodEmit (v : Time) (p : t) : t :=
  let '(mk a b c d e f g h i j _ l) := p in mk a b c d e f g h i j v l.
Definition setWasOnPlatform (v : bool) (p : t) : t :=
  let '(mk a b c d e f g h i j k _) := p in mk a b c d e f g h i j k v.
Definition setPosX (v : Q) (p : t) : t := setPos (mkVec2 v (Y (Pos p))) p.
Definition setPosY (v : Q) (p : t) : t := setPos (mkVec2 (X (Pos p)) v) p.
Definition setVelY (v : Q) (p : t) : t := setVel (mkVec2 (X (Vel p)) v) p.
End Corpse.
Abbreviation Corpse := Corpse.t.

Module Platform.
Record t := mk {
  X : Q;
  Y : Q;
  Width : Q;
  Height : Q
}.
End Platform.
Abbreviation Platform := Platform.t.

(** The keys the game distinguishes ([tcell.Key]) and a key event. *)
Inductive Key :=
| KeyLeft | KeyRight | KeyUp | KeyRune | KeyTab | KeyEscape | KeyEnter | KeyOther.

Definition Key_eqb (a b : Key) : bool :=
  match a, b with
  | KeyLeft, KeyLeft | KeyRight, KeyRight | KeyUp, KeyUp | KeyRune, KeyRune
  | KeyTab, KeyTab | KeyEscape, KeyEscape | KeyEnter, KeyEnter
  | KeyOther, KeyOther => true
  | _, _ => false
  end.

Record EventKey := mkEventKey { evKey : Key; evRune : ascii }.

(** [map[tcell.Key]time.Time]: three keys are ever stored. *)
Definition KeyMap := Key -> option Time.
Definition noKeys : KeyMap := fun _ => None.
Definition setKey (k : Key) (t : Time) (m : KeyMap) : KeyMap :=
  fun k' => if Key_eqb k k' then Some t else m k'.

Module Game.
Record t := mk {
  player : Player;
  projectiles : list Projectile;
  enemies : list Enemy;
  deathParticles : list DeathParticle;
  corpses : list Corpse;
  bloodParticles : list BloodParticle;
  platforms : list Platform;
  score : Z;
  enemiesDefeated : Z;
  enemySpawnCounter : Z;
  gameOver : bool;
  inMenu : bool;
  bloodColorMode : Z;
  width : Z;
  height : Z;
  groundY : Z;
  redGroundTiles : gmap Z Z;
  redPlatformTiles : gmap Z Z;
  nextEnemyID : Z;
  lastFrame : Time;
  keys : KeyMap;
  lastShot : Time;
  menuLastShot : Time;
  menuLastEnemySpawn : Time
}.
Definition setPlayer (v : Player) (g : t) : t :=
  let '(mk _ b c d e f g h i j k l m n o p q r s u w x y z) := g in
  mk v b c d e f g h i j k l m n o p q r s u w x y z.
Definition setProjectiles (v : list Projectile) (g : t) : t :=
  let '(mk a _ c d e f g h i j k l m n o p q r s u w x y z) := g in
  mk a v c d e f g h i j k l m n o p q r s u w x y z.
Definition setEnemies (v : list Enemy) (g : t) : t :=
  let '(mk a b _ d e f g h i j k l m n o p q r s u w x y z) := g in
  mk a b v d e f g h i j k l m n o p q r s u w x y z.
Definition setDeathParticles (v : list DeathParticle) (g : t) : t :=
  let '(mk a b c _ e f g h i j k l m n o p q r s u w x y z) := g in
  mk a b c v e f g h i j k l m n o p q r s u w x y z.
Definition setCorpses (v : list Corpse) (g : t) : t :=
  let '(mk a b c d _ f g h i j k l m n o p q r s u w x y z) := g in
  mk a b c d v f g h i j k l m n o p q r s u w x y z.
Definition setBloodParticles (v : list BloodParticle) (g : t) : t :=
  let '(mk a b c d e _ g h i j k l m n o p q r s u w x y z) := g in
  mk a b c d e v g h i j k l m n o p q r s u w x y z.
Definition setPlatforms (v : list Platform) (g : t) : t :=
  let '(mk a b c d e f _ h i j k l m n o p q r s u w x y z) := g in
  mk a b c d e f v h i j k l m n o p q r s u w x y z.
Definition setScore (v : Z) (g : t) : t :=
  let '(mk a b c d e f g _ i j k l m n o p q r s u w x y z) := g in
  mk a b c d e f g v i j k l m n o p q r s u w x y z.
Definition setEnemiesDefeated (v : Z) (g : t) : t :=
  let '(mk a b c d e f g h _ j k l m n o p q r s u w x y z) := g in
  mk a b c d e f g h v j k l m n o p q r s u w x y z.
Definition setEnemySpawnCounter (v : Z) (g : t) : t :=
  let '(mk a b c d e f g h i _ k l m n o p q r s u w x y z) := g in
  mk a b c d e f g h i v k l m n o p q r s u w x y z.
Definition setGameOver (v : bool) (g : t) : t :=
  let '(mk a b c d e f g h i j _ l m n o p q r s u w x y z) := g in
  mk a b c d e f g h i j v l m n o p q r s u w x y z.
Definition setInMenu (v : bool) (g : t) : t :=
  let '(mk a b c d e f g h i j k _ m n o p q r s u w x y z) := g in
  mk a b c d e f g h i j k v m n o p q r s u w x y z.
Definition setBloodColorMode (v : Z) (g : t) : t :=
  let '(mk a b c d e f g h i j k l _ n o p q r s u w x y z) := g in
  mk a b c d e f g h i j k l v n o p q r s u w x y z.
Definition setWidth (v : Z) (g : t) : t :=
  let '(mk a b c d e f g h i j k l m _ o p q r s u w x y z) := g in
  mk a b c d e f g h i j k l m v o p q r s u w x y z.
Definition setHeight (v : Z) (g : t) : t :=
  let '(mk a b c d e f g h i j k l m n _ p q r s u w x y z) := g in
  mk a b c d e f g h i j k l m n v p q r s u w x y z.
Definition setGroundY (v : Z) (g : t) : t :=
  let '(mk a b c d e f g h i j k l m n o _ q r s u w x y z) := g in
  mk a b c d e f g h i j k l m n o v q r s u w x y z.
Definition setRedGroundTiles (v : gmap Z Z) (g : t) : t :=
  let '(mk a b c d e f g h i j k l m n o p _ r s u w x y z) := g in
  mk a b c d e f g h i j k l m n o p v r s u w x y z.
Definition setRedPlatformTiles (v : gmap Z Z) (g : t) : t :=
  let '(mk a b c d e f g h i j k l m n o p q _ s u w x y z) := g in
  mk a b c d e f g h i j k l m n o p q v s u w x y z.
Definition setNextEnemyID (v : Z) (g : t) : t :=
  let '(mk a b c d e f g h i j k l m n o p q r _ u w x y z) := g in
  mk a b c d e f g h i j k l m n o p q r v u w x y z.
Definition setLastFrame (v : Time) (g : t) : t :=
  let '(mk a b c d e f g h i j k l m n o p q r s _ w x y z) := g in
  mk a b c d e f g h i j k l m n o p q r s v w x y z.
Definition setKeys (v : KeyMap) (g : t) : t :=
  let '(mk a b c d e f g h i j k l m n o p q r s u _ x y z) := g in
  mk a b c d e f g h i j k l m n o p q r s u v x y z.
Definition setLastShot (v : Time) (g : t) : t :=
  let '(mk a b c d e f g h i j k l m n o p q r s u w _ y z) := g in
  mk a b c d e f g h i j k l m n o p q r s u w v y z.
Definition setMenuLastShot (v : Time) (g : t) : t :=
  let '(mk a b c d e f g h i j k l m n o p q r s u w x _ z) := g in
  mk a b c d e f g h i j k l m n o p q r s u w x v z.
Definition setMenuLastEnemySpawn (v : Time) (g : t) : t :=
  let '(mk a b c d e f g h i j k l m n o p q r s u w x y _) := g in
  mk a b c d e f g h i j k l m n o p q r s u w x y v.
End Game.
Abbreviation Game := Game.t.

(** ** The runtime and the simulation monad *)

(** What the Go runtime supplies: the clock, the random source and the
    irrational functions of package [math]. *)
Record Runtime := mkRuntime {
  clock : nat -> Time;
  clockReads : nat;
  randFloats : nat -> Q;
  randInts : nat -> Z;
  randReads : nat;
  mathSqrt : Q -> Q;
  mathCos : Q -> Q;
  mathSin : Q -> Q;
  mathAtan2 : Q -> Q -> Q
}.

Record World := mkWorld { game : Game; runtime : Runtime }.

Definition M (A : Type) : Type := World -> A * World.

Definition ret {A} (a : A) : M A := fun w => (a, w).
Definition bind {A B} (m : M A) (k : A -> M B) : M B :=
  fun w => let '(a, w') := m w in k a w'.

Declare Scope sim_scope.
Delimit Scope sim_scope with sim.
Bind Scope sim_scope with M.
Notation "'let*' x := m 'in' k" := (bind m (fun x => k))
  (at level 10, x name, m at level 100, k at level 200) : sim_scope.
Notation "'let*' ' pat := m 'in' k" :=
  (bind m (fun x => match x with pat => k end))
  (at level 10, pat pattern, m at level 100, k at level 200) : sim_scope.
Notation "m ;; k" := (bind m (fun _ => k))
  (at level 100, k at level 200, right associativity) : sim_scope.
Open Scope sim_scope.

Definition getG : M Game := fun w => (game w, w).
Definition gets {A} (f : Game -> A) : M A := fun w => (f (game w), w).
Definition modifyG (f : Game -> Game) : M unit :=
  fun w => (tt, mkWorld (f (game w)) (runtime w)).
Definition when (b : bool) (m : M unit) : M unit := if b then m else ret tt.

(** [time.Now()]. *)
Definition timeNow : M Time :=
  fun w =>
    let r := runtime w in
    (clock r (clockReads r),
     mkWorld (game w)
       (mkRuntime (clock r) (S (clockReads r)) (randFloats r) (randInts r)
          (randReads r) (mathSqrt r) (mathCos r) (mathSin r) (mathAtan2 r))).

(** [time.Since(t)]. *)
Definition timeSince (t : Time) : M Duration :=
  let* now := timeNow in ret (Sub now t).

(** [rand.Float64()]. *)
Definition randFloat64 : M Q :=
  fun w =>
    let r := runtime w in
    (randFloats r (randReads r),
     mkWorld (game w)
       (mkRuntime (clock r) (clockReads r) (randFloats r) (randInts r)
          (S (randReads r)) (mathSqrt r) (mathCos r) (mathSin r) (mathAtan2 r))).

(** [rand.Intn(n)], for [n > 0]. *)
Definition randIntn (n : Z) : M Z :=
  fun w =>
    let r := runtime w in
    ((randInts r (randReads r) mod n)%Z,
     mkWorld (game w)
       (mkRuntime (clock r) (clockReads r) (randFloats r) (randInts r)
          (S (randReads r)) (mathSqrt r) (mathCos r) (mathSin r) (mathAtan2 r))).

Definition Sqrt (x : Q) : M Q := fun w => (mathSqrt (runtime w) x, w).
Definition Cos (x : Q) : M Q := fun w => (mathCos (runtime w) x, w).
Definition Sin (x : Q) : M Q := fun w => (mathSin (runtime w) x, w).
Definition Atan2 (y x : Q) : M Q := fun w => (mathAtan2 (runtime w) y x, w).

(** [for i := range xs { ... xs[i] ... }]. *)
Fixpoint forEachM {A} (body : A -> M A) (xs : list A) : M (list A) :=
  match xs with
  | [] => ret []
  | x :: rest =>
      let* x' := body x in
      let* rest' := forEachM body rest in
      ret (x' :: rest')
  end.

(** [for i := 0; i < n; i++ { ... }] with a body that ignores [i]. *)
Fixpoint repeatM (n : nat) (body : M unit) : M unit :=
  match n with
  | O => ret tt
  | S k => body;; repeatM k body
  end.

(** ** The simulation core *)

Local Open Scope Q_scope.

(** Axis-aligned overlap of the box at [(ax, ay)] of size [aw] by [ah] with
    the box at [(bx, by)] of size [bw] by [bh], as every collision test of
    the source spells it out. *)
Definition overlaps (ax ay aw ah bx by_ bw bh : Q) : bool :=
  (ax <? bx + bw) && (ax + aw >? bx) && (ay <? by_ + bh) && (ay + ah >? by_).

(** The platform generator, which [NewGame] and both resets of
    [handleInput] repeat verbatim. *)
Definition makePlatform (i : Z) (platformSpacing groundLevel : Q) : M Platform :=
  let platformX := platformSpacing * float64 (int_add i 1) in
  let* r1 := randFloat64 in
  let heightAboveGround := 4.0 + r1 * 8.0 in
  let platformY := groundLevel - heightAboveGround - 1.0 in
  let* r2 := randFloat64 in
  let platformWidth := 12.0 + r2 * 16.0 in
  ret {| Platform.X := platformX - platformWidth / 2;
         Platform.Y := platformY;
         Platform.Width := platformWidth;
         Platform.Height := 1.0 |}.

Fixpoint platformLoop (n : nat) (i : Z) (platformSpacing groundLevel : Q)
  : M (list Platform) :=
  match n with
  | O => ret []
  | S k =>
      let* p := makePlatform i platformSpacing groundLevel in
      let* ps := platformLoop k (int_add i 1) platformSpacing groundLevel in
      ret (p :: ps)
  end.

Definition generatePlatforms (width groundY : Z) : M (list Platform) :=
  let* k := randIntn 3 in
  let numPlatforms := int_add 3 k in
  let platformSpacing := float64 width / float64 (int_add numPlatforms 1) in
  let groundLevel := float64 groundY in
  platformLoop (Z.to_nat numPlatforms) 0%Z platformSpacing groundLevel.

Definition startingPlayer (width groundY : Z) (now : Time) : Player :=
  {| Player.Pos :=
       mkVec2 (float64 (int_div width 2)) (float64 (int_sub groundY PlayerHeight));
     Player.Vel := mkVec2 0 0;
     Player.Facing := 1;
     Player.MoveDir := 0;
     Player.Width := PlayerWidth;
     Player.Height := PlayerHeight;
     Player.OnGround := true;
     Player.OnPlatform := false;
     Player.LastOnGroundTime := now |}.

(** [NewGame(screen)], for a screen of the given size. *)
Definition NewGame (width height : Z) : M Game :=
  let groundY := int_sub height 1 in
  let* platforms := generatePlatforms width groundY in
  let* t1 := timeNow in
  let* t2 := timeNow in
  ret {| Game.player := startingPlayer width groundY t1;
         Game.projectiles := [];
         Game.enemies := [];
         Game.deathParticles := [];
         Game.corpses := [];
         Game.bloodParticles := [];
         Game.platforms := platforms;
         Game.score := 0;
         Game.enemiesDefeated := 0;
         Game.enemySpawnCounter := 0;
         Game.gameOver := false;
         Game.inMenu := true;
         Game.bloodColorMode := 0;
         Game.width := width;
         Game.height := height;
         Game.groundY := groundY;
         Game.redGroundTiles := ∅;
         Game.redPlatformTiles := ∅;
         Game.nextEnemyID := 1;
         Game.lastFrame := t2;
         Game.keys := noKeys;
         Game.lastShot := zeroTime;
         Game.menuLastShot := zeroTime;
         Game.menuLastEnemySpawn := zeroTime |}.

(** *** [updatePlayer] *)

Definition keyHeld (k : Key) (now : Time) (keyTimeout : Duration) (keys : KeyMap)
  : bool :=
  match keys k with
  | Some lastPress => (Sub now lastPress <? keyTimeout)%Z
  | None => false
  end.

Definition playerOverlapsPlatform (pl : Player) (platform : Platform) : bool :=
  overlaps (X (Player.Pos pl)) (Y (Player.Pos pl))
    (float64 (Player.Width pl)) (float64 (Player.Height pl))
    (Platform.X platform) (Platform.Y platform)
    (Platform.Width platform) (Platform.Height platform).

Fixpoint playerPlatformCollisions (pl : Player) (platforms : list Platform)
  : M (Player * bool) :=
  match platforms with
  | [] => ret (pl, false)
  | platform :: rest =>
      if playerOverlapsPlatform pl platform
         && (Y (Player.Vel pl) >? 0)
         && (Y (Player.Pos pl) <? Platform.Y platform)
      then
        let platformTopY := Platform.Y platform - float64 (Player.Height pl) in
        let pl := Player.setPosY platformTopY pl in
        let pl := Player.setVelY 0 pl in
        let pl := Player.setOnGround false pl in
        let pl := Player.setOnPlatform true pl in
        let* now := timeNow in
        ret (Player.setLastOnGroundTime now pl, true)
      else playerPlatformCollisions pl rest
  end.

Definition updatePlayer (deltaTime : Q) : M unit :=
  let groundSpeed := 50.0 in
  let airSpeed := 45.0 in
  let gravity := 300.0 in
  let jumpSpeed := -85.0 in
  let* g := getG in
  let groundY := float64 (int_sub (Game.groundY g) PlayerHeight) in
  let* now := timeNow in
  let keyTimeout := dur_mul 150 Millisecond in
  let pl := Game.player g in
  let speed := if negb (Player.OnGround pl) then airSpeed else groundSpeed in
  let leftPressed := keyHeld KeyLeft now keyTimeout (Game.keys g) in
  let pl := if leftPressed then Player.setFacing (-1) pl else pl in
  let rightPressed := keyHeld KeyRight now keyTimeout (Game.keys g) in
  let pl := if rightPressed then Player.setFacing 1 pl else pl in
  let pl := Player.setMoveDir 0 pl in
  let pl :=
    if leftPressed
    then Player.setPosX (X (Player.Pos pl) - speed * deltaTime)
           (Player.setMoveDir (-1) pl)
    else pl in
  let pl :=
    if rightPressed
    then Player.setPosX (X (Player.Pos pl) + speed * deltaTime)
           (Player.setMoveDir 1 pl)
    else pl in
  let coyoteTime := dur_mul 100 Millisecond in
  let* canJump :=
    (if Player.OnGround pl || Player.OnPlatform pl then ret true
     else let* since := timeSince (Player.LastOnGroundTime pl) in
          ret (since <? coyoteTime)%Z) in
  let pl :=
    if keyHeld KeyUp now keyTimeout (Game.keys g) && canJump
    then Player.setOnPlatform false
           (Player.setOnGround false (Player.setVelY jumpSpeed pl))
    else pl in
  let pl :=
    if negb (Player.OnGround pl)
    then Player.setVelY (Y (Player.Vel pl) + gravity * deltaTime) pl
    else pl in
  let pl := Player.setPosY (Y (Player.Pos pl) + Y (Player.Vel pl) * deltaTime) pl in
  let* '(pl, onPlatform) := playerPlatformCollisions pl (Game.platforms g) in
  let* pl :=
    (if negb onPlatform then
       if Y (Player.Pos pl) >=? groundY then
         let pl := Player.setPosY groundY pl in
         if Y (Player.Vel pl) >? 0 then
           let pl := Player.setVelY 0 pl in
           let pl := Player.setOnGround true pl in
           let pl := Player.setOnPlatform false pl in
           let* t := timeNow in
           ret (Player.setLastOnGroundTime t pl)
         else ret pl
       else
         let* pl :=
           (if Player.OnGround pl || Player.OnPlatform pl
            then let* t := timeNow in ret (Player.setLastOnGroundTime t pl)
            else ret pl) in
         ret (Player.setOnPlatform false (Player.setOnGround false pl))
     else ret pl) in
  let pl := if X (Player.Pos pl) <? 0 then Player.setPosX 0 pl else pl in
  let pl :=
    if X (Player.Pos pl) + float64 (Player.Width pl) >? float64 (Game.width g)
    then Player.setPosX (float64 (int_sub (Game.width g) (Player.Width pl))) pl
    else pl in
  modifyG (Game.setPlayer pl).

(** *** [updateProjectiles] *)

Definition playerProjectileSpeed : Q := 200.0.
Definition enemyProjectileSpeed : Q := 80.0.

(** The body of the loop over the projectiles. *)
Definition stepProjectile (deltaTime : Q) (width : Z) (p : Projectile) : Projectile :=
  if negb (Projectile.Active p) then p
  else
    let speed :=
      if Projectile.IsEnemy p then enemyProjectileSpeed
      else playerProjectileSpeed in
    let p := Projectile.setPrevPos (Projectile.Pos p) p in
    let p :=
      Projectile.setPosX
        (X (Projectile.Pos p) + float64 (Projectile.Dir p) * speed * deltaTime) p in
    let p := Projectile.setFrame (int_add (Projectile.Frame p) 1) p in
    if (X (Projectile.Pos p) <? 0) || (X (Projectile.Pos p) >? float64 width)
    then Projectile.setActive false p
    else p.

Definition updateProjectiles (deltaTime : Q) : M unit :=
  let* g := getG in
  if Game.gameOver g then modifyG (Game.setProjectiles [])
  else
    modifyG (fun g =>
      Game.setProjectiles
        (map (stepProjectile deltaTime (Game.width g)) (Game.projectiles g)) g);;
    modifyG (fun g =>
      Game.setProjectiles (List.filter Projectile.Active (Game.projectiles g)) g).

(** *** [updateEnemies] *)

Definition moveEnemy (facing : Z) (step : Q) (e : Enemy) : Enemy :=
  Enemy.setPosX (X (Enemy.Pos e) + step) (Enemy.setFacing facing e).

(** When the game is over an enemy walks towards the nearest edge. *)
Definition walkOffScreen (deltaTime speed : Q) (width : Z) (e : Enemy) : Enemy :=
  let screenCenter := float64 width / 2.0 in
  let dx := X (Enemy.Pos e) - screenCenter in
  if dx >? 0 then moveEnemy 1 (speed * deltaTime) e
  else moveEnemy (-1) (- (speed * deltaTime)) e.

(** Movement of an enemy while the game runs. *)
Definition approachPlayer (deltaTime speed minDistance : Q) (pl : Player) (e : Enemy)
  : Enemy :=
  let dx := X (Player.Pos pl) - X (Enemy.Pos e) in
  let distance := mathAbs dx in
  if Enemy.CanShoot e then
    if distance <? minDistance then
      if dx >? 0 then moveEnemy (-1) (- (speed * deltaTime)) e
      else moveEnemy 1 (speed * deltaTime) e
    else if distance >? minDistance + 10.0 then
      if dx >? 0 then moveEnemy 1 (speed * deltaTime) e
      else moveEnemy (-1) (- (speed * deltaTime)) e
    else e
  else
    if dx >? 0 then moveEnemy 1 (speed * deltaTime) e
    else moveEnemy (-1) (- (speed * deltaTime)) e.

Definition enemyMuzzle (e : Enemy) : Vec2 :=
  mkVec2 (X (Enemy.Pos e) + float64 (int_div (Enemy.Width e) 2))
         (Y (Enemy.Pos e) + float64 (int_div (Enemy.Height e) 2)).

Definition randomShotDelay : M Duration :=
  let* r := randFloat64 in
  ret (dur_mul (DurationOf (1.0 + r * 2.0)) Second).

Definition enemyShooting (e : Enemy) : M Enemy :=
  let* g := getG in
  if Enemy.CanShoot e && negb (Game.gameOver g) then
    let* now := timeNow in
    if IsZero (Enemy.LastShot e) then
      let* d := randomShotDelay in
      ret (Enemy.setLastShot now (Enemy.setNextShotDelay d e))
    else if (Enemy.NextShotDelay e <=? Sub now (Enemy.LastShot e))%Z then
      let p :=
        {| Projectile.Pos := enemyMuzzle e;
           Projectile.PrevPos := enemyMuzzle e;
           Projectile.Dir := Enemy.Facing e;
           Projectile.Active := true;
           Projectile.Frame := 0;
           Projectile.IsEnemy := true |} in
      modifyG (fun g => Game.setProjectiles (Game.projectiles g ++ [p]) g);;
      let e := Enemy.setLastShot now e in
      let* d := randomShotDelay in
      ret (Enemy.setNextShotDelay d e)
    else ret e
  else ret e.

(** [time.Since(e.JumpCooldown) > 1*time.Second]. *)
Definition jumpCooledDown (e : Enemy) : M bool :=
  let* since := timeSince (Enemy.JumpCooldown e) in
  ret (dur_mul 1 Second <? since)%Z.

Definition enemyJump (jumpSpeed : Q) (e : Enemy) : M Enemy :=
  let e := Enemy.setVelY jumpSpeed e in
  let e := Enemy.setOnGround false e in
  let* now := timeNow in
  ret (Enemy.setJumpCooldown now e).

Fixpoint enemyPlatformHop (jumpSpeed : Q) (e : Enemy) (platforms : list Platform)
  : M Enemy :=
  match platforms with
  | [] => ret e
  | platform :: rest =>
      let platformY := Platform.Y platform - float64 EnemyHeight in
      let* c :=
        (if (platformY <? Y (Enemy.Pos e) - 5.0)
            && (mathAbs (X (Enemy.Pos e)
                         - (Platform.X platform + Platform.Width platform / 2))
                <? 30.0)
            && Enemy.OnGround e
         then jumpCooledDown e else ret false) in
      if c then enemyJump jumpSpeed e
      else enemyPlatformHop jumpSpeed e rest
  end.

Definition enemyJumping (jumpSpeed : Q) (e : Enemy) : M Enemy :=
  let* g := getG in
  let dy := Y (Player.Pos (Game.player g)) - Y (Enemy.Pos e) in
  let* c := (if Enemy.OnGround e && (dy <? -10.0) then jumpCooledDown e else ret false) in
  if c then enemyJump jumpSpeed e
  else enemyPlatformHop jumpSpeed e (Game.platforms g).

Definition enemyOverlapsPlatform (e : Enemy) (platform : Platform) : bool :=
  overlaps (X (Enemy.Pos e)) (Y (Enemy.Pos e))
    (float64 (Enemy.Width e)) (float64 (Enemy.Height e))
    (Platform.X platform) (Platform.Y platform)
    (Platform.Width platform) (Platform.Height platform).

Fixpoint enemyPlatformCollisions (e : Enemy) (platforms : list Platform)
  : Enemy * bool :=
  match platforms with
  | [] => (e, false)
  | platform :: rest =>
      if enemyOverlapsPlatform e platform
         && (Y (Enemy.Vel e) >? 0)
         && (Y (Enemy.Pos e) <? Platform.Y platform)
      then
        let platformTopY := Platform.Y platform - float64 (Enemy.Height e) in
        let e := Enemy.setPosY platformTopY e in
        let e := Enemy.setVelY 0 e in
        (Enemy.setOnGround true e, true)
      else enemyPlatformCollisions e rest
  end.

(** Gravity, platforms, ground and the off-screen test: the second half of
    the loop body. *)
Definition enemyPhysics (deltaTime gravity groundY : Q) (g : Game) (e : Enemy)
  : Enemy :=
  let e :=
    if negb (Enemy.OnGround e)
    then Enemy.setVelY (Y (Enemy.Vel e) + gravity * deltaTime) e
    else e in
  let e := Enemy.setPosY (Y (Enemy.Pos e) + Y (Enemy.Vel e) * deltaTime) e in
  let '(e, onPlatform) := enemyPlatformCollisions e (Game.platforms g) in
  let e :=
    if negb onPlatform then
      if Y (Enemy.Pos e) >=? groundY then
        let e := Enemy.setPosY groundY e in
        if Y (Enemy.Vel e) >? 0
        then Enemy.setOnGround true (Enemy.setVelY 0 e)
        else e
      else Enemy.setOnGround false e
    else e in
  if (X (Enemy.Pos e) <? - float64 EnemyWidth)
     || (X (Enemy.Pos e) >? float64 (Game.width g))
  then Enemy.setActive false e
  else e.

(** The body of the loop over the enemies. *)
Definition stepEnemy (deltaTime : Q) (e : Enemy) : M Enemy :=
  let baseSpeed := 20.0 in
  let gravity := 300.0 in
  let jumpSpeed := -85.0 in
  if negb (Enemy.Active e) then ret e
  else
    let* g := getG in
    let groundY := float64 (int_sub (Game.groundY g) EnemyHeight) in
    let speed := baseSpeed in
    let minDistance := 30.0 in
    let* e :=
      (if Game.gameOver g then ret (walkOffScreen deltaTime speed (Game.width g) e)
       else
         let e := approachPlayer deltaTime speed minDistance (Game.player g) e in
         let* e := enemyShooting e in
         enemyJumping jumpSpeed e) in
    ret (enemyPhysics deltaTime gravity groundY g e).

Definition newEnemy (x : Q) (groundY : Z) (facing : Z) (canShoot : bool) : Enemy :=
  {| Enemy.Pos := mkVec2 x (float64 (int_sub groundY EnemyHeight));
     Enemy.Vel := mkVec2 0 0;
     Enemy.Facing := facing;
     Enemy.Width := EnemyWidth;
     Enemy.Height := EnemyHeight;
     Enemy.Active := true;
     Enemy.CanShoot := canShoot;
     Enemy.LastShot := zeroTime;
     Enemy.NextShotDelay := 0;
     Enemy.OnGround := true;
     Enemy.JumpCooldown := zeroTime |}.

(** The tail of [updateEnemies]: the random spawn of a new enemy. *)
Definition spawnEnemy : M unit :=
  let* g := getG in
  let baseSpawnRate := 0.008 in
  let spawnRateIncrease :=
    float64 (int_div (Game.enemiesDefeated g) 5) * 0.005 in
  let spawnRate := baseSpawnRate + spawnRateIncrease in
  let spawnRate := if spawnRate >? 0.05 then 0.05 else spawnRate in
  let* r := randFloat64 in
  if r <? spawnRate then
    let canShoot := (int_rem (Game.enemySpawnCounter g) 2 =? 1)%Z in
    modifyG (Game.setEnemySpawnCounter (int_add (Game.enemySpawnCounter g) 1));;
    let* side := randFloat64 in
    let e :=
      if side <? 0.5
      then newEnemy (- float64 EnemyWidth) (Game.groundY g) 1 canShoot
      else newEnemy (float64 (Game.width g)) (Game.groundY g) (-1) canShoot in
    modifyG (fun g => Game.setEnemies (Game.enemies g ++ [e]) g)
  else ret tt.

Definition updateEnemies (deltaTime : Q) : M unit :=
  let* es := gets Game.enemies in
  let* es := forEachM (stepEnemy deltaTime) es in
  modifyG (Game.setEnemies es);;
  modifyG (fun g => Game.setEnemies (List.filter Enemy.Active (Game.enemies g)) g);;
  let* g := getG in
  if Game.gameOver g then ret tt
  else spawnEnemy.

(** *** Stains: [isTileUnderPlatform], [markGroundRed], [markPlatformRed] *)

Definition isTileUnderPlatform (g : Game) (x : Z) : bool :=
  existsb
    (fun platform =>
       let startX := int (Platform.X platform) in
       let endX := int (Platform.X platform + Platform.Width platform) in
       (startX <=? x)%Z && (x <? endX)%Z)
    (Game.platforms g).

Definition markGroundRed (tileX enemyID : Z) (wasOnPlatform : bool) : M unit :=
  let* g := getG in
  if (0 <=? tileX)%Z && (tileX <? Game.width g)%Z then
    if negb wasOnPlatform || negb (isTileUnderPlatform g tileX) then
      modifyG (fun g =>
        Game.setRedGroundTiles (<[tileX := enemyID]> (Game.redGroundTiles g)) g)
    else ret tt
  else ret tt.

Definition markPlatformRed (platformIndex tileX enemyID : Z) : M unit :=
  let baseKey := int_mul platformIndex 10000 in
  let key := int_add baseKey tileX in
  modifyG (fun g =>
    Game.setRedPlatformTiles (<[key := enemyID]> (Game.redPlatformTiles g)) g).

(** *** [emitBloodFromParticle] *)

(** One iteration of the emission loop. *)
Definition emitOneBlood (p : DeathParticle) (impact : bool) : M unit :=
  let vx := X (DeathParticle.Vel p) in
  let vy := Y (DeathParticle.Vel p) in
  let* '(angle, speed) :=
    (if impact then
       let* impactAngle := Atan2 vy vx in
       let* r := randFloat64 in
       let angle := impactAngle + (r - 0.5) * mathPi * 0.8 in
       let* impactSpeed := Sqrt (vx * vx + vy * vy) in
       let* r := randFloat64 in
       ret (angle, 20.0 + impactSpeed * 0.3 + r * 30.0)
     else
       let* angle :=
         (if (mathAbs vx >? 0.1) || (mathAbs vy >? 0.1) then
            let* movementAngle := Atan2 vy vx in
            let* r := randFloat64 in
            ret (movementAngle + mathPi + (r - 0.5) * mathPi * 0.6)
          else
            let* r := randFloat64 in
            ret (r * 2 * mathPi)) in
       let* r := randFloat64 in
       ret (angle, 10.0 + r * 25.0)) in
  let* c := Cos angle in
  let velX := c * speed in
  let* s := Sin angle in
  let* r := randFloat64 in
  let velY := s * speed - 5.0 - r * 10.0 in
  let* r := randFloat64 in
  let lifetime := if impact then 0.4 + r * 0.6 else 0.3 + r * 0.5 in
  let char := "."%char in
  let* r := randFloat64 in
  let offsetX := (r - 0.5) * 2.0 in
  let* r := randFloat64 in
  let offsetY := (r - 0.5) * 2.0 in
  modifyG (fun g =>
    Game.setBloodParticles
      (Game.bloodParticles g ++
       [{| BloodParticle.Pos :=
             mkVec2 (X (DeathParticle.Pos p) + offsetX)
                    (Y (DeathParticle.Pos p) + offsetY);
           BloodParticle.Vel := mkVec2 velX velY;
           BloodParticle.Char := char;
           BloodParticle.Active := true;
           BloodParticle.Lifetime := lifetime;
           BloodParticle.EnemyID := DeathParticle.EnemyID p |}]) g).

Definition emitBloodFromParticle (p : DeathParticle) (intensity : Q) (impact : bool)
  : M unit :=
  let* numBlood :=
    (if impact then
       let* k := randIntn 4 in
       let numBlood := int_add 3 k in
       ret (int (float64 numBlood * (0.5 + intensity * 0.5)))
     else
       let* k := randIntn 2 in
       let numBlood := int_add 1 k in
       if intensity >? 0.5 then
         let* k := randIntn 2 in
         ret (int_add 1 k)
       else ret numBlood) in
  repeatM (Z.to_nat numBlood) (emitOneBlood p impact).

(** *** [createPlayerDeathParticles], [createDeathParticles],
        [createDeathParticlesAt], [createDecap] *)

Definition SpritePiece : Type := ascii * Z * Z.

Definition playerPieces (facing : Z) : list SpritePiece :=
  if (facing =? 1)%Z then
    [("~"%char, 0, 0); ("0"%char, 1, 0); ("("%char, 0, 1); ("|"%char, 1, 1);
     ("\"%char, 2, 1); ("/"%char, 0, 2); (")"%char, 2, 2)]%Z
  else
    [("0"%char, 1, 0); ("~"%char, 2, 0); ("/"%char, 0, 1); ("|"%char, 1, 1);
     (")"%char, 2, 1); ("("%char, 0, 2); ("\"%char, 2, 2)]%Z.

Definition enemyPieces (facing : Z) : list SpritePiece :=
  if (facing =? 1)%Z then
    [("O"%char, 1, 0); ("("%char, 0, 1); ("|"%char, 1, 1);
     ("\"%char, 2, 1); ("/"%char, 0, 2); (")"%char, 2, 2)]%Z
  else
    [("O"%char, 1, 0); ("/"%char, 0, 1); ("|"%char, 1, 1);
     (")"%char, 2, 1); ("("%char, 0, 2); ("\"%char, 2, 2)]%Z.

(** The roll parameters of a head piece: a 5% chance to roll. *)
Definition rollOfHead (isHead : bool) : M (bool * Q * Q) :=
  if isHead then
    let* r := randFloat64 in
    if r <? 0.05 then
      let* rd := randFloat64 in
      let rollDistance := 20.0 + rd * 30.0 in
      let* rs := randFloat64 in
      let rollSpeed := 40.0 + rs * 20.0 in
      let* side := randFloat64 in
      ret (true, rollDistance, if side <? 0.5 then - rollSpeed else rollSpeed)
    else ret (false, 0, 0)
  else ret (false, 0, 0).

(** The launch velocity and spin that every spawned piece draws. *)
Definition launch : M (Q * Q * Q) :=
  let* r := randFloat64 in
  let angle := r * 2 * 3.14159 in
  let* r := randFloat64 in
  let speed := 20.0 + r * 30.0 in
  let* c := Cos angle in
  let velX := c * speed in
  let* r := randFloat64 in
  let* s := Sin angle in
  let velY := -15.0 - r * 25.0 + s * speed * 0.5 in
  let* r := randFloat64 in
  let angularVel := (r - 0.5) * 360.0 in
  ret (velX, velY, angularVel).

(** Appends [particle] and emits its initial impact burst. *)
Definition addDeathParticle (particle : DeathParticle) : M unit :=
  modifyG (fun g => Game.setDeathParticles (Game.deathParticles g ++ [particle]) g);;
  let velX := X (DeathParticle.Vel particle) in
  let velY := Y (DeathParticle.Vel particle) in
  let* initialSpeed := Sqrt (velX * velX + velY * velY) in
  let intensity := mathMin (initialSpeed / 80.0) 1.0 in
  emitBloodFromParticle particle intensity true.

(** The body of the loop over the sprite pieces; the three burst routines
    repeat it with their own head glyph, position, id and platform flag. *)
Definition spawnPiece (head : ascii) (pos : Vec2) (enemyID : Z) (wasOnPlatform : bool)
  (piece : SpritePiece) : M unit :=
  let '(char, x, y) := piece in
  let* r := randFloat64 in
  let isRed := r <? 0.2 in
  let* r := randFloat64 in
  let fallsThrough := r <? 0.3 in
  let isHead := Ascii.eqb char head in
  let* '(isRolling, rollDistance, rollSpeed) := rollOfHead isHead in
  let* '(velX, velY, angularVel) := launch in
  let* now := timeNow in
  let particle :=
    {| DeathParticle.Pos := mkVec2 (X pos + float64 x) (Y pos + float64 y);
       DeathParticle.Vel := mkVec2 velX velY;
       DeathParticle.Char := char;
       DeathParticle.OnGround := false;
       DeathParticle.Bounces := 0;
       DeathParticle.GroundTime := zeroTime;
       DeathParticle.Active := true;
       DeathParticle.EnemyID := enemyID;
       DeathParticle.IsRed := isRed;
       DeathParticle.AngularVel := angularVel;
       DeathParticle.Angle := 0;
       DeathParticle.FallsThrough := fallsThrough;
       DeathParticle.IsHead := isHead;
       DeathParticle.IsRolling := isRolling;
       DeathParticle.RollDistance := rollDistance;
       DeathParticle.RollSpeed := rollSpeed;
       DeathParticle.BouncedFromPlatform := false;
       DeathParticle.WasOnPlatform := wasOnPlatform;
       DeathParticle.HasSplattedFromPlatform := false;
       DeathParticle.LastBloodEmit := now;
       DeathParticle.HasHitGround := false |} in
  addDeathParticle particle.

Fixpoint forPieces (body : SpritePiece -> M unit) (pieces : list SpritePiece)
  : M unit :=
  match pieces with
  | [] => ret tt
  | piece :: rest => body piece;; forPieces body rest
  end.

Definition createPlayerDeathParticles : M unit :=
  let enemyID := 0%Z in
  let* g := getG in
  let pl := Game.player g in
  forPieces (spawnPiece "0"%char (Player.Pos pl) enemyID false)
    (playerPieces (Player.Facing pl)).

(** Whether the enemy stands on top of some platform. *)
Definition standsOnPlatform (g : Game) (e : Enemy) : bool :=
  existsb
    (fun platform =>
       let enemyBottomY := Y (Enemy.Pos e) + float64 (Enemy.Height e) in
       (X (Enemy.Pos e) <? Platform.X platform + Platform.Width platform)
       && (X (Enemy.Pos e) + float64 (Enemy.Width e) >? Platform.X platform)
       && (mathAbs (enemyBottomY - Platform.Y platform) <? 2.0))
    (Game.platforms g).

Definition createDeathParticlesAt (pos : Vec2) (facing enemyID : Z)
  (wasOnPlatform : bool) : M unit :=
  forPieces (spawnPiece "O"%char pos enemyID wasOnPlatform) (enemyPieces facing).

Definition createDecap (e : Enemy) : M unit :=
  let* g := getG in
  let enemyID := Game.nextEnemyID g in
  modifyG (Game.setNextEnemyID (int_add enemyID 1));;
  let wasOnPlatform := standsOnPlatform g e in
  let pieceX := 1%Z in
  let pieceY := 0%Z in
  let isHead := true in
  let isRolling := true in
  let* rd := randFloat64 in
  let rollDistance := 20.0 + rd * 30.0 in
  let* rs := randFloat64 in
  let rollSpeed := 40.0 + rs * 20.0 in
  let* side := randFloat64 in
  let rollSpeed := if side <? 0.5 then - rollSpeed else rollSpeed in
  let* '(velX, velY, angularVel) := launch in
  let* now := timeNow in
  let head :=
    {| DeathParticle.Pos :=
         mkVec2 (X (Enemy.Pos e) + float64 pieceX) (Y (Enemy.Pos e) + float64 pieceY);
       DeathParticle.Vel := mkVec2 velX velY;
       DeathParticle.Char := "O"%char;
       DeathParticle.OnGround := false;
       DeathParticle.Bounces := 0;
       DeathParticle.GroundTime := zeroTime;
       DeathParticle.Active := true;
       DeathParticle.EnemyID := enemyID;
       DeathParticle.IsRed := true;
       DeathParticle.AngularVel := angularVel;
       DeathParticle.Angle := 0;
       DeathParticle.FallsThrough := false;
       DeathParticle.IsHead := isHead;
       DeathParticle.IsRolling := isRolling;
       DeathParticle.RollDistance := rollDistance;
       DeathParticle.RollSpeed := rollSpeed;
       DeathParticle.BouncedFromPlatform := false;
       DeathParticle.WasOnPlatform := false;
       DeathParticle.HasSplattedFromPlatform := false;
       DeathParticle.LastBloodEmit := now;
       DeathParticle.HasHitGround := false |} in
  addDeathParticle head;;
  let* k := randIntn 2000 in
  let duration := dur_add (dur_mul 2 Second) (dur_mul k Millisecond) in
  let* side := randFloat64 in
  let moveDir := if side <? 0.5 then (-1)%Z else 1%Z in
  let* t1 := timeNow in
  let* t2 := timeNow in
  let* k := randIntn 600 in
  let* t3 := timeNow in
  let corp :=
    {| Corpse.Pos := mkVec2 (X (Enemy.Pos e)) (Y (Enemy.Pos e));
       Corpse.Vel := Enemy.Vel e;
       Corpse.Facing := Enemy.Facing e;
       Corpse.OnGround := false;
       Corpse.Active := true;
       Corpse.EnemyID := enemyID;
       Corpse.EndTime := Add t1 duration;
       Corpse.MoveDir := moveDir;
       Corpse.LastDirChange := t2;
       Corpse.DirDuration := dur_mul (int_add 200 k) Millisecond;
       Corpse.LastBloodEmit := t3;
       Corpse.WasOnPlatform := wasOnPlatform |} in
  modifyG (fun g => Game.setCorpses (Game.corpses g ++ [corp]) g).

Definition createDeathParticles (e : Enemy) : M unit :=
  let* r := randFloat64 in
  if r <? 0.1 then createDecap e
  else
    let* g := getG in
    let enemyID := Game.nextEnemyID g in
    modifyG (Game.setNextEnemyID (int_add enemyID 1));;
    let wasOnPlatform := standsOnPlatform g e in
    forPieces (spawnPiece "O"%char (Enemy.Pos e) enemyID wasOnPlatform)
      (enemyPieces (Enemy.Facing e)).

(** *** [updateCorpses] *)

Definition corpseOverPlatform (c : Corpse) (platform : Platform) : bool :=
  let particleBottomY := Y (Corpse.Pos c) + float64 EnemyHeight in
  (X (Corpse.Pos c) <? Platform.X platform + Platform.Width platform)
  && (X (Corpse.Pos c) + float64 EnemyWidth >? Platform.X platform)
  && (particleBottomY >=? Platform.Y platform)
  && (particleBottomY <=? Platform.Y platform + Platform.Height platform + 1.0).

Fixpoint corpsePlatformCollisions (c : Corpse) (platforms : list Platform)
  : Corpse * bool :=
  match platforms with
  | [] => (c, false)
  | platform :: rest =>
      if corpseOverPlatform c platform then
        let c :=
          if (Y (Corpse.Vel c) >? 0) && (Y (Corpse.Pos c) <? Platform.Y platform)
          then
            let platformTopY := Platform.Y platform - float64 EnemyHeight in
            let c := Corpse.setPosY platformTopY c in
            let c := Corpse.setVelY 0 c in
            let c := Corpse.setOnGround true c in
            Corpse.setWasOnPlatform true c
          else c in
        (c, true)
      else corpsePlatformCollisions c rest
  end.

(** Direction change, movement, gravity and collisions of a corpse. *)
Definition corpseWander (deltaTime speed gravity groundY : Q) (now : Time) (g : Game)
  (c : Corpse) : M Corpse :=
  let* c :=
    (if (Corpse.DirDuration c <=? Sub now (Corpse.LastDirChange c))%Z then
       let c := Corpse.setLastDirChange now c in
       let* k := randIntn 600 in
       let c := Corpse.setDirDuration (dur_mul (int_add 200 k) Millisecond) c in
       let* r := randFloat64 in
       ret (if r <? 0.5 then Corpse.setMoveDir (int_neg (Corpse.MoveDir c)) c else c)
     else ret c) in
  let c :=
    Corpse.setPosX
      (X (Corpse.Pos c) + float64 (Corpse.MoveDir c) * speed * deltaTime) c in
  let c := Corpse.setVelY (Y (Corpse.Vel c) + gravity * deltaTime) c in
  let c := Corpse.setPosY (Y (Corpse.Pos c) + Y (Corpse.Vel c) * deltaTime) c in
  let '(c, onPlatform) := corpsePlatformCollisions c (Game.platforms g) in
  let c :=
    if negb onPlatform then
      if Y (Corpse.Pos c) >=? groundY then
        let c := Corpse.setPosY groundY c in
        let c := if Y (Corpse.Vel c) >? 0 then Corpse.setVelY 0 c else c in
        Corpse.setOnGround true c
      else Corpse.setOnGround false c
    else c in
  let c :=
    if X (Corpse.Pos c) <? 0
    then Corpse.setMoveDir 1 (Corpse.setPosX 0 c)
    else c in
  let c :=
    if X (Corpse.Pos c) >? float64 (int_sub (Game.width g) EnemyWidth)
    then Corpse.setMoveDir (-1)
           (Corpse.setPosX (float64 (int_sub (Game.width g) EnemyWidth)) c)
    else c in
  ret c.

(** The blood a moving corpse squirts every 80 ms. *)
Definition corpseBleed (speed : Q) (now : Time) (c : Corpse) : M Corpse :=
  if (dur_mul 80 Millisecond <=? Sub now (Corpse.LastBloodEmit c))%Z then
    let* r := randFloat64 in
    let tmp :=
      {| DeathParticle.Pos := mkVec2 (X (Corpse.Pos c) + 1.0) (Y (Corpse.Pos c) + 1.0);
         DeathParticle.Vel :=
           mkVec2 (float64 (Corpse.MoveDir c) * speed) (-10.0 - r * 20.0);
         DeathParticle.Char := zero;
         DeathParticle.OnGround := false;
         DeathParticle.Bounces := 0;
         DeathParticle.GroundTime := zeroTime;
         DeathParticle.Active := false;
         DeathParticle.EnemyID := Corpse.EnemyID c;
         DeathParticle.IsRed := false;
         DeathParticle.AngularVel := 0;
         DeathParticle.Angle := 0;
         DeathParticle.FallsThrough := false;
         DeathParticle.IsHead := false;
         DeathParticle.IsRolling := false;
         DeathParticle.RollDistance := 0;
         DeathParticle.RollSpeed := 0;
         DeathParticle.BouncedFromPlatform := false;
         DeathParticle.WasOnPlatform := false;
         DeathParticle.HasSplattedFromPlatform := false;
         DeathParticle.LastBloodEmit := zeroTime;
         DeathParticle.HasHitGround := false |} in
    let intensity :=
      mathMin (mathAbs (float64 (Corpse.MoveDir c)) * speed / 80.0 * 1.4 + 0.15) 1.0 in
    emitBloodFromParticle tmp intensity false;;
    ret (Corpse.setLastBloodEmit now c)
  else ret c.

(** The expiry of a corpse: it breaks apart into a regular burst. *)
Definition corpseExpire (now : Time) (c : Corpse) : M Corpse :=
  if After now (Corpse.EndTime c) then
    createDeathParticlesAt (Corpse.Pos c) (Corpse.Facing c) (Corpse.EnemyID c)
      (Corpse.WasOnPlatform c);;
    ret (Corpse.setActive false c)
  else ret c.

(** The body of the loop over the corpses. *)
Definition stepCorpse (deltaTime : Q) (now : Time) (c : Corpse) : M Corpse :=
  let gravity := 300.0 in
  if negb (Corpse.Active c) then ret c
  else
    let* g := getG in
    let groundY := float64 (int_sub (Game.groundY g) EnemyHeight) in
    let speed := 25.0 in
    let* c := corpseWander deltaTime speed gravity groundY now g c in
    let* c := corpseBleed speed now c in
    corpseExpire now c.

Definition updateCorpses (deltaTime : Q) : M unit :=
  let* cs := gets Game.corpses in
  if (length cs =? 0)%nat then ret tt
  else
    let* now := timeNow in
    let* cs := forEachM (stepCorpse deltaTime now) cs in
    modifyG (Game.setCorpses cs).

(** *** [updateDeathParticles] *)

(** [p.IsHead && p.IsRolling && p.RollDistance > 0]. *)
Definition rollingHead (p : DeathParticle) : bool :=
  DeathParticle.IsHead p && DeathParticle.IsRolling p
  && (DeathParticle.RollDistance p >? 0).

(** [impactSpeed := math.Abs(p.Vel.Y); intensity := math.Min(impactSpeed/60.0, 1.0);
    g.emitBloodFromParticle(p, intensity, true)]. *)
Definition emitImpact (p : DeathParticle) : M unit :=
  let impactSpeed := mathAbs (Y (DeathParticle.Vel p)) in
  let intensity := mathMin (impactSpeed / 60.0) 1.0 in
  emitBloodFromParticle p intensity true.

(** Continuous emission from a piece in the air. *)
Definition trailBlood (p : DeathParticle) : M DeathParticle :=
  let vx := X (DeathParticle.Vel p) in
  let vy := Y (DeathParticle.Vel p) in
  let isInAir :=
    negb (DeathParticle.OnGround p)
    && ((mathAbs vx >? 0.1) || (mathAbs vy >? 0.1)) in
  if isInAir then
    let* now := timeNow in
    let* speed := Sqrt (vx * vx + vy * vy) in
    let emitInterval :=
      dur_sub (dur_mul 150 Millisecond)
              (dur_mul (DurationOf (speed * 0.8)) Millisecond) in
    let emitInterval :=
      if (emitInterval <? dur_mul 30 Millisecond)%Z
      then dur_mul 30 Millisecond else emitInterval in
    if (emitInterval <=? Sub now (DeathParticle.LastBloodEmit p))%Z then
      let intensity := mathMin (speed / 100.0) 0.7 in
      emitBloodFromParticle p intensity false;;
      ret (DeathParticle.setLastBloodEmit now p)
    else ret p
  else ret p.

(** Gravity and the position update. *)
Definition integrate (deltaTime gravity : Q) (p : DeathParticle) : DeathParticle :=
  let p :=
    if negb (DeathParticle.OnGround p && (Y (DeathParticle.Vel p) =? 0))
    then DeathParticle.setVelY (Y (DeathParticle.Vel p) + gravity * deltaTime) p
    else p in
  let p :=
    DeathParticle.setPosX
      (X (DeathParticle.Pos p) + X (DeathParticle.Vel p) * deltaTime) p in
  DeathParticle.setPosY
    (Y (DeathParticle.Pos p) + Y (DeathParticle.Vel p) * deltaTime) p.

Definition particleOverPlatform (p : DeathParticle) (platform : Platform) : bool :=
  let particleBottomY := Y (DeathParticle.Pos p) + 1.0 in
  (X (DeathParticle.Pos p) <? Platform.X platform + Platform.Width platform)
  && (X (DeathParticle.Pos p) + 1.0 >? Platform.X platform)
  && (particleBottomY >=? Platform.Y platform)
  && (particleBottomY <=? Platform.Y platform + Platform.Height platform + 1.0).

(** What happens to a piece that is over [platform]. *)
Definition onPlatformTop (bounceDamping : Q) (platform : Platform) (p : DeathParticle)
  : M DeathParticle :=
  if (Y (DeathParticle.Vel p) >? 0)
     && (Y (DeathParticle.Pos p) <? Platform.Y platform)
  then
    let platformTopY := Platform.Y platform - 1.0 in
    let p := DeathParticle.setPosY platformTopY p in
    if (DeathParticle.Bounces p <? 2)%Z && (Y (DeathParticle.Vel p) >? 20.0) then
      let p := DeathParticle.setBounces (int_add (DeathParticle.Bounces p) 1) p in
      let p := DeathParticle.setVelY (- Y (DeathParticle.Vel p) * bounceDamping) p in
      let p := DeathParticle.setVelX (X (DeathParticle.Vel p) * 0.8) p in
      let p := DeathParticle.setOnGround false p in
      let p := DeathParticle.setBouncedFromPlatform true p in
      emitImpact p;;
      ret p
    else
      let p := DeathParticle.setVelY 0 p in
      if negb (DeathParticle.OnGround p) then
        let p := DeathParticle.setOnGround true p in
        let* now := timeNow in
        let p := DeathParticle.setGroundTime now p in
        let p := DeathParticle.setVelX 0 p in
        ret (DeathParticle.setWasOnPlatform true p)
      else ret p
  else if (Y (DeathParticle.Vel p) =? 0)
          && (Y (DeathParticle.Pos p) <=? Platform.Y platform)
  then
    let platformTopY := Platform.Y platform - 1.0 in
    let p :=
      if negb (Y (DeathParticle.Pos p) =? platformTopY)
      then DeathParticle.setPosY platformTopY p else p in
    if negb (DeathParticle.OnGround p) then
      let p := DeathParticle.setOnGround true p in
      let* p :=
        (if IsZero (DeathParticle.GroundTime p)
         then let* now := timeNow in ret (DeathParticle.setGroundTime now p)
         else ret p) in
      ret (DeathParticle.setWasOnPlatform true p)
    else ret p
  else ret p.

Fixpoint particlePlatformCollisions (bounceDamping : Q) (p : DeathParticle)
  (platforms : list Platform) : M (DeathParticle * bool) :=
  match platforms with
  | [] => ret (p, false)
  | platform :: rest =>
      if particleOverPlatform p platform then
        let* p := onPlatformTop bounceDamping platform p in
        ret (p, true)
      else particlePlatformCollisions bounceDamping p rest
  end.

(** [p.EnemyID != 0 && !(rolling) && time.Since(p.GroundTime) >= 3*time.Second]. *)
Definition dwellExpired (p : DeathParticle) : M bool :=
  if negb (DeathParticle.EnemyID p =? 0)%Z && negb (rollingHead p) then
    let* since := timeSince (DeathParticle.GroundTime p) in
    ret (dur_mul 3 Second <=? since)%Z
  else ret false.

(** A settled piece on a platform stops and, in time, disappears. *)
Definition restOnPlatform (onPlatform : bool) (p : DeathParticle) : M DeathParticle :=
  if onPlatform && DeathParticle.OnGround p && (Y (DeathParticle.Vel p) =? 0) then
    let p := if negb (rollingHead p) then DeathParticle.setVelX 0 p else p in
    let* expired := dwellExpired p in
    ret (if expired then DeathParticle.setActive false p else p)
  else ret p.

(** The bounce off the ground. *)
Definition groundBounce (bounceDamping : Q) (p : DeathParticle) : M DeathParticle :=
  let wasBouncing := (0 <? DeathParticle.Bounces p)%Z in
  let p := DeathParticle.setBounces (int_add (DeathParticle.Bounces p) 1) p in
  let p := DeathParticle.setVelY (- Y (DeathParticle.Vel p) * bounceDamping) p in
  let p := DeathParticle.setVelX (X (DeathParticle.Vel p) * 0.8) p in
  let p := DeathParticle.setOnGround false p in
  if DeathParticle.BouncedFromPlatform p then
    emitImpact p;;
    ret (DeathParticle.setBouncedFromPlatform false p)
  else
    if wasBouncing || (DeathParticle.Bounces p =? 1)%Z
    then emitImpact p;; ret p
    else ret p.

(** Too slow or too many bounces: the piece settles on the ground. *)
Definition groundSettle (p : DeathParticle) : M DeathParticle :=
  let p := DeathParticle.setVelY 0 p in
  if negb (DeathParticle.OnGround p) then
    let* p :=
      (if DeathParticle.BouncedFromPlatform p
       then emitImpact p;; ret (DeathParticle.setBouncedFromPlatform false p)
       else ret p) in
    let p := DeathParticle.setOnGround true p in
    let* now := timeNow in
    let p := DeathParticle.setGroundTime now p in
    ret (if rollingHead p
         then DeathParticle.setVelX (DeathParticle.RollSpeed p) p
         else DeathParticle.setVelX 0 p)
  else
    ret (if negb (rollingHead p) then DeathParticle.setVelX 0 p else p).

(** A piece at rest on the ground. *)
Definition groundRest (p : DeathParticle) : M DeathParticle :=
  let* p :=
    (if negb (DeathParticle.OnGround p) then
       let p := DeathParticle.setOnGround true p in
       let* now := timeNow in
       let p := DeathParticle.setGroundTime now p in
       ret (if rollingHead p
            then DeathParticle.setVelX (DeathParticle.RollSpeed p) p
            else p)
     else ret p) in
  let p := if negb (rollingHead p) then DeathParticle.setVelX 0 p else p in
  let* expired := dwellExpired p in
  ret (if expired then DeathParticle.setActive false p else p).

(** The normal ground behaviour: clamp, first-impact burst, then bounce,
    settle or rest. *)
Definition groundNormal (groundY bounceDamping : Q) (p : DeathParticle)
  : M DeathParticle :=
  let p := DeathParticle.setPosY groundY p in
  let* p :=
    (if negb (DeathParticle.HasHitGround p) && (Y (DeathParticle.Vel p) >? 0) then
       emitImpact p;;
       let p := DeathParticle.setHasHitGround true p in
       let* now := timeNow in
       ret (DeathParticle.setLastBloodEmit now p)
     else ret p) in
  if Y (DeathParticle.Vel p) >? 0 then
    if (DeathParticle.Bounces p <? 2)%Z && (Y (DeathParticle.Vel p) >? 20.0)
    then groundBounce bounceDamping p
    else groundSettle p
  else if Y (DeathParticle.Vel p) =? 0 then groundRest p
  else ret p.

(** The ground collision, checked only when the piece is on no platform. *)
Definition groundCollision (groundY bounceDamping : Q) (onPlatform : bool)
  (p : DeathParticle) : M DeathParticle :=
  if negb onPlatform && (Y (DeathParticle.Pos p) >=? groundY) then
    if DeathParticle.FallsThrough p
       && (Y (DeathParticle.Vel p) >? 0)
       && (DeathParticle.Bounces p =? 0)%Z
    then
      emitImpact p;;
      ret (DeathParticle.setBounces 999 p)
    else if negb (DeathParticle.FallsThrough p)
            || (DeathParticle.Bounces p <? 999)%Z
    then groundNormal groundY bounceDamping p
    else ret p
  else ret p.

(** Rolling of a settled head piece, and the stop of any other settled
    piece. *)
Definition rolling (deltaTime : Q) (p : DeathParticle) : M DeathParticle :=
  if DeathParticle.OnGround p && (Y (DeathParticle.Vel p) =? 0) && rollingHead p
  then
    let rollDelta := mathAbs (X (DeathParticle.Vel p)) * deltaTime in
    let p := DeathParticle.setRollDistance (DeathParticle.RollDistance p - rollDelta) p in
    let currentSpeed := mathAbs (X (DeathParticle.Vel p)) in
    let* p :=
      (if currentSpeed >? 0.1 then
         let* now := timeNow in
         let emitInterval :=
           dur_sub (dur_mul 200 Millisecond)
                   (dur_mul (DurationOf (currentSpeed * 1.5)) Millisecond) in
         let emitInterval :=
           if (emitInterval <? dur_mul 50 Millisecond)%Z
           then dur_mul 50 Millisecond else emitInterval in
         if (emitInterval <=? Sub now (DeathParticle.LastBloodEmit p))%Z then
           let intensity := mathMin (currentSpeed / 60.0) 0.6 in
           emitBloodFromParticle p intensity false;;
           ret (DeathParticle.setLastBloodEmit now p)
         else ret p
       else ret p) in
    let p := DeathParticle.setVelX (X (DeathParticle.Vel p) * 0.95) p in
    if (DeathParticle.RollDistance p <=? 0)
       || (mathAbs (X (DeathParticle.Vel p)) <? 0.5)
    then
      let p := DeathParticle.setVelX 0 p in
      let p := DeathParticle.setIsRolling false p in
      let p := DeathParticle.setRollDistance 0 p in
      if negb (DeathParticle.EnemyID p =? 0)%Z
      then let* now := timeNow in ret (DeathParticle.setGroundTime now p)
      else ret p
    else ret p
  else if DeathParticle.OnGround p && (Y (DeathParticle.Vel p) =? 0)
          && negb (rollingHead p)
  then ret (DeathParticle.setVelY 0 (DeathParticle.setVelX 0 p))
  else ret p.

(** The body of the loop over the death particles. *)
Definition stepDeathParticle (deltaTime : Q) (p : DeathParticle) : M DeathParticle :=
  let gravity := 300.0 in
  let bounceDamping := 0.4 in
  if negb (DeathParticle.Active p) then ret p
  else
    let* g := getG in
    let groundY := float64 (int_sub (Game.groundY g) 1) in
    let* p := trailBlood p in
    let p := integrate deltaTime gravity p in
    let* '(p, onPlatform) :=
      particlePlatformCollisions bounceDamping p (Game.platforms g) in
    let* p := restOnPlatform onPlatform p in
    let* p := groundCollision groundY bounceDamping onPlatform p in
    let p :=
      if Y (DeathParticle.Pos p) >? float64 (Game.height g)
      then DeathParticle.setActive false p else p in
    let* p := rolling deltaTime p in
    let p :=
      if (X (DeathParticle.Pos p) <? -10)
         || (X (DeathParticle.Pos p) >? float64 (Game.width g) + 10)
      then DeathParticle.setActive false p else p in
    ret p.

Definition updateDeathParticles (deltaTime : Q) : M unit :=
  updateCorpses deltaTime;;
  let* g := getG in
  when (Game.gameOver g)
    (modifyG (fun g =>
       Game.setDeathParticles
         (List.filter (fun p => (DeathParticle.EnemyID p =? 0)%Z)
            (Game.deathParticles g)) g));;
  let* ps := gets Game.deathParticles in
  let* ps := forEachM (stepDeathParticle deltaTime) ps in
  modifyG (Game.setDeathParticles ps);;
  modifyG (fun g =>
    Game.setDeathParticles
      (List.filter DeathParticle.Active (Game.deathParticles g)) g).

(** *** [updateBloodParticles] *)

Definition bloodOverlapsPlatform (p : BloodParticle) (platform : Platform) : bool :=
  overlaps (X (BloodParticle.Pos p)) (Y (BloodParticle.Pos p)) 1.0 1.0
    (Platform.X platform) (Platform.Y platform)
    (Platform.Width platform) (Platform.Height platform).

(** The loop over the platforms, [platformIndex] being the index of the
    head of [platforms]. *)
Fixpoint bloodPlatformCollisions (p : BloodParticle) (platformIndex : Z)
  (platforms : list Platform) : M (BloodParticle * bool) :=
  match platforms with
  | [] => ret (p, false)
  | platform :: rest =>
      if bloodOverlapsPlatform p platform then
        let* g := getG in
        let tileX := int (X (BloodParticle.Pos p)) in
        when ((0 <=? tileX)%Z && (tileX <? Game.width g)%Z)
          (markPlatformRed platformIndex tileX (BloodParticle.EnemyID p));;
        ret (BloodParticle.setActive false p, true)
      else bloodPlatformCollisions p (int_add platformIndex 1) rest
  end.

(** Gravity and the position update of a blood particle. *)
Definition fallBlood (deltaTime gravity : Q) (p : BloodParticle) : BloodParticle :=
  let p :=
    BloodParticle.setVel
      (mkVec2 (X (BloodParticle.Vel p))
              (Y (BloodParticle.Vel p) + gravity * deltaTime)) p in
  let p :=
    BloodParticle.setPos
      (mkVec2 (X (BloodParticle.Pos p) + X (BloodParticle.Vel p) * deltaTime)
              (Y (BloodParticle.Pos p))) p in
  BloodParticle.setPos
    (mkVec2 (X (BloodParticle.Pos p))
            (Y (BloodParticle.Pos p) + Y (BloodParticle.Vel p) * deltaTime)) p.

(** The body of the loop over the blood particles. *)
Definition stepBloodParticle (deltaTime : Q) (p : BloodParticle) : M BloodParticle :=
  let gravity := 300.0 in
  if negb (BloodParticle.Active p) then ret p
  else
    let* g := getG in
    let groundY := float64 (Game.groundY g) in
    let p := fallBlood deltaTime gravity p in
    let* '(p, hitPlatform) := bloodPlatformCollisions p 0 (Game.platforms g) in
    when (negb hitPlatform && (Y (BloodParticle.Pos p) >=? groundY))
      (let tileX := int (X (BloodParticle.Pos p)) in
       when ((0 <=? tileX)%Z && (tileX <? Game.width g)%Z)
         (markGroundRed tileX (BloodParticle.EnemyID p) false));;
    let p := BloodParticle.setLifetime (BloodParticle.Lifetime p - deltaTime) p in
    let p :=
      if BloodParticle.Lifetime p <=? 0
      then BloodParticle.setActive false p else p in
    let p :=
      if (X (BloodParticle.Pos p) <? -10)
         || (X (BloodParticle.Pos p) >? float64 (Game.width g) + 10)
         || (Y (BloodParticle.Pos p) >? float64 (Game.height g))
      then BloodParticle.setActive false p else p in
    ret p.

Definition updateBloodParticles (deltaTime : Q) : M unit :=
  let* g := getG in
  when (Game.gameOver g)
    (modifyG (fun g =>
       Game.setBloodParticles
         (List.filter (fun p => (BloodParticle.EnemyID p =? 0)%Z)
            (Game.bloodParticles g)) g));;
  let* ps := gets Game.bloodParticles in
  let* ps := forEachM (stepBloodParticle deltaTime) ps in
  modifyG (Game.setBloodParticles ps);;
  modifyG (fun g =>
    Game.setBloodParticles
      (List.filter BloodParticle.Active (Game.bloodParticles g)) g).

(** *** [checkAndClearRedTiles] *)

(** The ids of the active death particles and blood particles: the
    [map[int]bool] the sweep collects. *)
Definition collectActiveEnemyIDs (g : Game) : gmap Z bool :=
  let activeEnemyIDs : gmap Z bool := ∅ in
  let activeEnemyIDs :=
    foldl (fun ids p =>
             if DeathParticle.Active p
             then <[DeathParticle.EnemyID p := true]> ids else ids)
      activeEnemyIDs (Game.deathParticles g) in
  foldl (fun ids p =>
           if BloodParticle.Active p
           then <[BloodParticle.EnemyID p := true]> ids else ids)
    activeEnemyIDs (Game.bloodParticles g).

(** [activeEnemyIDs[enemyID]]: a missing key reads as [false]. *)
Definition isActiveID (activeEnemyIDs : gmap Z bool) (enemyID : Z) : bool :=
  default false (activeEnemyIDs !! enemyID).

(** The keys of the stains whose enemy has no active particle left. *)
Definition staleTiles (activeEnemyIDs : gmap Z bool) (tiles : gmap Z Z)
  : gmap Z bool :=
  map_fold (fun x enemyID tilesToClear =>
              if negb (isActiveID activeEnemyIDs enemyID)
              then <[x := true]> tilesToClear else tilesToClear)
    ∅ tiles.

(** [for x := range tilesToClear { delete(tiles, x) }]. *)
Definition clearTiles (tilesToClear : gmap Z bool) (tiles : gmap Z Z) : gmap Z Z :=
  map_fold (fun x _ tiles => delete x tiles) tiles tilesToClear.

Definition checkAndClearRedTiles : M unit :=
  let* g := getG in
  let activeEnemyIDs := collectActiveEnemyIDs g in
  let tilesToClear := staleTiles activeEnemyIDs (Game.redGroundTiles g) in
  modifyG (fun g =>
    Game.setRedGroundTiles (clearTiles tilesToClear (Game.redGroundTiles g)) g);;
  let platformTilesToClear := staleTiles activeEnemyIDs (Game.redPlatformTiles g) in
  modifyG (fun g =>
    Game.setRedPlatformTiles
      (clearTiles platformTilesToClear (Game.redPlatformTiles g)) g).

(** *** [checkCollisions] *)

Definition playerTouchesEnemy (pl : Player) (e : Enemy) : bool :=
  overlaps (X (Player.Pos pl)) (Y (Player.Pos pl))
    (float64 (Player.Width pl)) (float64 (Player.Height pl))
    (X (Enemy.Pos e)) (Y (Enemy.Pos e))
    (float64 (Enemy.Width e)) (float64 (Enemy.Height e)).

Definition projectileTouchesPlayer (p : Projectile) (pl : Player) : bool :=
  let projW := 1.0 in
  let projH := 1.0 in
  overlaps (X (Projectile.Pos p)) (Y (Projectile.Pos p)) projW projH
    (X (Player.Pos pl)) (Y (Player.Pos pl))
    (float64 (Player.Width pl)) (float64 (Player.Height pl)).

(** The values of [k] in [for k := 1; k < steps; k++]. *)
Definition sampleIndices (steps : Z) : list Z :=
  map Z.of_nat (seq 1 (Z.to_nat steps - 1)).

(** The swept test of a player projectile against an enemy: the current
    position, then the previous one, then the sample points in between. *)
Definition sweptHit (p : Projectile) (e : Enemy) : bool :=
  let projPrevX := X (Projectile.PrevPos p) in
  let projPrevY := Y (Projectile.PrevPos p) in
  let projCurrX := X (Projectile.Pos p) in
  let projCurrY := Y (Projectile.Pos p) in
  let projW := 1.0 in
  let projH := 1.0 in
  let enemyX := X (Enemy.Pos e) in
  let enemyY := Y (Enemy.Pos e) in
  let enemyW := float64 (Enemy.Width e) in
  let enemyH := float64 (Enemy.Height e) in
  let hit := overlaps projCurrX projCurrY projW projH enemyX enemyY enemyW enemyH in
  let hit :=
    if negb hit
       && overlaps projPrevX projPrevY projW projH enemyX enemyY enemyW enemyH
    then true else hit in
  if negb hit then
    let dx := projCurrX - projPrevX in
    let dy := projCurrY - projPrevY in
    let steps := 5%Z in
    existsb
      (fun k =>
         let t := float64 k / float64 steps in
         let checkX := projPrevX + dx * t in
         let checkY := projPrevY + dy * t in
         overlaps checkX checkY projW projH enemyX enemyY enemyW enemyH)
      (sampleIndices steps)
  else hit.

(** The point test the menu demo uses instead. *)
Definition projectileTouchesEnemy (p : Projectile) (e : Enemy) : bool :=
  overlaps (X (Projectile.Pos p)) (Y (Projectile.Pos p)) 1.0 1.0
    (X (Enemy.Pos e)) (Y (Enemy.Pos e))
    (float64 (Enemy.Width e)) (float64 (Enemy.Height e)).

(** The loop over the enemies for one player projectile: the first active
    enemy that [test] reports as hit is killed ([onKill] is what follows
    the kill) and ends the loop.  Returns whether the projectile hit. *)
Fixpoint projectileVsEnemies (test : Projectile -> Enemy -> bool) (onKill : M unit)
  (p : Projectile) (es : list Enemy) : M (bool * list Enemy) :=
  match es with
  | [] => ret (false, [])
  | e :: rest =>
      if Enemy.Active e && test p e then
        createDeathParticles e;;
        let e := Enemy.setActive false e in
        onKill;;
        ret (true, e :: rest)
      else
        let* '(hit, rest') := projectileVsEnemies test onKill p rest in
        ret (hit, e :: rest')
  end.

(** The loop over the projectiles; the enemies are threaded through. *)
Fixpoint projectilesVsEnemies (test : Projectile -> Enemy -> bool) (onKill : M unit)
  (ps : list Projectile) (es : list Enemy) : M (list Projectile * list Enemy) :=
  match ps with
  | [] => ret ([], es)
  | p :: rest =>
      if negb (Projectile.Active p) || Projectile.IsEnemy p then
        let* '(rest', es') := projectilesVsEnemies test onKill rest es in
        ret (p :: rest', es')
      else
        let* '(hit, es') := projectileVsEnemies test onKill p es in
        let p := if hit then Projectile.setActive false p else p in
        let* '(rest', es'') := projectilesVsEnemies test onKill rest es' in
        ret (p :: rest', es'')
  end.

(** [g.score += 10; g.enemiesDefeated++]. *)
Definition scoreKill : M unit :=
  modifyG (fun g => Game.setScore (int_add (Game.score g) 10) g);;
  modifyG (fun g => Game.setEnemiesDefeated (int_add (Game.enemiesDefeated g) 1) g).

Definition playerDefeated : M unit :=
  createPlayerDeathParticles;;
  modifyG (Game.setGameOver true).

Definition checkCollisions : M unit :=
  let* g := getG in
  if existsb (fun e => Enemy.Active e && playerTouchesEnemy (Game.player g) e)
       (Game.enemies g)
  then playerDefeated
  else if existsb
            (fun p => Projectile.Active p && Projectile.IsEnemy p
                      && projectileTouchesPlayer p (Game.player g))
            (Game.projectiles g)
  then playerDefeated
  else
    let* '(ps, es) :=
      projectilesVsEnemies sweptHit scoreKill (Game.projectiles g) (Game.enemies g) in
    modifyG (Game.setProjectiles ps);;
    modifyG (Game.setEnemies es).

(** *** [handleInput] *)

Definition firePlayerProjectile (dir : Z) : M unit :=
  modifyG (fun g =>
    let pl := Game.player g in
    let muzzle :=
      mkVec2 (X (Player.Pos pl) + float64 (int_div (Player.Width pl) 2))
             (Y (Player.Pos pl) + float64 (int_div (Player.Height pl) 2)) in
    let p :=
      {| Projectile.Pos := muzzle;
         Projectile.PrevPos := muzzle;
         Projectile.Dir := dir;
         Projectile.Active := true;
         Projectile.Frame := 0;
         Projectile.IsEnemy := false |} in
    Game.setProjectiles (Game.projectiles g ++ [p]) g).

(** Space in the menu: start the game. *)
Definition startGame : M unit :=
  modifyG (Game.setProjectiles []);;
  modifyG (Game.setEnemies []);;
  modifyG (Game.setDeathParticles []);;
  modifyG (Game.setBloodParticles []);;
  modifyG (Game.setRedGroundTiles ∅);;
  modifyG (Game.setRedPlatformTiles ∅);;
  let* now := timeNow in
  modifyG (fun g =>
    Game.setPlayer (startingPlayer (Game.width g) (Game.groundY g) now) g);;
  modifyG (Game.setScore 0);;
  modifyG (Game.setEnemiesDefeated 0);;
  modifyG (Game.setEnemySpawnCounter 0);;
  modifyG (Game.setGameOver false);;
  modifyG (Game.setNextEnemyID 1);;
  modifyG (Game.setLastShot zeroTime);;
  modifyG (Game.setKeys noKeys);;
  let* g := getG in
  let* platforms := generatePlatforms (Game.width g) (Game.groundY g) in
  modifyG (Game.setPlatforms platforms);;
  modifyG (Game.setInMenu false).

(** Enter at game over: back to the menu. *)
Definition restartGame : M unit :=
  let* g := getG in
  let* platforms := generatePlatforms (Game.width g) (Game.groundY g) in
  let* now := timeNow in
  modifyG (fun g =>
    Game.setPlayer (startingPlayer (Game.width g) (Game.groundY g) now) g);;
  modifyG (Game.setProjectiles []);;
  modifyG (Game.setEnemies []);;
  modifyG (Game.setPlatforms platforms);;
  modifyG (Game.setDeathParticles []);;
  modifyG (Game.setBloodParticles []);;
  modifyG (Game.setRedGroundTiles ∅);;
  modifyG (Game.setRedPlatformTiles ∅);;
  modifyG (Game.setScore 0);;
  modifyG (Game.setEnemiesDefeated 0);;
  modifyG (Game.setEnemySpawnCounter 0);;
  modifyG (Game.setGameOver false);;
  modifyG (Game.setInMenu true);;
  modifyG (Game.setKeys noKeys).

Definition toggleBloodColor : M unit :=
  modifyG (fun g =>
    Game.setBloodColorMode (int_rem (int_add (Game.bloodColorMode g) 1) 4) g).

Definition pressKey (k : Key) : M unit :=
  let* now := timeNow in
  modifyG (fun g => Game.setKeys (setKey k now (Game.keys g)) g).

Definition handleInput (ev : EventKey) : M unit :=
  let* g := getG in
  if Game.inMenu g then
    match evKey ev with
    | KeyRune => if Ascii.eqb (evRune ev) " "%char then startGame else ret tt
    | KeyTab => toggleBloodColor
    | _ => ret tt
    end
  else if Game.gameOver g then
    match evKey ev with
    | KeyEnter => restartGame
    | _ => ret tt
    end
  else
    match evKey ev with
    | KeyTab => toggleBloodColor
    | KeyLeft => pressKey KeyLeft
    | KeyRight => pressKey KeyRight
    | KeyUp => pressKey KeyUp
    | KeyRune =>
        if Ascii.eqb (evRune ev) " "%char then
          let* now := timeNow in
          if (dur_mul 200 Millisecond <? Sub now (Game.lastShot g))%Z then
            firePlayerProjectile (Player.Facing (Game.player g));;
            modifyG (Game.setLastShot now)
          else ret tt
        else ret tt
    | _ => ret tt
    end.

(** *** [updateMenu] *)

(** The body of the loop over the enemies of the menu demo. *)
Definition stepMenuEnemy (deltaTime : Q) (width : Z) (e : Enemy) : Enemy :=
  let baseSpeed := 20.0 in
  if negb (Enemy.Active e) then e
  else
    let centerX := float64 (int_div width 2) in
    let dx := centerX - X (Enemy.Pos e) in
    let e :=
      if dx >? 0 then moveEnemy 1 (baseSpeed * deltaTime) e
      else moveEnemy (-1) (- (baseSpeed * deltaTime)) e in
    if (X (Enemy.Pos e) <? - float64 EnemyWidth)
       || (X (Enemy.Pos e) >? float64 width)
       || (mathAbs (X (Enemy.Pos e) - centerX) <? 5.0)
    then Enemy.setActive false e
    else e.

Definition updateMenu (deltaTime : Q) : M unit :=
  let* now := timeNow in
  modifyG (fun g =>
    let pl := Game.player g in
    if (X (Player.Pos pl) =? 0) && (Y (Player.Pos pl) =? 0) then
      let pl := Player.setPosX (float64 (int_div (Game.width g) 2)) pl in
      let pl := Player.setPosY (float64 (int_sub (Game.groundY g) PlayerHeight)) pl in
      Game.setPlayer (Player.setFacing 1 pl) g
    else g);;
  let* g := getG in
  when (dur_mul 800 Millisecond <? Sub now (Game.menuLastShot g))%Z
    (let* r := randFloat64 in
     let dir := if r <? 0.5 then (-1)%Z else 1%Z in
     modifyG (fun g => Game.setPlayer (Player.setFacing dir (Game.player g)) g);;
     firePlayerProjectile dir;;
     modifyG (Game.setMenuLastShot now));;
  let* k := randIntn 1500 in
  when (dur_mul (int_add 1500 k) Millisecond <? Sub now (Game.menuLastEnemySpawn g))%Z
    (let canShoot := false in
     let* side := randFloat64 in
     let e :=
       if side <? 0.5
       then newEnemy (- float64 EnemyWidth) (Game.groundY g) 1 canShoot
       else newEnemy (float64 (Game.width g)) (Game.groundY g) (-1) canShoot in
     modifyG (fun g => Game.setEnemies (Game.enemies g ++ [e]) g);;
     modifyG (Game.setMenuLastEnemySpawn now));;
  modifyG (fun g =>
    Game.setEnemies (map (stepMenuEnemy deltaTime (Game.width g)) (Game.enemies g)) g);;
  modifyG (fun g => Game.setEnemies (List.filter Enemy.Active (Game.enemies g)) g);;
  updateProjectiles deltaTime;;
  let* g := getG in
  let* '(ps, es) :=
    projectilesVsEnemies projectileTouchesEnemy (ret tt)
      (Game.projectiles g) (Game.enemies g) in
  modifyG (Game.setProjectiles ps);;
  modifyG (Game.setEnemies es);;
  updateDeathParticles deltaTime;;
  updateBloodParticles deltaTime;;
  checkAndClearRedTiles.

(** *** [update] and the frame loop of [run] *)

Definition update (deltaTime : Q) : M unit :=
  let* g := getG in
  if Game.inMenu g then updateMenu deltaTime
  else
    when (negb (Game.gameOver g))
      (updatePlayer deltaTime;;
       checkCollisions);;
    updateProjectiles deltaTime;;
    updateEnemies deltaTime;;
    updateDeathParticles deltaTime;;
    updateBloodParticles deltaTime;;
    checkAndClearRedTiles.

(** [if deltaTime > 0.1 { deltaTime = 0.1 }]. *)
Definition clampDeltaTime (deltaTime : Q) : Q :=
  if deltaTime >? 0.1 then 0.1 else deltaTime.

(** [d.Seconds()]. *)
Definition Seconds (d : Duration) : Q := float64 d / 1000000000.

(** The events [run] receives from the screen. *)
Inductive Event :=
| EventKeyPress (ev : EventKey)
| EventResize (width height : Z).

(** The resize case of [run]. *)
Definition handleResize (width height : Z) : M unit :=
  modifyG (Game.setWidth width);;
  modifyG (Game.setHeight height);;
  modifyG (Game.setGroundY (int_sub height 1));;
  modifyG (fun g =>
    let pl := Game.player g in
    let pl :=
      if X (Player.Pos pl) + float64 (Player.Width pl) >? float64 (Game.width g)
      then Player.setPosX (float64 (int_sub (Game.width g) (Player.Width pl))) pl
      else pl in
    Game.setPlayer
      (Player.setPosY (float64 (int_sub (Game.groundY g) PlayerHeight)) pl) g).

(** One iteration of the loop of [run] up to the call of [render]: the
    pending event, if any, is [ev].  Returns [false] when [run] returns. *)
Definition runFrame (ev : option Event) : M bool :=
  let* now := timeNow in
  let* g := getG in
  let deltaTime := Seconds (Sub now (Game.lastFrame g)) in
  modifyG (Game.setLastFrame now);;
  let deltaTime := clampDeltaTime deltaTime in
  let* continue :=
    match ev with
    | Some (EventKeyPress ev) =>
        match evKey ev with
        | KeyEscape => ret false
        | _ => handleInput ev;; ret true
        end
    | Some (EventResize width height) => handleResize width height;; ret true
    | None => ret true
    end in
  if continue then update deltaTime;; ret true
  else ret false.

(** The frames of [run], one per pending event or none, until Escape. *)
Fixpoint runFrames (evs : list (option Event)) : M unit :=
  match evs with
  | [] => ret tt
  | ev :: rest =>
      let* continue := runFrame ev in
      if continue then runFrames rest else ret tt
  end.

(** [main]: the world in which [run] starts, [w0] supplying the runtime. *)
Definition launch_world (width height : Z) (w0 : World) : World :=
  let '(g, w1) := NewGame width height w0 in
  mkWorld g (runtime w1).

(** ** Rendering *)

(** [tcell.Color]: the named colours that the program uses, and
    [tcell.Color(n)] for a number [n] of the 256-colour palette. *)
Inductive Color :=
| ColorDefault | ColorRed | ColorGreen | ColorYellow | ColorBlue
| ColorLightGray | ColorWhite
| PaletteColor (n : Z).

(** [tcell.Style]: the foreground colour and the bold attribute, which are
    all that the program sets. *)
Record Style := mkStyle { foreground : Color; bold : bool }.

Definition StyleDefault : Style := mkStyle ColorDefault false.
Definition Foreground (c : Color) (s : Style) : Style := mkStyle c (bold s).
Definition Bold (b : bool) (s : Style) : Style := mkStyle (foreground s) b.

(** A rune is its code point. *)
Definition rune := Z.
Definition runeOf (c : ascii) : rune := Z.of_N (N_of_ascii c).

(** One call [g.screen.SetContent(x, y, r, nil, style)].  A drawing
    function is embedded as the list of the calls it makes, in their
    order; [None] stands for a run-time panic. *)
Record Cell := mkCell { cellX : Z; cellY : Z; cellRune : rune; cellStyle : Style }.

Definition put (x y : Z) (c : ascii) (style : Style) : Cell :=
  mkCell x y (runeOf c) style.

(** [for x := lo; x < hi; x++]. *)
Definition upto (lo hi : Z) : list Z :=
  map (fun i => (lo + Z.of_nat i)%Z) (seq 0 (Z.to_nat (hi - lo))).

(** A loop whose body draws: the calls of the iterations in their order, up
    to the first panic. *)
Fixpoint drawEach {A} (body : A -> option (list Cell)) (xs : list A)
  : option (list Cell) :=
  match xs with
  | [] => Some []
  | x :: rest =>
      match body x with
      | Some cells =>
          match drawEach body rest with
          | Some more => Some (cells ++ more)
          | None => None
          end
      | None => None
      end
  end.

(** [for i, r := range text { g.screen.SetContent(x+i, y, r, nil, style) }]
    for a text of ASCII characters. *)
Definition drawText (x y : Z) (text : list ascii) (style : Style) : list Cell :=
  imap (fun i r => mkCell (int_add x (Z.of_nat i)) y (runeOf r) style) text.

(** [len(text)]. *)
Definition len (text : list ascii) : Z := Z.of_nat (length text).

(** *** [drawPlayer], [drawEnemy], [drawCorpse], [drawProjectile] *)

Definition drawPlayer (g : Game) : list Cell :=
  let x := int (X (Player.Pos (Game.player g))) in
  let y := int (Y (Player.Pos (Game.player g))) in
  let style := Foreground ColorBlue StyleDefault in
  if (Player.Facing (Game.player g) =? 1)%Z then
    [put x y "~" style;
     put (int_add x 1) y "0" style;
     put x (int_add y 1) "(" style;
     put (int_add x 1) (int_add y 1) "|" style;
     put (int_add x 2) (int_add y 1) "\" style;
     put x (int_add y 2) "/" style;
     put (int_add x 1) (int_add y 2) " " style;
     put (int_add x 2) (int_add y 2) ")" style]
  else
    [put x y " " style;
     put (int_add x 1) y "0" style;
     put (int_add x 2) y "~" style;
     put x (int_add y 1) "/" style;
     put (int_add x 1) (int_add y 1) "|" style;
     put (int_add x 2) (int_add y 1) ")" style;
     put x (int_add y 2) "(" style;
     put (int_add x 1) (int_add y 2) " " style;
     put (int_add x 2) (int_add y 2) "\" style].

Definition drawEnemy (e : Enemy) : list Cell :=
  let x := int (X (Enemy.Pos e)) in
  let y := int (Y (Enemy.Pos e)) in
  let style := Foreground ColorLightGray StyleDefault in
  if (Enemy.Facing e =? 1)%Z then
    [put x y " " style;
     put (int_add x 1) y "O" style;
     put x (int_add y 1) "(" style;
     put (int_add x 1) (int_add y 1) "|" style;
     put (int_add x 2) (int_add y 1) "\" style;
     put x (int_add y 2) "/" style;
     put (int_add x 1) (int_add y 2) " " style;
     put (int_add x 2) (int_add y 2) ")" style]
  else
    [put x y " " style;
     put (int_add x 1) y "O" style;
     put (int_add x 2) y " " style;
     put x (int_add y 1) "/" style;
     put (int_add x 1) (int_add y 1) "|" style;
     put (int_add x 2) (int_add y 1) ")" style;
     put x (int_add y 2) "(" style;
     put (int_add x 1) (int_add y 2) " " style;
     put (int_add x 2) (int_add y 2) "\" style].

Definition drawCorpse (c : Corpse) : list Cell :=
  let x := int (X (Corpse.Pos c)) in
  let y := int (Y (Corpse.Pos c)) in
  let style := Foreground ColorLightGray StyleDefault in
  if (Corpse.Facing c =? 1)%Z then
    [put x y " " style;
     put (int_add x 1) y " " style;
     put (int_add x 2) y " " style;
     put x (int_add y 1) "(" style;
     put (int_add x 1) (int_add y 1) "|" style;
     put (int_add x 2) (int_add y 1) "\" style;
     put x (int_add y 2) "/" style;
     put (int_add x 1) (int_add y 2) " " style;
     put (int_add x 2) (int_add y 2) ")" style]
  else
    [put x y " " style;
     put (int_add x 1) y " " style;
     put (int_add x 2) y " " style;
     put x (int_add y 1) "/" style;
     put (int_add x 1) (int_add y 1) "|" style;
     put (int_add x 2) (int_add y 1) ")" style;
     put x (int_add y 2) "(" style;
     put (int_add x 1) (int_add y 2) " " style;
     put (int_add x 2) (int_add y 2) "\" style].

Definition drawProjectile (p : Projectile) : list Cell :=
  let x := int (X (Projectile.Pos p)) in
  let y := int (Y (Projectile.Pos p)) in
  let style :=
    if Projectile.IsEnemy p
    then let cyanColor := PaletteColor 51 in Foreground cyanColor StyleDefault
    else Foreground ColorYellow StyleDefault in
  if (int_rem (Projectile.Frame p) 2 =? 0)%Z
  then [put x y "-" style]
  else [put x y "+" style].

(** *** The blood colour *)

Definition rainbowColors : list Color :=
  [ColorRed; ColorYellow; ColorGreen; ColorBlue; ColorLightGray; ColorWhite].

(** [colors[i]]: an index below 0 or beyond the end panics. *)
Definition colorAt (colors : list Color) (i : Z) : option Color :=
  if (i <? 0)%Z then None else colors !! Z.to_nat i.

(** The [switch g.bloodColorMode] that [drawGround], [drawPlatforms],
    [drawDeathParticles] and [drawBloodParticles] repeat; [colorKey] is the
    number they reduce modulo the number of rainbow colours. *)
Definition bloodStyle (bloodColorMode colorKey : Z) : option Style :=
  if (bloodColorMode =? 0)%Z then Some (Foreground ColorRed StyleDefault)
  else if (bloodColorMode =? 1)%Z then Some (Foreground ColorGreen StyleDefault)
  else if (bloodColorMode =? 2)%Z then
    let colorIndex := int_rem colorKey (Z.of_nat (length rainbowColors)) in
    match colorAt rainbowColors colorIndex with
    | Some color => Some (Foreground color StyleDefault)
    | None => None
    end
  else Some (Foreground ColorRed StyleDefault).

(** *** [drawGround], [drawPlatforms] *)

(** The rune U+2501, a heavy horizontal line. *)
Definition groundChar : rune := 9473%Z.

Definition drawGroundTile (g : Game) (x : Z) : option (list Cell) :=
  let darkGray := PaletteColor 240 in
  match Game.redGroundTiles g !! x with
  | Some _ =>
      if (Game.bloodColorMode g =? 3)%Z then
        let style := Foreground darkGray StyleDefault in
        Some [mkCell x (Game.groundY g) groundChar style]
      else
        match bloodStyle (Game.bloodColorMode g) x with
        | Some style => Some [mkCell x (Game.groundY g) groundChar style]
        | None => None
        end
  | None =>
      let style := Foreground darkGray StyleDefault in
      Some [mkCell x (Game.groundY g) groundChar style]
  end.

Definition drawGround (g : Game) : option (list Cell) :=
  drawEach (drawGroundTile g) (upto 0 (Game.width g)).

Definition drawPlatformTile (g : Game) (platformIndex y x : Z) : option (list Cell) :=
  let platformChar := groundChar in
  let cyanColor := PaletteColor 51 in
  let defaultStyle := Foreground cyanColor StyleDefault in
  if (0 <=? x)%Z then
    let key := int_add (int_mul platformIndex 10000) x in
    let style :=
      match Game.redPlatformTiles g !! key with
      | Some _ =>
          if (Game.bloodColorMode g =? 3)%Z then Some defaultStyle
          else bloodStyle (Game.bloodColorMode g) x
      | None => Some defaultStyle
      end in
    match style with
    | Some style => Some [mkCell x y platformChar style]
    | None => None
    end
  else Some [].

(** The loop over the platforms, [platformIndex] being the index of the
    head of [platforms]. *)
Fixpoint drawPlatformsFrom (g : Game) (platformIndex : Z) (platforms : list Platform)
  : option (list Cell) :=
  match platforms with
  | [] => Some []
  | platform :: rest =>
      let startX := int (Platform.X platform) in
      let endX := int (Platform.X platform + Platform.Width platform) in
      let y := int (Platform.Y platform) in
      match drawEach (drawPlatformTile g platformIndex y)
              (upto startX (Z.min endX (Game.width g))) with
      | Some cells =>
          match drawPlatformsFrom g (int_add platformIndex 1) rest with
          | Some more => Some (cells ++ more)
          | None => None
          end
      | None => None
      end
  end.

Definition drawPlatforms (g : Game) : option (list Cell) :=
  drawPlatformsFrom g 0 (Game.platforms g).

(** *** [drawScore], [drawMenu], [drawGameOver] *)

(** [fmt.Sprintf] of the verb [%d]. *)
Definition formatInt (n : Z) : list ascii :=
  String.list_ascii_of_string (DecimalString.NilZero.string_of_int (Z.to_int n)).

Definition drawScore (g : Game) : list Cell :=
  let style := Foreground ColorWhite StyleDefault in
  let scoreText := String.list_ascii_of_string "Score: " ++ formatInt (Game.score g) in
  imap (fun i r => mkCell (Z.of_nat i) 0 (runeOf r) style) scoreText.

Definition drawMenu (g : Game) : list Cell :=
  let title := String.list_ascii_of_string "GNinja" in
  let titleX := int_div (int_sub (Game.width g) (len title)) 2 in
  let titleY := int_sub (int_div (Game.height g) 2) 2 in
  let greenStyle := Foreground ColorGreen StyleDefault in
  let startText := String.list_ascii_of_string "Press Space to start" in
  let startX := int_div (int_sub (Game.width g) (len startText)) 2 in
  let startY := int_add titleY 2 in
  let modeText :=
    if (Game.bloodColorMode g =? 0)%Z
    then String.list_ascii_of_string "Blood: Red (Press TAB to change)"
    else if (Game.bloodColorMode g =? 1)%Z
    then String.list_ascii_of_string "Blood: Green (Press TAB to change)"
    else if (Game.bloodColorMode g =? 2)%Z
    then String.list_ascii_of_string "Blood: Rainbow (Press TAB to change)"
    else if (Game.bloodColorMode g =? 3)%Z
    then String.list_ascii_of_string "Blood: Off (Press TAB to change)"
    else [] in
  let modeX := int_div (int_sub (Game.width g) (len modeText)) 2 in
  let modeY := int_add startY 2 in
  drawText titleX titleY title greenStyle
  ++ drawText startX startY startText StyleDefault
  ++ drawText modeX modeY modeText StyleDefault.

Definition drawGameOver (g : Game) : list Cell :=
  let style := Bold true (Foreground ColorRed StyleDefault) in
  let text := String.list_ascii_of_string "GAME OVER" in
  let startX := int_div (int_sub (Game.width g) (len text)) 2 in
  let startY := 2%Z in
  let title := drawText startX startY text style in
  let style := Foreground ColorWhite StyleDefault in
  let instructions :=
    [String.list_ascii_of_string "Press ENTER to restart";
     String.list_ascii_of_string "Press ESC to exit"] in
  title
  ++ concat
       (imap (fun i line =>
                let lineX := int_div (int_sub (Game.width g) (len line)) 2 in
                drawText lineX (int_add (int_add startY 2) (Z.of_nat i)) line style)
          instructions).

(** *** [drawDeathParticles], [drawBloodParticles] *)

(** [t.UnixNano()]: the zero [Time] is the first of January of the year 1,
    62135596800 seconds before the Unix epoch. *)
Definition UnixNano (t : Time) : Z := wrap64 (t - 62135596800 * 1000000000).

Definition fragmentStyle (g : Game) (p : DeathParticle) (x y : Z) : option Style :=
  if DeathParticle.IsRed p then
    if (Game.bloodColorMode g =? 3)%Z then
      if (DeathParticle.EnemyID p =? 0)%Z
      then Some (Foreground ColorBlue StyleDefault)
      else Some (Foreground ColorLightGray StyleDefault)
    else bloodStyle (Game.bloodColorMode g) (int_add x y)
  else if (DeathParticle.EnemyID p =? 0)%Z
  then Some (Foreground ColorBlue StyleDefault)
  else Some (Foreground ColorLightGray StyleDefault).

(** [p.EnemyID != 0 && p.OnGround
     && time.Since(p.GroundTime) >= 2500*time.Millisecond]. *)
Definition aboutToVanish (p : DeathParticle) : M bool :=
  if negb (DeathParticle.EnemyID p =? 0)%Z && DeathParticle.OnGround p then
    let* since := timeSince (DeathParticle.GroundTime p) in
    ret (dur_mul 2500 Millisecond <=? since)%Z
  else ret false.

(** The body of the loop of [drawDeathParticles]. *)
Definition drawDeathParticle (g : Game) (now : Time) (p : DeathParticle)
  : M (option (list Cell)) :=
  if negb (DeathParticle.Active p) then ret (Some [])
  else
    let x := int (X (DeathParticle.Pos p)) in
    let y := int (Y (DeathParticle.Pos p)) in
    let* vanishing := aboutToVanish p in
    if vanishing
       && (int_rem (int_div (UnixNano now) (dur_mul 100 Millisecond)) 2 =? 0)%Z
    then ret (Some [])
    else
      match fragmentStyle g p x y with
      | Some style => ret (Some [mkCell x y (runeOf (DeathParticle.Char p)) style])
      | None => ret None
      end.

Fixpoint drawDeathParticlesFrom (g : Game) (now : Time) (ps : list DeathParticle)
  : M (option (list Cell)) :=
  match ps with
  | [] => ret (Some [])
  | p :: rest =>
      let* cells := drawDeathParticle g now p in
      match cells with
      | Some cells =>
          let* more := drawDeathParticlesFrom g now rest in
          match more with
          | Some more => ret (Some (cells ++ more))
          | None => ret None
          end
      | None => ret None
      end
  end.

Definition drawDeathParticles : M (option (list Cell)) :=
  let* now := timeNow in
  let* g := getG in
  drawDeathParticlesFrom g now (Game.deathParticles g).

Definition drawBloodParticle (g : Game) (p : BloodParticle) : option (list Cell) :=
  if negb (BloodParticle.Active p) then Some []
  else
    let x := int (X (BloodParticle.Pos p)) in
    let y := int (Y (BloodParticle.Pos p)) in
    if (0 <=? x)%Z && (x <? Game.width g)%Z && (0 <=? y)%Z && (y <? Game.height g)%Z
    then
      match bloodStyle (Game.bloodColorMode g) (int_add x y) with
      | Some style => Some [mkCell x y (runeOf (BloodParticle.Char p)) style]
      | None => None
      end
    else Some [].

Definition drawBloodParticles (g : Game) : option (list Cell) :=
  if (Game.bloodColorMode g =? 3)%Z then Some []
  else drawEach (drawBloodParticle g) (Game.bloodParticles g).

(** *** [render] *)

(** [for i := range xs { if xs[i].Active { draw(&xs[i]) } }]. *)
Definition drawActive {A} (active : A -> bool) (draw : A -> list Cell) (xs : list A)
  : list Cell :=
  concat (map (fun x => if active x then draw x else []) xs).

(** The figures that both branches of [render] draw between the player, or
    the game-over text, and the fragments. *)
Definition drawFigures (g : Game) : list Cell :=
  drawActive Projectile.Active drawProjectile (Game.projectiles g)
  ++ drawActive Enemy.Active drawEnemy (Game.enemies g)
  ++ drawActive Corpse.Active drawCorpse (Game.corpses g).

(** [render]: the calls of [SetContent] between [g.screen.Clear()] and
    [g.screen.Show()]. *)
Definition render : M (option (list Cell)) :=
  let* g := getG in
  match drawGround g with
  | None => ret None
  | Some ground =>
      match drawPlatforms g with
      | None => ret None
      | Some platforms =>
          let front :=
            if Game.inMenu g then drawPlayer g
            else
              drawScore g
              ++ (if negb (Game.gameOver g) then drawPlayer g else drawGameOver g) in
          let* fragments := drawDeathParticles in
          match fragments with
          | None => ret None
          | Some fragments =>
              match drawBloodParticles g with
              | None => ret None
              | Some blood =>
                  let menu := if Game.inMenu g then drawMenu g else [] in
                  ret (Some (ground ++ platforms ++ front ++ drawFigures g
                             ++ fragments ++ blood ++ menu))
              end
          end
      end
  end.

(** * Reasoning about the simulation *)

(** ** Weakest preconditions and invariants of monadic code *)

(** [wp m Q w]: running [m] from [w] yields a result and a world that
    satisfy [Q]. *)
Definition wp {A} (m : M A) (Q : A -> World -> Prop) (w : World) : Prop :=
  Q (fst (m w)) (snd (m w)).

(** The world and the result of running [m] from [w]. *)
Definition exec {A} (m : M A) (w : World) : World := snd (m w).
Definition eval {A} (m : M A) (w : World) : A := fst (m w).

(** [preserves I m]: [m] maintains the invariant [I] of the game. *)
Definition preserves {A} (I : Game -> Prop) (m : M A) : Prop :=
  forall w, I (game w) -> I (game (snd (m w))).

(** [pureM m]: [m] leaves the game alone; it may consult the runtime. *)
Definition pureM {A} (m : M A) : Prop :=
  forall w, game (snd (m w)) = game w.

(** The fields of [Game], to state which of them a function may change. *)
Inductive Field :=
| F_player | F_projectiles | F_enemies | F_deathParticles | F_corpses
| F_bloodParticles | F_platforms | F_score | F_enemiesDefeated
| F_enemySpawnCounter | F_gameOver | F_inMenu | F_bloodColorMode | F_width
| F_height | F_groundY | F_redGroundTiles | F_redPlatformTiles | F_nextEnemyID
| F_lastFrame | F_keys | F_lastShot | F_menuLastShot | F_menuLastEnemySpawn.

Definition unchanged (f : Field) (g g' : Game) : Prop :=
  match f with
  | F_player => Game.player g' = Game.player g
  | F_projectiles => Game.projectiles g' = Game.projectiles g
  | F_enemies => Game.enemies g' = Game.enemies g
  | F_deathParticles => Game.deathParticles g' = Game.deathParticles g
  | F_corpses => Game.corpses g' = Game.corpses g
  | F_bloodParticles => Game.bloodParticles g' = Game.bloodParticles g
  | F_platforms => Game.platforms g' = Game.platforms g
  | F_score => Game.score g' = Game.score g
  | F_enemiesDefeated => Game.enemiesDefeated g' = Game.enemiesDefeated g
  | F_enemySpawnCounter => Game.enemySpawnCounter g' = Game.enemySpawnCounter g
  | F_gameOver => Game.gameOver g' = Game.gameOver g
  | F_inMenu => Game.inMenu g' = Game.inMenu g
  | F_bloodColorMode => Game.bloodColorMode g' = Game.bloodColorMode g
  | F_width => Game.width g' = Game.width g
  | F_height => Game.height g' = Game.height g
  | F_groundY => Game.groundY g' = Game.groundY g
  | F_redGroundTiles => Game.redGroundTiles g' = Game.redGroundTiles g
  | F_redPlatformTiles => Game.redPlatformTiles g' = Game.redPlatformTiles g
  | F_nextEnemyID => Game.nextEnemyID g' = Game.nextEnemyID g
  | F_lastFrame => Game.lastFrame g' = Game.lastFrame g
  | F_keys => Game.keys g' = Game.keys g
  | F_lastShot => Game.lastShot g' = Game.lastShot g
  | F_menuLastShot => Game.menuLastShot g' = Game.menuLastShot g
  | F_menuLastEnemySpawn => Game.menuLastEnemySpawn g' = Game.menuLastEnemySpawn g
  end.

(** [touches fp m]: [m] changes no field outside the footprint [fp]. *)
Definition touches {A} (fp : Field -> bool) (m : M A) : Prop :=
  forall w f, fp f = false -> unchanged f (game w) (game (snd (m w))).

(** The footprints of the functions of the simulation. *)
Definition fp_blood (f : Field) : bool :=
  match f with F_bloodParticles => true | _ => false end.

Definition fp_burst (f : Field) : bool :=
  match f with F_deathParticles | F_bloodParticles => true | _ => false end.

Definition fp_kill (f : Field) : bool :=
  match f with
  | F_deathParticles | F_bloodParticles | F_corpses | F_nextEnemyID => true
  | _ => false
  end.

Definition fp_corpses (f : Field) : bool :=
  match f with
  | F_deathParticles | F_bloodParticles | F_corpses => true
  | _ => false
  end.

Definition fp_stains (f : Field) : bool :=
  match f with F_redGroundTiles | F_redPlatformTiles => true | _ => false end.

Definition fp_bloodUpdate (f : Field) : bool :=
  match f with
  | F_bloodParticles | F_redGroundTiles | F_redPlatformTiles => true
  | _ => false
  end.

Definition fp_collisions (f : Field) : bool :=
  match f with
  | F_projectiles | F_enemies | F_deathParticles | F_bloodParticles | F_corpses
  | F_nextEnemyID | F_score | F_enemiesDefeated | F_gameOver => true
  | _ => false
  end.

Definition fp_enemies (f : Field) : bool :=
  match f with
  | F_projectiles | F_enemies | F_enemySpawnCounter => true
  | _ => false
  end.

Definition fp_player (f : Field) : bool :=
  match f with F_player => true | _ => false end.
Definition fp_projectiles (f : Field) : bool :=
  match f with F_projectiles => true | _ => false end.
Definition fp_spawn (f : Field) : bool :=
  match f with F_enemies | F_enemySpawnCounter => true | _ => false end.

Definition fp_input (f : Field) : bool :=
  match f with
  | F_corpses | F_width | F_height | F_groundY | F_lastFrame | F_menuLastShot
  | F_menuLastEnemySpawn => false
  | _ => true
  end.

(** ** Vocabulary of the statements *)

(** Some active fragment or some active blood particle has the source id
    [enemyID]. *)
Definition hasActiveParticle (g : Game) (enemyID : Z) : Prop :=
  (exists p, p ∈ Game.deathParticles g
             /\ DeathParticle.Active p = true /\ DeathParticle.EnemyID p = enemyID)
  \/ (exists p, p ∈ Game.bloodParticles g
                /\ BloodParticle.Active p = true /\ BloodParticle.EnemyID p = enemyID).

(** The fragment that [spawnPiece] appends for [piece]. *)
Definition pieceOf (head : ascii) (pos : Vec2) (enemyID : Z) (wasOnPlatform : bool)
  (piece : SpritePiece) (p : DeathParticle) : Prop :=
  let '(char, x, y) := piece in
  DeathParticle.Pos p = mkVec2 (X pos + float64 x) (Y pos + float64 y)
  /\ DeathParticle.Char p = char
  /\ DeathParticle.EnemyID p = enemyID
  /\ DeathParticle.Active p = true
  /\ DeathParticle.OnGround p = false
  /\ DeathParticle.Bounces p = 0%Z
  /\ DeathParticle.IsHead p = Ascii.eqb char head
  /\ DeathParticle.WasOnPlatform p = wasOnPlatform.

(** [g'] is [g] with the fragments [ps] appended; the blood particles may
    differ, and nothing else does. *)
Definition burstAdded (g : Game) (ps : list DeathParticle) (g' : Game) : Prop :=
  Game.deathParticles g' = Game.deathParticles g ++ ps
  /\ forall f, fp_burst f = false -> unchanged f g g'.

(** What a tick leaves of a corpse's identity. *)
Definition sameCorpse (c c' : Corpse) : Prop :=
  Corpse.EnemyID c' = Corpse.EnemyID c
  /\ Corpse.EndTime c' = Corpse.EndTime c
  /\ Corpse.Facing c' = Corpse.Facing c
  /\ Corpse.Active c' = Corpse.Active c.

(** The effect of one iteration of the loop of [updateCorpses] on the corpse
    [c], which becomes [c'], and the fragments [burst] that it adds. *)
Definition corpseBurst (now : Time) (c c' : Corpse) (burst : list DeathParticle)
  : Prop :=
  if Corpse.Active c then
    Corpse.EnemyID c' = Corpse.EnemyID c
    /\ if After now (Corpse.EndTime c) then
         Corpse.Active c' = false
         /\ Forall2
              (pieceOf "O" (Corpse.Pos c') (Corpse.EnemyID c) (Corpse.WasOnPlatform c'))
              (enemyPieces (Corpse.Facing c)) burst
       else Corpse.Active c' = true /\ burst = []
  else c' = c /\ burst = [].

(** The enemy that a tick spawned, if any: [spawnEnemy] advances the
    counter and appends the new enemy last. *)
Definition spawnedBy (g g' : Game) : option Enemy :=
  if (Game.enemySpawnCounter g' =? Game.enemySpawnCounter g)%Z then None
  else last (Game.enemies g').

(** The enemies spawned by the successive calls [update(dt)], [dt] ranging
    over [dts], in the order of their spawn. *)
Fixpoint spawnLog (dts : list Q) (w : World) : list Enemy :=
  match dts with
  | [] => []
  | dt :: rest =>
      let w' := exec (update dt) w in
      match spawnedBy (game w) (game w') with
      | Some e => e :: spawnLog rest w'
      | None => spawnLog rest w'
      end
  end.

(** *** Fragments *)

(** A fall-through fragment that has passed the ground: its bounce counter
    holds the mark 999. *)
Definition sunk (p : DeathParticle) : Prop :=
  DeathParticle.FallsThrough p = true /\ DeathParticle.Bounces p = 999%Z.

(** The invariant of a fragment: the counter is at most 2 or holds the mark,
    and a settled fragment has no vertical velocity. *)
Definition fragmentOK (p : DeathParticle) : Prop :=
  ((0 <= DeathParticle.Bounces p <= 2)%Z \/ sunk p)
  /\ (DeathParticle.OnGround p = true -> Y (DeathParticle.Vel p) == 0).

(** What every part of a tick maintains of a fragment. *)
Definition fragStep (p p' : DeathParticle) : Prop :=
  DeathParticle.EnemyID p' = DeathParticle.EnemyID p
  /\ DeathParticle.FallsThrough p' = DeathParticle.FallsThrough p
  /\ (fragmentOK p -> fragmentOK p')
  /\ (sunk p -> sunk p').

(** What every part of a tick before the two viewport tests does to a
    fragment of the player: it stays as active as it was. *)
Definition playerKept (p p' : DeathParticle) : Prop :=
  DeathParticle.EnemyID p' = DeathParticle.EnemyID p
  /\ (DeathParticle.EnemyID p = 0%Z ->
      DeathParticle.Active p' = DeathParticle.Active p).

(** The invariant of the game: every fragment satisfies [fragmentOK]. *)
Definition fragmentsOK (g : Game) : Prop :=
  Forall fragmentOK (Game.deathParticles g).

(** The row on which the fragments come to rest, [float64(g.groundY - 1)]. *)
Definition groundLine (g : Game) : Q := float64 (int_sub (Game.groundY g) 1).

(** No platform of the game is under the fragment [q]. *)
Definition overNoPlatform (g : Game) (q : DeathParticle) : Prop :=
  Forall (fun platform => particleOverPlatform q platform = false)
    (Game.platforms g).

(** The two tests of the viewport in the loop of [updateDeathParticles],
    for a fragment in the air: below the screen, or beyond the margin of 10
    at either side, the fragment is deactivated. *)
Definition leaveViewport (g : Game) (p : DeathParticle) : DeathParticle :=
  if (Y (DeathParticle.Pos p) >? float64 (Game.height g))
     || (X (DeathParticle.Pos p) <? -10)
     || (X (DeathParticle.Pos p) >? float64 (Game.width g) + 10)
  then DeathParticle.setActive false p
  else p.

(** *** Blood particles, and the tick of a round that is over *)

(** The index of the first platform that the particle overlaps, counted
    from [platformIndex] as the loop of [updateBloodParticles] counts. *)
Fixpoint firstPlatformHit (p : BloodParticle) (platformIndex : Z)
  (platforms : list Platform) : option Z :=
  match platforms with
  | [] => None
  | platform :: rest =>
      if bloodOverlapsPlatform p platform then Some platformIndex
      else firstPlatformHit p (int_add platformIndex 1) rest
  end.

(** [tileX >= 0 && tileX < g.width]. *)
Definition onScreen (g : Game) (tileX : Z) : bool :=
  (0 <=? tileX)%Z && (tileX <? Game.width g)%Z.

(** The three ways out of the viewport. *)
Definition outsideViewport (g : Game) (p : BloodParticle) : bool :=
  (X (BloodParticle.Pos p) <? -10)
  || (X (BloodParticle.Pos p) >? float64 (Game.width g) + 10)
  || (Y (BloodParticle.Pos p) >? float64 (Game.height g)).

(** [stepEnemy] when [g.gameOver]: the enemy walks to the nearer edge. *)
Definition walkedOff (deltaTime : Q) (g : Game) (e : Enemy) : Enemy :=
  if negb (Enemy.Active e) then e
  else
    enemyPhysics deltaTime 300.0 (float64 (int_sub (Game.groundY g) EnemyHeight)) g
      (walkOffScreen deltaTime 20.0 (Game.width g) e).

(** What follows the collision phase in [update]. *)
Definition afterCollisions (deltaTime : Q) : M unit :=
  updateProjectiles deltaTime;;
  updateEnemies deltaTime;;
  updateDeathParticles deltaTime;;
  updateBloodParticles deltaTime;;
  checkAndClearRedTiles.

(** What is left at the end of a tick whose collision phase left the world
    [w1] with the round over. *)
Definition overTick (dt : Q) (g1 g' : Game) : Prop :=
  Game.gameOver g' = true
  /\ Game.inMenu g' = Game.inMenu g1
  /\ Game.projectiles g' = []
  /\ Forall (fun p => DeathParticle.EnemyID p = 0%Z) (Game.deathParticles g')
  /\ Forall (fun p => BloodParticle.EnemyID p = 0%Z) (Game.bloodParticles g')
  /\ Game.enemies g'
     = List.filter Enemy.Active (map (walkedOff dt g1) (Game.enemies g1))
  /\ Game.enemySpawnCounter g' = Game.enemySpawnCounter g1
  /\ Game.player g' = Game.player g1
  /\ Game.score g' = Game.score g1.

(** *** The swept test and the resolver of [checkCollisions] *)

(** The sample points of the swept test. *)
Definition samplePoint (p : Projectile) (k : Z) : Vec2 :=
  let t := float64 k / float64 5 in
  mkVec2
    (X (Projectile.PrevPos p)
     + (X (Projectile.Pos p) - X (Projectile.PrevPos p)) * t)
    (Y (Projectile.PrevPos p)
     + (Y (Projectile.Pos p) - Y (Projectile.PrevPos p)) * t).

Definition boxOverEnemy (pos : Vec2) (e : Enemy) : bool :=
  overlaps (X pos) (Y pos) 1.0 1.0 (X (Enemy.Pos e)) (Y (Enemy.Pos e))
    (float64 (Enemy.Width e)) (float64 (Enemy.Height e)).

(** The rows of the projectile and of the enemy overlap. *)
Definition sameRows (p : Projectile) (e : Enemy) : Prop :=
  Y (Projectile.Pos p) < Y (Enemy.Pos e) + float64 (Enemy.Height e)
  /\ Y (Enemy.Pos e) < Y (Projectile.Pos p) + 1.

(** The previous and the current box of the projectile lie on opposite
    sides of the enemy, neither overlapping it. *)
Definition straddles (p : Projectile) (e : Enemy) : Prop :=
  let prevX := X (Projectile.PrevPos p) in
  let currX := X (Projectile.Pos p) in
  let enemyX := X (Enemy.Pos e) in
  let enemyW := float64 (Enemy.Width e) in
  (prevX + 1 <= enemyX /\ enemyX + enemyW <= currX)
  \/ (currX + 1 <= enemyX /\ enemyX + enemyW <= prevX).

(** The enemies after a projectile has met them: the first one that [hit]
    selects is deactivated. *)
Fixpoint killFirst (hit : Enemy -> bool) (es : list Enemy) : list Enemy :=
  match es with
  | [] => []
  | e :: rest =>
      if hit e then Enemy.setActive false e :: rest
      else e :: killFirst hit rest
  end.

Definition hits (test : Projectile -> Enemy -> bool) (p : Projectile) (e : Enemy)
  : bool :=
  Enemy.Active e && test p e.

(** The projectiles and the enemies that [projectilesVsEnemies] returns. *)
Fixpoint resolveHits (test : Projectile -> Enemy -> bool) (ps : list Projectile)
  (es : list Enemy) : list Projectile * list Enemy :=
  match ps with
  | [] => ([], es)
  | p :: rest =>
      if negb (Projectile.Active p) || Projectile.IsEnemy p then
        let '(rest', es') := resolveHits test rest es in
        (p :: rest', es')
      else
        let hit := existsb (hits test p) es in
        let es' := killFirst (hits test p) es in
        let p := if hit then Projectile.setActive false p else p in
        let '(rest', es'') := resolveHits test rest es' in
        (p :: rest', es'')
  end.

(** The two tests of [checkCollisions] that defeat the player. *)
Definition playerHit (g : Game) : bool :=
  existsb (fun e => Enemy.Active e && playerTouchesEnemy (Game.player g) e)
    (Game.enemies g)
  || existsb
       (fun p => Projectile.Active p && Projectile.IsEnemy p
                 && projectileTouchesPlayer p (Game.player g))
       (Game.projectiles g).

(** A projectile that hits nothing, or that takes no part, passes. *)
Definition harmless (test : Projectile -> Enemy -> bool) (es : list Enemy)
  (q : Projectile) : Prop :=
  Projectile.Active q = true -> Projectile.IsEnemy q = false ->
  existsb (hits test q) es = false.

(** *** The resets *)

(** What both resets of [handleInput] establish. *)
Definition freshRound (g g' : Game) : Prop :=
  Game.projectiles g' = []
  /\ Game.enemies g' = []
  /\ Game.deathParticles g' = []
  /\ Game.bloodParticles g' = []
  /\ Game.redGroundTiles g' = ∅
  /\ Game.redPlatformTiles g' = ∅
  /\ Game.score g' = 0%Z
  /\ Game.enemiesDefeated g' = 0%Z
  /\ Game.enemySpawnCounter g' = 0%Z
  /\ Game.gameOver g' = false
  /\ Game.corpses g' = Game.corpses g.

(** *** The platforms *)



(** *** Projectiles and enemies on the screen *)

(** A projectile that [updateProjectiles] keeps: active and between the
    edges of the screen. *)
Definition projectileInFlight (width : Z) (p : Projectile) : Prop :=
  Projectile.Active p = true
  /\ 0 <= X (Projectile.Pos p) /\ X (Projectile.Pos p) <= float64 width.

(** An enemy that [updateEnemies] keeps: active and at most its own width
    left of the screen. *)
Definition enemyInPlay (width : Z) (e : Enemy) : Prop :=
  Enemy.Active e = true
  /\ - float64 EnemyWidth <= X (Enemy.Pos e)
  /\ X (Enemy.Pos e) <= float64 width.

(** *** Spawning and shooting *)

(** The next draw of [rand.Float64]. *)
Definition nextFloat (w : World) : Q := randFloats (runtime w) (randReads (runtime w)).

(** *** Corpses *)

(** The corpse is between the edges of a screen of the given width. *)
Definition corpseOnScreen (width : Z) (c : Corpse) : Prop :=
  0 <= X (Corpse.Pos c)
  /\ X (Corpse.Pos c) <= float64 (width - EnemyWidth).

(** *** Blood *)

(** A particle as [emitBloodFromParticle] emits it for the source id
    [enemyID]. *)
Definition freshBlood (enemyID : Z) (b : BloodParticle) : Prop :=
  BloodParticle.Active b = true
  /\ BloodParticle.EnemyID b = enemyID
  /\ BloodParticle.Char b = "."%char.

(** *** The player *)

(** The player is between the edges of the screen. *)
Definition playerOnScreen (g : Game) : Prop :=
  let pl := Game.player g in
  0 <= X (Player.Pos pl)
  /\ X (Player.Pos pl) + float64 (Player.Width pl) <= float64 (Game.width g).

(** *** Invariants of the frame loop *)

(** [reads fp I]: the invariant [I] depends on the fields in [fp] only. *)
Definition reads (fp : Field -> bool) (I : Game -> Prop) : Prop :=
  forall g g', (forall f, fp f = true -> unchanged f g g') -> I g -> I g'.

(** The score is ten times the number of defeated enemies, in the
    arithmetic of [int]. *)
Definition scoreOK (g : Game) : Prop :=
  Game.score g = wrap64 (10 * Game.enemiesDefeated g).

Definition fp_score (f : Field) : bool :=
  match f with F_score | F_enemiesDefeated => true | _ => false end.

(** The blood colour mode is one of the four modes. *)
Definition modeOK (g : Game) : Prop := (0 <= Game.bloodColorMode g <= 3)%Z.

Definition fp_mode (f : Field) : bool :=
  match f with F_bloodColorMode => true | _ => false end.

(** The footprint of the two resets of [handleInput]. *)
Definition fp_reset (f : Field) : bool :=
  match f with
  | F_player | F_projectiles | F_enemies | F_deathParticles | F_bloodParticles
  | F_platforms | F_score | F_enemiesDefeated | F_enemySpawnCounter | F_gameOver
  | F_inMenu | F_redGroundTiles | F_redPlatformTiles | F_nextEnemyID | F_keys
  | F_lastShot => true
  | _ => false
  end.

(** The footprint of a shot of the player and of a key that is held. *)
Definition fp_shot (f : Field) : bool :=
  match f with F_projectiles | F_lastShot => true | _ => false end.
Definition fp_keys (f : Field) : bool :=
  match f with F_keys => true | _ => false end.

(** The footprint of the menu demo. *)
Definition fp_menu (f : Field) : bool :=
  match f with
  | F_player | F_projectiles | F_enemies | F_deathParticles | F_corpses
  | F_bloodParticles | F_redGroundTiles | F_redPlatformTiles | F_nextEnemyID
  | F_menuLastShot | F_menuLastEnemySpawn => true
  | _ => false
  end.

(** What stays of a corpse: its source id, and all of it once it is
    inactive. *)
Definition corpseKept (c c' : Corpse) : Prop :=
  Corpse.EnemyID c' = Corpse.EnemyID c
  /\ (Corpse.Active c = false -> c' = c).

(** The corpses [cs'] are the corpses [cs], each one kept at its index,
    followed by newer ones. *)
Definition corpsesKept (cs cs' : list Corpse) : Prop :=
  exists older newer, cs' = older ++ newer /\ Forall2 corpseKept cs older.

Definition fp_corpsesOnly (f : Field) : bool :=
  match f with F_corpses => true | _ => false end.

(** Every ground stain is on a column of the screen. *)
Definition stainsOnScreen (g : Game) : Prop :=
  forall x k, Game.redGroundTiles g !! x = Some k -> (0 <= x < Game.width g)%Z.

Definition fp_groundStains (f : Field) : bool :=
  match f with F_redGroundTiles | F_width => true | _ => false end.

Definition fp_platformStains (f : Field) : bool :=
  match f with F_redPlatformTiles => true | _ => false end.

(** *** Input *)

(** The next reading of the clock. *)
Definition nextTime (w : World) : Time := clock (runtime w) (clockReads (runtime w)).

(** The projectile that the player fires. *)
Definition playerShot (pl : Player) (p : Projectile) : Prop :=
  Projectile.Active p = true
  /\ Projectile.IsEnemy p = false
  /\ Projectile.Dir p = Player.Facing pl
  /\ Projectile.Pos p = Projectile.PrevPos p
  /\ X (Projectile.Pos p) == X (Player.Pos pl) + float64 (int_div (Player.Width pl) 2)
  /\ Y (Projectile.Pos p) == Y (Player.Pos pl) + float64 (int_div (Player.Height pl) 2).

(** *** Particles in view *)

(** A fragment that [updateDeathParticles] keeps: active, within the margin
    of 10 at either side of the screen and not below it. *)
Definition fragmentInView (g : Game) (p : DeathParticle) : Prop :=
  DeathParticle.Active p = true
  /\ -10 <= X (DeathParticle.Pos p)
  /\ X (DeathParticle.Pos p) <= float64 (Game.width g) + 10
  /\ Y (DeathParticle.Pos p) <= float64 (Game.height g).

(** A blood particle that [updateBloodParticles] keeps: active, with time
    to live, within the same margins. *)
Definition bloodInView (g : Game) (p : BloodParticle) : Prop :=
  BloodParticle.Active p = true
  /\ 0 < BloodParticle.Lifetime p
  /\ -10 <= X (BloodParticle.Pos p)
  /\ X (BloodParticle.Pos p) <= float64 (Game.width g) + 10
  /\ Y (BloodParticle.Pos p) <= float64 (Game.height g).

(** The size of the screen. *)
Definition sameScreen (g0 g : Game) : Prop :=
  Game.width g = Game.width g0 /\ Game.height g = Game.height g0.

Definition fp_screen (f : Field) : bool :=
  match f with F_width | F_height => true | _ => false end.

(** *** What is painted where *)

(** The fragment, if it is active, is on the screen. *)
Definition fragmentOnScreen (g : Game) (p : DeathParticle) : Prop :=
  DeathParticle.Active p = true ->
  let x := int (X (DeathParticle.Pos p)) in
  let y := int (Y (DeathParticle.Pos p)) in
  (0 <= x < Game.width g)%Z /\ (0 <= y < Game.height g)%Z.

(** A fragment for which the rainbow has no colour: active and red, drawn
    in every frame (it is the player's or it is in the air), at a place
    whose truncated coordinates add up to a number with a negative
    remainder modulo 6. *)
Definition rainbowHazard (p : DeathParticle) : Prop :=
  DeathParticle.Active p = true
  /\ DeathParticle.IsRed p = true
  /\ (DeathParticle.EnemyID p = 0%Z \/ DeathParticle.OnGround p = false)
  /\ (Z.rem (int_add (int (X (DeathParticle.Pos p))) (int (Y (DeathParticle.Pos p)))) 6
      < 0)%Z.

(** *** The defeat of the player *)

(** An active enemy, or an active projectile of an enemy, overlaps the box
    of the player. *)
Definition playerStruck (g : Game) : Prop :=
  let pl := Game.player g in
  let px := X (Player.Pos pl) in
  let py := Y (Player.Pos pl) in
  let pw := float64 (Player.Width pl) in
  let ph := float64 (Player.Height pl) in
  (exists e, e ∈ Game.enemies g /\ Enemy.Active e = true
             /\ px < X (Enemy.Pos e) + float64 (Enemy.Width e)
             /\ X (Enemy.Pos e) < px + pw
             /\ py < Y (Enemy.Pos e) + float64 (Enemy.Height e)
             /\ Y (Enemy.Pos e) < py + ph)
  \/ (exists p, p ∈ Game.projectiles g
                /\ Projectile.Active p = true /\ Projectile.IsEnemy p = true
                /\ X (Projectile.Pos p) < px + pw
                /\ px < X (Projectile.Pos p) + 1.0
                /\ Y (Projectile.Pos p) < py + ph
                /\ py < Y (Projectile.Pos p) + 1.0).

(** The game-over flag and the player are those of [g]. *)
Definition defeatKept (g g' : Game) : Prop :=
  Game.gameOver g' = Game.gameOver g /\ Game.player g' = Game.player g.

Definition fp_defeat (f : Field) : bool :=
  match f with F_gameOver | F_player => true | _ => false end.

(** *** The screens *)

(** The screen the game is on, what the round has scored, and its
    platforms. *)
Definition sameRound (g g' : Game) : Prop :=
  Game.inMenu g' = Game.inMenu g
  /\ Game.gameOver g' = Game.gameOver g
  /\ Game.score g' = Game.score g
  /\ Game.enemiesDefeated g' = Game.enemiesDefeated g
  /\ Game.platforms g' = Game.platforms g.

Definition fp_round (f : Field) : bool :=
  match f with
  | F_inMenu | F_gameOver | F_score | F_enemiesDefeated | F_platforms => true
  | _ => false
  end.

(** The events that leave a screen. *)
Definition pressesEnter (ev : option Event) : Prop :=
  exists ek, ev = Some (EventKeyPress ek) /\ evKey ek = KeyEnter.

Definition pressesSpace (ev : option Event) : Prop :=
  exists ek, ev = Some (EventKeyPress ek)
             /\ evKey ek = KeyRune /\ evRune ek = " "%char.

(** ** Worlds for the examples *)

(** A runtime for the examples: the clock starts at one second and advances
    by ten milliseconds per reading, every random draw is [r], and the
    functions of package [math] are replaced by crude stand-ins (the
    theorems hold for every runtime; the examples need one). *)
Definition steadyRuntime (r : Q) : Runtime :=
  {| clock := fun n => (1000000000 + Z.of_nat n * 10000000)%Z;
     clockReads := 0;
     randFloats := fun _ => r;
     randInts := fun _ => 0%Z;
     randReads := 0;
     mathSqrt := fun x => x;
     mathCos := fun _ => 1;
     mathSin := fun _ => 0;
     mathAtan2 := fun _ _ => 0 |}.

(** A running round on a screen of 80 by 24 without platforms, the player
    standing in the middle. *)
Definition arena : Game :=
  {| Game.player := startingPlayer 80 23 1000000000;
     Game.projectiles := [];
     Game.enemies := [];
     Game.deathParticles := [];
     Game.corpses := [];
     Game.bloodParticles := [];
     Game.platforms := [];
     Game.score := 0;
     Game.enemiesDefeated := 0;
     Game.enemySpawnCounter := 0;
     Game.gameOver := false;
     Game.inMenu := false;
     Game.bloodColorMode := 0;
     Game.width := 80;
     Game.height := 24;
     Game.groundY := 23;
     Game.redGroundTiles := ∅;
     Game.redPlatformTiles := ∅;
     Game.nextEnemyID := 1;
     Game.lastFrame := 1000000000;
     Game.keys := noKeys;
     Game.lastShot := zeroTime;
     Game.menuLastShot := zeroTime;
     Game.menuLastEnemySpawn := zeroTime |}.

(** Every tick spawns an enemy when each random draw is 0. *)
Definition crowdedWorld : World := mkWorld arena (steadyRuntime 0).

(** [main] on a screen of 80 by 24: the menu and its demo. *)
Definition menuWorld (r : Q) : World :=
  launch_world 80 24 (mkWorld arena (steadyRuntime r)).

(** Frames without a pending event, and the press of Space. *)
Definition idle (n : nat) : list (option Event) := replicate n None.
Definition pressSpace : option Event :=
  Some (EventKeyPress (mkEventKey KeyRune " "%char)).

(** An enemy standing on the ground at column [x]. *)
Definition enemyAt (x : Q) : Enemy := newEnemy x 23 1 false.

(** A player projectile in the row of the standing figures, at column [x],
    flying to the right. *)
Definition shotAt (x : Q) : Projectile :=
  {| Projectile.Pos := mkVec2 x 21;
     Projectile.PrevPos := mkVec2 x 21;
     Projectile.Dir := 1;
     Projectile.Active := true;
     Projectile.Frame := 0;
     Projectile.IsEnemy := false |}.

(** A fragment of the enemy with id 3 in the air at column 40. *)
Definition shard (fallsThrough : bool) (bounces : Z) (y vy : Q) : DeathParticle :=
  {| DeathParticle.Pos := mkVec2 40 y;
     DeathParticle.Vel := mkVec2 0 vy;
     DeathParticle.Char := "|"%char;
     DeathParticle.OnGround := false;
     DeathParticle.Bounces := bounces;
     DeathParticle.GroundTime := zeroTime;
     DeathParticle.Active := true;
     DeathParticle.EnemyID := 3;
     DeathParticle.IsRed := false;
     DeathParticle.AngularVel := 0;
     DeathParticle.Angle := 0;
     DeathParticle.FallsThrough := fallsThrough;
     DeathParticle.IsHead := false;
     DeathParticle.IsRolling := false;
     DeathParticle.RollDistance := 0;
     DeathParticle.RollSpeed := 0;
     DeathParticle.BouncedFromPlatform := false;
     DeathParticle.WasOnPlatform := false;
     DeathParticle.HasSplattedFromPlatform := false;
     DeathParticle.LastBloodEmit := 1000000000;
     DeathParticle.HasHitGround := false |}.

(** A drop of blood of the enemy with id 3 at column 40. *)
Definition drop (y vy : Q) : BloodParticle :=
  {| BloodParticle.Pos := mkVec2 40 y;
     BloodParticle.Vel := mkVec2 0 vy;
     BloodParticle.Char := "."%char;
     BloodParticle.Active := true;
     BloodParticle.Lifetime := 5;
     BloodParticle.EnemyID := 3 |}.

(** The arena with the given fragments, or blood, and no enemy. *)
Definition debrisWorld (ps : list DeathParticle) : World :=
  mkWorld (Game.setDeathParticles ps arena) (steadyRuntime 0.5).
Definition bloodWorld (ps : list BloodParticle) : World :=
  mkWorld (Game.setBloodParticles ps arena) (steadyRuntime 0.5).

(** A running round in which an enemy has reached the player while a
    projectile of the player and a fragment of an enemy are in the air. *)
Definition doomedWorld (r : Q) : World :=
  mkWorld
    (Game.setDeathParticles [shard false 0 10 0]
       (Game.setProjectiles [shotAt 53]
          (Game.setEnemies [enemyAt 41] arena)))
    (steadyRuntime r).

(** A running round in which the last tick, of 0.04 s, has carried a
    projectile of the player from column 48 over the enemies [es]. *)
Definition shotOver (es : list Enemy) : World :=
  mkWorld
    (Game.setProjectiles [stepProjectile (clampDeltaTime 0.04) 80 (shotAt 48)]
       (Game.setEnemies es arena))
    (steadyRuntime 0.5).

(** A headless corpse of the enemy with id 3, walking to the right from
    column 75. *)
Definition walker : Corpse :=
  {| Corpse.Pos := mkVec2 75 20;
     Corpse.Vel := mkVec2 0 0;
     Corpse.Facing := 1;
     Corpse.OnGround := true;
     Corpse.Active := true;
     Corpse.EnemyID := 3;
     Corpse.EndTime := 5000000000;
     Corpse.MoveDir := 1;
     Corpse.LastDirChange := 1000000000;
     Corpse.DirDuration := 400000000;
     Corpse.LastBloodEmit := 1000000000;
     Corpse.WasOnPlatform := false |}.

(** A red fragment of the player in the air, left of the screen at its third
    row, and the arena in the rainbow mode with that fragment. *)
Definition strayShard : DeathParticle :=
  {| DeathParticle.Pos := mkVec2 (-5.5) 3;
     DeathParticle.Vel := mkVec2 (-20) (-10);
     DeathParticle.Char := "0"%char;
     DeathParticle.OnGround := false;
     DeathParticle.Bounces := 0;
     DeathParticle.GroundTime := zeroTime;
     DeathParticle.Active := true;
     DeathParticle.EnemyID := 0;
     DeathParticle.IsRed := true;
     DeathParticle.AngularVel := 0;
     DeathParticle.Angle := 0;
     DeathParticle.FallsThrough := false;
     DeathParticle.IsHead := true;
     DeathParticle.IsRolling := false;
     DeathParticle.RollDistance := 0;
     DeathParticle.RollSpeed := 0;
     DeathParticle.BouncedFromPlatform := false;
     DeathParticle.WasOnPlatform := false;
     DeathParticle.HasSplattedFromPlatform := false;
     DeathParticle.LastBloodEmit := 1000000000;
     DeathParticle.HasHitGround := false |}.

Definition rainbowWorld : World :=
  mkWorld (Game.setBloodColorMode 2 (Game.setDeathParticles [strayShard] arena))
    (steadyRuntime 0.5).

(** A platform across the left half of the screen, and the arena with it
    and the given fragments.  At row 15 the platform is above the ground;
    at row 24.5 it is below the ground line, where a platform is left when
    the screen has become lower. *)
Definition ledge (y : Q) : Platform :=
  {| Platform.X := 0; Platform.Y := y; Platform.Width := 60; Platform.Height := 1 |}.

Definition ledgeWorld (y : Q) (ps : list DeathParticle) : World :=
  mkWorld (Game.setPlatforms [ledge y] (game (debrisWorld ps)))
          (runtime (debrisWorld ps)).

(** * Proofs *)

(** Arithmetic is kept folded when goals are simplified. *)
#[global] Arguments Qplus : simpl never.
#[global] Arguments Qminus : simpl never.
#[global] Arguments Qmult : simpl never.
#[global] Arguments Qdiv : simpl never.
#[global] Arguments Qopp : simpl never.
#[global] Arguments Qinv : simpl never.
#[global] Arguments Qabs : simpl never.
#[global] Arguments Qmin : simpl never.
#[global] Arguments Qle_bool : simpl never.
#[global] Arguments Qeq_bool : simpl never.
#[global] Arguments Qltb : simpl never.
#[global] Arguments Qgtb : simpl never.
#[global] Arguments Qgeb : simpl never.
#[global] Arguments inject_Z : simpl never.
#[global] Arguments float64 : simpl never.
#[global] Arguments int : simpl never.
#[global] Arguments mathAbs : simpl never.
#[global] Arguments mathMin : simpl never.
#[global] Arguments wrap64 : simpl never.
#[global] Arguments int_add : simpl never.
#[global] Arguments int_sub : simpl never.
#[global] Arguments int_mul : simpl never.
#[global] Arguments int_neg : simpl never.
#[global] Arguments int_div : simpl never.
#[global] Arguments int_rem : simpl never.
#[global] Arguments dur_mul : simpl never.
#[global] Arguments dur_add : simpl never.
#[global] Arguments dur_sub : simpl never.
#[global] Arguments Sub : simpl never.
#[global] Arguments After : simpl never.
#[global] Arguments Add : simpl never.
#[global] Arguments IsZero : simpl never.
#[global] Arguments DurationOf : simpl never.
#[global] Arguments Z.add : simpl never.
#[global] Arguments Z.sub : simpl never.
#[global] Arguments Z.mul : simpl never.
#[global] Arguments Z.ltb : simpl never.
#[global] Arguments Z.leb : simpl never.
#[global] Arguments Z.eqb : simpl never.

(** ** Rules *)

Lemma wp_ret {A} (a : A) Q w : wp (ret a) Q w <-> Q a w.
Proof. reflexivity. Qed.

Lemma wp_bind {A B} (m : M A) (k : A -> M B) Q w :
  wp (bind m k) Q w <-> wp m (fun a w' => wp (k a) Q w') w.
Proof. unfold wp, bind. destruct (m w) as [a w']. reflexivity. Qed.

Lemma wp_conseq {A} (m : M A) (Q Q' : A -> World -> Prop) w :
  wp m Q w -> (forall a w', Q a w' -> Q' a w') -> wp m Q' w.
Proof. unfold wp. auto. Qed.

Lemma wp_getG Q w : wp getG Q w <-> Q (game w) w.
Proof. reflexivity. Qed.

Lemma wp_gets {A} (f : Game -> A) Q w : wp (gets f) Q w <-> Q (f (game w)) w.
Proof. reflexivity. Qed.

Lemma wp_modifyG f Q w :
  wp (modifyG f) Q w <-> Q tt (mkWorld (f (game w)) (runtime w)).
Proof. reflexivity. Qed.

Lemma pureM_ret {A} (a : A) : pureM (ret a).
Proof. intros w. reflexivity. Qed.

Lemma pureM_bind {A B} (m : M A) (k : A -> M B) :
  pureM m -> (forall a, pureM (k a)) -> pureM (bind m k).
Proof.
  intros Hm Hk w. unfold bind. specialize (Hm w).
  destruct (m w) as [a w']. simpl in Hm. rewrite Hk. exact Hm.
Qed.

Lemma pureM_getG : pureM getG.
Proof. intros w. reflexivity. Qed.
Lemma pureM_gets {A} (f : Game -> A) : pureM (gets f).
Proof. intros w. reflexivity. Qed.
Lemma pureM_timeNow : pureM timeNow.
Proof. intros w. reflexivity. Qed.
Lemma pureM_randFloat64 : pureM randFloat64.
Proof. intros w. reflexivity. Qed.
Lemma pureM_randIntn n : pureM (randIntn n).
Proof. intros w. reflexivity. Qed.
Lemma pureM_Sqrt x : pureM (Sqrt x).
Proof. intros w. reflexivity. Qed.
Lemma pureM_Cos x : pureM (Cos x).
Proof. intros w. reflexivity. Qed.
Lemma pureM_Sin x : pureM (Sin x).
Proof. intros w. reflexivity. Qed.
Lemma pureM_Atan2 y x : pureM (Atan2 y x).
Proof. intros w. reflexivity. Qed.

Create HintDb pure discriminated.
#[export] Hint Constants Opaque : pure.
#[export] Hint Resolve pureM_ret pureM_getG pureM_gets pureM_timeNow
  pureM_randFloat64 pureM_randIntn pureM_Sqrt pureM_Cos pureM_Sin pureM_Atan2
  : pure.

(** Forgets the definition of a [let]-bound value in front of the code. *)
Ltac forget_let :=
  lazymatch goal with
  | |- ?P (let x := ?e in @?m x) =>
      let y := fresh x in
      let H := fresh in
      cut (forall y, P (m y));
      [ intro H; exact (H e) | intro y; cbv beta ]
  end.

Ltac pure_step :=
  lazymatch goal with
  | |- pureM (let x := _ in _) => forget_let
  | |- pureM (bind _ _) => apply pureM_bind; [ | intros ]
  | |- pureM (if ?c then _ else _) => destruct c
  | |- pureM (match ?x with _ => _ end) => destruct x
  | |- pureM _ => solve [auto with pure]
  end.

Ltac pure_tac := repeat pure_step.

Lemma pureM_timeSince t : pureM (timeSince t).
Proof. unfold timeSince. pure_tac. Qed.
#[export] Hint Resolve pureM_timeSince : pure.

Lemma pureM_makePlatform i s gl : pureM (makePlatform i s gl).
Proof. unfold makePlatform. pure_tac. Qed.
#[export] Hint Resolve pureM_makePlatform : pure.

Lemma pureM_platformLoop n : forall i s gl, pureM (platformLoop n i s gl).
Proof. induction n; intros; simpl; pure_tac. Qed.
#[export] Hint Resolve pureM_platformLoop : pure.

Lemma pureM_generatePlatforms width groundY : pureM (generatePlatforms width groundY).
Proof. unfold generatePlatforms. pure_tac. Qed.
#[export] Hint Resolve pureM_generatePlatforms : pure.

(** ** Invariants *)

Lemma preserves_ret {A} I (a : A) : preserves I (ret a).
Proof. intros w H. exact H. Qed.

Lemma preserves_bind {A B} I (m : M A) (k : A -> M B) :
  preserves I m -> (forall a, preserves I (k a)) -> preserves I (bind m k).
Proof.
  intros Hm Hk w H. unfold bind. specialize (Hm w H).
  destruct (m w) as [a w']. simpl in Hm. apply Hk, Hm.
Qed.

Lemma preserves_pure {A} I (m : M A) : pureM m -> preserves I m.
Proof. intros Hm w H. rewrite Hm. exact H. Qed.

Lemma preserves_modifyG I f :
  (forall g, I g -> I (f g)) -> preserves I (modifyG f).
Proof. intros Hf w H. simpl. apply Hf, H. Qed.

Lemma preserves_when I b m : preserves I m -> preserves I (when b m).
Proof. destruct b; simpl; auto using preserves_ret. Qed.

Lemma preserves_forEachM {A} I (body : A -> M A) xs :
  (forall x, preserves I (body x)) -> preserves I (forEachM body xs).
Proof.
  intros Hb. induction xs as [|x xs IH]; simpl.
  - apply preserves_ret.
  - apply preserves_bind; [apply Hb|]. intros x'.
    apply preserves_bind; [apply IH|]. intros xs'. apply preserves_ret.
Qed.

Lemma preserves_repeatM I n body :
  preserves I body -> preserves I (repeatM n body).
Proof.
  intros Hb. induction n as [|n IH]; simpl.
  - apply preserves_ret.
  - apply preserves_bind; [apply Hb|]. intros _. apply IH.
Qed.

Lemma preserves_forPieces I body pieces :
  (forall piece, preserves I (body piece)) -> preserves I (forPieces body pieces).
Proof.
  intros Hb. induction pieces as [|x xs IH]; simpl.
  - apply preserves_ret.
  - apply preserves_bind; [apply Hb|]. intros _. apply IH.
Qed.

Lemma unchanged_refl f g : unchanged f g g.
Proof. destruct f; reflexivity. Qed.

Lemma unchanged_trans f g1 g2 g3 :
  unchanged f g1 g2 -> unchanged f g2 g3 -> unchanged f g1 g3.
Proof. destruct f; simpl; congruence. Qed.

Lemma touches_intro {A} fp (m : M A) :
  (forall f g0, fp f = false -> preserves (unchanged f g0) m) -> touches fp m.
Proof. intros H w f Hf. apply (H f (game w) Hf w), unchanged_refl. Qed.

Lemma touches_preserves {A} fp (m : M A) f g0 :
  touches fp m -> fp f = false -> preserves (unchanged f g0) m.
Proof.
  intros Hm Hf w H. eapply unchanged_trans; [exact H|]. apply Hm, Hf.
Qed.

Create HintDb touch discriminated.
#[export] Hint Constants Opaque : touch.

(** Reduces the projections of [Game] applied to its setters, and nothing
    else. *)
Ltac game_fields :=
  lazy beta iota zeta delta
    [unchanged
     Game.player Game.projectiles Game.enemies Game.deathParticles Game.corpses
     Game.bloodParticles Game.platforms Game.score Game.enemiesDefeated
     Game.enemySpawnCounter Game.gameOver Game.inMenu Game.bloodColorMode
     Game.width Game.height Game.groundY Game.redGroundTiles
     Game.redPlatformTiles Game.nextEnemyID Game.lastFrame Game.keys
     Game.lastShot Game.menuLastShot Game.menuLastEnemySpawn
     Game.setPlayer Game.setProjectiles Game.setEnemies Game.setDeathParticles
     Game.setCorpses Game.setBloodParticles Game.setPlatforms Game.setScore
     Game.setEnemiesDefeated Game.setEnemySpawnCounter Game.setGameOver
     Game.setInMenu Game.setBloodColorMode Game.setWidth Game.setHeight
     Game.setGroundY Game.setRedGroundTiles Game.setRedPlatformTiles
     Game.setNextEnemyID Game.setLastFrame Game.setKeys Game.setLastShot
     Game.setMenuLastShot Game.setMenuLastEnemySpawn].

(** A field that the update function of a [modifyG] does not assign. *)
Ltac solve_modify :=
  let g := fresh "g" in
  let H := fresh "H" in
  intros g H; destruct g; revert H; game_fields; exact (fun H => H).

Ltac pres_step :=
  lazymatch goal with
  | |- preserves _ (ret _) => apply preserves_ret
  | |- preserves _ (let x := _ in _) => forget_let
  | |- preserves _ (bind _ _) => apply preserves_bind; [ | intros ]
  | |- preserves _ (when _ _) => apply preserves_when
  | |- preserves _ (forEachM _ _) => apply preserves_forEachM; intros
  | |- preserves _ (repeatM _ _) => apply preserves_repeatM
  | |- preserves _ (forPieces _ _) => apply preserves_forPieces; intros
  | |- preserves _ (modifyG _) => apply preserves_modifyG; solve_modify
  | |- preserves _ (if ?c then _ else _) => destruct c
  | |- preserves _ (match ?x with _ => _ end) => destruct x
  | |- preserves _ _ =>
      first
        [ assumption
        | match goal with IH : forall _, preserves _ _ |- _ => apply IH end
        | apply preserves_pure; solve [auto with pure]
        | eapply touches_preserves; [ solve [eauto with touch] | reflexivity ] ]
  end.

Ltac pres_tac := repeat pres_step.

(** Proves [touches fp m] field by field. *)
Ltac touches_tac unfolder :=
  let f := fresh "f" in
  let g0 := fresh "g0" in
  let Hf := fresh "Hf" in
  apply touches_intro; intros f g0 Hf;
  destruct f; try discriminate Hf; clear Hf;
  unfolder; pres_tac.

Lemma touches_emitOneBlood p impact : touches fp_blood (emitOneBlood p impact).
Proof. touches_tac ltac:(unfold emitOneBlood). Qed.
#[export] Hint Resolve touches_emitOneBlood : touch.

Lemma touches_emitBloodFromParticle p intensity impact :
  touches fp_blood (emitBloodFromParticle p intensity impact).
Proof. touches_tac ltac:(unfold emitBloodFromParticle). Qed.
#[export] Hint Resolve touches_emitBloodFromParticle : touch.

Lemma touches_emitImpact p : touches fp_blood (emitImpact p).
Proof. touches_tac ltac:(unfold emitImpact). Qed.
#[export] Hint Resolve touches_emitImpact : touch.

Lemma touches_markGroundRed tileX enemyID wasOnPlatform :
  touches fp_stains (markGroundRed tileX enemyID wasOnPlatform).
Proof. touches_tac ltac:(unfold markGroundRed). Qed.
#[export] Hint Resolve touches_markGroundRed : touch.

Lemma touches_markPlatformRed platformIndex tileX enemyID :
  touches fp_stains (markPlatformRed platformIndex tileX enemyID).
Proof. touches_tac ltac:(unfold markPlatformRed). Qed.
#[export] Hint Resolve touches_markPlatformRed : touch.

Lemma touches_addDeathParticle p : touches fp_burst (addDeathParticle p).
Proof. touches_tac ltac:(unfold addDeathParticle). Qed.
#[export] Hint Resolve touches_addDeathParticle : touch.

Lemma pureM_rollOfHead isHead : pureM (rollOfHead isHead).
Proof. unfold rollOfHead. pure_tac. Qed.
Lemma pureM_launch : pureM launch.
Proof. unfold launch. pure_tac. Qed.
#[export] Hint Resolve pureM_rollOfHead pureM_launch : pure.

Lemma touches_spawnPiece head pos enemyID wasOnPlatform piece :
  touches fp_burst (spawnPiece head pos enemyID wasOnPlatform piece).
Proof. touches_tac ltac:(unfold spawnPiece). Qed.
#[export] Hint Resolve touches_spawnPiece : touch.

Lemma touches_createPlayerDeathParticles :
  touches fp_burst createPlayerDeathParticles.
Proof. touches_tac ltac:(unfold createPlayerDeathParticles). Qed.
#[export] Hint Resolve touches_createPlayerDeathParticles : touch.

Lemma touches_createDeathParticlesAt pos facing enemyID wasOnPlatform :
  touches fp_burst (createDeathParticlesAt pos facing enemyID wasOnPlatform).
Proof. touches_tac ltac:(unfold createDeathParticlesAt). Qed.
#[export] Hint Resolve touches_createDeathParticlesAt : touch.

Lemma touches_createDecap e : touches fp_kill (createDecap e).
Proof. touches_tac ltac:(unfold createDecap). Qed.
#[export] Hint Resolve touches_createDecap : touch.

Lemma touches_createDeathParticles e : touches fp_kill (createDeathParticles e).
Proof. touches_tac ltac:(unfold createDeathParticles). Qed.
#[export] Hint Resolve touches_createDeathParticles : touch.

(** Footprint of a loop written as a [Fixpoint] on the list [l], whose
    other varying argument is [x]: by induction. *)
Ltac touches_fix l x :=
  let f := fresh "f" in
  let g0 := fresh "g0" in
  let Hf := fresh "Hf" in
  apply touches_intro; intros f g0 Hf; revert x;
  destruct f; try discriminate Hf; clear Hf;
  induction l; intros; simpl; pres_tac.

Lemma pureM_jumpCooledDown e : pureM (jumpCooledDown e).
Proof. unfold jumpCooledDown. pure_tac. Qed.
Lemma pureM_enemyJump js e : pureM (enemyJump js e).
Proof. unfold enemyJump. pure_tac. Qed.
Lemma pureM_randomShotDelay : pureM randomShotDelay.
Proof. unfold randomShotDelay. pure_tac. Qed.
#[export] Hint Resolve pureM_jumpCooledDown pureM_enemyJump pureM_randomShotDelay
  : pure.

Lemma pureM_enemyPlatformHop js platforms : forall e, pureM (enemyPlatformHop js e platforms).
Proof. induction platforms; intros; simpl; pure_tac. Qed.
#[export] Hint Resolve pureM_enemyPlatformHop : pure.

Lemma pureM_enemyJumping js e : pureM (enemyJumping js e).
Proof. unfold enemyJumping. pure_tac. Qed.
#[export] Hint Resolve pureM_enemyJumping : pure.

Lemma pureM_playerPlatformCollisions platforms :
  forall pl, pureM (playerPlatformCollisions pl platforms).
Proof. induction platforms; intros; simpl; pure_tac. Qed.
#[export] Hint Resolve pureM_playerPlatformCollisions : pure.

Lemma touches_updatePlayer dt : touches fp_player (updatePlayer dt).
Proof. touches_tac ltac:(unfold updatePlayer). Qed.
#[export] Hint Resolve touches_updatePlayer : touch.

Lemma touches_updateProjectiles dt : touches fp_projectiles (updateProjectiles dt).
Proof. touches_tac ltac:(unfold updateProjectiles). Qed.
#[export] Hint Resolve touches_updateProjectiles : touch.

Lemma touches_enemyShooting e : touches fp_projectiles (enemyShooting e).
Proof. touches_tac ltac:(unfold enemyShooting). Qed.
#[export] Hint Resolve touches_enemyShooting : touch.

Lemma touches_stepEnemy dt e : touches fp_projectiles (stepEnemy dt e).
Proof. touches_tac ltac:(unfold stepEnemy). Qed.
#[export] Hint Resolve touches_stepEnemy : touch.

Lemma touches_spawnEnemy : touches fp_spawn spawnEnemy.
Proof. touches_tac ltac:(unfold spawnEnemy). Qed.
#[export] Hint Resolve touches_spawnEnemy : touch.

Lemma touches_updateEnemies dt : touches fp_enemies (updateEnemies dt).
Proof. touches_tac ltac:(unfold updateEnemies). Qed.
#[export] Hint Resolve touches_updateEnemies : touch.

Lemma touches_corpseWander dt speed gravity groundY now g c :
  touches (fun _ => false) (corpseWander dt speed gravity groundY now g c).
Proof. touches_tac ltac:(unfold corpseWander). Qed.
#[export] Hint Resolve touches_corpseWander : touch.

Lemma touches_corpseBleed speed now c : touches fp_blood (corpseBleed speed now c).
Proof. touches_tac ltac:(unfold corpseBleed). Qed.
#[export] Hint Resolve touches_corpseBleed : touch.

Lemma touches_corpseExpire now c : touches fp_burst (corpseExpire now c).
Proof. touches_tac ltac:(unfold corpseExpire). Qed.
#[export] Hint Resolve touches_corpseExpire : touch.

Lemma touches_stepCorpse dt now c : touches fp_burst (stepCorpse dt now c).
Proof. touches_tac ltac:(unfold stepCorpse). Qed.
#[export] Hint Resolve touches_stepCorpse : touch.

Lemma touches_updateCorpses dt : touches fp_corpses (updateCorpses dt).
Proof. touches_tac ltac:(unfold updateCorpses). Qed.
#[export] Hint Resolve touches_updateCorpses : touch.

Lemma touches_trailBlood p : touches fp_blood (trailBlood p).
Proof. touches_tac ltac:(unfold trailBlood). Qed.
#[export] Hint Resolve touches_trailBlood : touch.

Lemma touches_onPlatformTop bd platform p : touches fp_blood (onPlatformTop bd platform p).
Proof. touches_tac ltac:(unfold onPlatformTop). Qed.
#[export] Hint Resolve touches_onPlatformTop : touch.

Lemma touches_particlePlatformCollisions bd platforms p :
  touches fp_blood (particlePlatformCollisions bd p platforms).
Proof. touches_fix platforms p. Qed.
#[export] Hint Resolve touches_particlePlatformCollisions : touch.

Lemma pureM_dwellExpired p : pureM (dwellExpired p).
Proof. unfold dwellExpired. pure_tac. Qed.
#[export] Hint Resolve pureM_dwellExpired : pure.

Lemma pureM_restOnPlatform onPlatform p : pureM (restOnPlatform onPlatform p).
Proof. unfold restOnPlatform. pure_tac. Qed.
#[export] Hint Resolve pureM_restOnPlatform : pure.

Lemma touches_groundCollision groundY bd onPlatform p :
  touches fp_blood (groundCollision groundY bd onPlatform p).
Proof.
  touches_tac ltac:(unfold groundCollision, groundNormal, groundBounce,
                    groundSettle, groundRest).
Qed.
#[export] Hint Resolve touches_groundCollision : touch.

Lemma touches_rolling dt p : touches fp_blood (rolling dt p).
Proof. touches_tac ltac:(unfold rolling). Qed.
#[export] Hint Resolve touches_rolling : touch.

Lemma touches_stepDeathParticle dt p : touches fp_blood (stepDeathParticle dt p).
Proof. touches_tac ltac:(unfold stepDeathParticle). Qed.
#[export] Hint Resolve touches_stepDeathParticle : touch.

Lemma touches_updateDeathParticles dt : touches fp_corpses (updateDeathParticles dt).
Proof. touches_tac ltac:(unfold updateDeathParticles). Qed.
#[export] Hint Resolve touches_updateDeathParticles : touch.

Lemma touches_bloodPlatformCollisions platforms p idx :
  touches fp_stains (bloodPlatformCollisions p idx platforms).
Proof. touches_fix platforms idx. Qed.
#[export] Hint Resolve touches_bloodPlatformCollisions : touch.

Lemma touches_stepBloodParticle dt p : touches fp_stains (stepBloodParticle dt p).
Proof. touches_tac ltac:(unfold stepBloodParticle). Qed.
#[export] Hint Resolve touches_stepBloodParticle : touch.

Lemma touches_updateBloodParticles dt :
  touches fp_bloodUpdate (updateBloodParticles dt).
Proof. touches_tac ltac:(unfold updateBloodParticles). Qed.
#[export] Hint Resolve touches_updateBloodParticles : touch.

Lemma touches_checkAndClearRedTiles : touches fp_stains checkAndClearRedTiles.
Proof. touches_tac ltac:(unfold checkAndClearRedTiles). Qed.
#[export] Hint Resolve touches_checkAndClearRedTiles : touch.

Lemma touches_scoreKill : touches fp_collisions scoreKill.
Proof. touches_tac ltac:(unfold scoreKill). Qed.
#[export] Hint Resolve touches_scoreKill : touch.

Lemma touches_projectileVsEnemies test onKill p es :
  touches fp_collisions onKill ->
  touches fp_collisions (projectileVsEnemies test onKill p es).
Proof. intros HK. touches_fix es p. Qed.
#[export] Hint Resolve touches_projectileVsEnemies : touch.

Lemma touches_projectilesVsEnemies test onKill ps es :
  touches fp_collisions onKill ->
  touches fp_collisions (projectilesVsEnemies test onKill ps es).
Proof. intros HK. touches_fix ps es. Qed.
#[export] Hint Resolve touches_projectilesVsEnemies : touch.

Lemma touches_playerDefeated : touches fp_collisions playerDefeated.
Proof. touches_tac ltac:(unfold playerDefeated). Qed.
#[export] Hint Resolve touches_playerDefeated : touch.

Lemma touches_checkCollisions : touches fp_collisions checkCollisions.
Proof. touches_tac ltac:(unfold checkCollisions). Qed.
#[export] Hint Resolve touches_checkCollisions : touch.

(** ** The stain sweep *)

Lemma collect_lookup {P} (active : P -> bool) (id : P -> Z) (ps : list P)
  (ids : gmap Z bool) (k : Z) :
  foldl (fun ids p => if active p then <[id p := true]> ids else ids) ids ps !! k
  = Some true <->
  ids !! k = Some true \/ exists p, p ∈ ps /\ active p = true /\ id p = k.
Proof.
  revert ids. induction ps as [|p ps IH]; intros ids; simpl.
  - split; [auto|]. intros [H|(p & Hp & _)]; [exact H|]. inversion Hp.
  - rewrite IH. split.
    + intros [H|(q & Hq & Ha & Hi)].
      * destruct (active p) eqn:Ha.
        -- destruct (decide (id p = k)) as [<-|Hne].
           ++ right. exists p. split; [left|]; auto.
           ++ rewrite lookup_insert_ne in H by done. auto.
        -- auto.
      * right. exists q. split; [right|]; auto.
    + intros [H|(q & Hq & Ha & Hi)].
      * left. destruct (active p); [|exact H].
        destruct (decide (id p = k)) as [<-|Hne].
        -- apply lookup_insert_eq.
        -- rewrite lookup_insert_ne by done. exact H.
      * apply elem_of_cons in Hq as [->|Hq].
        -- left. rewrite Ha, <- Hi. apply lookup_insert_eq.
        -- right. eauto.
Qed.

Lemma isActiveID_true ids k : isActiveID ids k = true <-> ids !! k = Some true.
Proof.
  unfold isActiveID. destruct (ids !! k) as [[]|]; simpl; split; congruence.
Qed.

Lemma collectActiveEnemyIDs_spec g k :
  isActiveID (collectActiveEnemyIDs g) k = true <-> hasActiveParticle g k.
Proof.
  rewrite isActiveID_true. unfold collectActiveEnemyIDs, hasActiveParticle.
  rewrite (collect_lookup BloodParticle.Active BloodParticle.EnemyID).
  rewrite (collect_lookup DeathParticle.Active DeathParticle.EnemyID).
  rewrite lookup_empty. split.
  - intros [[H|H]|H]; [discriminate|auto|auto].
  - intros [H|H]; auto.
Qed.

Lemma staleTiles_lookup ids (tiles : gmap Z Z) x :
  staleTiles ids tiles !! x =
  match tiles !! x with
  | Some k => if isActiveID ids k then None else Some true
  | None => None
  end.
Proof.
  unfold staleTiles.
  apply (map_fold_weak_ind (fun (r : gmap Z bool) (m : gmap Z Z) =>
    r !! x = match m !! x with
             | Some k => if isActiveID ids k then None else Some true
             | None => None
             end)).
  - rewrite !lookup_empty. reflexivity.
  - intros i k m r Hi IH.
    destruct (decide (i = x)) as [->|Hne].
    + rewrite lookup_insert_eq. rewrite Hi in IH.
      destruct (isActiveID ids k); simpl.
      * exact IH.
      * apply lookup_insert_eq.
    + rewrite (lookup_insert_ne m) by done.
      destruct (negb (isActiveID ids k)); [rewrite lookup_insert_ne by done|]; exact IH.
Qed.

Lemma clearTiles_lookup (tilesToClear : gmap Z bool) (tiles : gmap Z Z) x :
  clearTiles tilesToClear tiles !! x =
  match tilesToClear !! x with
  | Some _ => None
  | None => tiles !! x
  end.
Proof.
  unfold clearTiles.
  apply (map_fold_weak_ind (fun (r : gmap Z Z) (m : gmap Z bool) =>
    r !! x = match m !! x with Some _ => None | None => tiles !! x end)).
  - rewrite lookup_empty. reflexivity.
  - intros i b m r Hi IH.
    destruct (decide (i = x)) as [->|Hne].
    + rewrite lookup_insert_eq. apply lookup_delete_eq.
    + rewrite lookup_insert_ne by done. rewrite lookup_delete_ne by done. exact IH.
Qed.

(** What the sweep keeps of a stain map: the stains of the active ids. *)
Lemma sweep_lookup ids (tiles : gmap Z Z) x :
  clearTiles (staleTiles ids tiles) tiles !! x =
  match tiles !! x with
  | Some k => if isActiveID ids k then Some k else None
  | None => None
  end.
Proof.
  rewrite clearTiles_lookup, staleTiles_lookup.
  destruct (tiles !! x) as [k|]; [|reflexivity].
  destruct (isActiveID ids k); reflexivity.
Qed.

Lemma checkAndClearRedTiles_game w :
  game (snd (checkAndClearRedTiles w)) =
  let g := game w in
  let ids := collectActiveEnemyIDs g in
  Game.setRedPlatformTiles
    (clearTiles (staleTiles ids (Game.redPlatformTiles g)) (Game.redPlatformTiles g))
    (Game.setRedGroundTiles
       (clearTiles (staleTiles ids (Game.redGroundTiles g)) (Game.redGroundTiles g)) g).
Proof. destruct w as [g r]. destruct g. reflexivity. Qed.

(** C7.  Immediately after [checkAndClearRedTiles], every remaining entry of
    the ground stain map and of the platform stain map references a source
    id that has an active fragment or an active blood particle; hence no
    entry references an id with no active fragment and no active blood
    particle. *)
Theorem C7_sweep_leaves_only_live_stains (w : World) :
  let g' := game (snd (checkAndClearRedTiles w)) in
  (forall x k, Game.redGroundTiles g' !! x = Some k -> hasActiveParticle g' k)
  /\ (forall key k, Game.redPlatformTiles g' !! key = Some k -> hasActiveParticle g' k)
  /\ (forall k, ~ hasActiveParticle g' k ->
        (forall x, Game.redGroundTiles g' !! x <> Some k)
        /\ (forall key, Game.redPlatformTiles g' !! key <> Some k)).
Proof.
  intros g'.
  assert (Hlive : forall k, hasActiveParticle g' k <-> hasActiveParticle (game w) k).
  { intros k. subst g'. rewrite checkAndClearRedTiles_game.
    destruct w as [g r]. destruct g. reflexivity. }
  assert (Hground : forall x k,
    Game.redGroundTiles g' !! x = Some k -> hasActiveParticle g' k).
  { intros x k. rewrite Hlive. subst g'. rewrite checkAndClearRedTiles_game.
    destruct w as [g r]. destruct g. simpl. rewrite sweep_lookup.
    destruct (_ !! x) as [k'|]; [|discriminate].
    destruct (isActiveID _ k') eqn:Hk; [|discriminate].
    intros [= <-]. apply collectActiveEnemyIDs_spec in Hk. exact Hk. }
  assert (Hplatform : forall key k,
    Game.redPlatformTiles g' !! key = Some k -> hasActiveParticle g' k).
  { intros x k. rewrite Hlive. subst g'. rewrite checkAndClearRedTiles_game.
    destruct w as [g r]. destruct g. simpl. rewrite sweep_lookup.
    destruct (_ !! x) as [k'|]; [|discriminate].
    destruct (isActiveID _ k') eqn:Hk; [|discriminate].
    intros [= <-]. apply collectActiveEnemyIDs_spec in Hk. exact Hk. }
  split; [exact Hground|]. split; [exact Hplatform|].
  intros k Hk. split; intros x Hx; apply Hk; eauto.
Qed.

Lemma exec_bind {A B} (m : M A) (k : A -> M B) w :
  exec (bind m k) w = exec (k (eval m w)) (exec m w).
Proof. unfold exec, eval, bind. destruct (m w). reflexivity. Qed.

Lemma eval_bind {A B} (m : M A) (k : A -> M B) w :
  eval (bind m k) w = eval (k (eval m w)) (exec m w).
Proof. unfold exec, eval, bind. destruct (m w). reflexivity. Qed.

Lemma touches_exec {A} fp (m : M A) w f :
  touches fp m -> fp f = false -> unchanged f (game w) (game (exec m w)).
Proof. intros H Hf. apply H, Hf. Qed.

(** ** [handleInput] *)

Lemma touches_handleInput ev : touches fp_input (handleInput ev).
Proof.
  touches_tac ltac:(unfold handleInput, startGame, restartGame, toggleBloodColor,
                    pressKey, firePlayerProjectile).
Qed.

(** C9.  The resets of [handleInput] (Space in the menu, Enter at game over),
    like every other key, leave [g.corpses] as it is: a corpse that is active
    before the reset is active after it. *)
Theorem C9_reset_keeps_corpses (ev : EventKey) (w : World) :
  Game.corpses (game (exec (handleInput ev) w)) = Game.corpses (game w).
Proof. apply (touches_exec fp_input (handleInput ev) w F_corpses); [apply touches_handleInput|reflexivity]. Qed.

(** ** Rules for [wp] *)

Lemma wp_bind_getG {B} (k : Game -> M B) Q w :
  wp (k (game w)) Q w -> wp (bind getG k) Q w.
Proof. intros H. apply wp_bind. exact H. Qed.

Lemma wp_bind_gets {A B} (f : Game -> A) (k : A -> M B) Q w :
  wp (k (f (game w))) Q w -> wp (bind (gets f) k) Q w.
Proof. intros H. apply wp_bind. exact H. Qed.

Lemma wp_bind_modifyG {B} f (k : unit -> M B) Q w :
  wp (k tt) Q (mkWorld (f (game w)) (runtime w)) -> wp (bind (modifyG f) k) Q w.
Proof. intros H. apply wp_bind. exact H. Qed.

Lemma wp_pure {A} (m : M A) Q w :
  pureM m -> (forall a r, Q a (mkWorld (game w) r)) -> wp m Q w.
Proof.
  intros Hm H. unfold wp. specialize (Hm w).
  destruct (m w) as [a [g r]]. simpl in *. subst g. apply H.
Qed.

Lemma wp_bind_pure {A B} (m : M A) (k : A -> M B) Q w :
  pureM m -> (forall a r, wp (k a) Q (mkWorld (game w) r)) -> wp (bind m k) Q w.
Proof. intros Hm H. apply wp_bind. apply wp_pure; [exact Hm|]. exact H. Qed.

Lemma wp_bind_cut {A B} (m : M A) (k : A -> M B) (R : A -> World -> Prop) Q w :
  wp m R w -> (forall a w', R a w' -> wp (k a) Q w') -> wp (bind m k) Q w.
Proof. intros Hm H. apply wp_bind. eapply wp_conseq; [exact Hm|]. exact H. Qed.

Lemma wp_when b m (Q : unit -> World -> Prop) w :
  (b = true -> wp m Q w) -> (b = false -> Q tt w) -> wp (when b m) Q w.
Proof. destruct b; simpl; intros H1 H2; [apply H1|apply H2]; reflexivity. Qed.

Lemma wp_exec {A} (m : M A) (Q : A -> World -> Prop) w :
  wp m Q w -> Q (eval m w) (exec m w).
Proof. exact (fun H => H). Qed.

(** Reduces the projections and setters of the records on constructors,
    and nothing else; [let]s stay. *)
Ltac rec_red :=
  cbn beta iota delta
    [fst snd X Y
     Corpse.Pos Corpse.Vel Corpse.Facing Corpse.OnGround Corpse.Active
     Corpse.EnemyID Corpse.EndTime Corpse.MoveDir Corpse.LastDirChange
     Corpse.DirDuration Corpse.LastBloodEmit Corpse.WasOnPlatform
     Corpse.setPos Corpse.setVel Corpse.setOnGround Corpse.setActive
     Corpse.setMoveDir Corpse.setLastDirChange Corpse.setDirDuration
     Corpse.setLastBloodEmit Corpse.setWasOnPlatform Corpse.setPosX
     Corpse.setPosY Corpse.setVelY
     DeathParticle.Pos DeathParticle.Vel DeathParticle.Char
     DeathParticle.OnGround DeathParticle.Bounces DeathParticle.GroundTime
     DeathParticle.Active DeathParticle.EnemyID DeathParticle.IsRed
     DeathParticle.AngularVel DeathParticle.Angle DeathParticle.FallsThrough
     DeathParticle.IsHead DeathParticle.IsRolling DeathParticle.RollDistance
     DeathParticle.RollSpeed DeathParticle.BouncedFromPlatform
     DeathParticle.WasOnPlatform DeathParticle.HasSplattedFromPlatform
     DeathParticle.LastBloodEmit DeathParticle.HasHitGround
     DeathParticle.setPos DeathParticle.setVel DeathParticle.setOnGround
     DeathParticle.setBounces DeathParticle.setGroundTime
     DeathParticle.setActive DeathParticle.setIsRolling
     DeathParticle.setRollDistance DeathParticle.setBouncedFromPlatform
     DeathParticle.setWasOnPlatform DeathParticle.setLastBloodEmit
     DeathParticle.setHasHitGround DeathParticle.setPosX DeathParticle.setPosY
     DeathParticle.setVelX DeathParticle.setVelY
     BloodParticle.Pos BloodParticle.Vel BloodParticle.Char
     BloodParticle.Active BloodParticle.Lifetime BloodParticle.EnemyID
     BloodParticle.setPos BloodParticle.setVel BloodParticle.setActive
     BloodParticle.setLifetime
     Enemy.Pos Enemy.Vel Enemy.Facing Enemy.Width Enemy.Height Enemy.Active
     Enemy.CanShoot Enemy.LastShot Enemy.NextShotDelay Enemy.OnGround
     Enemy.JumpCooldown
     Enemy.setPos Enemy.setVel Enemy.setFacing Enemy.setActive
     Enemy.setLastShot Enemy.setNextShotDelay Enemy.setOnGround
     Enemy.setJumpCooldown Enemy.setPosX Enemy.setPosY Enemy.setVelY
     Projectile.Pos Projectile.PrevPos Projectile.Dir Projectile.Active
     Projectile.Frame Projectile.IsEnemy
     Projectile.setPos Projectile.setPrevPos Projectile.setActive
     Projectile.setFrame Projectile.setPosX
     game runtime].

(** A [let] in front of the code: a conditional value is split into its
    cases, any other value is substituted. *)
Ltac wp_let :=
  lazymatch goal with
  | |- wp (let x := ?e in @?m x) ?Q ?w =>
      lazymatch e with
      | (if ?b then _ else _) => destruct b eqn:?
      | (let y := ?e1 in @?e2 y) =>
          change (wp (let y := e1 in let x := e2 y in m x) Q w); cbv beta
      | _ => change (wp (m e) Q w); rec_red
      end
  end.

Lemma wp_bind_intro {A B} (m : M A) (k : A -> M B) Q w :
  wp m (fun a w' => wp (k a) Q w') w -> wp (bind m k) Q w.
Proof. apply wp_bind. Qed.

Ltac wp_step :=
  lazymatch goal with
  | |- wp (ret _) _ _ => apply wp_ret; cbv beta
  | |- wp (let x := _ in _) _ _ => wp_let
  | |- wp (bind _ _) _ _ => apply wp_bind_intro
  | |- wp getG _ _ => apply wp_getG; cbv beta
  | |- wp (gets _) _ _ => apply wp_gets; cbv beta
  | |- wp (modifyG _) _ _ => apply wp_modifyG; cbv beta; cbn [game runtime]
  | |- wp (if ?b then _ else _) _ _ => destruct b eqn:?
  | |- wp (when ?b _) _ _ => destruct b eqn:?; cbn [when]
  | |- wp (match ?x with _ => _ end) _ _ => is_var x; destruct x
  | |- wp _ _ _ =>
      apply wp_pure;
      [ solve [auto with pure] | intros; cbv beta; cbn [game runtime] ]
  end.

Ltac wp_steps := repeat wp_step.

(** Uses the specification [lem] of the code in front. *)
Ltac wp_call lem :=
  eapply wp_conseq; [ apply lem | cbv beta ].

(** The frame rule: all that is known of the world after [m] is that the
    fields outside its footprint are unchanged. *)
Lemma wp_touches {A} fp (m : M A) (Q : A -> World -> Prop) w :
  touches fp m ->
  (forall a g' r',
     (forall f, fp f = false -> unchanged f (game w) g') -> Q a (mkWorld g' r')) ->
  wp m Q w.
Proof.
  intros Hm H. unfold wp. specialize (Hm w).
  destruct (m w) as [a [g' r']]. apply H. exact Hm.
Qed.

Lemma wp_bind_touches {A B} fp (m : M A) (k : A -> M B) Q w :
  touches fp m ->
  (forall a g' r',
     (forall f, fp f = false -> unchanged f (game w) g') ->
     wp (k a) Q (mkWorld g' r')) ->
  wp (bind m k) Q w.
Proof. intros Hm H. apply wp_bind. eapply wp_touches; eauto. Qed.

(** The field equalities that a frame hypothesis [Hu] provides. *)
Ltac frame_fact Hu F :=
  try (let H := fresh "Hfr" in
       pose proof (Hu F eq_refl) as H;
       lazy beta iota zeta delta [unchanged] in H).

Ltac frame_facts Hu :=
  frame_fact Hu F_player; frame_fact Hu F_projectiles; frame_fact Hu F_enemies;
  frame_fact Hu F_deathParticles; frame_fact Hu F_corpses;
  frame_fact Hu F_bloodParticles; frame_fact Hu F_platforms;
  frame_fact Hu F_score; frame_fact Hu F_enemiesDefeated;
  frame_fact Hu F_enemySpawnCounter; frame_fact Hu F_gameOver;
  frame_fact Hu F_inMenu; frame_fact Hu F_bloodColorMode; frame_fact Hu F_width;
  frame_fact Hu F_height; frame_fact Hu F_groundY;
  frame_fact Hu F_redGroundTiles; frame_fact Hu F_redPlatformTiles;
  frame_fact Hu F_nextEnemyID; frame_fact Hu F_lastFrame; frame_fact Hu F_keys;
  frame_fact Hu F_lastShot; frame_fact Hu F_menuLastShot;
  frame_fact Hu F_menuLastEnemySpawn; clear Hu.

(** Uses the footprint of the code in front: only the frame is known of
    the world it leaves. *)
Ltac wp_frame :=
  let Hu := fresh "Hu" in
  eapply wp_touches;
  [ solve [eauto with touch]
  | intros ? ? ? Hu; cbv beta; cbn [game runtime] in *; frame_facts Hu ].

(** ** The burst routines *)

Lemma burstAdded_nil g : burstAdded g [] g.
Proof.
  split; [symmetry; apply app_nil_r|]. intros f _. apply unchanged_refl.
Qed.

Lemma burstAdded_app g1 g2 g3 ps qs :
  burstAdded g1 ps g2 -> burstAdded g2 qs g3 -> burstAdded g1 (ps ++ qs) g3.
Proof.
  intros [H1 F1] [H2 F2]. split.
  - rewrite H2, H1. symmetry. apply app_assoc.
  - intros f Hf. eapply unchanged_trans; eauto.
Qed.

Lemma wp_addDeathParticle p w :
  wp (addDeathParticle p) (fun _ w' => burstAdded (game w) [p] (game w')) w.
Proof.
  unfold addDeathParticle. apply wp_bind_modifyG.
  eapply wp_touches with (fp := fp_blood); [touches_tac idtac|].
  intros a g' r' Hu. destruct w as [g r]. simpl in *. split.
  - frame_facts Hu. destruct g; exact Hfr2.
  - intros f Hf. destruct f; try discriminate Hf; frame_facts Hu; destruct g;
      lazy beta iota zeta delta [unchanged]; assumption.
Qed.

Lemma wp_spawnPiece head pos enemyID wasOnPlatform piece w :
  wp (spawnPiece head pos enemyID wasOnPlatform piece)
    (fun _ w' => exists p,
       pieceOf head pos enemyID wasOnPlatform piece p
       /\ burstAdded (game w) [p] (game w')) w.
Proof.
  unfold spawnPiece. destruct piece as [[char x] y].
  wp_steps. wp_call wp_addDeathParticle.
  intros ? w' H. eexists. split; [|exact H].
  simpl. repeat split.
Qed.

Lemma wp_forPieces head pos enemyID wasOnPlatform pieces :
  forall w,
  wp (forPieces (spawnPiece head pos enemyID wasOnPlatform) pieces)
    (fun _ w' => exists ps,
       Forall2 (pieceOf head pos enemyID wasOnPlatform) pieces ps
       /\ burstAdded (game w) ps (game w')) w.
Proof.
  induction pieces as [|piece pieces IH]; intros w; simpl.
  - apply wp_ret. exists []. split; [constructor|apply burstAdded_nil].
  - apply wp_bind_intro. wp_call wp_spawnPiece.
    intros ? w1 (p & Hp & H1). wp_call IH.
    intros ? w2 (ps & Hps & H2). exists (p :: ps). split; [constructor; auto|].
    change (p :: ps) with ([p] ++ ps). eapply burstAdded_app; eauto.
Qed.

Lemma enemyPieces_length facing : length (enemyPieces facing) = 6%nat.
Proof. unfold enemyPieces. destruct (facing =? 1)%Z; reflexivity. Qed.

Lemma playerPieces_length facing : length (playerPieces facing) = 7%nat.
Proof. unfold playerPieces. destruct (facing =? 1)%Z; reflexivity. Qed.

Lemma wp_createDeathParticlesAt pos facing enemyID wasOnPlatform w :
  wp (createDeathParticlesAt pos facing enemyID wasOnPlatform)
    (fun _ w' => exists ps,
       Forall2 (pieceOf "O" pos enemyID wasOnPlatform) (enemyPieces facing) ps
       /\ burstAdded (game w) ps (game w')) w.
Proof. unfold createDeathParticlesAt. apply wp_forPieces. Qed.

Lemma wp_createPlayerDeathParticles w :
  wp createPlayerDeathParticles
    (fun _ w' => exists ps,
       Forall2 (pieceOf "0" (Player.Pos (Game.player (game w))) 0 false)
         (playerPieces (Player.Facing (Game.player (game w)))) ps
       /\ burstAdded (game w) ps (game w')) w.
Proof. unfold createPlayerDeathParticles. wp_steps. apply wp_forPieces. Qed.

Ltac game_simpl :=
  cbn [game runtime] in *; unfold burstAdded in *; try game_fields.

Lemma wp_createDecap e w :
  wp (createDecap e)
    (fun _ w' =>
       let g := game w in
       let g' := game w' in
       exists head corp,
         Game.deathParticles g' = Game.deathParticles g ++ [head]
         /\ Game.corpses g' = Game.corpses g ++ [corp]
         /\ DeathParticle.IsHead head = true
         /\ DeathParticle.IsRolling head = true
         /\ DeathParticle.EnemyID head = Game.nextEnemyID g
         /\ Corpse.EnemyID corp = Game.nextEnemyID g
         /\ Corpse.Active corp = true
         /\ Game.nextEnemyID g' = int_add (Game.nextEnemyID g) 1) w.
Proof.
  unfold createDecap. destruct w as [g r]. wp_steps.
  wp_call wp_addDeathParticle.
  intros ? [g1 rr] [Hd Hu]. cbn [game runtime] in *. wp_steps.
  frame_facts Hu. destruct g, g1. cbn in *. subst.
  eexists _, _. repeat split.
Qed.

Lemma wp_createDeathParticles e w :
  wp (createDeathParticles e)
    (fun _ w' =>
       let g := game w in
       let g' := game w' in
       if randFloats (runtime w) (randReads (runtime w)) <? 0.1 then
         exists head corp,
           Game.deathParticles g' = Game.deathParticles g ++ [head]
           /\ Game.corpses g' = Game.corpses g ++ [corp]
           /\ DeathParticle.IsHead head = true
           /\ DeathParticle.IsRolling head = true
           /\ DeathParticle.EnemyID head = Game.nextEnemyID g
           /\ Corpse.EnemyID corp = Game.nextEnemyID g
           /\ Corpse.Active corp = true
           /\ Game.nextEnemyID g' = int_add (Game.nextEnemyID g) 1
       else
         Game.corpses g' = Game.corpses g
         /\ Game.nextEnemyID g' = int_add (Game.nextEnemyID g) 1
         /\ exists ps,
              Game.deathParticles g' = Game.deathParticles g ++ ps
              /\ Forall2 (pieceOf "O" (Enemy.Pos e) (Game.nextEnemyID g)
                            (standsOnPlatform g e))
                   (enemyPieces (Enemy.Facing e)) ps) w.
Proof.
  unfold createDeathParticles. apply wp_bind. unfold wp at 1. simpl.
  destruct (_ <? 0.1).
  - wp_call wp_createDecap. intros ? w' H. exact H.
  - destruct w as [g r]. wp_steps.
    wp_call wp_forPieces.
    intros ? [g' r'] (ps & Hps & Hd & Hu). cbn [game runtime] in *.
    frame_facts Hu. destruct g, g'. cbn in *. subst.
    repeat split. exists ps. split; [reflexivity|]. exact Hps.
Qed.

(** ** Corpses *)

Lemma sameCorpse_refl c : sameCorpse c c.
Proof. repeat split. Qed.

Lemma sameCorpse_trans c1 c2 c3 :
  sameCorpse c1 c2 -> sameCorpse c2 c3 -> sameCorpse c1 c3.
Proof. unfold sameCorpse. intuition congruence. Qed.

Lemma corpsePlatformCollisions_same platforms c :
  sameCorpse c (fst (corpsePlatformCollisions c platforms)).
Proof.
  induction platforms as [|platform rest IH]; simpl.
  - apply sameCorpse_refl.
  - destruct (corpseOverPlatform c platform); [|exact IH]. simpl.
    destruct (_ && _); [|apply sameCorpse_refl].
    destruct c; repeat split.
Qed.

Ltac split_corpse c :=
  let pos := fresh "pos" in
  let vel := fresh "vel" in
  destruct c as [pos vel ? ? ? ? ? ? ? ? ? ?]; destruct pos, vel.

Lemma wp_corpseWander dt speed gravity groundY now g c w :
  wp (corpseWander dt speed gravity groundY now g c)
    (fun c' w' => game w' = game w /\ sameCorpse c c') w.
Proof.
  split_corpse c. cbv beta delta [corpseWander].
  repeat wp_step;
    match goal with
    | |- wp (match corpsePlatformCollisions ?c0 ?ps with _ => _ end) _ _ =>
        pose proof (corpsePlatformCollisions_same ps c0) as Hp;
        destruct (corpsePlatformCollisions c0 ps) as [c2 onPlatform];
        split_corpse c2; unfold sameCorpse in Hp; simpl in Hp;
        destruct Hp as (-> & -> & -> & ->)
    end;
    repeat wp_step.
  all: split; [reflexivity|].
  all: repeat match goal with
              | |- context [if ?b then _ else _] => destruct b
              end.
  all: repeat split.
Qed.

Lemma wp_corpseBleed speed now c w :
  wp (corpseBleed speed now c)
    (fun c' w' =>
       sameCorpse c c'
       /\ Corpse.Pos c' = Corpse.Pos c
       /\ Corpse.WasOnPlatform c' = Corpse.WasOnPlatform c
       /\ burstAdded (game w) [] (game w')) w.
Proof.
  cbv beta delta [corpseBleed].
  destruct (_ <=? _)%Z.
  - repeat wp_step.
    eapply wp_touches with (fp := fp_blood); [auto with touch|].
    intros ? g' r' Hu. repeat wp_step.
    split; [destruct c; repeat split|]. split; [destruct c; reflexivity|].
    split; [destruct c; reflexivity|]. split.
    + rewrite app_nil_r. apply (Hu F_deathParticles eq_refl).
    + intros f Hf. apply Hu. destruct f; try discriminate Hf; reflexivity.
  - apply wp_ret.
    split; [apply sameCorpse_refl|]. split; [reflexivity|].
    split; [reflexivity|]. apply burstAdded_nil.
Qed.

Lemma wp_stepCorpse dt now c w :
  wp (stepCorpse dt now c)
    (fun c' w' => exists burst,
       corpseBurst now c c' burst /\ burstAdded (game w) burst (game w')) w.
Proof.
  cbv beta delta [stepCorpse]. unfold corpseBurst.
  destruct (Corpse.Active c) eqn:Hactive; simpl.
  2:{ apply wp_ret. exists []. split; [auto|apply burstAdded_nil]. }
  repeat wp_step.
  wp_call wp_corpseWander. intros c1 w1 [Hg1 Hc1].
  apply wp_bind_intro. wp_call wp_corpseBleed.
  intros c2 w2 (Hc2 & Hpos & Hwas & Hb2).
  pose proof (sameCorpse_trans _ _ _ Hc1 Hc2) as (Hid & Hend & Hface & Hact).
  rewrite Hg1 in Hb2. clear Hc1 Hc2 Hg1 w1.
  cbv beta delta [corpseExpire]. rewrite Hend.
  destruct (After now (Corpse.EndTime c)).
  - apply wp_bind_intro. wp_call wp_createDeathParticlesAt.
    intros ? w3 (ps & Hps & Hb3). apply wp_ret.
    exists ps. split.
    + split; [destruct c2; exact Hid|]. split; [destruct c2; reflexivity|].
      rewrite Hid, Hface in Hps. destruct c2; exact Hps.
    + change ps with ([] ++ ps). eapply burstAdded_app; eauto.
  - apply wp_ret. exists []. split; [|exact Hb2].
    split; [exact Hid|]. split; [congruence|reflexivity].
Qed.

Lemma wp_forEachM_burst {A} (R : A -> A -> list DeathParticle -> Prop)
  (body : A -> M A) :
  (forall x w,
     wp (body x)
       (fun x' w' => exists burst,
          R x x' burst /\ burstAdded (game w) burst (game w')) w) ->
  forall xs w,
    wp (forEachM body xs)
      (fun xs' w' => exists bursts,
         Forall3 R xs xs' bursts
         /\ burstAdded (game w) (concat bursts) (game w')) w.
Proof.
  intros Hbody. induction xs as [|x xs IH]; intros w; simpl.
  - apply wp_ret. exists []. split; [constructor|apply burstAdded_nil].
  - apply wp_bind_intro. wp_call Hbody. intros x' w1 (burst & Hx & H1).
    apply wp_bind_intro. wp_call IH. intros xs' w2 (bursts & Hxs & H2).
    apply wp_ret. exists (burst :: bursts). split; [constructor; assumption|].
    simpl. eapply burstAdded_app; eauto.
Qed.



Lemma pieceOf_EnemyID head pos enemyID wasOnPlatform pieces ps :
  Forall2 (pieceOf head pos enemyID wasOnPlatform) pieces ps ->
  Forall (fun p => DeathParticle.EnemyID p = enemyID) ps.
Proof.
  induction 1 as [|piece p pieces ps Hp _ IH]; constructor; [|exact IH].
  destruct piece as [[char x] y]. apply Hp.
Qed.

(** C5 (as the code has it).  The decapitation branch belongs to the defeat of an
    opponent only.  The burst of the player ([createPlayerDeathParticles])
    is always the seven fragments of the player sprite with id 0, and leaves
    the corpses alone.  The burst of an opponent ([createDeathParticles])
    draws one number: when it is below 0.1 it appends one rolling head
    fragment and one active corpse that share the id read from
    [nextEnemyID], otherwise the six fragments of the enemy sprite with that
    id and no corpse; either way [nextEnemyID] advances by one. *)
Theorem C5_decapitation_is_for_opponents_only :
  (forall w,
     let g := game w in
     let g' := game (exec createPlayerDeathParticles w) in
     Game.corpses g' = Game.corpses g
     /\ exists ps,
          Game.deathParticles g' = Game.deathParticles g ++ ps
          /\ length ps = 7%nat
          /\ Forall (fun p => DeathParticle.EnemyID p = 0%Z) ps)
  /\ (forall e w,
        let g := game w in
        let g' := game (exec (createDeathParticles e) w) in
        Game.nextEnemyID g' = int_add (Game.nextEnemyID g) 1
        /\ if randFloats (runtime w) (randReads (runtime w)) <? 0.1 then
             exists head corp,
               Game.deathParticles g' = Game.deathParticles g ++ [head]
               /\ Game.corpses g' = Game.corpses g ++ [corp]
               /\ DeathParticle.IsHead head = true
               /\ DeathParticle.IsRolling head = true
               /\ DeathParticle.EnemyID head = Game.nextEnemyID g
               /\ Corpse.EnemyID corp = Game.nextEnemyID g
               /\ Corpse.Active corp = true
           else
             Game.corpses g' = Game.corpses g
             /\ exists ps,
                  Game.deathParticles g' = Game.deathParticles g ++ ps
                  /\ length ps = 6%nat
                  /\ Forall (fun p => DeathParticle.EnemyID p = Game.nextEnemyID g) ps).
Proof.
  split.
  - intros w g g'. subst g'.
    pose proof (wp_exec _ _ _ (wp_createPlayerDeathParticles w)) as (ps & Hps & Hd & Hu).
    fold g in Hps, Hd, Hu. split.
    + apply (Hu F_corpses eq_refl).
    + exists ps. split; [exact Hd|]. split.
      * apply Forall2_length in Hps. rewrite <- Hps. apply playerPieces_length.
      * eapply pieceOf_EnemyID, Hps.
  - intros e w g g'. subst g'.
    pose proof (wp_exec _ _ _ (wp_createDeathParticles e w)) as H.
    cbv zeta in H. fold g in H.
    destruct (_ <? 0.1).
    + destruct H as (head & corp & H1 & H2 & H3 & H4 & H5 & H6 & H7 & H8).
      split; [exact H8|]. exists head, corp. repeat split; assumption.
    + destruct H as (H1 & H2 & ps & H3 & H4).
      split; [exact H2|]. split; [exact H1|]. exists ps. split; [exact H3|]. split.
      * apply Forall2_length in H4. rewrite <- H4. apply enemyPieces_length.
      * eapply pieceOf_EnemyID, H4.
Qed.

(** ** Spawning *)

Lemma wp_spawnEnemy w :
  wp spawnEnemy
    (fun _ w' =>
       let g := game w in
       let g' := game w' in
       (forall f, fp_spawn f = false -> unchanged f g g')
       /\ (g' = g
           \/ exists e,
                Game.enemies g' = Game.enemies g ++ [e]
                /\ Enemy.CanShoot e = (int_rem (Game.enemySpawnCounter g) 2 =? 1)%Z
                /\ Game.enemySpawnCounter g'
                   = int_add (Game.enemySpawnCounter g) 1)) w.
Proof.
  cbv beta delta [spawnEnemy]. destruct w as [g r].
  repeat wp_step; cbn [game runtime].
  all: split;
    [ intros f Hf; destruct f; try discriminate Hf; destruct g; reflexivity | ].
  all: try (left; reflexivity).
  all: right; eexists; split; [destruct g; reflexivity|]; split;
    [ destruct (_ <? 0.5); reflexivity | destruct g; reflexivity ].
Qed.

(** [updateEnemies] either leaves the spawn counter alone or advances it by
    one, and then the last enemy of the list is the one it spawned. *)
Lemma wp_updateEnemies dt w :
  wp (updateEnemies dt)
    (fun _ w' =>
       let g := game w in
       let g' := game w' in
       (forall f, fp_enemies f = false -> unchanged f g g')
       /\ (Game.enemySpawnCounter g' = Game.enemySpawnCounter g
           \/ exists e,
                last (Game.enemies g') = Some e
                /\ Enemy.CanShoot e = (int_rem (Game.enemySpawnCounter g) 2 =? 1)%Z
                /\ Game.enemySpawnCounter g'
                   = int_add (Game.enemySpawnCounter g) 1)) w.
Proof.
  assert (Hfr : forall f, fp_enemies f = false ->
            unchanged f (game w) (game (exec (updateEnemies dt) w))).
  { intros f Hf. apply (touches_updateEnemies dt w f Hf). }
  unfold wp. fold (exec (updateEnemies dt) w). split; [exact Hfr|]. clear Hfr.
  apply (wp_exec (updateEnemies dt)
    (fun _ w' =>
       Game.enemySpawnCounter (game w') = Game.enemySpawnCounter (game w)
       \/ exists e,
            last (Game.enemies (game w')) = Some e
            /\ Enemy.CanShoot e = (int_rem (Game.enemySpawnCounter (game w)) 2 =? 1)%Z
            /\ Game.enemySpawnCounter (game w')
               = int_add (Game.enemySpawnCounter (game w)) 1)).
  cbv beta delta [updateEnemies]. destruct w as [g r]. cbn [game runtime].
  apply wp_bind_intro, wp_gets. cbn [game runtime].
  apply wp_bind_intro.
  eapply wp_touches with (fp := fp_projectiles).
  { touches_tac idtac. }
  intros es g1 r1 Hu. cbn [game runtime] in *. frame_facts Hu.
  repeat wp_step; cbn [game runtime].
  - left. destruct g1; simpl in *; assumption.
  - wp_call wp_spawnEnemy. intros ? [g2 r2] [Hs H]. cbn [game runtime] in *.
    destruct H as [->|(e & He & Hc & Hn)].
    + left. destruct g1; simpl in *; assumption.
    + right. exists e. split; [rewrite He; apply last_snoc|].
      destruct g1; simpl in *. subst. split; assumption.
Qed.

Lemma update_spawn dt w :
  Game.inMenu (game w) = false ->
  let g := game w in
  let g' := game (exec (update dt) w) in
  Game.inMenu g' = false
  /\ (Game.enemySpawnCounter g' = Game.enemySpawnCounter g
      \/ exists e,
           last (Game.enemies g') = Some e
           /\ Enemy.CanShoot e = (int_rem (Game.enemySpawnCounter g) 2 =? 1)%Z
           /\ Game.enemySpawnCounter g' = int_add (Game.enemySpawnCounter g) 1).
Proof.
  intros Hmenu g g'. subst g g'.
  apply (wp_exec (update dt)
    (fun _ w' =>
       Game.inMenu (game w') = false
       /\ (Game.enemySpawnCounter (game w') = Game.enemySpawnCounter (game w)
           \/ exists e,
                last (Game.enemies (game w')) = Some e
                /\ Enemy.CanShoot e
                   = (int_rem (Game.enemySpawnCounter (game w)) 2 =? 1)%Z
                /\ Game.enemySpawnCounter (game w')
                   = int_add (Game.enemySpawnCounter (game w)) 1))).
  cbv beta delta [update]. destruct w as [g r]. cbn [game runtime] in *.
  apply wp_bind_intro, wp_getG. cbn [game runtime]. rewrite Hmenu.
  apply wp_bind_intro.
  apply wp_conseq with (Q := fun _ w' =>
    Game.inMenu (game w') = false
    /\ Game.enemySpawnCounter (game w') = Game.enemySpawnCounter g).
  { destruct (negb (Game.gameOver g)); cbn [when].
    - apply wp_bind_intro. wp_frame. wp_frame. split; congruence.
    - apply wp_ret. cbn [game]. auto. }
  intros ? [g1 r1] [Hm1 Hc1]. cbn [game runtime] in *.
  apply wp_bind_intro. wp_frame.
  apply wp_bind_intro. wp_call wp_updateEnemies.
  intros ? [g3 r3] [Hu3 H3]. cbn [game runtime] in *. frame_facts Hu3.
  apply wp_bind_intro. wp_frame.
  apply wp_bind_intro. wp_frame.
  wp_frame.
  split; [congruence|].
  destruct H3 as [H3|(e & He & Hs & Hn)].
  - left. congruence.
  - right. exists e. repeat split; congruence.
Qed.

Lemma int_rem_odd (n : nat) :
  (int_rem (Z.of_nat n) 2 =? 1)%Z = Nat.odd n.
Proof.
  unfold int_rem.
  rewrite Z.rem_mod_nonneg by lia.
  rewrite <- Zodd_mod.
  induction n as [|n IH]; [reflexivity|].
  rewrite Nat2Z.inj_succ, Z.odd_succ, Nat.odd_succ.
  rewrite <- Z.negb_odd, IH, Nat.negb_odd. reflexivity.
Qed.

Lemma int_add_succ (n : nat) :
  (Z.of_nat n + 1 < 2 ^ 63)%Z -> int_add (Z.of_nat n) 1 = Z.of_nat (S n).
Proof.
  intros Hn. unfold int_add, wrap64.
  rewrite Nat2Z.inj_succ.
  change (2 ^ 64)%Z with (2 * 2 ^ 63)%Z. change (2 ^ 63)%Z with 9223372036854775808%Z in *.
  rewrite Z.mod_small by lia. lia.
Qed.

Lemma spawnLog_parity (dts : list Q) :
  forall (w : World) (n : nat),
    Game.inMenu (game w) = false ->
    Game.enemySpawnCounter (game w) = Z.of_nat n ->
    (Z.of_nat n + Z.of_nat (length dts) < 2 ^ 63)%Z ->
    forall (k : nat) (e : Enemy),
      spawnLog dts w !! k = Some e -> Enemy.CanShoot e = Nat.odd (n + k).
Proof.
  induction dts as [|dt rest IH]; intros w n Hmenu Hc Hlen k e Hk.
  - discriminate.
  - cbn [spawnLog] in Hk. cbv zeta in Hk.
    destruct (update_spawn dt w Hmenu) as [Hmenu' Hstep].
    cbv zeta in Hmenu', Hstep.
    cbn [length] in Hlen. rewrite Nat2Z.inj_succ in Hlen.
    unfold spawnedBy in Hk.
    destruct Hstep as [Hsame|(e0 & Hlast & Hshoot & Hnext)].
    + rewrite Hsame, Z.eqb_refl in Hk.
      eapply IH; [exact Hmenu'|congruence|lia|exact Hk].
    + rewrite Hc in Hnext, Hshoot.
      rewrite int_add_succ in Hnext by lia.
      rewrite Hnext, Hc in Hk.
      replace (Z.of_nat (S n) =? Z.of_nat n)%Z with false in Hk
        by (symmetry; apply Z.eqb_neq; lia).
      rewrite Hlast in Hk.
      destruct k as [|k].
      * cbn in Hk. injection Hk as <-.
        rewrite Hshoot, int_rem_odd, Nat.add_0_r. reflexivity.
      * cbn in Hk. replace (n + S k)%nat with (S n + k)%nat by lia.
        eapply IH; [exact Hmenu'|exact Hnext|lia|exact Hk].
Qed.

(** C10: in a run of in-game ticks that starts with the spawn counter at
    zero, the [k]-th spawned enemy (counting from 0) can shoot exactly when
    [k] is odd: the 1st, 3rd, 5th, ... cannot, the 2nd, 4th, 6th, ... can,
    whatever the random source and the clock deliver. *)
Theorem C10_spawn_capability_alternates (dts : list Q) (w : World) :
  Game.inMenu (game w) = false ->
  Game.enemySpawnCounter (game w) = 0%Z ->
  (Z.of_nat (length dts) < 2 ^ 63)%Z ->
  forall (k : nat) (e : Enemy),
    spawnLog dts w !! k = Some e -> Enemy.CanShoot e = Nat.odd k.
Proof.
  intros Hmenu Hc Hlen k e Hk.
  apply (spawnLog_parity dts w 0 Hmenu Hc); [lia|exact Hk].
Qed.

(** ** Fragments *)

Lemma fragStep_refl p : fragStep p p.
Proof. unfold fragStep. auto. Qed.

Lemma fragStep_trans p1 p2 p3 : fragStep p1 p2 -> fragStep p2 p3 -> fragStep p1 p3.
Proof. unfold fragStep. intuition congruence. Qed.

Lemma wrap64_small z : (- 2 ^ 63 <= z < 2 ^ 63)%Z -> wrap64 z = z.
Proof.
  intros H. unfold wrap64.
  change (2 ^ 64)%Z with 18446744073709551616%Z.
  change (2 ^ 63)%Z with 9223372036854775808%Z in *.
  rewrite Z.mod_small; lia.
Qed.

Lemma wp_any {A} (m : M A) (Q : A -> World -> Prop) w :
  (forall a w', Q a w') -> wp m Q w.
Proof. intros H. apply H. Qed.

(** Blood emission has no bearing on the fragment that emits. *)
Ltac wp_emit :=
  lazymatch goal with
  | |- wp (emitImpact _) _ _ => apply wp_any; intros ? ?
  | |- wp (emitBloodFromParticle _ _ _) _ _ => apply wp_any; intros ? ?
  end.

Ltac split_fragment p :=
  let pos := fresh "pos" in
  let vel := fresh "vel" in
  destruct p as [pos vel ? ? ? ? ? ? ? ? ? ? ? ? ? ? ? ? ? ? ?]; destruct pos, vel.

(** Turns the boolean tests collected on the way into propositions. *)
Ltac bool_hyps :=
  repeat match goal with
         | H : _ && _ = true |- _ => apply andb_prop in H; destruct H
         | H : _ || _ = false |- _ => apply orb_false_elim in H; destruct H
         | H : negb _ = true |- _ => apply negb_true_iff in H
         | H : negb _ = false |- _ => apply negb_false_iff in H
         | H : (_ <? _)%Z = true |- _ => apply Z.ltb_lt in H
         | H : (_ <? _)%Z = false |- _ => apply Z.ltb_ge in H
         | H : (_ =? _)%Z = true |- _ => apply Z.eqb_eq in H
         | H : (_ =? _)%Z = false |- _ => apply Z.eqb_neq in H
         | H : Qeq_bool _ _ = true |- _ => apply Qeq_bool_eq in H
         end.

Ltac frag_arith :=
  unfold int_add;
  repeat match goal with
         | |- context [wrap64 ?z] => rewrite (wrap64_small z) by lia
         end;
  first [ lia | congruence | reflexivity | assumption
        | left; lia | right; split; (lia || congruence) ].

Ltac frag_leaf :=
  repeat match goal with
         | |- context [if ?b then _ else _] => destruct b eqn:?
         end;
  unfold fragStep, fragmentOK, sunk; rec_red;
  bool_hyps;
  repeat split; intros;
  repeat match goal with
         | H : _ /\ _ |- _ => destruct H
         end;
  try discriminate; try reflexivity; try assumption;
  try solve [ auto ];
  try solve [ exfalso; lia ];
  try solve [ frag_arith ];
  try solve [ match goal with
              | H : _ \/ _ |- _ => destruct H as [?|[? ?]]
              end; frag_arith ].

Lemma wp_trailBlood p w : wp (trailBlood p) (fun p' _ => fragStep p p') w.
Proof.
  split_fragment p. cbv beta delta [trailBlood].
  repeat first [wp_emit | wp_step]; frag_leaf.
Qed.

Lemma fragStep_integrate dt gravity p : fragStep p (integrate dt gravity p).
Proof.
  split_fragment p. unfold integrate. rec_red.
  destruct (negb _) eqn:E; rec_red.
  - unfold fragStep, fragmentOK, sunk; rec_red. repeat split; try tauto.
    destruct H as [_ H]. intros Hg. subst. specialize (H eq_refl).
    apply Qeq_bool_iff in H. rewrite H in E. discriminate E.
  - frag_leaf.
Qed.

Lemma wp_onPlatformTop bd platform p w :
  wp (onPlatformTop bd platform p) (fun p' _ => fragStep p p') w.
Proof.
  split_fragment p. cbv beta delta [onPlatformTop].
  repeat first [wp_emit | wp_step]; frag_leaf.
Qed.

Lemma wp_particlePlatformCollisions bd platforms p w :
  wp (particlePlatformCollisions bd p platforms)
    (fun r _ => fragStep p (fst r)) w.
Proof.
  induction platforms as [|platform rest IH]; cbn [particlePlatformCollisions].
  - apply wp_ret, fragStep_refl.
  - destruct (particleOverPlatform p platform); [|exact IH].
    apply wp_bind_intro. wp_call wp_onPlatformTop.
    intros p' w' H. apply wp_ret. exact H.
Qed.

Lemma wp_restOnPlatform onPlatform p w :
  wp (restOnPlatform onPlatform p) (fun p' _ => fragStep p p') w.
Proof.
  split_fragment p. cbv beta delta [restOnPlatform].
  repeat first [wp_emit | wp_step]; frag_leaf.
Qed.

Lemma wp_groundBounce bd p w :
  (DeathParticle.Bounces p < 2)%Z ->
  wp (groundBounce bd p) (fun p' _ => fragStep p p') w.
Proof.
  intros Hb. split_fragment p. cbv beta delta [groundBounce]. simpl in Hb.
  repeat first [wp_emit | wp_step]; frag_leaf.
Qed.

Lemma wp_groundSettle p w :
  wp (groundSettle p) (fun p' _ => fragStep p p') w.
Proof.
  split_fragment p. cbv beta delta [groundSettle].
  repeat first [wp_emit | wp_step]; frag_leaf.
Qed.

Lemma wp_groundRest p w :
  Y (DeathParticle.Vel p) == 0 ->
  wp (groundRest p) (fun p' _ => fragStep p p') w.
Proof.
  intros Hv. split_fragment p. cbv beta delta [groundRest]. simpl in Hv.
  repeat first [wp_emit | wp_step]; frag_leaf.
Qed.

(** Uses the lemma [lem] on the call in front, which ends the code, and
    chains its result after the assignments made so far. *)
Ltac frag_call lem :=
  eapply wp_conseq;
  [ apply lem; bool_hyps; simpl; try assumption
  | cbv beta; intros ? ? ?; (eapply fragStep_trans; [|eassumption]); frag_leaf ].

Lemma wp_groundNormal groundY bd p w :
  wp (groundNormal groundY bd p) (fun p' _ => fragStep p p') w.
Proof.
  split_fragment p. cbv beta delta [groundNormal].
  repeat first [wp_emit | wp_step].
  all: lazymatch goal with
       | |- wp (groundBounce _ _) _ _ => frag_call wp_groundBounce
       | |- wp (groundSettle _) _ _ => frag_call wp_groundSettle
       | |- wp (groundRest _) _ _ => frag_call wp_groundRest
       | |- _ => frag_leaf
       end.
Qed.

Lemma wp_groundCollision groundY bd onPlatform p w :
  wp (groundCollision groundY bd onPlatform p) (fun p' _ => fragStep p p') w.
Proof.
  cbv beta delta [groundCollision].
  repeat first [wp_emit | wp_step].
  all: lazymatch goal with
       | |- wp (groundNormal _ _ _) _ _ => apply wp_groundNormal
       | |- _ => split_fragment p; frag_leaf
       end.
Qed.

Lemma wp_rolling dt p w : wp (rolling dt p) (fun p' _ => fragStep p p') w.
Proof.
  split_fragment p. cbv beta delta [rolling].
  repeat first [wp_emit | wp_step]; frag_leaf.
Qed.

Lemma fragStep_setActive b p : fragStep p (DeathParticle.setActive b p).
Proof. destruct p. unfold fragStep, fragmentOK, sunk. simpl. auto. Qed.

Lemma fragStep_if (c : bool) b p p' :
  fragStep p p' ->
  fragStep p (if c then DeathParticle.setActive b p' else p').
Proof.
  intros H. destruct c; [|exact H].
  eapply fragStep_trans; [exact H|apply fragStep_setActive].
Qed.

Lemma wp_stepDeathParticle dt p w :
  wp (stepDeathParticle dt p) (fun p' _ => fragStep p p') w.
Proof.
  cbv beta delta [stepDeathParticle]. cbv zeta.
  destruct (negb (DeathParticle.Active p)); [apply wp_ret, fragStep_refl|].
  apply wp_bind_intro, wp_getG.
  apply wp_bind_intro. wp_call wp_trailBlood. intros p1 w1 H1.
  apply wp_bind_intro. wp_call wp_particlePlatformCollisions.
  intros [p3 onPlatform] w3 H3. cbn [fst] in H3.
  apply wp_bind_intro. wp_call wp_restOnPlatform. intros p4 w4 H4.
  apply wp_bind_intro. wp_call wp_groundCollision. intros p5 w5 H5.
  apply wp_bind_intro. wp_call wp_rolling. intros p6 w6 H6.
  apply wp_ret. apply fragStep_if.
  eapply fragStep_trans; [|exact H6]. apply fragStep_if.
  eapply fragStep_trans; [|exact H5].
  eapply fragStep_trans; [|exact H4].
  eapply fragStep_trans; [|exact H3].
  eapply fragStep_trans; [exact H1|apply fragStep_integrate].
Qed.

(** ** Loops whose result matters *)

Lemma wp_and {A} (m : M A) (Q1 Q2 : A -> World -> Prop) w :
  wp m Q1 w -> wp m Q2 w -> wp m (fun a w' => Q1 a w' /\ Q2 a w') w.
Proof. unfold wp. auto. Qed.

Lemma wp_forEachM_Forall2 {A} (R : A -> A -> Prop) (body : A -> M A) :
  (forall x w, wp (body x) (fun x' _ => R x x') w) ->
  forall xs w, wp (forEachM body xs) (fun xs' _ => Forall2 R xs xs') w.
Proof.
  intros Hbody. induction xs as [|x xs IH]; intros w; simpl.
  - apply wp_ret. constructor.
  - apply wp_bind_intro. wp_call Hbody. intros x' w1 Hx.
    apply wp_bind_intro. wp_call IH. intros xs' w2 Hxs.
    apply wp_ret. constructor; assumption.
Qed.

Lemma touches_forEachM {A} fp (body : A -> M A) xs :
  (forall x, touches fp (body x)) -> touches fp (forEachM body xs).
Proof.
  intros Hb. apply touches_intro. intros f g0 Hf.
  apply preserves_forEachM. intros x. eapply touches_preserves; eauto.
Qed.

Lemma wp_preserves {A} (I : Game -> Prop) (m : M A) w :
  preserves I m -> I (game w) -> wp m (fun _ w' => I (game w')) w.
Proof. intros Hm H. apply Hm, H. Qed.

(** ** The fragments of the game *)

Lemma keeps_fragments {A} fp (m : M A) :
  touches fp m -> fp F_deathParticles = false -> preserves fragmentsOK m.
Proof.
  intros Hm Hf w H. unfold fragmentsOK.
  pose proof (Hm w F_deathParticles Hf) as E. simpl in E. rewrite E. exact H.
Qed.

Lemma pieceOf_fragmentOK head pos enemyID wasOnPlatform piece p :
  pieceOf head pos enemyID wasOnPlatform piece p -> fragmentOK p.
Proof.
  destruct piece as [[char x] y]. intros (_ & _ & _ & _ & Hg & Hb & _).
  split; [left; lia|]. rewrite Hg. discriminate.
Qed.

Lemma burstAdded_fragmentsOK g ps g' :
  burstAdded g ps g' -> Forall fragmentOK ps -> fragmentsOK g -> fragmentsOK g'.
Proof.
  intros [Hd _] Hps Hg. unfold fragmentsOK. rewrite Hd.
  apply Forall_app. split; assumption.
Qed.

Create HintDb frag discriminated.
#[export] Hint Constants Opaque : frag.

Lemma fragments_addDeathParticle p :
  fragmentOK p -> preserves fragmentsOK (addDeathParticle p).
Proof.
  intros Hp w H. pose proof (wp_addDeathParticle p w) as Hw. unfold wp in Hw.
  eapply burstAdded_fragmentsOK; [exact Hw| |exact H].
  constructor; [exact Hp|constructor].
Qed.

Lemma fragments_spawnPiece head pos enemyID wasOnPlatform piece :
  preserves fragmentsOK (spawnPiece head pos enemyID wasOnPlatform piece).
Proof.
  intros w H.
  destruct (wp_spawnPiece head pos enemyID wasOnPlatform piece w) as (p & Hp & Hb).
  eapply burstAdded_fragmentsOK; [exact Hb| |exact H].
  constructor; [eapply pieceOf_fragmentOK, Hp|constructor].
Qed.
#[export] Hint Resolve fragments_spawnPiece : frag.

Ltac frag_modify :=
  let g := fresh "g" in
  let H := fresh "H" in
  intros g H; destruct g;
  first [ exact H
        | constructor
        | match goal with
          | |- context [if ?c then _ else _] => destruct c
          end; exact H ].

Ltac inv_step :=
  lazymatch goal with
  | |- preserves _ (ret _) => apply preserves_ret
  | |- preserves _ (let x := _ in _) => forget_let
  | |- preserves _ (bind _ _) => apply preserves_bind; [ | intros ]
  | |- preserves _ (when _ _) => apply preserves_when
  | |- preserves _ (forEachM _ _) => apply preserves_forEachM; intros
  | |- preserves _ (forPieces _ _) => apply preserves_forPieces; intros
  | |- preserves _ (modifyG _) => apply preserves_modifyG; frag_modify
  | |- preserves _ (if ?c then _ else _) => destruct c
  | |- preserves _ (match ?x with _ => _ end) => destruct x
  | |- preserves _ _ =>
      first
        [ assumption
        | match goal with IH : forall _, preserves _ _ |- _ => apply IH end
        | apply preserves_pure; solve [auto with pure]
        | solve [eauto with frag]
        | eapply keeps_fragments; [ solve [eauto with touch] | reflexivity ] ]
  end.

Ltac inv_tac := repeat inv_step.

Lemma fragments_createPlayerDeathParticles :
  preserves fragmentsOK createPlayerDeathParticles.
Proof. unfold createPlayerDeathParticles. inv_tac. Qed.

Lemma fragments_createDeathParticlesAt pos facing enemyID wasOnPlatform :
  preserves fragmentsOK (createDeathParticlesAt pos facing enemyID wasOnPlatform).
Proof. unfold createDeathParticlesAt. inv_tac. Qed.
#[export] Hint Resolve fragments_createPlayerDeathParticles
  fragments_createDeathParticlesAt : frag.

Lemma fragments_createDecap e : preserves fragmentsOK (createDecap e).
Proof.
  cbv beta zeta delta [createDecap].
  repeat lazymatch goal with
         | |- preserves _ (addDeathParticle _) =>
             apply fragments_addDeathParticle;
             split; [left; simpl; lia | simpl; discriminate]
         | |- _ => inv_step
         end.
Qed.
#[export] Hint Resolve fragments_createDecap : frag.

Lemma fragments_createDeathParticles e : preserves fragmentsOK (createDeathParticles e).
Proof. unfold createDeathParticles. inv_tac. Qed.
#[export] Hint Resolve fragments_createDeathParticles : frag.

Lemma fragments_updateCorpses dt : preserves fragmentsOK (updateCorpses dt).
Proof.
  unfold updateCorpses, stepCorpse, corpseExpire. inv_tac.
Qed.
#[export] Hint Resolve fragments_updateCorpses : frag.

Lemma Forall2_fragStep_OK ps ps' :
  Forall2 fragStep ps ps' -> Forall fragmentOK ps -> Forall fragmentOK ps'.
Proof.
  induction 1 as [|p p' ps ps' Hp _ IH]; intros H; [constructor|].
  inversion H; subst. constructor; [apply Hp; assumption|auto].
Qed.

Lemma Forall2_fragStep_id ps ps' :
  Forall2 fragStep ps ps' ->
  Forall (fun p => DeathParticle.EnemyID p = 0%Z) ps ->
  Forall (fun p => DeathParticle.EnemyID p = 0%Z) ps'.
Proof.
  induction 1 as [|p p' ps ps' Hp _ IH]; intros H; [constructor|].
  inversion H; subst. constructor; [|auto].
  destruct Hp as [-> _]. assumption.
Qed.

Lemma Forall_filter_keeps {A} (P : A -> Prop) (f : A -> bool) xs :
  Forall P xs -> Forall P (List.filter f xs).
Proof.
  induction 1 as [|x xs Hx _ IH]; simpl; [constructor|].
  destruct (f x); [constructor|]; assumption.
Qed.

Lemma Forall_filter_id (ps : list DeathParticle) :
  Forall (fun p => DeathParticle.EnemyID p = 0%Z)
    (List.filter (fun p => (DeathParticle.EnemyID p =? 0)%Z) ps).
Proof.
  induction ps as [|p ps IH]; simpl; [constructor|].
  destruct (DeathParticle.EnemyID p =? 0)%Z eqn:E; [|exact IH].
  constructor; [apply Z.eqb_eq, E|exact IH].
Qed.

(** What [updateDeathParticles] leaves: the fragments that it found after
    [updateCorpses] (those of the player only, once the game is over), each
    one advanced by [stepDeathParticle], the inactive ones removed. *)
Lemma wp_updateDeathParticles dt (P : Game -> Prop) w :
  wp (updateCorpses dt) (fun _ w1 => P (game w1)) w ->
  wp (updateDeathParticles dt)
    (fun _ w' => exists g1 ps',
       P g1
       /\ Forall2 fragStep
            (if Game.gameOver g1
             then List.filter (fun p => (DeathParticle.EnemyID p =? 0)%Z)
                    (Game.deathParticles g1)
             else Game.deathParticles g1) ps'
       /\ Game.deathParticles (game w') = List.filter DeathParticle.Active ps') w.
Proof.
  intros Hc. cbv beta delta [updateDeathParticles].
  apply wp_bind_intro. eapply wp_conseq; [exact Hc|]. cbv beta.
  intros ? [g1 r1] HP. cbn [game] in HP.
  apply wp_bind_intro, wp_getG. cbn [game runtime].
  apply wp_bind_intro.
  apply wp_conseq with (Q := fun _ w2 =>
    Game.deathParticles (game w2)
    = if Game.gameOver g1
      then List.filter (fun p => (DeathParticle.EnemyID p =? 0)%Z)
             (Game.deathParticles g1)
      else Game.deathParticles g1).
  { destruct (Game.gameOver g1); cbn [when].
    - apply wp_modifyG. cbn [game]. destruct g1; reflexivity.
    - apply wp_ret. reflexivity. }
  intros ? [g2 r2] H2. cbn [game] in H2.
  apply wp_bind_intro, wp_gets. cbn [game]. rewrite H2.
  apply wp_bind_intro.
  wp_call (wp_forEachM_Forall2 fragStep (stepDeathParticle dt)
             (wp_stepDeathParticle dt)).
  intros ps' [g3 r3] HF.
  apply wp_bind_intro, wp_modifyG. apply wp_modifyG. cbn [game runtime].
  exists g1, ps'. split; [exact HP|]. split; [exact HF|].
  destruct g3; reflexivity.
Qed.

Lemma fragments_updateDeathParticles dt :
  preserves fragmentsOK (updateDeathParticles dt).
Proof.
  intros w H.
  pose proof (wp_updateDeathParticles dt fragmentsOK w
                (wp_preserves _ _ w (fragments_updateCorpses dt) H)) as Hw.
  unfold wp in Hw. destruct Hw as (g1 & ps' & H1 & HF & Hd).
  unfold fragmentsOK. rewrite Hd. apply Forall_filter_keeps.
  eapply Forall2_fragStep_OK; [exact HF|].
  destruct (Game.gameOver g1); [apply Forall_filter_keeps|]; exact H1.
Qed.
#[export] Hint Resolve fragments_updateDeathParticles : frag.

Lemma fragments_projectileVsEnemies test onKill p es :
  preserves fragmentsOK onKill ->
  preserves fragmentsOK (projectileVsEnemies test onKill p es).
Proof. intros Hk. induction es as [|e es IH]; simpl; inv_tac. Qed.

Lemma fragments_projectilesVsEnemies test onKill ps :
  preserves fragmentsOK onKill ->
  forall es, preserves fragmentsOK (projectilesVsEnemies test onKill ps es).
Proof.
  intros Hk. pose proof (fragments_projectileVsEnemies test onKill) as Hp.
  induction ps as [|p ps IH]; intros es; simpl; inv_tac; auto.
Qed.

Lemma fragments_checkCollisions : preserves fragmentsOK checkCollisions.
Proof.
  unfold checkCollisions, playerDefeated. inv_tac.
  apply fragments_projectilesVsEnemies. unfold scoreKill. inv_tac.
Qed.
#[export] Hint Resolve fragments_checkCollisions : frag.

Lemma fragments_updateMenu dt : preserves fragmentsOK (updateMenu dt).
Proof.
  unfold updateMenu, firePlayerProjectile. inv_tac.
  apply fragments_projectilesVsEnemies. inv_tac.
Qed.

#[export] Hint Resolve fragments_updateMenu : frag.

Lemma fragments_update dt : preserves fragmentsOK (update dt).
Proof. unfold update. inv_tac. Qed.
#[export] Hint Resolve fragments_update : frag.

Lemma fragments_handleInput ev : preserves fragmentsOK (handleInput ev).
Proof.
  unfold handleInput, startGame, restartGame, toggleBloodColor, pressKey,
    firePlayerProjectile.
  inv_tac.
Qed.

Lemma fragments_handleResize width height :
  preserves fragmentsOK (handleResize width height).
Proof. unfold handleResize. inv_tac. Qed.
#[export] Hint Resolve fragments_handleInput fragments_handleResize : frag.

Lemma fragments_runFrame ev : preserves fragmentsOK (runFrame ev).
Proof. unfold runFrame. inv_tac. Qed.
#[export] Hint Resolve fragments_runFrame : frag.

Lemma fragments_runFrames evs : preserves fragmentsOK (runFrames evs).
Proof.
  induction evs as [|ev evs IH]; simpl; inv_tac.
Qed.

Lemma NewGame_deathParticles width height w0 :
  Game.deathParticles (game (launch_world width height w0)) = [].
Proof.
  unfold launch_world, NewGame, bind.
  destruct (generatePlatforms _ _ w0) as [ps w1]. reflexivity.
Qed.

(** ** Blood particles *)

Lemma bloodPlatformCollisions_eq platforms :
  forall p idx w,
    bloodPlatformCollisions p idx platforms w
    = match firstPlatformHit p idx platforms with
      | Some i =>
          let tileX := int (X (BloodParticle.Pos p)) in
          let g := game w in
          (BloodParticle.setActive false p, true,
           mkWorld
             (if onScreen g tileX
              then Game.setRedPlatformTiles
                     (<[int_add (int_mul i 10000) tileX := BloodParticle.EnemyID p]>
                        (Game.redPlatformTiles g)) g
              else g)
             (runtime w))
      | None => (p, false, w)
      end.
Proof.
  induction platforms as [|platform rest IH]; intros p idx w; simpl.
  - reflexivity.
  - destruct (bloodOverlapsPlatform p platform); [|apply IH].
    destruct w as [g r]. unfold bind, getG, when, onScreen. simpl.
    destruct (_ && _); reflexivity.
Qed.

(** The result and the effect of [stepBloodParticle] on an active particle. *)
Lemma stepBloodParticle_eq dt p w :
  BloodParticle.Active p = true ->
  let g := game w in
  let q := fallBlood dt 300.0 p in
  let tileX := int (X (BloodParticle.Pos q)) in
  let id := BloodParticle.EnemyID p in
  let aged := BloodParticle.setLifetime (BloodParticle.Lifetime p - dt) in
  stepBloodParticle dt p w
  = match firstPlatformHit q 0 (Game.platforms g) with
    | Some i =>
        (BloodParticle.setActive false (aged q),
         mkWorld
           (if onScreen g tileX
            then Game.setRedPlatformTiles
                   (<[int_add (int_mul i 10000) tileX := id]>
                      (Game.redPlatformTiles g)) g
            else g)
           (runtime w))
    | None =>
        (if (BloodParticle.Lifetime p - dt <=? 0) || outsideViewport g q
         then BloodParticle.setActive false (aged q) else aged q,
         mkWorld
           (if (Y (BloodParticle.Pos q) >=? float64 (Game.groundY g))
               && onScreen g tileX
            then Game.setRedGroundTiles (<[tileX := id]> (Game.redGroundTiles g)) g
            else g)
           (runtime w))
    end.
Proof.
  intros Hactive g q tileX id aged. subst g. destruct w as [g r].
  cbn [game runtime] in *.
  unfold stepBloodParticle. rewrite Hactive. cbn [negb].
  unfold bind at 1. cbn [getG game]. cbv zeta. fold q.
  unfold bind at 1. rewrite bloodPlatformCollisions_eq. cbn [game runtime].
  subst aged tileX id.
  assert (Hl : BloodParticle.Lifetime q = BloodParticle.Lifetime p)
    by (subst q; destruct p; reflexivity).
  assert (He : BloodParticle.EnemyID q = BloodParticle.EnemyID p)
    by (subst q; destruct p; reflexivity).
  rewrite <- Hl, <- He. clearbody q. clear Hl He.
  destruct q as [[px py] [vx vy] c a l e].
  destruct (firstPlatformHit _ 0 (Game.platforms g)) as [i|]; cbv zeta.
  - cbn [negb andb when]. unfold bind, ret. simpl.
    repeat match goal with |- context [if ?b then _ else _] => destruct b end;
      reflexivity.
  - cbn [negb andb].
    unfold outsideViewport, onScreen, markGroundRed. simpl in *.
    unfold bind, when, ret, getG, modifyG. simpl.
    repeat match goal with |- context [if ?b then _ else _] => destruct b eqn:? end;
      simpl in *; try reflexivity; try discriminate; try congruence.
Qed.

Lemma wp_stepBloodParticle_id dt p w :
  wp (stepBloodParticle dt p)
    (fun p' _ => BloodParticle.EnemyID p' = BloodParticle.EnemyID p) w.
Proof.
  unfold wp. destruct (BloodParticle.Active p) eqn:Hactive.
  - rewrite (stepBloodParticle_eq dt p w Hactive). cbv zeta.
    destruct (firstPlatformHit _ _ _); cbn [fst];
      repeat match goal with |- context [if ?b then _ else _] => destruct b end;
      destruct p; reflexivity.
  - unfold stepBloodParticle. rewrite Hactive. reflexivity.
Qed.

Lemma Forall2_same_id ps ps' :
  Forall2 (fun p p' : BloodParticle =>
             BloodParticle.EnemyID p' = BloodParticle.EnemyID p) ps ps' ->
  Forall (fun p => BloodParticle.EnemyID p = 0%Z) ps ->
  Forall (fun p => BloodParticle.EnemyID p = 0%Z) ps'.
Proof.
  induction 1 as [|p p' ps ps' Hp _ IH]; intros H; [constructor|].
  inversion H; subst. constructor; [congruence|auto].
Qed.

Lemma Forall_filter_blood_id (ps : list BloodParticle) :
  Forall (fun p => BloodParticle.EnemyID p = 0%Z)
    (List.filter (fun p => (BloodParticle.EnemyID p =? 0)%Z) ps).
Proof.
  induction ps as [|p ps IH]; simpl; [constructor|].
  destruct (BloodParticle.EnemyID p =? 0)%Z eqn:E; [|exact IH].
  constructor; [apply Z.eqb_eq, E|exact IH].
Qed.

(** Once the game is over, [updateBloodParticles] leaves the blood of the
    player only. *)
Lemma wp_updateBloodParticles_gameOver dt w :
  Game.gameOver (game w) = true ->
  wp (updateBloodParticles dt)
    (fun _ w' =>
       Forall (fun p => BloodParticle.EnemyID p = 0%Z)
         (Game.bloodParticles (game w'))) w.
Proof.
  intros Hover. cbv beta delta [updateBloodParticles]. destruct w as [g r].
  cbn [game] in Hover.
  apply wp_bind_intro, wp_getG. cbn [game]. rewrite Hover. cbn [when].
  apply wp_bind_intro, wp_modifyG. cbn [game runtime].
  apply wp_bind_intro, wp_gets. cbn [game].
  apply wp_bind_intro.
  wp_call (wp_forEachM_Forall2
             (fun p p' : BloodParticle =>
                BloodParticle.EnemyID p' = BloodParticle.EnemyID p)
             (stepBloodParticle dt) (wp_stepBloodParticle_id dt)).
  intros ps' [g3 r3] HF.
  apply wp_bind_intro, wp_modifyG. apply wp_modifyG. cbn [game runtime].
  assert (Hps : Forall (fun p => BloodParticle.EnemyID p = 0%Z) ps').
  { eapply Forall2_same_id; [exact HF|]. destruct g; apply Forall_filter_blood_id. }
  destruct g3. simpl. apply Forall_filter_keeps, Hps.
Qed.

(** ** The enemies once the game is over *)

Lemma stepEnemy_gameOver dt e w :
  Game.gameOver (game w) = true ->
  stepEnemy dt e w = (walkedOff dt (game w) e, w).
Proof.
  intros Hover. unfold stepEnemy, walkedOff.
  destruct (negb (Enemy.Active e)); [reflexivity|].
  unfold bind, getG, ret. cbv zeta. rewrite Hover. reflexivity.
Qed.

Lemma forEachM_map {A} (body : A -> M A) (f : A -> A) w xs :
  (forall x, body x w = (f x, w)) -> forEachM body xs w = (map f xs, w).
Proof.
  intros Hb. induction xs as [|x xs IH]; simpl; [reflexivity|].
  unfold bind. rewrite Hb, IH. reflexivity.
Qed.

Lemma enemyPhysics_ext dt gravity groundY g1 g2 e :
  Game.platforms g1 = Game.platforms g2 ->
  Game.width g1 = Game.width g2 ->
  enemyPhysics dt gravity groundY g1 e = enemyPhysics dt gravity groundY g2 e.
Proof. intros Hp Hw. unfold enemyPhysics. rewrite Hp, Hw. reflexivity. Qed.

Lemma walkedOff_ext dt g1 g2 e :
  Game.platforms g1 = Game.platforms g2 ->
  Game.width g1 = Game.width g2 ->
  Game.groundY g1 = Game.groundY g2 ->
  walkedOff dt g1 e = walkedOff dt g2 e.
Proof.
  intros Hp Hw Hg. unfold walkedOff. rewrite Hw, Hg.
  rewrite (enemyPhysics_ext _ _ _ g1 g2) by assumption. reflexivity.
Qed.

Lemma wp_of_touches {A} fp (m : M A) w :
  touches fp m ->
  wp m (fun _ w' => forall f, fp f = false -> unchanged f (game w) (game w')) w.
Proof. intros Hm. unfold wp. intros f Hf. apply Hm, Hf. Qed.

Lemma wp_afterCollisions_gameOver dt w :
  Game.gameOver (game w) = true ->
  wp (afterCollisions dt) (fun _ w' => overTick dt (game w) (game w')) w.
Proof.
  intros Hover. destruct w as [g r]. cbn [game runtime] in *.
  cbv beta delta [afterCollisions].
  (* updateProjectiles *)
  apply wp_bind_intro. cbv beta delta [updateProjectiles].
  apply wp_bind_intro, wp_getG. cbn [game]. rewrite Hover.
  apply wp_modifyG. cbn [game runtime].
  (* updateEnemies *)
  apply wp_bind_intro. cbv beta delta [updateEnemies].
  apply wp_bind_intro, wp_gets. cbn [game].
  apply wp_bind. unfold wp at 1.
  rewrite (forEachM_map (stepEnemy dt)
             (walkedOff dt (Game.setProjectiles [] g)))
    by (intros e; apply stepEnemy_gameOver; destruct g; exact Hover).
  cbn [fst snd].
  apply wp_bind_intro, wp_modifyG. apply wp_bind_intro, wp_modifyG.
  cbn [game runtime].
  apply wp_bind_intro, wp_getG. cbn [game].
  replace (Game.gameOver _) with true by (destruct g; symmetry; exact Hover).
  apply wp_ret.
  match goal with |- wp _ _ (mkWorld ?g0 _) => set (g2 := g0) end.
  assert (H2 : Game.gameOver g2 = true /\ Game.inMenu g2 = Game.inMenu g
               /\ Game.projectiles g2 = []
               /\ Game.enemies g2
                  = List.filter Enemy.Active (map (walkedOff dt g) (Game.enemies g))
               /\ Game.enemySpawnCounter g2 = Game.enemySpawnCounter g
               /\ Game.player g2 = Game.player g /\ Game.score g2 = Game.score g).
  { subst g2. destruct g. cbn in *. repeat split; try assumption.
    all: try (f_equal; apply map_ext; intros e; apply walkedOff_ext; reflexivity). }
  clearbody g2. destruct H2 as (Ho2 & Hm2 & Hp2 & He2 & Hc2 & Hpl2 & Hs2).
  (* updateDeathParticles *)
  apply wp_bind_intro.
  eapply wp_conseq.
  { apply wp_and.
    - apply (wp_updateDeathParticles dt (fun g1 => Game.gameOver g1 = true)).
      eapply wp_conseq; [apply wp_of_touches, touches_updateCorpses|].
      cbv beta. intros ? w1 Hu. rewrite (Hu F_gameOver eq_refl). exact Ho2.
    - apply wp_of_touches, touches_updateDeathParticles. }
  cbv beta. intros ? [g3 r3] [(g1 & ps' & Ho1 & HF & Hd) Hu3].
  cbn [game runtime] in *. rewrite Ho1 in HF. frame_facts Hu3.
  assert (Hid : Forall (fun p => DeathParticle.EnemyID p = 0%Z)
                  (Game.deathParticles g3)).
  { rewrite Hd. apply Forall_filter_keeps.
    eapply Forall2_fragStep_id; [exact HF|apply Forall_filter_id]. }
  (* updateBloodParticles *)
  apply wp_bind_intro.
  eapply wp_conseq.
  { apply wp_and.
    - apply wp_updateBloodParticles_gameOver. cbn [game]. congruence.
    - apply wp_of_touches, touches_updateBloodParticles. }
  cbv beta. intros ? [g4 r4] [Hb4 Hu4]. cbn [game runtime] in *.
  frame_facts Hu4.
  (* checkAndClearRedTiles *)
  wp_frame.
  unfold overTick. repeat split; congruence.
Qed.

Lemma update_gameOver dt w :
  Game.inMenu (game w) = false ->
  Game.gameOver (game w) = true ->
  update dt w = afterCollisions dt w.
Proof.
  intros Hmenu Hover. unfold update, bind at 1. cbn [getG].
  rewrite Hmenu, Hover. reflexivity.
Qed.

Lemma update_running dt w :
  Game.inMenu (game w) = false ->
  Game.gameOver (game w) = false ->
  update dt w = afterCollisions dt (exec (updatePlayer dt;; checkCollisions) w).
Proof.
  intros Hmenu Hover. unfold update, bind at 1. cbn [getG].
  rewrite Hmenu, Hover. cbn [negb when]. unfold bind at 1, exec.
  destruct ((updatePlayer dt;; checkCollisions) w) as [[] w1]. reflexivity.
Qed.

(** C1 (as the code has it).  A tick of a round that is over: the round
    stays over; every projectile is removed; of the fragments and of the
    blood only those of the player (source id 0) are left; the active
    enemies walk to the nearer edge of the screen and no enemy is spawned;
    the player and the score are as they were. *)
Theorem C1_game_over_tick (dt : Q) (w : World) :
  Game.inMenu (game w) = false ->
  Game.gameOver (game w) = true ->
  let g := game w in
  let g' := game (exec (update dt) w) in
  Game.gameOver g' = true
  /\ Game.inMenu g' = false
  /\ Game.projectiles g' = []
  /\ Forall (fun p => DeathParticle.EnemyID p = 0%Z) (Game.deathParticles g')
  /\ Forall (fun p => BloodParticle.EnemyID p = 0%Z) (Game.bloodParticles g')
  /\ Game.enemies g' = List.filter Enemy.Active (map (walkedOff dt g) (Game.enemies g))
  /\ Game.enemySpawnCounter g' = Game.enemySpawnCounter g
  /\ Game.player g' = Game.player g
  /\ Game.score g' = Game.score g.
Proof.
  intros Hmenu Hover g g'. subst g g'.
  pose proof (wp_afterCollisions_gameOver dt w Hover) as H.
  unfold exec. rewrite (update_gameOver dt w Hmenu Hover).
  unfold wp, overTick in H. rewrite Hmenu in H. exact H.
Qed.

(** X1.  The tick in which the player is defeated ends in the same way:
    what follows the collision phase finds the round over. *)
Lemma defeat_tick (dt : Q) (w : World) :
  Game.inMenu (game w) = false ->
  Game.gameOver (game w) = false ->
  let w1 := exec (updatePlayer dt;; checkCollisions) w in
  Game.gameOver (game w1) = true ->
  overTick dt (game w1) (game (exec (update dt) w)).
Proof.
  intros Hmenu Hover w1 Hover1.
  pose proof (wp_afterCollisions_gameOver dt w1 Hover1) as H.
  unfold exec at 1. rewrite (update_running dt w Hmenu Hover). exact H.
Qed.

(** C4 (as the code has it).  A tick of an active blood particle, [q] being
    the particle after gravity and motion and [tileX] its column.  If [q]
    overlaps a platform, the particle is deactivated and, when the column
    is on the screen, the platform tile is stained with the source id.  If
    it overlaps none, the particle is deactivated exactly when its lifetime
    has run out or it has left the viewport; when it is at or below the
    ground line and the column is on the screen the ground tile is stained
    with the source id, and this alone does not deactivate it.  Nothing
    else of the game changes. *)
Theorem C4_blood_contact_and_removal (dt : Q) (p : BloodParticle) (w : World) :
  BloodParticle.Active p = true ->
  let g := game w in
  let q := fallBlood dt 300.0 p in
  let tileX := int (X (BloodParticle.Pos q)) in
  let id := BloodParticle.EnemyID p in
  let p' := eval (stepBloodParticle dt p) w in
  let g' := game (exec (stepBloodParticle dt p) w) in
  BloodParticle.EnemyID p' = id
  /\ match firstPlatformHit q 0 (Game.platforms g) with
     | Some i =>
         BloodParticle.Active p' = false
         /\ g' = (if onScreen g tileX
                  then Game.setRedPlatformTiles
                         (<[int_add (int_mul i 10000) tileX := id]>
                            (Game.redPlatformTiles g)) g
                  else g)
     | None =>
         BloodParticle.Active p'
         = negb ((BloodParticle.Lifetime p - dt <=? 0) || outsideViewport g q)
         /\ g' = (if (Y (BloodParticle.Pos q) >=? float64 (Game.groundY g))
                     && onScreen g tileX
                  then Game.setRedGroundTiles
                         (<[tileX := id]> (Game.redGroundTiles g)) g
                  else g)
     end.
Proof.
  intros Hactive g q tileX id p' g'. subst p' g'.
  split; [apply (wp_exec _ _ w (wp_stepBloodParticle_id dt p w))|].
  unfold eval, exec. rewrite (stepBloodParticle_eq dt p w Hactive). cbv zeta.
  fold g q tileX id.
  destruct (firstPlatformHit q 0 (Game.platforms g)) as [i|]; cbn [fst snd game].
  - split; [|reflexivity]. destruct q; reflexivity.
  - split; [|reflexivity].
    assert (Ha : BloodParticle.Active q = true)
      by (subst q; destruct p; exact Hactive).
    destruct (_ || _); destruct q; simpl in *; congruence.
Qed.

(** C2 (as the code has it).  After any number of frames of [run], started
    on a screen of any size with any runtime and any events, every fragment
    of the game has a bounce counter between 0 and 2, or is a fall-through
    fragment whose counter holds the mark 999; and a settled fragment has
    vertical velocity zero. *)
Theorem C2_counter_bounded_or_marked
  (width height : Z) (evs : list (option Event)) (w0 : World) :
  Forall
    (fun p =>
       ((0 <= DeathParticle.Bounces p <= 2)%Z
        \/ (DeathParticle.FallsThrough p = true
            /\ DeathParticle.Bounces p = 999%Z))
       /\ (DeathParticle.OnGround p = true -> Y (DeathParticle.Vel p) == 0))
    (Game.deathParticles
       (game (exec (runFrames evs) (launch_world width height w0)))).
Proof.
  apply (fragments_runFrames evs (launch_world width height w0)).
  unfold fragmentsOK. rewrite NewGame_deathParticles. constructor.
Qed.

(** ** The swept test *)

Lemma Qltb_lt x y : (x <? y) = true <-> x < y.
Proof.
  unfold Qltb. rewrite negb_true_iff, <- not_true_iff_false, Qle_bool_iff.
  split; [apply Qnot_le_lt|apply Qlt_not_le].
Qed.

Lemma Qgtb_lt x y : (x >? y) = true <-> y < x.
Proof. apply Qltb_lt. Qed.

Lemma overlaps_spec ax ay aw ah bx by_ bw bh :
  overlaps ax ay aw ah bx by_ bw bh = true
  <-> ax < bx + bw /\ bx < ax + aw /\ ay < by_ + bh /\ by_ < ay + ah.
Proof.
  unfold overlaps. rewrite !andb_true_iff, !Qltb_lt, !Qgtb_lt. tauto.
Qed.

Lemma sweptHit_spec p e :
  sweptHit p e
  = boxOverEnemy (Projectile.Pos p) e
    || boxOverEnemy (Projectile.PrevPos p) e
    || existsb (fun k => boxOverEnemy (samplePoint p k) e) [1; 2; 3; 4]%Z.
Proof.
  unfold sweptHit, boxOverEnemy, samplePoint. cbv zeta.
  change (sampleIndices 5) with [1; 2; 3; 4]%Z. cbn [X Y].
  destruct (overlaps (X (Projectile.Pos p)) _ _ _ _ _ _ _); [reflexivity|].
  destruct (overlaps (X (Projectile.PrevPos p)) _ _ _ _ _ _ _); reflexivity.
Qed.

Lemma sample_in_range (a d lo hi : Q) :
  a <= lo -> hi <= a + d -> d < 5 * (hi - lo) ->
  exists k, In k [1; 2; 3; 4]%Z
            /\ lo < a + d * (float64 k / float64 5)
            /\ a + d * (float64 k / float64 5) < hi.
Proof.
  intros Ha Hd Hs.
  assert (E : forall k : Z, float64 k / float64 5 == inject_Z k * (1 # 5)).
  { intros k. unfold float64. field. }
  destruct (Qlt_le_dec lo (a + d * (1 # 5))) as [H1|H1].
  { exists 1%Z. split; [simpl; auto|]. rewrite E. simpl inject_Z.
    change (inject_Z 1) with 1. lra. }
  destruct (Qlt_le_dec lo (a + d * (2 # 5))) as [H2|H2].
  { exists 2%Z. split; [simpl; auto|]. rewrite E.
    change (inject_Z 2) with 2. lra. }
  destruct (Qlt_le_dec lo (a + d * (3 # 5))) as [H3|H3].
  { exists 3%Z. split; [simpl; auto|]. rewrite E.
    change (inject_Z 3) with 3. lra. }
  destruct (Qlt_le_dec lo (a + d * (4 # 5))) as [H4|H4].
  { exists 4%Z. split; [simpl; auto|]. rewrite E.
    change (inject_Z 4) with 4. lra. }
  exfalso. lra.
Qed.

(** The geometry of the swept test: a projectile that has jumped over an
    enemy of the standard width in a step of at most 20 is caught by one of
    the four sample points. *)
Lemma swept_detects (p : Projectile) (e : Enemy) :
  Enemy.Width e = EnemyWidth ->
  Y (Projectile.PrevPos p) == Y (Projectile.Pos p) ->
  sameRows p e ->
  straddles p e ->
  Qabs (X (Projectile.Pos p) - X (Projectile.PrevPos p)) <= 20 ->
  sweptHit p e = true.
Proof.
  intros Hw Hy [Hr1 Hr2] Hs Hd. rewrite sweptHit_spec.
  apply orb_true_iff. right. apply existsb_exists.
  unfold straddles in Hs. cbv zeta in Hs. rewrite Hw in Hs.
  change (float64 EnemyWidth) with 4 in Hs.
  apply Qabs_Qle_condition in Hd. destruct Hd as [Hd1 Hd2].
  set (px := X (Projectile.PrevPos p)) in *.
  set (cx := X (Projectile.Pos p)) in *.
  set (ex := X (Enemy.Pos e)) in *.
  assert (Hk : exists k, In k [1; 2; 3; 4]%Z
                /\ ex - 1 < px + (cx - px) * (float64 k / float64 5)
                /\ px + (cx - px) * (float64 k / float64 5) < ex + 4).
  { destruct Hs as [[H1 H2]|[H1 H2]].
    - apply (sample_in_range px (cx - px) (ex - 1) (ex + 4)); lra.
    - destruct (sample_in_range (- px) (- (cx - px)) (- (ex + 4)) (- (ex - 1)))
        as (k & Hin & Hlo & Hhi); [lra..|].
      exists k. split; [exact Hin|]. split; lra. }
  destruct Hk as (k & Hin & Hlo & Hhi). exists k. split; [exact Hin|].
  unfold boxOverEnemy, samplePoint. cbn [X Y]. apply overlaps_spec.
  rewrite Hw. change (float64 EnemyWidth) with 4. fold px cx ex.
  set (t := float64 k / float64 5) in *.
  assert (Hyk : Y (Projectile.PrevPos p)
                + (Y (Projectile.Pos p) - Y (Projectile.PrevPos p)) * t
                == Y (Projectile.Pos p)).
  { rewrite Hy. ring. }
  rewrite Hyk. repeat split; lra.
Qed.

Lemma clampDeltaTime_range d : 0 <= d -> 0 <= clampDeltaTime d <= 0.1.
Proof.
  intros Hd. unfold clampDeltaTime. destruct (d >? 0.1) eqn:E.
  - lra.
  - split; [exact Hd|]. apply not_true_iff_false in E.
    rewrite Qgtb_lt in E. apply Qnot_lt_le in E. exact E.
Qed.

Lemma stepProjectile_moves dt width p0 :
  Projectile.Active p0 = true ->
  Projectile.IsEnemy p0 = false ->
  let p := stepProjectile dt width p0 in
  Projectile.PrevPos p = Projectile.Pos p0
  /\ Y (Projectile.Pos p) = Y (Projectile.Pos p0)
  /\ X (Projectile.Pos p)
     = X (Projectile.Pos p0) + float64 (Projectile.Dir p0) * 200.0 * dt
  /\ Projectile.IsEnemy p = false.
Proof.
  intros Ha He. unfold stepProjectile. rewrite Ha, He. cbn [negb].
  destruct p0 as [[x y] prev dir a f ie]. simpl.
  destruct (_ || _); simpl; auto.
Qed.

(** ** The resolver of [checkCollisions] *)

Lemma eval_projectileVsEnemies test onKill p es :
  forall w,
    eval (projectileVsEnemies test onKill p es) w
    = (existsb (hits test p) es, killFirst (hits test p) es).
Proof.
  induction es as [|e es IH]; intros w; [reflexivity|].
  cbn [projectileVsEnemies existsb killFirst]. unfold hits at 1 3.
  destruct (Enemy.Active e && test p e).
  - rewrite !eval_bind. reflexivity.
  - rewrite eval_bind, IH. reflexivity.
Qed.

Lemma eval_projectilesVsEnemies test onKill ps :
  forall es w,
    eval (projectilesVsEnemies test onKill ps es) w = resolveHits test ps es.
Proof.
  induction ps as [|p ps IH]; intros es w; [reflexivity|].
  cbn [projectilesVsEnemies resolveHits].
  destruct (negb (Projectile.Active p) || Projectile.IsEnemy p).
  - rewrite eval_bind, IH. destruct (resolveHits test ps es). reflexivity.
  - rewrite eval_bind, eval_projectileVsEnemies. cbv zeta.
    rewrite eval_bind, IH. destruct (resolveHits test ps _). reflexivity.
Qed.

Lemma checkCollisions_resolves w :
  playerHit (game w) = false ->
  let g := game w in
  let g' := game (exec checkCollisions w) in
  (Game.projectiles g', Game.enemies g')
  = resolveHits sweptHit (Game.projectiles g) (Game.enemies g).
Proof.
  intros Hhit g g'. subst g g'. unfold playerHit in Hhit.
  apply orb_false_elim in Hhit. destruct Hhit as [H1 H2].
  assert (Hg : game (exec checkCollisions w)
               = let '(r, w1) :=
                   projectilesVsEnemies sweptHit scoreKill
                     (Game.projectiles (game w)) (Game.enemies (game w)) w in
                 Game.setEnemies r.2 (Game.setProjectiles r.1 (game w1))).
  { unfold exec, checkCollisions, bind at 1. cbn [getG]. rewrite H1, H2.
    unfold bind at 1.
    destruct (projectilesVsEnemies _ _ _ _ w) as [[ps es] w1]. reflexivity. }
  rewrite Hg.
  pose proof (eval_projectilesVsEnemies sweptHit scoreKill
                (Game.projectiles (game w)) (Game.enemies (game w)) w) as E.
  unfold eval in E.
  destruct (projectilesVsEnemies _ _ _ _ w) as [[ps es] [g1 r1]].
  cbn [fst snd game] in *. rewrite <- E. destruct g1; reflexivity.
Qed.

Lemma killFirst_none hit es : existsb hit es = false -> killFirst hit es = es.
Proof.
  induction es as [|e es IH]; simpl; [reflexivity|].
  destruct (hit e); [discriminate|]. simpl. intros H. rewrite IH; auto.
Qed.

Lemma killFirst_first hit es1 e es2 :
  Forall (fun e' => hit e' = false) es1 -> hit e = true ->
  existsb hit (es1 ++ e :: es2) = true
  /\ killFirst hit (es1 ++ e :: es2) = es1 ++ Enemy.setActive false e :: es2.
Proof.
  intros H1 He. induction H1 as [|e' es1 He' _ IH]; simpl.
  - rewrite He. auto.
  - rewrite He'. simpl. destruct IH as [-> ->]. auto.
Qed.

Lemma killFirst_keeps_inactive test p es :
  forall j x,
    es !! j = Some x -> Enemy.Active x = false ->
    killFirst (hits test p) es !! j = Some x.
Proof.
  induction es as [|e es IH]; intros j x Hj Hx; [discriminate|].
  simpl. destruct (hits test p e) eqn:Hh.
  - destruct j as [|j]; [|exact Hj]. simpl in Hj. injection Hj as ->.
    unfold hits in Hh. rewrite Hx in Hh. discriminate.
  - destruct j as [|j]; [exact Hj|]. simpl in *. apply IH; assumption.
Qed.

Lemma resolveHits_keeps_inactive test ps :
  forall es j x,
    es !! j = Some x -> Enemy.Active x = false ->
    (resolveHits test ps es).2 !! j = Some x.
Proof.
  induction ps as [|p ps IH]; intros es j x Hj Hx; [exact Hj|].
  cbn [resolveHits].
  destruct (negb (Projectile.Active p) || Projectile.IsEnemy p).
  - specialize (IH es j x Hj Hx). destruct (resolveHits test ps es). exact IH.
  - cbv zeta.
    specialize (IH (killFirst (hits test p) es) j x
                  (killFirst_keeps_inactive test p es j x Hj Hx) Hx).
    destruct (resolveHits test ps _). exact IH.
Qed.

Lemma resolveHits_harmless test ps1 ps es :
  Forall (harmless test es) ps1 ->
  resolveHits test (ps1 ++ ps) es
  = (ps1 ++ (resolveHits test ps es).1, (resolveHits test ps es).2).
Proof.
  induction 1 as [|q ps1 Hq _ IH]; simpl.
  - destruct (resolveHits test ps es); reflexivity.
  - destruct (negb (Projectile.Active q) || Projectile.IsEnemy q) eqn:E.
    + rewrite IH. reflexivity.
    + apply orb_false_elim in E. destruct E as [Ea Ee].
      apply negb_false_iff in Ea. rewrite (Hq Ea Ee).
      rewrite (killFirst_none _ _ (Hq Ea Ee)), IH. reflexivity.
Qed.

Lemma step_length (dt : Q) (dir : Z) :
  0 <= dt <= 0.1 -> (dir = 1 \/ dir = -1)%Z ->
  Qabs (float64 dir * 200.0 * dt) <= 20.
Proof.
  intros Hdt [-> | ->]; apply Qabs_Qle_condition; unfold float64;
    [change (inject_Z 1) with 1 | change (inject_Z (-1)) with (-1)]; lra.
Qed.

(** C6 (as the code has it).  A player projectile [p] that the last tick
    has advanced, the time step being clamped, and that is still active;
    an active enemy [e] of the standard width in the rows of [p], which the
    previous and the current box of [p] straddle without overlapping it.
    The swept test of [p] against [e] succeeds.  In a collision phase that
    does not defeat the player, in which the projectiles before [p] hit
    nothing and [p] hits no enemy before [e], the resolver deactivates both
    [p] and [e]. *)
Theorem C6_swept_hit_registers
  (elapsed : Q) (width : Z) (p0 : Projectile) (e : Enemy)
  (ps1 ps2 : list Projectile) (es1 es2 : list Enemy) (w : World) :
  let dt := clampDeltaTime elapsed in
  let p := stepProjectile dt width p0 in
  let g := game w in
  0 <= elapsed ->
  Projectile.Active p0 = true ->
  Projectile.IsEnemy p0 = false ->
  (Projectile.Dir p0 = 1 \/ Projectile.Dir p0 = -1)%Z ->
  Projectile.Active p = true ->
  Enemy.Active e = true ->
  Enemy.Width e = EnemyWidth ->
  sameRows p e ->
  straddles p e ->
  Game.projectiles g = ps1 ++ p :: ps2 ->
  Game.enemies g = es1 ++ e :: es2 ->
  playerHit g = false ->
  Forall (harmless sweptHit (Game.enemies g)) ps1 ->
  Forall (fun e' => hits sweptHit p e' = false) es1 ->
  sweptHit p e = true
  /\ let g' := game (exec checkCollisions w) in
     Game.projectiles g' !! length ps1 = Some (Projectile.setActive false p)
     /\ Game.enemies g' !! length es1 = Some (Enemy.setActive false e).
Proof.
  intros dt p g Hel Ha0 He0 Hdir Hap Hae Hw Hrows Hstr Hps Hes Hhit Hps1 Hes1.
  destruct (stepProjectile_moves dt width p0 Ha0 He0) as (Hprev & Hy & Hx & Hie).
  fold p in Hprev, Hy, Hx, Hie.
  assert (Hswept : sweptHit p e = true).
  { apply swept_detects; try assumption.
    - rewrite Hprev, Hy. reflexivity.
    - rewrite Hprev, Hx.
      assert (Hd : X (Projectile.Pos p0)
                   + float64 (Projectile.Dir p0) * 200.0 * dt
                   - X (Projectile.Pos p0)
                   == float64 (Projectile.Dir p0) * 200.0 * dt) by ring.
      rewrite Hd.
      apply step_length; [apply clampDeltaTime_range, Hel|exact Hdir]. }
  split; [exact Hswept|]. cbv zeta.
  pose proof (checkCollisions_resolves w Hhit) as Hres. cbv zeta in Hres.
  fold g in Hres. rewrite Hps in Hres.
  rewrite (resolveHits_harmless sweptHit ps1 (p :: ps2) (Game.enemies g) Hps1)
    in Hres.
  cbn [resolveHits] in Hres. rewrite Hap, Hie in Hres. cbn [negb orb] in Hres.
  cbv zeta in Hres.
  assert (Hhe : hits sweptHit p e = true)
    by (unfold hits; rewrite Hae, Hswept; reflexivity).
  rewrite Hes in Hres.
  destruct (killFirst_first (hits sweptHit p) es1 e es2 Hes1 Hhe) as [Hex Hkill].
  rewrite Hex, Hkill in Hres.
  pose proof (resolveHits_keeps_inactive sweptHit ps2
                (es1 ++ Enemy.setActive false e :: es2) (length es1)
                (Enemy.setActive false e)) as Hkeep.
  destruct (resolveHits sweptHit ps2 _) as [rest' es''].
  cbn [fst snd] in *. injection Hres as Hp' He'.
  rewrite Hp', He'. split.
  - apply list_lookup_middle. reflexivity.
  - apply Hkeep; [apply list_lookup_middle; reflexivity|].
    destruct e; reflexivity.
Qed.

(** ** The fragments of the player *)

Lemma playerKept_refl p : playerKept p p.
Proof. unfold playerKept. auto. Qed.

Lemma playerKept_trans p1 p2 p3 :
  playerKept p1 p2 -> playerKept p2 p3 -> playerKept p1 p3.
Proof.
  unfold playerKept. intros [H1 H2] [H3 H4]. split; [congruence|].
  intros H. rewrite H4, H2; congruence.
Qed.

Lemma dwellExpired_player p w :
  DeathParticle.EnemyID p = 0%Z -> dwellExpired p w = (false, w).
Proof. intros H. unfold dwellExpired. rewrite H. reflexivity. Qed.

Lemma kept_expiry p w expired w' :
  dwellExpired p w = (expired, w') ->
  DeathParticle.EnemyID p = 0%Z -> expired = false.
Proof. intros E H. rewrite (dwellExpired_player p w H) in E. congruence. Qed.

Ltac kept_leaf :=
  repeat match goal with
         | |- context [if ?b then _ else _] => destruct b eqn:?
         end;
  unfold playerKept; rec_red; bool_hyps;
  split; intros; subst; try reflexivity; try congruence; try lia;
  try solve [ exfalso;
              match goal with
              | E : dwellExpired ?q ?w = (true, _) |- _ =>
                  pose proof (kept_expiry q w true _ E) as Hk; simpl in Hk;
                  discriminate (Hk eq_refl)
              end ].

Ltac kept_step :=
  lazymatch goal with
  | |- wp (bind (dwellExpired ?p) _) _ ?w =>
      apply wp_bind; unfold wp at 1;
      let b := fresh "expired" in
      let w' := fresh "w" in
      let E := fresh "Hexpired" in
      destruct (dwellExpired p w) as [b w'] eqn:E; cbn [fst snd]
  | |- _ => first [wp_emit | wp_step]
  end.

Lemma wp_trailBlood_kept p w : wp (trailBlood p) (fun p' _ => playerKept p p') w.
Proof.
  split_fragment p. cbv beta delta [trailBlood].
  repeat kept_step; kept_leaf.
Qed.

Lemma playerKept_integrate dt gravity p : playerKept p (integrate dt gravity p).
Proof.
  split_fragment p. unfold integrate. rec_red. kept_leaf.
Qed.

Lemma wp_onPlatformTop_kept bd platform p w :
  wp (onPlatformTop bd platform p) (fun p' _ => playerKept p p') w.
Proof.
  split_fragment p. cbv beta delta [onPlatformTop].
  repeat kept_step; kept_leaf.
Qed.

Lemma wp_particlePlatformCollisions_kept bd platforms p w :
  wp (particlePlatformCollisions bd p platforms)
    (fun r _ => playerKept p (fst r)) w.
Proof.
  induction platforms as [|platform rest IH]; cbn [particlePlatformCollisions].
  - apply wp_ret, playerKept_refl.
  - destruct (particleOverPlatform p platform); [|exact IH].
    apply wp_bind_intro. wp_call wp_onPlatformTop_kept.
    intros p' w' H. apply wp_ret. exact H.
Qed.

Lemma wp_restOnPlatform_kept onPlatform p w :
  wp (restOnPlatform onPlatform p) (fun p' _ => playerKept p p') w.
Proof.
  split_fragment p. cbv beta delta [restOnPlatform].
  repeat kept_step; kept_leaf.
Qed.

Lemma wp_groundNormal_kept groundY bd p w :
  wp (groundNormal groundY bd p) (fun p' _ => playerKept p p') w.
Proof.
  split_fragment p.
  cbv beta delta [groundNormal groundBounce groundSettle groundRest].
  repeat kept_step; kept_leaf.
Qed.

Lemma wp_groundCollision_kept groundY bd onPlatform p w :
  wp (groundCollision groundY bd onPlatform p) (fun p' _ => playerKept p p') w.
Proof.
  cbv beta delta [groundCollision].
  repeat first [wp_emit | wp_step].
  all: lazymatch goal with
       | |- wp (groundNormal _ _ _) _ _ => apply wp_groundNormal_kept
       | |- _ => split_fragment p; kept_leaf
       end.
Qed.

Lemma wp_rolling_kept dt p w :
  wp (rolling dt p)
    (fun p' _ => playerKept p p' /\ DeathParticle.Pos p' = DeathParticle.Pos p) w.
Proof.
  split_fragment p. cbv beta delta [rolling].
  repeat kept_step; (split; [kept_leaf|reflexivity]).
Qed.

(** X3.  A fragment of the player (source id 0) that is active leaves the
    game in a tick only by leaving the viewport: at the end of the tick it
    is inactive exactly when it is below the screen or beyond the margin of
    10 at either side.  The three-second timer of the settled fragments
    does not apply to it. *)
Lemma player_fragment_leaves_only_off_screen
  (dt : Q) (p : DeathParticle) (w : World) :
  DeathParticle.EnemyID p = 0%Z ->
  DeathParticle.Active p = true ->
  let g := game w in
  let p' := eval (stepDeathParticle dt p) w in
  DeathParticle.Active p'
  = negb ((Y (DeathParticle.Pos p') >? float64 (Game.height g))
          || (X (DeathParticle.Pos p') <? -10)
          || (X (DeathParticle.Pos p') >? float64 (Game.width g) + 10)).
Proof.
  intros Hid Hactive g p'. subst g p'.
  apply (wp_exec (stepDeathParticle dt p)
    (fun p' _ =>
       DeathParticle.Active p'
       = negb ((Y (DeathParticle.Pos p') >? float64 (Game.height (game w)))
               || (X (DeathParticle.Pos p') <? -10)
               || (X (DeathParticle.Pos p') >? float64 (Game.width (game w)) + 10)))).
  cbv beta delta [stepDeathParticle]. cbv zeta. rewrite Hactive. cbn [negb].
  apply wp_bind_intro, wp_getG.
  apply wp_bind_intro. wp_call wp_trailBlood_kept. intros p1 w1 H1.
  apply wp_bind_intro. wp_call wp_particlePlatformCollisions_kept.
  intros [p3 onPlatform] w3 H3. cbn [fst] in H3.
  apply wp_bind_intro. wp_call wp_restOnPlatform_kept. intros p4 w4 H4.
  apply wp_bind_intro. wp_call wp_groundCollision_kept. intros p5 w5 H5.
  assert (H : playerKept p p5).
  { eapply playerKept_trans; [|exact H5].
    eapply playerKept_trans; [|exact H4].
    eapply playerKept_trans; [|exact H3].
    eapply playerKept_trans; [exact H1|apply playerKept_integrate]. }
  destruct H as [Hid5 Ha5]. specialize (Ha5 Hid). rewrite Hid in Hid5.
  rewrite Hactive in Ha5. clear H1 H3 H4 H5.
  apply wp_bind_intro. wp_call wp_rolling_kept. intros p6 w6 [[Hid6 Ha6] Hpos].
  apply wp_ret.
  match goal with
  | |- context [if ?c then DeathParticle.setActive false p6 else p6] =>
      set (outside := c);
      assert (Hp7 : DeathParticle.Pos
                      (if outside then DeathParticle.setActive false p6 else p6)
                    = DeathParticle.Pos p6)
        by (destruct outside, p6; reflexivity);
      assert (Ha7 : DeathParticle.Active
                      (if outside then DeathParticle.setActive false p6 else p6)
                    = negb outside && DeathParticle.Active p6)
        by (destruct outside, p6; reflexivity)
  end.
  rewrite Hp7, Ha7. subst outside.
  assert (P6 : DeathParticle.Pos p6 = DeathParticle.Pos p5)
    by (rewrite Hpos; destruct (_ >? _), p5; reflexivity).
  assert (E6 : DeathParticle.Active p6
               = negb (Y (DeathParticle.Pos p5) >? float64 (Game.height (game w)))).
  { rewrite Ha6.
    - destruct (_ >? _); [destruct p5; reflexivity|exact Ha5].
    - destruct (_ >? _); [destruct p5|]; assumption. }
  rewrite E6, P6.
  destruct (Y (DeathParticle.Pos p5) >? _), (X (DeathParticle.Pos p5) <? _),
    (X (DeathParticle.Pos p5) >? _); reflexivity.
Qed.

(** ** Fragments that fall through the ground *)

(** The continuous emission changes nothing of the fragment but the time
    of its last emission. *)
Lemma trailBlood_fragment p w :
  eval (trailBlood p) w = p
  \/ exists now, eval (trailBlood p) w = DeathParticle.setLastBloodEmit now p.
Proof.
  unfold eval, trailBlood. cbv zeta.
  destruct (negb _ && _); [|left; reflexivity].
  unfold bind. destruct (timeNow w) as [now w0].
  destruct (Sqrt _ w0) as [speed w2].
  destruct (_ <=? _)%Z; [|left; reflexivity].
  destruct (emitBloodFromParticle _ _ _ w2) as [[] w3].
  right. exists now. reflexivity.
Qed.

(** A fragment in the air after the emission, gravity and the motion. *)
Lemma moved_in_air dt gravity p w :
  DeathParticle.OnGround p = false ->
  let q := integrate dt gravity (eval (trailBlood p) w) in
  DeathParticle.FallsThrough q = DeathParticle.FallsThrough p
  /\ DeathParticle.Bounces q = DeathParticle.Bounces p
  /\ DeathParticle.OnGround q = false
  /\ DeathParticle.Active q = DeathParticle.Active p
  /\ Y (DeathParticle.Vel q) = Y (DeathParticle.Vel p) + gravity * dt
  /\ Y (DeathParticle.Pos q)
     = Y (DeathParticle.Pos p) + Y (DeathParticle.Vel q) * dt
  /\ X (DeathParticle.Pos q)
     = X (DeathParticle.Pos p) + X (DeathParticle.Vel p) * dt.
Proof.
  intros Hair q. subst q.
  destruct (trailBlood_fragment p w) as [->|[now ->]];
    split_fragment p; cbn in Hair; subst; unfold integrate; rec_red;
    cbn [negb andb]; rec_red; repeat split.
Qed.

Lemma particlePlatformCollisions_clear bd q platforms w :
  Forall (fun platform => particleOverPlatform q platform = false) platforms ->
  particlePlatformCollisions bd q platforms w = (q, false, w).
Proof.
  induction 1 as [|platform platforms Hp _ IH]; cbn [particlePlatformCollisions].
  - reflexivity.
  - rewrite Hp. exact IH.
Qed.

Lemma rolling_in_air dt p w :
  DeathParticle.OnGround p = false -> rolling dt p w = (p, w).
Proof. intros H. unfold rolling. rewrite H. reflexivity. Qed.

(** The two tests of the viewport, with nothing in between. *)
Lemma viewport_tests g p :
  (let p1 := if Y (DeathParticle.Pos p) >? float64 (Game.height g)
             then DeathParticle.setActive false p else p in
   if (X (DeathParticle.Pos p1) <? -10)
      || (X (DeathParticle.Pos p1) >? float64 (Game.width g) + 10)
   then DeathParticle.setActive false p1 else p1)
  = leaveViewport g p.
Proof.
  unfold leaveViewport. split_fragment p. rec_red.
  destruct (_ >? float64 (Game.height g)); rec_red;
    destruct (_ <? -10); rec_red;
    destruct (_ >? float64 (Game.width g) + 10); reflexivity.
Qed.

(** The loop body for a fragment in the air that is over no platform once
    it has moved: what is left of it is the ground collision and the tests
    of the viewport. *)
Lemma stepDeathParticle_in_air dt p w :
  DeathParticle.Active p = true ->
  DeathParticle.OnGround p = false ->
  let q := integrate dt 300.0 (eval (trailBlood p) w) in
  overNoPlatform (game w) q ->
  stepDeathParticle dt p w
  = (let* r := groundCollision (groundLine (game w)) 0.4 false q in
     let r := if Y (DeathParticle.Pos r) >? float64 (Game.height (game w))
              then DeathParticle.setActive false r else r in
     let* r := rolling dt r in
     ret (if (X (DeathParticle.Pos r) <? -10)
             || (X (DeathParticle.Pos r) >? float64 (Game.width (game w)) + 10)
          then DeathParticle.setActive false r else r))
      (exec (trailBlood p) w).
Proof.
  intros Hactive Hair q Hclear. subst q.
  cbv beta zeta delta [stepDeathParticle]. rewrite Hactive. cbn [negb].
  unfold bind at 1. cbn [getG]. unfold bind at 1. unfold eval, exec in *.
  destruct (trailBlood p w) as [p1 w1]. cbn [fst snd] in *.
  unfold bind at 1. unfold overNoPlatform in Hclear.
  rewrite (particlePlatformCollisions_clear _ _ _ w1 Hclear).
  unfold bind at 1. unfold restOnPlatform at 1. cbn [andb]. unfold ret at 1.
  reflexivity.
Qed.

(** The normal ground collision of a fragment that has bounced: it is on
    the ground line and its counter is still 1 or 2. *)
Lemma wp_groundNormal_clamps groundY bd p w :
  (1 <= DeathParticle.Bounces p <= 2)%Z ->
  wp (groundNormal groundY bd p)
    (fun p' _ => Y (DeathParticle.Pos p') = groundY
                 /\ (1 <= DeathParticle.Bounces p' <= 2)%Z) w.
Proof.
  intros Hb. split_fragment p. cbn in Hb.
  cbv beta delta [groundNormal groundBounce groundSettle groundRest].
  repeat kept_step;
    repeat match goal with
           | |- context [if ?b then _ else _] => destruct b eqn:?
           end;
    rec_red; bool_hyps; (split; [reflexivity|]);
    cbn [DeathParticle.Bounces] in *;
    unfold int_add; rewrite ?wrap64_small by lia; lia.
Qed.

Lemma wp_rolling_counter dt p w :
  wp (rolling dt p)
    (fun p' _ => DeathParticle.Pos p' = DeathParticle.Pos p
                 /\ DeathParticle.Bounces p' = DeathParticle.Bounces p) w.
Proof.
  split_fragment p. cbv beta delta [rolling].
  repeat first [wp_emit | wp_step]; split; reflexivity.
Qed.

(** C3 (as the code has it).  A fall-through fragment keeps the mark 999
    once it has it.  In a tick that finds it active and in the air, and
    over no platform once it has moved (its vertical velocity has grown by
    300 times the step, and its row by the velocity times the step; it is
    still active and in the air, with the counter it had):
    - with its bounce counter at 0, at or below the ground line and moving
      down, it passes: one impact burst is emitted, the counter is set to
      the mark, position and velocity are not touched, and only the tests
      of the viewport follow;
    - with its counter at 1 or 2 (it has bounced on a platform), at or
      below the ground line, it does not pass: the normal ground collision
      puts it on the ground line, and its counter stays 1 or 2;
    - with the mark, the ground is no more: the tick moves it, emits
      nothing but the trail and applies the tests of the viewport, which
      deactivate it below the screen and beyond the margin of 10 at either
      side. *)
Theorem C3_fall_through_once_and_for_all (dt : Q) (p : DeathParticle) (w : World) :
  let g := game w in
  let q := integrate dt 300.0 (eval (trailBlood p) w) in
  let w1 := exec (trailBlood p) w in
  DeathParticle.FallsThrough p = true ->
  (DeathParticle.Bounces p = 999%Z -> sunk (eval (stepDeathParticle dt p) w))
  /\ (DeathParticle.Active p = true ->
      DeathParticle.OnGround p = false ->
      overNoPlatform g q ->
      (Y (DeathParticle.Vel q) = Y (DeathParticle.Vel p) + 300.0 * dt
       /\ Y (DeathParticle.Pos q)
          = Y (DeathParticle.Pos p) + Y (DeathParticle.Vel q) * dt
       /\ DeathParticle.OnGround q = false
       /\ DeathParticle.Active q = true
       /\ DeathParticle.Bounces q = DeathParticle.Bounces p)
      /\ (DeathParticle.Bounces p = 0%Z ->
          groundLine g <= Y (DeathParticle.Pos q) ->
          0 < Y (DeathParticle.Vel q) ->
          stepDeathParticle dt p w
          = (leaveViewport g (DeathParticle.setBounces 999 q),
             exec (emitImpact q) w1))
      /\ ((1 <= DeathParticle.Bounces p <= 2)%Z ->
          groundLine g <= Y (DeathParticle.Pos q) ->
          let p' := eval (stepDeathParticle dt p) w in
          Y (DeathParticle.Pos p') = groundLine g
          /\ (1 <= DeathParticle.Bounces p' <= 2)%Z)
      /\ (DeathParticle.Bounces p = 999%Z ->
          stepDeathParticle dt p w = (leaveViewport g q, w1))).
Proof.
  intros g q w1 Hfalls. split.
  { intros Hmark. pose proof (wp_stepDeathParticle dt p w) as Hs. unfold wp in Hs.
    destruct Hs as (_ & _ & _ & Hs). apply Hs. split; assumption. }
  intros Hactive Hair Hclear.
  pose proof (moved_in_air dt 300.0 p w Hair) as Hq. cbv zeta in Hq. fold q in Hq.
  destruct Hq as (Hqf & Hqb & Hqg & Hqa & Hvy & Hy & _). rewrite Hactive in Hqa.
  pose proof (stepDeathParticle_in_air dt p w Hactive Hair Hclear) as Hstep.
  fold q g w1 in Hstep.
  assert (Hview : forall r w2,
             DeathParticle.OnGround r = false ->
             (let r := if Y (DeathParticle.Pos r) >? float64 (Game.height g)
                       then DeathParticle.setActive false r else r in
              let* r := rolling dt r in
              ret (if (X (DeathParticle.Pos r) <? -10)
                      || (X (DeathParticle.Pos r) >? float64 (Game.width g) + 10)
                   then DeathParticle.setActive false r else r)) w2
             = (leaveViewport g r, w2)).
  { intros r w2 Hr. cbv zeta. unfold bind. rewrite rolling_in_air.
    - unfold ret. rewrite <- viewport_tests. reflexivity.
    - destruct (_ >? _); [destruct r|]; exact Hr. }
  split; [repeat split; assumption|]. split; [|split].
  - intros Hzero Hground Hdown.
    assert (Hgc : groundCollision (groundLine g) 0.4 false q
                  = (emitImpact q;; ret (DeathParticle.setBounces 999 q))).
    { unfold groundCollision. cbn [negb andb].
      replace (Y (DeathParticle.Pos q) >=? groundLine g) with true
        by (symmetry; apply Qle_bool_iff, Hground).
      rewrite Hqf, Hfalls, Hqb, Hzero.
      replace (Y (DeathParticle.Vel q) >? 0) with true
        by (symmetry; apply Qgtb_lt, Hdown).
      reflexivity. }
    rewrite Hstep, Hgc. unfold bind at 1. unfold bind at 1. unfold exec.
    destruct (emitImpact q w1) as [[] w2]. unfold ret at 1. cbn [snd].
    apply Hview. destruct q; exact Hqg.
  - intros Hb Hground p'. subst p'.
    assert (Hgc : groundCollision (groundLine g) 0.4 false q
                  = groundNormal (groundLine g) 0.4 q).
    { unfold groundCollision. cbn [negb andb].
      replace (Y (DeathParticle.Pos q) >=? groundLine g) with true
        by (symmetry; apply Qle_bool_iff, Hground).
      rewrite Hqf, Hfalls, Hqb.
      replace (DeathParticle.Bounces p =? 0)%Z with false
        by (symmetry; apply Z.eqb_neq; lia).
      replace (DeathParticle.Bounces p <? 999)%Z with true
        by (symmetry; apply Z.ltb_lt; lia).
      rewrite andb_false_r. reflexivity. }
    unfold eval. rewrite Hstep, Hgc. unfold bind.
    assert (Hbq : (1 <= DeathParticle.Bounces q <= 2)%Z) by (rewrite Hqb; exact Hb).
    pose proof (wp_groundNormal_clamps (groundLine g) 0.4 q w1 Hbq) as Hn.
    unfold wp in Hn. destruct (groundNormal _ _ q w1) as [r w2].
    cbn [fst snd] in Hn. destruct Hn as [Hry Hrb]. cbv zeta.
    set (r1 := if Y (DeathParticle.Pos r) >? float64 (Game.height g)
               then DeathParticle.setActive false r else r).
    assert (H1 : DeathParticle.Pos r1 = DeathParticle.Pos r
                 /\ DeathParticle.Bounces r1 = DeathParticle.Bounces r)
      by (subst r1; destruct (_ >? _), r; split; reflexivity).
    pose proof (wp_rolling_counter dt r1 w2) as Hr. unfold wp in Hr.
    destruct (rolling dt r1 w2) as [r2 w3]. cbn [fst snd] in *.
    destruct Hr as [Hp2 Hb2], H1 as [Hp1 Hb1].
    assert (H3 : forall c : bool,
               DeathParticle.Pos (if c then DeathParticle.setActive false r2 else r2)
               = DeathParticle.Pos r2
               /\ DeathParticle.Bounces
                    (if c then DeathParticle.setActive false r2 else r2)
                  = DeathParticle.Bounces r2)
      by (intros [|]; destruct r2; split; reflexivity).
    unfold ret. cbn [fst].
    destruct (H3 ((X (DeathParticle.Pos r2) <? -10)
                  || (X (DeathParticle.Pos r2) >? float64 (Game.width g) + 10)))
      as [Hp3 Hb3].
    rewrite Hp3, Hb3, Hp2, Hb2, Hp1, Hb1. split; assumption.
  - intros Hmark.
    assert (Hgc : groundCollision (groundLine g) 0.4 false q = ret q).
    { unfold groundCollision. rewrite Hqf, Hfalls, Hqb, Hmark.
      change (999 =? 0)%Z with false. change (999 <? 999)%Z with false.
      rewrite andb_false_r. destruct (negb false && _); reflexivity. }
    rewrite Hstep, Hgc. unfold bind at 1. unfold ret at 1.
    apply Hview, Hqg.
Qed.

(** ** The resets *)

Lemma wp_startGame w :
  wp startGame
    (fun _ w' => freshRound (game w) (game w') /\ Game.inMenu (game w') = false) w.
Proof.
  cbv beta delta [startGame]. destruct w as [g r]. wp_steps.
  unfold freshRound. destruct g. cbn. repeat split.
Qed.

Lemma wp_restartGame w :
  wp restartGame
    (fun _ w' => freshRound (game w) (game w') /\ Game.inMenu (game w') = true) w.
Proof.
  cbv beta delta [restartGame]. destruct w as [g r]. wp_steps.
  unfold freshRound. destruct g. cbn. repeat split.
Qed.

(** X2.  Space in the menu and Enter at game over empty the projectiles, the
    enemies, the fragments, the blood and both stain maps, and zero the
    score and the counters; the corpses they leave as they are. *)
Lemma reset_clears_all_but_corpses (ev : EventKey) (w : World) :
  let g := game w in
  let g' := game (exec (handleInput ev) w) in
  (Game.inMenu g = true /\ evKey ev = KeyRune /\ evRune ev = " "%char)
  \/ (Game.inMenu g = false /\ Game.gameOver g = true /\ evKey ev = KeyEnter) ->
  freshRound g g'.
Proof.
  intros g g' H. subst g g'.
  apply (wp_exec (handleInput ev) (fun _ w' => freshRound (game w) (game w'))).
  cbv beta delta [handleInput]. apply wp_bind_intro, wp_getG.
  destruct H as [(Hm & Hk & Hr)|(Hm & Ho & Hk)]; rewrite Hm, Hk.
  - rewrite Hr. cbn [Ascii.eqb Bool.eqb andb].
    wp_call wp_startGame. intros ? w' [H _]. exact H.
  - rewrite Ho. wp_call wp_restartGame. intros ? w' [H _]. exact H.
Qed.

(** ** The platforms *)




(** ** Projectiles and enemies on the screen *)

Lemma Qltb_ge x y : (x <? y) = false <-> y <= x.
Proof.
  rewrite <- not_true_iff_false, Qltb_lt. split; [apply Qnot_lt_le|apply Qle_not_lt].
Qed.

Lemma Qgtb_le x y : (x >? y) = false <-> x <= y.
Proof. unfold Qgtb. apply Qltb_ge. Qed.

Lemma stepProjectile_in_flight dt width p :
  Projectile.Active (stepProjectile dt width p) = true ->
  projectileInFlight width (stepProjectile dt width p).
Proof.
  unfold stepProjectile. destruct (Projectile.Active p) eqn:Ha; cbn [negb].
  - cbv zeta.
    match goal with
    | |- context [if _ then Projectile.setActive false ?q else _] =>
        generalize q; intros q0
    end.
    destruct ((X (Projectile.Pos q0) <? 0) || _) eqn:Hc.
    + destruct q0; cbn; discriminate.
    + intros Hq. apply orb_false_iff in Hc. destruct Hc as [H1 H2].
      apply Qltb_ge in H1. apply Qgtb_le in H2.
      split; [exact Hq|]. split; assumption.
  - intros H. congruence.
Qed.

(** X5.  What [updateProjectiles] leaves in [g.projectiles]: only active
    projectiles, each between the left and the right edge of the screen,
    and never more of them than before. *)
Lemma updateProjectiles_survivors (dt : Q) (w : World) :
  let g := game w in
  let ps' := Game.projectiles (game (exec (updateProjectiles dt) w)) in
  Forall (projectileInFlight (Game.width g)) ps'
  /\ (length ps' <= length (Game.projectiles g))%nat.
Proof.
  intros g ps'. subst g ps'. destruct w as [g r].
  unfold updateProjectiles, exec, bind, getG, modifyG. cbn [game runtime fst snd].
  destruct (Game.gameOver g) eqn:Hover; cbn [game runtime fst snd].
  - destruct g; cbn. split; [constructor|lia].
  - replace (Game.projectiles
               (Game.setProjectiles
                  (List.filter Projectile.Active
                     (Game.projectiles
                        (Game.setProjectiles
                           (map (stepProjectile dt (Game.width g))
                              (Game.projectiles g)) g)))
                  (Game.setProjectiles
                     (map (stepProjectile dt (Game.width g)) (Game.projectiles g))
                     g)))
      with (List.filter Projectile.Active
              (map (stepProjectile dt (Game.width g)) (Game.projectiles g)))
      by (destruct g; reflexivity).
    generalize (Game.projectiles g) as ps. intros ps.
    induction ps as [|p ps [IH1 IH2]]; cbn [map List.filter length].
    + split; [constructor|lia].
    + destruct (Projectile.Active (stepProjectile dt (Game.width g) p)) eqn:Ha.
      * split; [constructor; [apply stepProjectile_in_flight, Ha|exact IH1]|].
        cbn [length]. lia.
      * split; [exact IH1|lia].
Qed.

Lemma enemyPhysics_in_play dt gravity groundY g e :
  Enemy.Active (enemyPhysics dt gravity groundY g e) = true ->
  enemyInPlay (Game.width g) (enemyPhysics dt gravity groundY g e).
Proof.
  unfold enemyPhysics. cbv zeta.
  destruct (enemyPlatformCollisions _ _) as [e1 onPlatform].
  match goal with
  | |- context [if _ then Enemy.setActive false ?q else _] =>
      generalize q; intros q0
  end.
  destruct ((X (Enemy.Pos q0) <? _) || _) eqn:Hc.
  - destruct q0; cbn; discriminate.
  - intros Hq. apply orb_false_iff in Hc. destruct Hc as [H1 H2].
    apply Qltb_ge in H1. apply Qgtb_le in H2.
    split; [exact Hq|]. split; assumption.
Qed.

Lemma wp_forEachM_inv {A} (I : Game -> Prop) (R : A -> Prop) (body : A -> M A) :
  (forall x w, I (game w) -> wp (body x) (fun x' w' => R x' /\ I (game w')) w) ->
  forall xs w, I (game w) ->
    wp (forEachM body xs) (fun xs' w' => Forall R xs' /\ I (game w')) w.
Proof.
  intros Hbody. induction xs as [|x xs IH]; intros w Hw; simpl.
  - apply wp_ret. split; [constructor|exact Hw].
  - apply wp_bind_intro. wp_call (Hbody x w Hw). intros x' w1 [Hx H1].
    apply wp_bind_intro. wp_call (IH w1 H1). intros xs' w2 [Hxs H2].
    apply wp_ret. split; [constructor; assumption|exact H2].
Qed.

Lemma wp_stepEnemy_in_play dt width e w :
  Game.width (game w) = width ->
  wp (stepEnemy dt e)
    (fun e' w' =>
       (Enemy.Active e' = true -> enemyInPlay width e')
       /\ Game.width (game w') = width) w.
Proof.
  intros Hw. cbv beta delta [stepEnemy]. cbv zeta.
  destruct (Enemy.Active e) eqn:Ha; cbn [negb].
  - apply wp_bind_intro, wp_getG.
    apply wp_bind_intro.
    eapply wp_touches with (fp := fp_projectiles).
    { destruct (Game.gameOver (game w)).
      - touches_tac idtac.
      - touches_tac idtac. }
    intros e1 g1 r1 Hu. frame_facts Hu. apply wp_ret. cbn [game].
    split; [|congruence].
    intros H. rewrite <- Hw. apply enemyPhysics_in_play, H.
  - apply wp_ret. split; [congruence|exact Hw].
Qed.

Lemma wp_spawnEnemy_in_play w :
  (0 <= Game.width (game w))%Z ->
  Forall (enemyInPlay (Game.width (game w))) (Game.enemies (game w)) ->
  wp spawnEnemy
    (fun _ w' =>
       Forall (enemyInPlay (Game.width (game w))) (Game.enemies (game w'))) w.
Proof.
  intros Hwidth H. cbv beta delta [spawnEnemy]. destruct w as [g r].
  cbn [game runtime] in *.
  assert (Hq : 0 <= float64 (Game.width g)).
  { unfold float64. change 0 with (inject_Z 0). rewrite <- Zle_Qle. exact Hwidth. }
  repeat wp_step; cbn [game runtime].
  all: destruct g; cbn in *; try exact H.
  all: apply Forall_app; split; [exact H|]; constructor; [|constructor].
  all: destruct (_ <? 0.5).
  all: unfold enemyInPlay, newEnemy; cbn; split; [reflexivity|].
  all: change (float64 EnemyWidth) with 4; split; lra.
Qed.

(** X6.  What [updateEnemies] leaves in [g.enemies] on a screen of width 0
    or more: only active enemies, each no further left than its own width
    before the left edge and no further right than the right edge; the
    enemy that the tick spawns is one of them. *)
Lemma updateEnemies_survivors (dt : Q) (w : World) :
  (0 <= Game.width (game w))%Z ->
  Forall (enemyInPlay (Game.width (game w)))
    (Game.enemies (game (exec (updateEnemies dt) w))).
Proof.
  intros Hwidth.
  apply (wp_exec (updateEnemies dt)
    (fun _ w' => Forall (enemyInPlay (Game.width (game w))) (Game.enemies (game w')))).
  set (width := Game.width (game w)) in *.
  assert (Hw : Game.width (game w) = width) by reflexivity. clearbody width.
  cbv beta delta [updateEnemies].
  apply wp_bind_intro, wp_gets.
  apply wp_bind_intro.
  wp_call (wp_forEachM_inv (fun g => Game.width g = width)
             (fun e' => Enemy.Active e' = true -> enemyInPlay width e')
             (stepEnemy dt)
             (fun x w0 H => wp_stepEnemy_in_play dt width x w0 H)
             (Game.enemies (game w)) w Hw).
  intros es [g1 r1] [Hes H1]. cbn [game] in H1.
  apply wp_bind_intro, wp_modifyG. apply wp_bind_intro, wp_modifyG.
  cbn [game runtime].
  assert (Hkept : Forall (enemyInPlay width) (List.filter Enemy.Active es)).
  { clear -Hes. induction Hes as [|e es He _ IH]; cbn [List.filter]; [constructor|].
    destruct (Enemy.Active e) eqn:Ha; [constructor; auto|exact IH]. }
  apply wp_bind_intro, wp_getG. cbn [game runtime].
  match goal with
  | |- wp (if ?c then _ else _) _ _ => destruct c
  end.
  - apply wp_ret. cbn [game]. destruct g1; exact Hkept.
  - match goal with
    | |- wp spawnEnemy _ ?w1 =>
        pose proof (wp_spawnEnemy_in_play w1) as Hs
    end.
    cbn [game] in Hs.
    replace (Game.width (Game.setEnemies (List.filter Enemy.Active
               (Game.enemies (Game.setEnemies es g1))) (Game.setEnemies es g1)))
      with width in Hs by (destruct g1; cbn in *; congruence).
    apply Hs; [exact Hwidth|]. destruct g1; exact Hkept.
Qed.

(** ** Spawning and shooting *)

Lemma float64_nonneg z : (0 <= z)%Z -> 0 <= float64 z.
Proof. intros H. unfold float64. change 0 with (inject_Z 0). rewrite <- Zle_Qle. exact H. Qed.

Lemma float64_le a b : (a <= b)%Z -> float64 a <= float64 b.
Proof. intros H. unfold float64. rewrite <- Zle_Qle. exact H. Qed.

Lemma int_div_5 d : (0 <= d < 2 ^ 63)%Z -> int_div d 5 = (d / 5)%Z.
Proof.
  intros H. unfold int_div. rewrite Z.quot_div_nonneg by lia.
  apply wrap64_small. split.
  - pose proof (Z.div_pos d 5). lia.
  - pose proof (Z.div_le_upper_bound d 5 d). lia.
Qed.

(** X7.  The chance that a tick of a running round spawns an enemy lies
    between 0.8% and 5%: a draw below 0.008 always spawns one, a draw of
    0.05 or more never does, and once 45 enemies are defeated every draw
    below 0.05 spawns one. *)
Lemma spawn_chance_bounds (w : World) :
  let g := game w in
  let g' := game (exec spawnEnemy w) in
  (0 <= Game.enemiesDefeated g < 2 ^ 63)%Z ->
  (nextFloat w < 0.008 ->
   length (Game.enemies g') = S (length (Game.enemies g)))
  /\ (0.05 <= nextFloat w -> g' = g)
  /\ ((45 <= Game.enemiesDefeated g)%Z -> nextFloat w < 0.05 ->
      length (Game.enemies g') = S (length (Game.enemies g))).
Proof.
  intros g g' Hd. subst g g'. destruct w as [g r]. unfold nextFloat.
  cbn [game runtime] in *.
  unfold spawnEnemy, exec, bind, getG, randFloat64, modifyG, ret.
  cbn [game runtime fst snd].
  rewrite (int_div_5 _ Hd).
  set (d5 := (Game.enemiesDefeated g / 5)%Z).
  assert (H5 : 0 <= float64 d5).
  { apply float64_nonneg. apply Z.div_pos; lia. }
  set (x := randFloats r (randReads r)).
  set (rate := if 0.008 + float64 d5 * 0.005 >? 0.05 then 0.05
               else 0.008 + float64 d5 * 0.005).
  assert (Hlo : 0.008 <= rate).
  { subst rate. destruct (_ >? 0.05); lra. }
  assert (Hhi : rate <= 0.05).
  { subst rate. destruct (_ >? 0.05) eqn:E; [lra|]. apply Qgtb_le in E. exact E. }
  assert (H45 : (45 <= Game.enemiesDefeated g)%Z -> rate == 0.05).
  { intros H. subst rate. destruct (_ >? 0.05) eqn:E; [reflexivity|].
    apply Qgtb_le in E.
    assert (9 <= float64 d5).
    { change 9 with (float64 9). apply float64_le. subst d5.
      apply Z.div_le_lower_bound; lia. }
    lra. }
  destruct (x <? rate) eqn:E.
  - apply Qltb_lt in E.
    assert (Hlen : forall e r',
              length (Game.enemies (game (snd (tt,
                {| game := Game.setEnemies
                             (Game.enemies
                                (Game.setEnemySpawnCounter
                                   (int_add (Game.enemySpawnCounter g) 1) g) ++ [e])
                             (Game.setEnemySpawnCounter
                                (int_add (Game.enemySpawnCounter g) 1) g);
                   runtime := r' |}))))
              = S (length (Game.enemies g))).
    { intros e r'. destruct g; cbn. rewrite length_app. cbn. lia. }
    split; [intros _; apply Hlen|]. split; [intros H; lra|].
    intros _ _. apply Hlen.
  - apply Qltb_ge in E. cbn [fst snd game].
    split; [intros H; lra|]. split; [reflexivity|].
    intros H Hx. rewrite (H45 H) in E. lra.
Qed.



(** ** Corpses on the screen *)

Lemma wp_corpseWander_on_screen dt speed gravity groundY now g c w :
  (EnemyWidth <= Game.width g < 2 ^ 63)%Z ->
  wp (corpseWander dt speed gravity groundY now g c)
    (fun c' _ => corpseOnScreen (Game.width g) c') w.
Proof.
  intros Hw. cbv beta delta [corpseWander].
  assert (Ew : int_sub (Game.width g) EnemyWidth = (Game.width g - EnemyWidth)%Z).
  { unfold int_sub. apply wrap64_small. unfold EnemyWidth in *. lia. }
  assert (H0 : 0 <= float64 (Game.width g - EnemyWidth)).
  { apply float64_nonneg. lia. }
  rewrite Ew.
  apply wp_bind_intro. apply wp_any. intros c1 w1. cbv zeta.
  destruct (corpsePlatformCollisions _ _) as [c2 onPlatform].
  apply wp_ret.
  match goal with
  | |- context [if _ then Corpse.setMoveDir 1 (Corpse.setPosX 0 ?q) else _] =>
      generalize q; intros q0
  end.
  unfold corpseOnScreen.
  destruct (X (Corpse.Pos q0) <? 0) eqn:E1.
  - destruct q0 as [[x y] ? ? ? ? ? ? ? ? ? ? ?]. cbn.
    destruct (0 >? _) eqn:E2; cbn.
    + split; [exact H0|lra].
    + apply Qgtb_le in E2. split; [lra|exact E2].
  - apply Qltb_ge in E1.
    destruct (X (Corpse.Pos q0) >? _) eqn:E2.
    + destruct q0 as [[x y] ? ? ? ? ? ? ? ? ? ? ?]. cbn. split; [exact H0|lra].
    + apply Qgtb_le in E2. split; assumption.
Qed.

(** X9.  One iteration of the loop of [updateCorpses] on a screen at least
    as wide as a figure leaves an active corpse between the edges: its
    column is at least 0 and at most the width less the width of a
    figure. *)
Lemma corpse_stays_on_screen (dt : Q) (now : Time) (c : Corpse) (w : World) :
  Corpse.Active c = true ->
  (EnemyWidth <= Game.width (game w) < 2 ^ 63)%Z ->
  corpseOnScreen (Game.width (game w)) (eval (stepCorpse dt now c) w).
Proof.
  intros Ha Hw.
  apply (wp_exec (stepCorpse dt now c)
    (fun c' _ => corpseOnScreen (Game.width (game w)) c')).
  cbv beta delta [stepCorpse]. cbv zeta. rewrite Ha. cbn [negb].
  apply wp_bind_intro, wp_getG.
  apply wp_bind_intro. wp_call (wp_corpseWander_on_screen dt 25.0 300.0
    (float64 (int_sub (Game.groundY (game w)) EnemyHeight)) now (game w) c w Hw).
  intros c1 w1 H1.
  apply wp_bind_intro. wp_call wp_corpseBleed.
  intros c2 w2 (_ & Hpos & _).
  cbv beta delta [corpseExpire].
  assert (H2 : corpseOnScreen (Game.width (game w)) c2).
  { unfold corpseOnScreen. rewrite Hpos. exact H1. }
  destruct (After now (Corpse.EndTime c2)).
  - apply wp_bind_intro. apply wp_any. intros ? w3. apply wp_ret.
    destruct c2; exact H2.
  - apply wp_ret. exact H2.
Qed.

(** ** The blood that is emitted *)

Lemma int_range (x : Q) (lo hi : Z) :
  (0 <= lo)%Z -> inject_Z lo <= x -> x <= inject_Z hi -> (lo <= int x <= hi)%Z.
Proof.
  destruct x as [a b]. unfold int, Qle, inject_Z. cbn [Qnum Qden].
  intros Hlo H1 H2.
  assert (Hb : (0 <= lo * Z.pos b)%Z) by (apply Z.mul_nonneg_nonneg; lia).
  rewrite Z.quot_div_nonneg by lia. split.
  - apply Z.div_le_lower_bound; lia.
  - apply Z.div_le_upper_bound; lia.
Qed.

Lemma wp_randIntn n (Q : Z -> World -> Prop) w :
  (0 < n)%Z ->
  (forall k r', (0 <= k < n)%Z -> Q k (mkWorld (game w) r')) ->
  wp (randIntn n) Q w.
Proof.
  intros Hn H. unfold wp, randIntn. cbn [fst snd]. apply H.
  apply Z.mod_pos_bound, Hn.
Qed.

Lemma wp_emitOneBlood p impact w :
  wp (emitOneBlood p impact)
    (fun _ w' => exists b,
       Game.bloodParticles (game w') = Game.bloodParticles (game w) ++ [b]
       /\ freshBlood (DeathParticle.EnemyID p) b) w.
Proof.
  cbv beta delta [emitOneBlood]. destruct w as [g r].
  repeat wp_step; cbn [game runtime].
  all: eexists; split; [destruct g; reflexivity|repeat split].
Qed.

Lemma wp_repeat_emitOneBlood p impact n : forall w,
  wp (repeatM n (emitOneBlood p impact))
    (fun _ w' => exists new,
       Game.bloodParticles (game w') = Game.bloodParticles (game w) ++ new
       /\ length new = n
       /\ Forall (freshBlood (DeathParticle.EnemyID p)) new) w.
Proof.
  induction n as [|n IH]; intros w; cbn [repeatM].
  - apply wp_ret. exists []. rewrite app_nil_r. repeat split. constructor.
  - apply wp_bind_intro. wp_call wp_emitOneBlood. intros ? w1 (b & Hb & Hf).
    wp_call IH. intros ? w2 (new & Hn & Hl & HF).
    exists (b :: new). split; [rewrite Hn, Hb, <- app_assoc; reflexivity|].
    split; [cbn; congruence|]. constructor; assumption.
Qed.

(** X10.  [emitBloodFromParticle] appends blood particles to
    [g.bloodParticles] and changes none that is there: one or two for a
    continuous emission, and one to six for an impact whose intensity is
    between 0 and 1.  Each new particle is active, is drawn as a dot and
    carries the source id of the fragment. *)
Lemma emitBloodFromParticle_count
  (p : DeathParticle) (intensity : Q) (impact : bool) (w : World) :
  (impact = true -> 0 <= intensity /\ intensity <= 1) ->
  exists new,
    Game.bloodParticles (game (exec (emitBloodFromParticle p intensity impact) w))
    = Game.bloodParticles (game w) ++ new
    /\ (1 <= length new <= if impact then 6 else 2)%nat
    /\ Forall (freshBlood (DeathParticle.EnemyID p)) new.
Proof.
  intros Hi.
  apply (wp_exec (emitBloodFromParticle p intensity impact)
    (fun _ w' => exists new,
       Game.bloodParticles (game w') = Game.bloodParticles (game w) ++ new
       /\ (1 <= length new <= if impact then 6 else 2)%nat
       /\ Forall (freshBlood (DeathParticle.EnemyID p)) new)).
  cbv beta delta [emitBloodFromParticle].
  assert (Hfin : forall (n : Z) r' (hi : nat),
            (1 <= n <= Z.of_nat hi)%Z ->
            wp (repeatM (Z.to_nat n) (emitOneBlood p impact))
              (fun _ w' => exists new,
                 Game.bloodParticles (game w') = Game.bloodParticles (game w) ++ new
                 /\ (1 <= length new <= hi)%nat
                 /\ Forall (freshBlood (DeathParticle.EnemyID p)) new)
              (mkWorld (game w) r')).
  { intros n r' hi Hn. wp_call wp_repeat_emitOneBlood.
    intros ? w' (new & Hb & Hl & HF). exists new. cbn [game] in Hb.
    split; [exact Hb|]. split; [lia|exact HF]. }
  assert (Hadd : forall a k, (0 <= a <= 3)%Z -> (0 <= k < 4)%Z ->
            int_add a k = (a + k)%Z).
  { intros a k Ha Hk. unfold int_add. apply wrap64_small. lia. }
  apply wp_bind_intro. destruct impact.
  - destruct Hi as [H0 H1]; [reflexivity|].
    apply wp_bind_intro. apply wp_randIntn; [lia|]. intros k r' Hk.
    apply wp_ret. rewrite (Hadd 3%Z k) by lia.
    apply (Hfin _ r' 6%nat).
    apply int_range; [lia| |].
    + change (inject_Z 1) with 1.
      assert (3 <= float64 (3 + k)).
      { change 3 with (float64 3). apply float64_le. lia. }
      nra.
    + change (inject_Z (Z.of_nat 6)) with 6.
      assert (float64 (3 + k) <= 6).
      { change 6 with (float64 6). apply float64_le. lia. }
      assert (0 <= float64 (3 + k)) by (apply float64_nonneg; lia).
      nra.
  - apply wp_bind_intro. apply wp_randIntn; [lia|]. intros k r' Hk.
    cbv zeta. destruct (intensity >? 0.5).
    + apply wp_bind_intro. apply wp_randIntn; [lia|]. intros k2 r2 Hk2.
      apply wp_ret. rewrite (Hadd 1%Z k2) by lia. apply (Hfin _ r2 2%nat). lia.
    + apply wp_ret. rewrite (Hadd 1%Z k) by lia. apply (Hfin _ r' 2%nat). lia.
Qed.

(** ** The player on the screen *)

Ltac split_player pl :=
  let px := fresh "px" in
  let py := fresh "py" in
  let vx := fresh "vx" in
  let vy := fresh "vy" in
  let wd := fresh "wd" in
  destruct pl as [[px py] [vx vy] ? ? wd ? ? ? ?].

Ltac player_red :=
  cbn beta iota delta
    [fst snd X Y
     Player.Pos Player.Vel Player.Facing Player.MoveDir Player.Width
     Player.Height Player.OnGround Player.OnPlatform Player.LastOnGroundTime
     Player.setPos Player.setVel Player.setFacing Player.setMoveDir
     Player.setOnGround Player.setOnPlatform Player.setLastOnGroundTime
     Player.setPosX Player.setPosY Player.setVelY game runtime].

Lemma wp_playerPlatformCollisions_width platforms : forall pl w,
  wp (playerPlatformCollisions pl platforms)
    (fun r w' => Player.Width (fst r) = Player.Width pl /\ game w' = game w) w.
Proof.
  induction platforms as [|platform rest IH]; intros pl w;
    cbn [playerPlatformCollisions].
  - apply wp_ret. split; reflexivity.
  - destruct (_ && _).
    + cbv zeta. apply wp_bind_intro. apply wp_pure; [auto with pure|].
      intros now r'. apply wp_ret. split; [destruct pl|]; reflexivity.
    + apply IH.
Qed.

Lemma clamp_on_screen (width : Z) (pl : Player) :
  (0 <= Player.Width pl <= width)%Z -> (width < 2 ^ 63)%Z ->
  let pl1 := if X (Player.Pos pl) <? 0 then Player.setPosX 0 pl else pl in
  let pl2 :=
    if X (Player.Pos pl1) + float64 (Player.Width pl1) >? float64 width
    then Player.setPosX (float64 (int_sub width (Player.Width pl1))) pl1
    else pl1 in
  0 <= X (Player.Pos pl2)
  /\ X (Player.Pos pl2) + float64 (Player.Width pl2) <= float64 width.
Proof.
  intros Hw Hlt. split_player pl. cbn [Player.Width Player.Pos X] in *.
  assert (Es : int_sub width wd = (width - wd)%Z).
  { unfold int_sub. apply wrap64_small. lia. }
  assert (Hd : float64 (width - wd) == float64 width - float64 wd).
  { unfold float64, Qminus. rewrite <- inject_Z_opp, <- inject_Z_plus. reflexivity. }
  assert (H0 : 0 <= float64 (width - wd)) by (apply float64_nonneg; lia).
  cbv zeta. destruct (px <? 0) eqn:E1; player_red.
  - destruct (0 + float64 wd >? float64 width) eqn:E2; player_red.
    + rewrite Es. split; [exact H0|lra].
    + apply Qgtb_le in E2. split; [lra|exact E2].
  - apply Qltb_ge in E1.
    destruct (px + float64 wd >? float64 width) eqn:E2; player_red.
    + rewrite Es. split; [exact H0|lra].
    + apply Qgtb_le in E2. split; [exact E1|exact E2].
Qed.

(** X11.  [updatePlayer] keeps the player between the edges of the screen,
    provided the screen is at least as wide as the player: after it the
    player's column is at least 0 and the player's right side is at most
    the width. *)
Lemma updatePlayer_on_screen (dt : Q) (w : World) :
  (0 <= Player.Width (Game.player (game w)) <= Game.width (game w))%Z ->
  (Game.width (game w) < 2 ^ 63)%Z ->
  playerOnScreen (game (exec (updatePlayer dt) w)).
Proof.
  intros Hw Hlt.
  apply (wp_exec (updatePlayer dt) (fun _ w' => playerOnScreen (game w'))).
  cbv beta delta [updatePlayer]. destruct w as [g r]. cbn [game runtime] in *.
  set (W := Player.Width (Game.player g)) in *.
  assert (HW : Player.Width (Game.player g) = W) by reflexivity. clearbody W.
  apply wp_bind_intro, wp_getG. cbn [game runtime].
  apply wp_bind_intro. apply wp_pure; [auto with pure|]. intros now r1.
  cbn [game]. cbv zeta.
  apply wp_bind_intro. apply wp_pure; [pure_tac|]. intros canJump r2. cbn [game].
  apply wp_bind_intro.
  wp_call wp_playerPlatformCollisions_width. intros [pl1 onPlatform] [g3 r3] [H1 Hg].
  cbn [fst game] in H1, Hg. subst g3.
  assert (Hpl1 : Player.Width pl1 = W).
  { rewrite H1, <- HW.
    repeat match goal with
           | |- context [if ?c then _ else _] => destruct c
           end; destruct (Game.player g); reflexivity. }
  clear H1.
  assert (Hleaf : forall pl0,
            Player.Width pl0 = W ->
            playerOnScreen
                  (Game.setPlayer
                     (if X (Player.Pos (if X (Player.Pos pl0) <? 0
                                        then Player.setPosX 0 pl0 else pl0))
                         + float64 (Player.Width (if X (Player.Pos pl0) <? 0
                                                  then Player.setPosX 0 pl0 else pl0))
                         >? float64 (Game.width g)
                      then Player.setPosX
                             (float64 (int_sub (Game.width g)
                                (Player.Width (if X (Player.Pos pl0) <? 0
                                               then Player.setPosX 0 pl0 else pl0))))
                             (if X (Player.Pos pl0) <? 0
                              then Player.setPosX 0 pl0 else pl0)
                      else if X (Player.Pos pl0) <? 0
                           then Player.setPosX 0 pl0 else pl0) g)).
  { intros pl0 H0.
    pose proof (clamp_on_screen (Game.width g) pl0) as Hc.
    rewrite H0 in Hc. specialize (Hc Hw Hlt). cbv zeta in Hc.
    destruct g; exact Hc. }
  apply wp_bind_intro.
  repeat wp_step.
  all: apply Hleaf; destruct pl1; exact Hpl1.
Qed.

(** ** Invariants of the frame loop *)

Lemma preserves_reads {A} fpI (I : Game -> Prop) fp (m : M A) :
  reads fpI I -> touches fp m -> (forall f, fpI f = true -> fp f = false) ->
  preserves I m.
Proof.
  intros HI Hm Hd w H. apply (HI (game w)); [|exact H].
  intros f Hf. apply Hm, Hd, Hf.
Qed.

Create HintDb inv discriminated.
#[export] Hint Constants Opaque : inv.

Ltac fp_disjoint :=
  let f := fresh "f" in
  let H := fresh "H" in
  intros f H; destruct f; first [discriminate H | reflexivity].

(** The invariant [I], which reads the fields [fpI] only, is kept by code
    whose footprint avoids them. *)
Ltac inv_frame HI :=
  eapply preserves_reads; [ exact HI | solve [eauto with touch] | fp_disjoint ].

Ltac inv_modify :=
  let g := fresh "g" in
  let H := fresh "H" in
  intros g H; destruct g;
  first [ exact H
        | match goal with
          | |- context [if ?c then _ else _] => destruct c
          end; exact H ].

Ltac ginv_step HI :=
  lazymatch goal with
  | |- preserves _ (ret _) => apply preserves_ret
  | |- preserves _ (let x := _ in _) => forget_let
  | |- preserves _ (bind _ _) => apply preserves_bind; [ | intros ]
  | |- preserves _ (when _ _) => apply preserves_when
  | |- preserves _ (forEachM _ _) => apply preserves_forEachM; intros
  | |- preserves _ (repeatM _ _) => apply preserves_repeatM
  | |- preserves _ (forPieces _ _) => apply preserves_forPieces; intros
  | |- preserves _ (modifyG _) => apply preserves_modifyG; inv_modify
  | |- preserves _ (if ?c then _ else _) => destruct c
  | |- preserves _ (match ?x with _ => _ end) => destruct x
  | |- preserves _ _ =>
      first
        [ assumption
        | match goal with IH : forall _, preserves _ _ |- _ => apply IH end
        | apply preserves_pure; solve [auto with pure]
        | solve [eauto with inv]
        | inv_frame HI ]
  end.

Ltac ginv HI := repeat ginv_step HI.

(** Introduces the argument of a phase of the frame. *)
Ltac phase_intro :=
  lazymatch goal with
  | |- forall _ : Q, _ => intro
  | |- forall _ : EventKey, _ => intro
  | |- forall _ : Time, _ => intro
  | |- forall _ _ : Z, _ => intros ? ?
  | |- _ => idtac
  end.

Lemma touches_toggleBloodColor : touches fp_mode toggleBloodColor.
Proof. touches_tac ltac:(unfold toggleBloodColor). Qed.
#[export] Hint Resolve touches_toggleBloodColor : touch.

Section PhaseInvariant.
Variable I : Game -> Prop.

Hypothesis I_kill : forall e, preserves I (createDeathParticles e).

Lemma preserves_projectileVsEnemies test onKill p es :
  preserves I onKill -> preserves I (projectileVsEnemies test onKill p es).
Proof.
  intros Hk. induction es as [|e es IH]; cbn [projectileVsEnemies].
  - apply preserves_ret.
  - destruct (_ && _).
    + apply preserves_bind; [apply I_kill|]. intros _. cbv zeta.
      apply preserves_bind; [exact Hk|]. intros _. apply preserves_ret.
    + apply preserves_bind; [exact IH|]. intros [hit rest'].
      apply preserves_ret.
Qed.

Lemma preserves_projectilesVsEnemies test onKill ps :
  preserves I onKill ->
  forall es, preserves I (projectilesVsEnemies test onKill ps es).
Proof.
  intros Hk. induction ps as [|p ps IH]; intros es;
    cbn [projectilesVsEnemies].
  - apply preserves_ret.
  - destruct (_ || _).
    + apply preserves_bind; [apply IH|]. intros [rest' es'].
      apply preserves_ret.
    + apply preserves_bind; [apply preserves_projectileVsEnemies, Hk|].
      intros [hit es']. cbv zeta.
      apply preserves_bind; [apply IH|]. intros [rest' es''].
      apply preserves_ret.
Qed.

(** An invariant that every phase of a frame keeps is kept by the frames
    of [run]. *)
Hypothesis I_player : forall dt, preserves I (updatePlayer dt).
Hypothesis I_collisions : preserves I checkCollisions.
Hypothesis I_projectiles : forall dt, preserves I (updateProjectiles dt).
Hypothesis I_enemies : forall dt, preserves I (updateEnemies dt).
Hypothesis I_fragments : forall dt, preserves I (updateDeathParticles dt).
Hypothesis I_blood : forall dt, preserves I (updateBloodParticles dt).
Hypothesis I_sweep : preserves I checkAndClearRedTiles.
Hypothesis I_menu : forall dt, preserves I (updateMenu dt).
Hypothesis I_input : forall ev, preserves I (handleInput ev).
Hypothesis I_lastFrame : forall now, preserves I (modifyG (Game.setLastFrame now)).

Lemma preserves_update dt : preserves I (update dt).
Proof.
  unfold update. apply preserves_bind; [apply preserves_pure, pureM_getG|].
  intros g. destruct (Game.inMenu g); [apply I_menu|].
  apply preserves_bind.
  { apply preserves_when. apply preserves_bind; [apply I_player|].
    intros _. apply I_collisions. }
  intros _. apply preserves_bind; [apply I_projectiles|].
  intros _. apply preserves_bind; [apply I_enemies|].
  intros _. apply preserves_bind; [apply I_fragments|].
  intros _. apply preserves_bind; [apply I_blood|].
  intros _. apply I_sweep.
Qed.

(** The frames in which the screen is not resized. *)
Lemma preserves_runFrame_key ev :
  (forall width height, ev <> Some (EventResize width height)) ->
  preserves I (runFrame ev).
Proof.
  intros Hev. unfold runFrame.
  apply preserves_bind; [apply preserves_pure, pureM_timeNow|]. intros now.
  apply preserves_bind; [apply preserves_pure, pureM_getG|]. intros g.
  cbv zeta. apply preserves_bind; [apply I_lastFrame|]. intros _.
  apply preserves_bind.
  - destruct ev as [[ev|width height]|].
    + destruct (evKey ev); try apply preserves_ret;
        (apply preserves_bind; [apply I_input|intros _; apply preserves_ret]).
    + exfalso. apply (Hev width height). reflexivity.
    + apply preserves_ret.
  - intros [|]; [|apply preserves_ret].
    apply preserves_bind; [apply preserves_update|]. intros _.
    apply preserves_ret.
Qed.

Lemma preserves_runFrames_keys evs :
  Forall (fun ev => forall width height, ev <> Some (EventResize width height)) evs ->
  preserves I (runFrames evs).
Proof.
  induction 1 as [|ev evs Hev _ IH]; cbn [runFrames].
  - apply preserves_ret.
  - apply preserves_bind; [apply preserves_runFrame_key, Hev|].
    intros [|]; [exact IH|apply preserves_ret].
Qed.

Hypothesis I_resize : forall width height, preserves I (handleResize width height).

Lemma preserves_runFrame ev : preserves I (runFrame ev).
Proof.
  destruct ev as [[ev|width height]|];
    try (apply preserves_runFrame_key; discriminate).
  unfold runFrame.
  apply preserves_bind; [apply preserves_pure, pureM_timeNow|]. intros now.
  apply preserves_bind; [apply preserves_pure, pureM_getG|]. intros g.
  cbv zeta. apply preserves_bind; [apply I_lastFrame|]. intros _.
  apply preserves_bind.
  - apply preserves_bind; [apply I_resize|]. intros _. apply preserves_ret.
  - intros [|]; [|apply preserves_ret].
    apply preserves_bind; [apply preserves_update|]. intros _.
    apply preserves_ret.
Qed.

Lemma preserves_runFrames evs : preserves I (runFrames evs).
Proof.
  induction evs as [|ev evs IH]; cbn [runFrames].
  - apply preserves_ret.
  - apply preserves_bind; [apply preserves_runFrame|].
    intros [|]; [exact IH|apply preserves_ret].
Qed.
End PhaseInvariant.

Lemma touches_startGame : touches fp_reset startGame.
Proof. touches_tac ltac:(unfold startGame). Qed.
Lemma touches_restartGame : touches fp_reset restartGame.
Proof. touches_tac ltac:(unfold restartGame). Qed.
Lemma touches_firePlayerProjectile dir : touches fp_shot (firePlayerProjectile dir).
Proof. touches_tac ltac:(unfold firePlayerProjectile). Qed.
Lemma touches_pressKey k : touches fp_keys (pressKey k).
Proof. touches_tac ltac:(unfold pressKey). Qed.
#[export] Hint Resolve touches_startGame touches_restartGame
  touches_firePlayerProjectile touches_pressKey : touch.

Lemma touches_handleResize width height :
  touches (fun f => match f with
                    | F_width | F_height | F_groundY | F_player => true
                    | _ => false
                    end) (handleResize width height).
Proof. touches_tac ltac:(unfold handleResize). Qed.
#[export] Hint Resolve touches_handleResize : touch.

Lemma touches_menu_collisions ps : forall es,
  touches fp_kill (projectilesVsEnemies projectileTouchesEnemy (ret tt) ps es).
Proof.
  intros es. apply touches_intro. intros f g0 Hf. revert es.
  apply preserves_projectilesVsEnemies.
  - intros e. eapply touches_preserves; [apply touches_createDeathParticles|exact Hf].
  - apply preserves_ret.
Qed.
#[export] Hint Resolve touches_menu_collisions : touch.

Lemma touches_updateMenu dt : touches fp_menu (updateMenu dt).
Proof.
  apply touches_intro; intros f g0 Hf.
  destruct f; try discriminate Hf; clear Hf.
  all: unfold updateMenu, firePlayerProjectile.
  all: repeat first
         [ pres_step
         | apply preserves_modifyG; intros g H;
           match goal with
           | |- context [if ?c then _ else _] => destruct c
           end; [ destruct g; revert H; game_fields; exact (fun H => H) | exact H ] ].
Qed.
#[export] Hint Resolve touches_updateMenu : touch.

(** *** The score *)

Lemma scoreOK_reads : reads fp_score scoreOK.
Proof.
  intros g g' H. unfold scoreOK.
  pose proof (H F_score eq_refl) as H1. pose proof (H F_enemiesDefeated eq_refl) as H2.
  simpl in H1, H2. rewrite H1, H2. exact (fun H => H).
Qed.

Lemma wrap64_mod z : wrap64 z = ((z + 2 ^ 63) mod 2 ^ 64 - 2 ^ 63)%Z.
Proof. reflexivity. Qed.

Lemma wrap64_congr a b : ((a - b) mod 2 ^ 64 = 0)%Z -> wrap64 a = wrap64 b.
Proof.
  intros H. unfold wrap64. f_equal.
  apply Z.mod_divide in H; [|lia]. destruct H as [k Hk].
  replace (a + 2 ^ 63)%Z with (b + 2 ^ 63 + k * 2 ^ 64)%Z by lia.
  apply Z.mod_add. lia.
Qed.

Lemma wrap64_diff z : exists k, (wrap64 z = z + k * 2 ^ 64)%Z.
Proof.
  unfold wrap64. exists (- ((z + 2 ^ 63) / 2 ^ 64))%Z.
  pose proof (Z.div_mod (z + 2 ^ 63) (2 ^ 64)). lia.
Qed.

Lemma scoreOK_scoreKill : preserves scoreOK scoreKill.
Proof.
  intros [g r] H. unfold scoreKill, bind, modifyG. cbn [game runtime fst snd].
  unfold scoreOK in *. destruct g; cbn in *. subst score.
  unfold int_add. apply wrap64_congr.
  destruct (wrap64_diff (10 * enemiesDefeated)) as [k1 ->].
  destruct (wrap64_diff (enemiesDefeated + 1)) as [k2 ->].
  replace (10 * enemiesDefeated + k1 * 2 ^ 64 + 10
           - 10 * (enemiesDefeated + 1 + k2 * 2 ^ 64))%Z
    with ((k1 - 10 * k2) * 2 ^ 64)%Z by lia.
  apply Z.mod_mul. lia.
Qed.
#[export] Hint Resolve scoreOK_scoreKill : inv.

Lemma scoreOK_fresh g g' : freshRound g g' -> scoreOK g'.
Proof. intros (_ & _ & _ & _ & _ & _ & Hs & Hd & _). unfold scoreOK. rewrite Hs, Hd. reflexivity. Qed.

Lemma scoreOK_startGame : preserves scoreOK startGame.
Proof.
  intros w _. destruct (wp_startGame w) as [H _]. eapply scoreOK_fresh, H.
Qed.
Lemma scoreOK_restartGame : preserves scoreOK restartGame.
Proof.
  intros w _. destruct (wp_restartGame w) as [H _]. eapply scoreOK_fresh, H.
Qed.
#[export] Hint Resolve scoreOK_startGame scoreOK_restartGame : inv.

Lemma scoreOK_checkCollisions : preserves scoreOK checkCollisions.
Proof.
  unfold checkCollisions, playerDefeated. ginv scoreOK_reads.
  apply preserves_projectilesVsEnemies; [intros e|]; ginv scoreOK_reads.
Qed.

Lemma scoreOK_handleInput ev : preserves scoreOK (handleInput ev).
Proof. unfold handleInput. ginv scoreOK_reads. Qed.

Lemma scoreOK_runFrames evs : preserves scoreOK (runFrames evs).
Proof.
  apply preserves_runFrames; phase_intro; try solve [ginv scoreOK_reads].
  - apply scoreOK_checkCollisions.
  - apply scoreOK_handleInput.
Qed.

Lemma launch_world_game width height w0 :
  let g := game (launch_world width height w0) in
  Game.score g = 0%Z /\ Game.enemiesDefeated g = 0%Z
  /\ Game.bloodColorMode g = 0%Z
  /\ Game.redGroundTiles g = ∅ /\ Game.redPlatformTiles g = ∅
  /\ Game.corpses g = [] /\ Game.inMenu g = true /\ Game.gameOver g = false
  /\ Game.width g = width /\ Game.height g = height.
Proof.
  unfold launch_world, NewGame, bind.
  destruct (generatePlatforms _ _ w0) as [ps w1]. cbn. repeat split.
Qed.

(** X12.  At every frame of a run, from the launch on, the score is ten
    times the number of enemies defeated in the round (in the arithmetic of
    [int]; as integers whenever ten times the count fits an [int]): the two
    are only ever advanced together, by 10 and by 1, and reset together. *)
Lemma score_is_ten_per_defeat
  (width height : Z) (w0 : World) (evs : list (option Event)) :
  let g := game (exec (runFrames evs) (launch_world width height w0)) in
  Game.score g = wrap64 (10 * Game.enemiesDefeated g)
  /\ ((- 2 ^ 63 <= 10 * Game.enemiesDefeated g < 2 ^ 63)%Z ->
      Game.score g = (10 * Game.enemiesDefeated g)%Z).
Proof.
  intros g.
  assert (H : scoreOK g).
  { apply scoreOK_runFrames.
    destruct (launch_world_game width height w0) as (Hs & Hd & _).
    unfold scoreOK. rewrite Hs, Hd. reflexivity. }
  split; [exact H|]. intros Hr. rewrite H. apply wrap64_small, Hr.
Qed.

(** *** The blood colour mode *)

Lemma modeOK_reads : reads fp_mode modeOK.
Proof.
  intros g g' H. unfold modeOK.
  pose proof (H F_bloodColorMode eq_refl) as H1. simpl in H1. rewrite H1.
  exact (fun H => H).
Qed.

Lemma modeOK_toggleBloodColor : preserves modeOK toggleBloodColor.
Proof.
  intros [g r] H. unfold toggleBloodColor, modifyG, modeOK in *.
  cbn [game runtime fst snd] in *. destruct g; cbn in *.
  unfold int_add. rewrite wrap64_small by lia. unfold int_rem.
  rewrite Z.rem_mod_nonneg by lia.
  pose proof (Z.mod_pos_bound (bloodColorMode + 1) 4). lia.
Qed.
#[export] Hint Resolve modeOK_toggleBloodColor : inv.

Lemma modeOK_runFrames evs : preserves modeOK (runFrames evs).
Proof.
  apply preserves_runFrames; phase_intro; try solve [ginv modeOK_reads].
  unfold handleInput. ginv modeOK_reads.
Qed.

(** X13.  At every frame of a run, from the launch on, the blood colour
    mode is one of 0 (red), 1 (green), 2 (rainbow) and 3 (off). *)
Lemma blood_mode_is_one_of_four
  (width height : Z) (w0 : World) (evs : list (option Event)) :
  (0 <= Game.bloodColorMode
          (game (exec (runFrames evs) (launch_world width height w0))) <= 3)%Z.
Proof.
  apply modeOK_runFrames.
  destruct (launch_world_game width height w0) as (_ & _ & Hm & _).
  unfold modeOK. rewrite Hm. lia.
Qed.

(** X14.  Tab advances the blood colour mode cyclically, red, green,
    rainbow, off and red again, in the menu and in a running round, and
    changes nothing else; on the game-over screen Tab is ignored. *)
Lemma tab_cycles_blood_mode (c : ascii) (w : World) :
  let g := game w in
  let g' := game (exec (handleInput (mkEventKey KeyTab c)) w) in
  (0 <= Game.bloodColorMode g <= 3)%Z ->
  g' = (if Game.inMenu g || negb (Game.gameOver g)
        then Game.setBloodColorMode ((Game.bloodColorMode g + 1) mod 4) g
        else g).
Proof.
  intros g g' Hm. subst g g'. destruct w as [g r].
  unfold handleInput, exec, bind, getG, toggleBloodColor, modifyG, ret.
  cbn [game runtime fst snd evKey] in *.
  assert (E : int_rem (int_add (Game.bloodColorMode g) 1) 4
              = ((Game.bloodColorMode g + 1) mod 4)%Z).
  { unfold int_add. rewrite wrap64_small by lia. unfold int_rem.
    apply Z.rem_mod_nonneg; lia. }
  destruct (Game.inMenu g); cbn [orb game snd].
  - rewrite E. reflexivity.
  - destruct (Game.gameOver g); cbn [negb game snd]; [reflexivity|].
    rewrite E. reflexivity.
Qed.

(** *** The corpses *)

Lemma corpseKept_refl c : corpseKept c c.
Proof. split; auto. Qed.

Lemma corpseKept_trans c1 c2 c3 :
  corpseKept c1 c2 -> corpseKept c2 c3 -> corpseKept c1 c3.
Proof.
  intros [H1 H2] [H3 H4]. split; [congruence|].
  intros H. pose proof (H2 H) as E. subst c2. auto.
Qed.

Lemma Forall2_corpseKept_refl cs : Forall2 corpseKept cs cs.
Proof. induction cs; constructor; auto using corpseKept_refl. Qed.

Lemma corpsesKept_refl cs : corpsesKept cs cs.
Proof.
  exists cs, []. split; [symmetry; apply app_nil_r|apply Forall2_corpseKept_refl].
Qed.

Lemma corpsesKept_trans cs1 cs2 cs3 :
  corpsesKept cs1 cs2 -> corpsesKept cs2 cs3 -> corpsesKept cs1 cs3.
Proof.
  intros (o1 & n1 & -> & H1) (o2 & n2 & -> & H2).
  apply Forall2_app_inv_l in H2 as (o2a & o2b & Ha & Hb & ->).
  exists o2a, (o2b ++ n2). split; [symmetry; apply app_assoc|].
  clear -H1 Ha. revert o2a Ha.
  induction H1 as [|c c' cs cs' Hc _ IH]; intros o2a Ha.
  - inversion Ha. constructor.
  - inversion Ha; subst. constructor; [eapply corpseKept_trans; eauto|auto].
Qed.

Lemma corpsesKept_reads cs0 :
  reads fp_corpsesOnly (fun g => corpsesKept cs0 (Game.corpses g)).
Proof.
  intros g g' H. pose proof (H F_corpses eq_refl) as H1. simpl in H1.
  rewrite H1. exact (fun H => H).
Qed.

Lemma corpsesKept_step cs0 {A} (m : M A) :
  (forall w, corpsesKept (Game.corpses (game w)) (Game.corpses (game (exec m w)))) ->
  preserves (fun g => corpsesKept cs0 (Game.corpses g)) m.
Proof. intros H w H0. eapply corpsesKept_trans; [exact H0|apply H]. Qed.

Lemma corpsesKept_createDeathParticles cs0 e :
  preserves (fun g => corpsesKept cs0 (Game.corpses g)) (createDeathParticles e).
Proof.
  apply corpsesKept_step. intros w.
  pose proof (wp_createDeathParticles e w) as H. unfold wp in H. cbv zeta in H.
  unfold exec. destruct (_ <? 0.1).
  - destruct H as (head & corp & _ & Hc & _). rewrite Hc.
    exists (Game.corpses (game w)), [corp].
    split; [reflexivity|apply Forall2_corpseKept_refl].
  - destruct H as [Hc _]. rewrite Hc. apply corpsesKept_refl.
Qed.
#[export] Hint Resolve corpsesKept_createDeathParticles : inv.

Lemma corpseBurst_kept now c c' burst :
  corpseBurst now c c' burst -> corpseKept c c'.
Proof.
  unfold corpseBurst, corpseKept. destruct (Corpse.Active c).
  - intros [H _]. split; [exact H|discriminate].
  - intros [-> _]. split; reflexivity.
Qed.

Lemma corpsesKept_updateCorpses cs0 dt :
  preserves (fun g => corpsesKept cs0 (Game.corpses g)) (updateCorpses dt).
Proof.
  apply corpsesKept_step. intros w.
  apply (wp_exec (updateCorpses dt)
    (fun _ w' => corpsesKept (Game.corpses (game w)) (Game.corpses (game w')))).
  cbv beta delta [updateCorpses].
  apply wp_bind_intro, wp_gets.
  destruct (length _ =? 0)%nat; [apply wp_ret, corpsesKept_refl|].
  apply wp_bind_intro. apply wp_pure; [auto with pure|]. intros now r1.
  apply wp_bind_intro.
  wp_call (wp_forEachM_burst (corpseBurst now) (stepCorpse dt now)
             (wp_stepCorpse dt now)).
  intros cs' [g2 r2] (bursts & HF & _). apply wp_modifyG. cbn [game].
  replace (Game.corpses (Game.setCorpses cs' g2)) with cs' by (destruct g2; reflexivity).
  exists cs', []. split; [symmetry; apply app_nil_r|].
  clear -HF. induction HF; constructor; [eapply corpseBurst_kept; eauto|auto].
Qed.
#[export] Hint Resolve corpsesKept_updateCorpses : inv.

Lemma corpsesKept_updateDeathParticles cs0 dt :
  preserves (fun g => corpsesKept cs0 (Game.corpses g)) (updateDeathParticles dt).
Proof.
  pose proof (corpsesKept_reads cs0) as HI.
  unfold updateDeathParticles. ginv HI.
Qed.
#[export] Hint Resolve corpsesKept_updateDeathParticles : inv.

Lemma corpsesKept_runFrames cs0 evs :
  preserves (fun g => corpsesKept cs0 (Game.corpses g)) (runFrames evs).
Proof.
  pose proof (corpsesKept_reads cs0) as HI.
  apply preserves_runFrames; phase_intro; try solve [ginv HI].
  - unfold checkCollisions, playerDefeated. ginv HI.
    apply preserves_projectilesVsEnemies; [intros e0|unfold scoreKill]; ginv HI.
  - unfold updateMenu, firePlayerProjectile. ginv HI.
    apply preserves_projectilesVsEnemies; [intros e0|]; ginv HI.
  - eapply preserves_reads; [exact HI|apply touches_handleInput|fp_disjoint].
Qed.

(** X15.  No frame of [run] removes a corpse from [g.corpses], not even
    the resets: after any number of frames the list is at least as long,
    every corpse is at its index with its source id, and a corpse that was
    inactive is exactly as it was. *)
Lemma corpses_are_never_removed (evs : list (option Event)) (w : World) :
  let cs := Game.corpses (game w) in
  let cs' := Game.corpses (game (exec (runFrames evs) w)) in
  (length cs <= length cs')%nat
  /\ forall (i : nat) c, cs !! i = Some c ->
       exists c', cs' !! i = Some c'
                  /\ Corpse.EnemyID c' = Corpse.EnemyID c
                  /\ (Corpse.Active c = false -> c' = c).
Proof.
  intros cs cs'.
  assert (H : corpsesKept cs cs').
  { apply (corpsesKept_runFrames cs evs w). apply corpsesKept_refl. }
  destruct H as (older & newer & -> & HF). split.
  - rewrite length_app, (Forall2_length _ _ _ HF). lia.
  - intros i c Hi.
    destruct (Forall2_lookup_l _ _ _ _ _ HF Hi) as (c' & Hc' & Hk & Ha).
    exists c'. split; [apply lookup_app_l_Some, Hc'|]. split; assumption.
Qed.

(** *** The ground stains *)

Lemma stainsOnScreen_reads : reads fp_groundStains stainsOnScreen.
Proof.
  intros g g' H. unfold stainsOnScreen.
  pose proof (H F_redGroundTiles eq_refl) as H1. pose proof (H F_width eq_refl) as H2.
  simpl in H1, H2. rewrite H1, H2. exact (fun H => H).
Qed.

Lemma touches_markPlatformRed_only platformIndex tileX enemyID :
  touches fp_platformStains (markPlatformRed platformIndex tileX enemyID).
Proof. touches_tac ltac:(unfold markPlatformRed). Qed.

Lemma stainsOnScreen_markPlatformRed platformIndex tileX enemyID :
  preserves stainsOnScreen (markPlatformRed platformIndex tileX enemyID).
Proof.
  eapply preserves_reads;
    [exact stainsOnScreen_reads|apply touches_markPlatformRed_only|fp_disjoint].
Qed.

Lemma stainsOnScreen_markGroundRed tileX enemyID wasOnPlatform :
  preserves stainsOnScreen (markGroundRed tileX enemyID wasOnPlatform).
Proof.
  intros [g r] H. unfold markGroundRed, bind, getG, modifyG, ret.
  cbn [game runtime fst snd] in *.
  destruct ((0 <=? tileX)%Z && (tileX <? Game.width g)%Z) eqn:E; [|exact H].
  destruct (negb wasOnPlatform || negb (isTileUnderPlatform g tileX)); [|exact H].
  cbn [game snd]. apply andb_true_iff in E. destruct E as [E1 E2].
  apply Z.leb_le in E1. apply Z.ltb_lt in E2.
  unfold stainsOnScreen in *. destruct g; cbn in *. intros x k Hx.
  destruct (decide (tileX = x)) as [<-|Hne]; [lia|].
  rewrite lookup_insert_ne in Hx by done. eauto.
Qed.
#[export] Hint Resolve stainsOnScreen_markPlatformRed stainsOnScreen_markGroundRed
  : inv.

Lemma stainsOnScreen_bloodPlatformCollisions platforms : forall p idx,
  preserves stainsOnScreen (bloodPlatformCollisions p idx platforms).
Proof.
  induction platforms as [|platform rest IH]; intros p idx;
    cbn [bloodPlatformCollisions]; ginv stainsOnScreen_reads.
Qed.
#[export] Hint Resolve stainsOnScreen_bloodPlatformCollisions : inv.

Lemma stainsOnScreen_updateBloodParticles dt :
  preserves stainsOnScreen (updateBloodParticles dt).
Proof. unfold updateBloodParticles, stepBloodParticle. ginv stainsOnScreen_reads. Qed.
#[export] Hint Resolve stainsOnScreen_updateBloodParticles : inv.

Lemma stainsOnScreen_checkAndClearRedTiles :
  preserves stainsOnScreen checkAndClearRedTiles.
Proof.
  intros w H. rewrite checkAndClearRedTiles_game. cbv zeta.
  unfold stainsOnScreen in *. destruct w as [g r]. destruct g; cbn in *.
  intros x k. rewrite sweep_lookup.
  destruct (redGroundTiles !! x) as [k'|] eqn:E; [|discriminate].
  intros _. eapply H, E.
Qed.
#[export] Hint Resolve stainsOnScreen_checkAndClearRedTiles : inv.

Lemma stainsOnScreen_fresh g g' : freshRound g g' -> stainsOnScreen g'.
Proof.
  intros (_ & _ & _ & _ & Hs & _). unfold stainsOnScreen. rewrite Hs.
  intros x k Hx. rewrite lookup_empty in Hx. discriminate.
Qed.

Lemma stainsOnScreen_startGame : preserves stainsOnScreen startGame.
Proof.
  intros w _. destruct (wp_startGame w) as [H _]. eapply stainsOnScreen_fresh, H.
Qed.
Lemma stainsOnScreen_restartGame : preserves stainsOnScreen restartGame.
Proof.
  intros w _. destruct (wp_restartGame w) as [H _]. eapply stainsOnScreen_fresh, H.
Qed.
#[export] Hint Resolve stainsOnScreen_startGame stainsOnScreen_restartGame : inv.

(** X16.  As long as the screen is not resized, every ground stain is on a
    column of the screen: a run of frames without a resize event keeps all
    keys of [g.redGroundTiles] between 0 and the width, the width
    excluded. *)
Lemma ground_stains_stay_on_screen (evs : list (option Event)) (w : World) :
  Forall (fun ev => forall width height, ev <> Some (EventResize width height)) evs ->
  stainsOnScreen (game w) ->
  stainsOnScreen (game (exec (runFrames evs) w)).
Proof.
  intros Hevs H. revert w H.
  apply (preserves_runFrames_keys stainsOnScreen); try exact Hevs; phase_intro;
    try solve [ginv stainsOnScreen_reads].
  - unfold updateMenu, firePlayerProjectile. ginv stainsOnScreen_reads.
  - unfold handleInput. ginv stainsOnScreen_reads.
Qed.

(** ** Input *)

(** X17.  In the menu a tick runs the demo only, and the demo touches
    neither the round nor the settings: it leaves the score, the count of
    defeated enemies, the spawn counter, the game-over flag, the menu flag,
    the platforms, the held keys and the blood colour mode as they are. *)
Lemma menu_demo_leaves_the_round_alone (dt : Q) (w : World) :
  Game.inMenu (game w) = true ->
  let g := game w in
  let g' := game (exec (update dt) w) in
  Game.inMenu g' = true
  /\ Game.gameOver g' = Game.gameOver g
  /\ Game.score g' = Game.score g
  /\ Game.enemiesDefeated g' = Game.enemiesDefeated g
  /\ Game.enemySpawnCounter g' = Game.enemySpawnCounter g
  /\ Game.platforms g' = Game.platforms g
  /\ Game.keys g' = Game.keys g
  /\ Game.bloodColorMode g' = Game.bloodColorMode g.
Proof.
  intros Hmenu g g'. subst g g'.
  assert (E : exec (update dt) w = exec (updateMenu dt) w).
  { unfold update, exec, bind, getG. cbn [fst snd]. rewrite Hmenu. reflexivity. }
  rewrite E.
  pose proof (fun f Hf => touches_exec fp_menu (updateMenu dt) w f
                            (touches_updateMenu dt) Hf) as Hu.
  pose proof (Hu F_inMenu eq_refl) as H1. simpl in H1.
  split; [congruence|].
  split; [exact (Hu F_gameOver eq_refl)|].
  split; [exact (Hu F_score eq_refl)|].
  split; [exact (Hu F_enemiesDefeated eq_refl)|].
  split; [exact (Hu F_enemySpawnCounter eq_refl)|].
  split; [exact (Hu F_platforms eq_refl)|].
  split; [exact (Hu F_keys eq_refl)|].
  exact (Hu F_bloodColorMode eq_refl).
Qed.

(** X18.  Space in a running round fires only when more than 200 ms have
    passed since the last shot: then one projectile of the player is
    appended, leaving from the middle of the player in the direction the
    player faces, and the time of the shot is recorded; otherwise the press
    changes nothing. *)
Lemma space_fires_after_cooldown (w : World) :
  let g := game w in
  let g' := game (exec (handleInput (mkEventKey KeyRune " "%char)) w) in
  Game.inMenu g = false -> Game.gameOver g = false ->
  if (200 * Millisecond <? Sub (nextTime w) (Game.lastShot g))%Z
  then (exists p, Game.projectiles g' = Game.projectiles g ++ [p]
                  /\ playerShot (Game.player g) p)
       /\ Game.lastShot g' = nextTime w
  else g' = g.
Proof.
  intros g g' Hmenu Hover. subst g g'. destruct w as [g r].
  unfold handleInput, exec, bind, getG, timeNow, firePlayerProjectile, modifyG, ret,
    nextTime.
  cbn [game runtime fst snd evKey evRune] in *. rewrite Hmenu, Hover.
  cbn [Ascii.eqb Bool.eqb andb fst snd game runtime].
  change (dur_mul 200 Millisecond) with (200 * Millisecond)%Z.
  destruct (200 * Millisecond <? Sub (clock r (clockReads r)) (Game.lastShot g))%Z.
  - cbn [fst snd game runtime]. split.
    + eexists. split; [destruct g; reflexivity|].
      destruct g; cbn. repeat split; reflexivity.
    + destruct g; reflexivity.
  - reflexivity.
Qed.

(** X19.  Escape ends [run]: the frame that receives it stops before
    [handleInput] and [update], so that of the game only the time of the
    last frame changes, whatever events are still pending. *)
Lemma escape_ends_the_run (c : ascii) (rest : list (option Event)) (w : World) :
  let esc := Some (EventKeyPress (mkEventKey KeyEscape c)) in
  eval (runFrame esc) w = false
  /\ game (exec (runFrames (esc :: rest)) w)
     = Game.setLastFrame (nextTime w) (game w).
Proof.
  destruct w as [g r]. cbv zeta.
  unfold runFrames, runFrame, eval, exec, bind, timeNow, getG, modifyG, ret, nextTime.
  cbn [game runtime fst snd evKey]. split; reflexivity.
Qed.

(** ** Particles in view *)

Lemma sameScreen_reads g0 : reads fp_screen (sameScreen g0).
Proof.
  intros g g' H. unfold sameScreen.
  pose proof (H F_width eq_refl) as H1. pose proof (H F_height eq_refl) as H2.
  simpl in H1, H2. rewrite H1, H2. exact (fun H => H).
Qed.

(** The result of code whose footprint leaves the size of the screen
    alone. *)
Lemma wp_on_same_screen {A} fp (m : M A) (R : A -> Prop) g0 w :
  touches fp m -> (forall f, fp_screen f = true -> fp f = false) ->
  sameScreen g0 (game w) ->
  wp m (fun a _ => R a) w ->
  wp m (fun a w' => R a /\ sameScreen g0 (game w')) w.
Proof.
  intros Hm Hd Hs HR. unfold wp in *. split; [exact HR|].
  eapply (preserves_reads fp_screen (sameScreen g0) fp m); eauto.
  apply sameScreen_reads.
Qed.

Lemma wp_rolling_place dt p w :
  wp (rolling dt p)
    (fun p' _ => DeathParticle.Pos p' = DeathParticle.Pos p
                 /\ DeathParticle.Active p' = DeathParticle.Active p) w.
Proof.
  split_fragment p. cbv beta delta [rolling].
  repeat first [wp_emit | wp_step]; split; reflexivity.
Qed.

Lemma wp_stepDeathParticle_in_view dt p w :
  wp (stepDeathParticle dt p)
    (fun p' _ => DeathParticle.Active p' = true -> fragmentInView (game w) p') w.
Proof.
  cbv beta delta [stepDeathParticle]. cbv zeta.
  destruct (DeathParticle.Active p) eqn:Ha; cbn [negb];
    [|apply wp_ret; congruence].
  apply wp_bind_intro, wp_getG.
  apply wp_bind_intro. apply wp_any. intros p1 w1.
  apply wp_bind_intro. apply wp_any. intros [p3 onPlatform] w3.
  apply wp_bind_intro. apply wp_any. intros p4 w4.
  apply wp_bind_intro. apply wp_any. intros p5 w5.
  apply wp_bind_intro. wp_call wp_rolling_place. intros p6 w6 [Hpos Hact].
  apply wp_ret.
  assert (E5 : forall c : bool,
            DeathParticle.Pos (if c then DeathParticle.setActive false p5 else p5)
            = DeathParticle.Pos p5) by (intros []; destruct p5; reflexivity).
  rewrite E5 in Hpos.
  destruct (Y (DeathParticle.Pos p5) >? float64 (Game.height (game w))) eqn:Ey.
  { assert (Hoff : DeathParticle.Active p6 = false)
      by (rewrite Hact; destruct p5; reflexivity).
    destruct (_ || _); [destruct p6; cbn; discriminate|congruence]. }
  apply Qgtb_le in Ey.
  destruct ((X (DeathParticle.Pos p6) <? -10) || _) eqn:Ex;
    [destruct p6; cbn; discriminate|].
  apply orb_false_iff in Ex. destruct Ex as [E1 E2].
  apply Qltb_ge in E1. apply Qgtb_le in E2.
  intros H. split; [exact H|]. rewrite Hpos in *. repeat split; assumption.
Qed.

(** X20.  What [updateDeathParticles] leaves in [g.deathParticles]: only
    active fragments, each within the margin of 10 at either side of the
    screen and not below its last row. *)
Lemma updateDeathParticles_survivors (dt : Q) (w : World) :
  Forall (fragmentInView (game w))
    (Game.deathParticles (game (exec (updateDeathParticles dt) w))).
Proof.
  apply (wp_exec (updateDeathParticles dt)
    (fun _ w' => Forall (fragmentInView (game w)) (Game.deathParticles (game w')))).
  cbv beta delta [updateDeathParticles].
  apply wp_bind_intro.
  eapply wp_touches with (fp := fp_corpses); [auto with touch|].
  intros ? g1 r1 Hu. pose proof (Hu F_width eq_refl) as Hw1.
  pose proof (Hu F_height eq_refl) as Hh1. simpl in Hw1, Hh1. clear Hu.
  apply wp_bind_intro, wp_getG. cbn [game].
  apply wp_bind_intro.
  apply wp_conseq with (Q := fun _ w2 => sameScreen (game w) (game w2)).
  { destruct (Game.gameOver g1); cbn [when].
    - apply wp_modifyG. cbn [game]. destruct g1; split; assumption.
    - apply wp_ret. split; assumption. }
  intros ? w2 Hs2. apply wp_bind_intro, wp_gets.
  apply wp_bind_intro.
  wp_call (wp_forEachM_inv (sameScreen (game w))
             (fun p' => DeathParticle.Active p' = true ->
                        fragmentInView (game w) p')
             (stepDeathParticle dt)).
  - intros p w0 Hs0.
    apply (wp_on_same_screen fp_blood); [auto with touch|fp_disjoint|exact Hs0|].
    wp_call wp_stepDeathParticle_in_view. intros p' _ H Ha.
    destruct (H Ha) as (A1 & A2 & A3 & A4). destruct Hs0 as [B1 B2].
    unfold fragmentInView. rewrite <- B1, <- B2. auto.
  - exact Hs2.
  - intros ps' [g3 r3] [HF _].
    apply wp_bind_intro, wp_modifyG. apply wp_modifyG. cbn [game runtime].
    replace (Game.deathParticles _) with (List.filter DeathParticle.Active ps')
      by (destruct g3; reflexivity).
    clear -HF. induction HF as [|p ps Hp _ IH]; cbn [List.filter]; [constructor|].
    destruct (DeathParticle.Active p) eqn:Ha; [constructor; auto|exact IH].
Qed.

Lemma wp_stepBloodParticle_in_view dt p w :
  wp (stepBloodParticle dt p)
    (fun p' _ => BloodParticle.Active p' = true -> bloodInView (game w) p') w.
Proof.
  unfold wp. destruct (BloodParticle.Active p) eqn:Ha.
  - rewrite (stepBloodParticle_eq dt p w Ha). cbv zeta.
    destruct (firstPlatformHit _ _ _); cbn [fst].
    + destruct (fallBlood dt 300.0 p); cbn. discriminate.
    + set (q := fallBlood dt 300.0 p).
      destruct ((BloodParticle.Lifetime p - dt <=? 0) || outsideViewport (game w) q)
        eqn:E; [destruct q; cbn; discriminate|].
      apply orb_false_iff in E. destruct E as [E1 E2].
      unfold outsideViewport in E2.
      apply orb_false_iff in E2. destruct E2 as [E2 E4].
      apply orb_false_iff in E2. destruct E2 as [E2 E3].
      apply Qltb_ge in E2. apply Qgtb_le in E3. apply Qgtb_le in E4.
      assert (E1' : 0 < BloodParticle.Lifetime p - dt).
      { apply Qnot_le_lt. intros H. apply Qle_bool_iff in H. congruence. }
      intros H. split; [exact H|].
      destruct q; cbn in *. repeat split; assumption.
  - unfold stepBloodParticle. rewrite Ha. cbn. congruence.
Qed.

(** X21.  What [updateBloodParticles] leaves in [g.bloodParticles]: only
    active particles with time to live, each within the margin of 10 at
    either side of the screen and not below its last row. *)
Lemma updateBloodParticles_survivors (dt : Q) (w : World) :
  Forall (bloodInView (game w))
    (Game.bloodParticles (game (exec (updateBloodParticles dt) w))).
Proof.
  apply (wp_exec (updateBloodParticles dt)
    (fun _ w' => Forall (bloodInView (game w)) (Game.bloodParticles (game w')))).
  cbv beta delta [updateBloodParticles].
  apply wp_bind_intro, wp_getG.
  apply wp_bind_intro.
  apply wp_conseq with (Q := fun _ w2 => sameScreen (game w) (game w2)).
  { destruct (Game.gameOver (game w)); cbn [when].
    - apply wp_modifyG. cbn [game]. destruct (game w); split; reflexivity.
    - apply wp_ret. split; reflexivity. }
  intros ? w2 Hs2. apply wp_bind_intro, wp_gets.
  apply wp_bind_intro.
  wp_call (wp_forEachM_inv (sameScreen (game w))
             (fun p' => BloodParticle.Active p' = true -> bloodInView (game w) p')
             (stepBloodParticle dt)).
  - intros p w0 Hs0.
    apply (wp_on_same_screen fp_stains); [auto with touch|fp_disjoint|exact Hs0|].
    wp_call wp_stepBloodParticle_in_view. intros p' _ H Ha.
    destruct (H Ha) as (A1 & A2 & A3 & A4 & A5). destruct Hs0 as [B1 B2].
    unfold bloodInView. rewrite <- B1, <- B2. auto.
  - exact Hs2.
  - intros ps' [g3 r3] [HF _].
    apply wp_bind_intro, wp_modifyG. apply wp_modifyG. cbn [game runtime].
    replace (Game.bloodParticles _) with (List.filter BloodParticle.Active ps')
      by (destruct g3; reflexivity).
    clear -HF. induction HF as [|p ps Hp _ IH]; cbn [List.filter]; [constructor|].
    destruct (BloodParticle.Active p) eqn:Ha; [constructor; auto|exact IH].
Qed.

(** ** The resize *)

(** X22.  A resize puts the player on the new ground row, wherever the
    player was, and moves the player left when the new right edge would
    cut the figure, never to the right; the platforms, the enemies, the
    projectiles and the particles stay where they are. *)
Lemma resize_moves_the_player_only (width height : Z) (w : World) :
  let g := game w in
  let g' := game (exec (handleResize width height) w) in
  let pl := Game.player g in
  let pl' := Game.player g' in
  (- 2 ^ 63 <= width - Player.Width pl < 2 ^ 63)%Z ->
  (- 2 ^ 63 + 5 <= height <= 2 ^ 63)%Z ->
  Game.width g' = width /\ Game.height g' = height
  /\ Game.groundY g' = (height - 1)%Z
  /\ Y (Player.Pos pl') == float64 (height - 1 - PlayerHeight)
  /\ X (Player.Pos pl') <= X (Player.Pos pl)
  /\ X (Player.Pos pl') + float64 (Player.Width pl') <= float64 width
  /\ Game.platforms g' = Game.platforms g
  /\ Game.enemies g' = Game.enemies g
  /\ Game.projectiles g' = Game.projectiles g
  /\ Game.deathParticles g' = Game.deathParticles g
  /\ Game.bloodParticles g' = Game.bloodParticles g.
Proof.
  intros g g' pl pl' Hw Hh. subst g g' pl pl'. destruct w as [g r].
  unfold handleResize, exec, bind, modifyG. cbn [game runtime fst snd] in *.
  destruct g as [pl ? ? ? ? ? ? ? ? ? ? ? ? w0 h0 gy ? ? ? ? ? ? ? ?].
  cbn [Game.player Game.width Game.height Game.groundY Game.setWidth
       Game.setHeight Game.setGroundY Game.setPlayer Game.platforms
       Game.enemies Game.projectiles Game.deathParticles Game.bloodParticles] in *.
  destruct pl as [[px py] vel ? ? wd ? ? ? ?].
  cbn [Player.Pos Player.Width X Y] in *.
  assert (E1 : int_sub height 1 = (height - 1)%Z)
    by (unfold int_sub; apply wrap64_small; lia).
  assert (E2 : int_sub (height - 1) PlayerHeight = (height - 1 - PlayerHeight)%Z)
    by (unfold int_sub, PlayerHeight; apply wrap64_small; lia).
  assert (E3 : int_sub width wd = (width - wd)%Z)
    by (unfold int_sub; apply wrap64_small; lia).
  assert (Hd : float64 (width - wd) == float64 width - float64 wd).
  { unfold float64, Qminus. rewrite <- inject_Z_opp, <- inject_Z_plus. reflexivity. }
  rewrite E1, E2, E3.
  destruct (px + float64 wd >? float64 width) eqn:E; cbn.
  - apply Qgtb_lt in E. repeat split; try reflexivity; lra.
  - apply Qgtb_le in E. repeat split; try reflexivity; lra.
Qed.

(** ** Rendering *)

Lemma drawEach_is_Some {A} (body : A -> option (list Cell)) xs :
  (forall x, x ∈ xs -> is_Some (body x)) -> is_Some (drawEach body xs).
Proof.
  induction xs as [|x xs IH]; intros H; cbn [drawEach]; [eauto|].
  destruct (H x) as [cells ->]; [left|].
  destruct IH as [more ->]; [intros y Hy; apply H; right; exact Hy|]. eauto.
Qed.

Lemma drawEach_Forall {A} (P : Cell -> Prop) (body : A -> option (list Cell)) xs :
  (forall x cells, x ∈ xs -> body x = Some cells -> Forall P cells) ->
  forall all, drawEach body xs = Some all -> Forall P all.
Proof.
  induction xs as [|x xs IH]; intros H all; cbn [drawEach].
  - intros [= <-]. constructor.
  - destruct (body x) as [cells|] eqn:Ex; [|discriminate].
    destruct (drawEach body xs) as [more|] eqn:Em; [|discriminate].
    intros [= <-]. apply Forall_app. split.
    + eapply H; [left|exact Ex].
    + apply IH; [|reflexivity]. intros y cs Hy. apply H. right. exact Hy.
Qed.

Lemma drawEach_single {A} (R : A -> Cell -> Prop) (body : A -> option (list Cell)) xs :
  (forall x, x ∈ xs -> exists c, body x = Some [c] /\ R x c) ->
  exists cells, drawEach body xs = Some cells /\ Forall2 R xs cells.
Proof.
  induction xs as [|x xs IH]; intros H; cbn [drawEach].
  - exists []. split; [reflexivity|constructor].
  - destruct (H x) as (c & -> & Hc); [left|].
    destruct IH as (more & -> & Hm); [intros y Hy; apply H; right; exact Hy|].
    exists (c :: more). split; [reflexivity|]. constructor; assumption.
Qed.

Lemma upto_lookup lo hi (i : nat) x :
  upto lo hi !! i = Some x -> x = (lo + Z.of_nat i)%Z /\ (lo <= x < hi)%Z.
Proof.
  unfold upto. rewrite list_lookup_fmap.
  destruct (seq 0 (Z.to_nat (hi - lo)) !! i) as [j|] eqn:E; [|discriminate].
  apply lookup_seq in E as [-> Hj]. cbn. intros [= <-]. lia.
Qed.

Lemma upto_elem lo hi x : x ∈ upto lo hi -> (lo <= x < hi)%Z.
Proof.
  intros H. apply list_elem_of_lookup in H as [i Hi].
  apply upto_lookup in Hi. tauto.
Qed.

Lemma upto_length lo hi : length (upto lo hi) = Z.to_nat (hi - lo).
Proof. unfold upto. rewrite length_map, length_seq. reflexivity. Qed.

Lemma colorAt_rainbow i :
  (0 <= i < 6)%Z -> exists c, colorAt rainbowColors i = Some c /\ c <> PaletteColor 240.
Proof.
  intros H. unfold colorAt.
  replace (i <? 0)%Z with false by (symmetry; apply Z.ltb_ge; lia).
  assert (Hi : (Z.to_nat i < 6)%nat) by lia.
  destruct (Z.to_nat i) as [|[|[|[|[|[|n]]]]]]; try lia; cbn; eexists;
    (split; [reflexivity|discriminate]).
Qed.

(** The blood colour is found unless the mode is the rainbow and the key
    is negative; it is never the dark gray of the ground. *)
Lemma bloodStyle_found mode key :
  (mode <> 2 \/ 0 <= key)%Z ->
  exists style, bloodStyle mode key = Some style
                /\ foreground style <> PaletteColor 240.
Proof.
  intros H. unfold bloodStyle.
  destruct (mode =? 0)%Z; [eexists; split; [reflexivity|discriminate]|].
  destruct (mode =? 1)%Z; [eexists; split; [reflexivity|discriminate]|].
  destruct (mode =? 2)%Z eqn:E2; [|eexists; split; [reflexivity|discriminate]].
  apply Z.eqb_eq in E2. destruct H as [H|H]; [contradiction|].
  cbv zeta. change (Z.of_nat (length rainbowColors)) with 6%Z.
  unfold int_rem. rewrite Z.rem_mod_nonneg by lia.
  destruct (colorAt_rainbow (key mod 6)) as (c & -> & Hc).
  { apply Z.mod_pos_bound. lia. }
  eexists. split; [reflexivity|exact Hc].
Qed.

(** The rainbow has no colour for a key whose remainder is negative. *)
Lemma bloodStyle_panics key :
  (Z.rem key 6 < 0)%Z -> bloodStyle 2 key = None.
Proof.
  intros H. unfold bloodStyle. cbn [Z.eqb]. cbv zeta.
  change (Z.of_nat (length rainbowColors)) with 6%Z. unfold int_rem, colorAt.
  replace (Z.rem key 6 <? 0)%Z with true by (symmetry; apply Z.ltb_lt; exact H).
  reflexivity.
Qed.

Lemma drawGroundTile_spec (g : Game) (x : Z) :
  (0 <= x)%Z ->
  exists c,
    drawGroundTile g x = Some [c]
    /\ cellX c = x /\ cellY c = Game.groundY g /\ cellRune c = groundChar
    /\ (foreground (cellStyle c) = PaletteColor 240
        <-> Game.redGroundTiles g !! x = None \/ Game.bloodColorMode g = 3%Z).
Proof.
  intros Hx. unfold drawGroundTile. cbv zeta.
  destruct (Game.redGroundTiles g !! x) as [k|] eqn:Ek.
  - destruct (Game.bloodColorMode g =? 3)%Z eqn:E3.
    + apply Z.eqb_eq in E3. eexists. split; [reflexivity|]. cbn.
      repeat split; auto.
    + apply Z.eqb_neq in E3.
      destruct (bloodStyle_found (Game.bloodColorMode g) x) as (s & -> & Hs);
        [right; lia|].
      eexists. split; [reflexivity|]. cbn. repeat split.
      * intros H. contradiction.
      * intros [H|H]; [discriminate|contradiction].
  - eexists. split; [reflexivity|]. cbn. repeat split; auto.
Qed.

Lemma drawGround_is_Some (g : Game) : is_Some (drawGround g).
Proof.
  apply drawEach_is_Some. intros x Hx. apply upto_elem in Hx.
  destruct (drawGroundTile_spec g x) as (c & -> & _); [lia|]. eauto.
Qed.

(** X23.  [drawGround] never panics and paints the ground row once from
    the left edge to the right one: one heavy line per column, in the order
    of the columns.  A column is painted in the dark gray of the ground
    exactly when it carries no stain or the blood is switched off. *)
Lemma drawGround_paints_the_ground_row (g : Game) :
  exists cells,
    drawGround g = Some cells
    /\ length cells = Z.to_nat (Game.width g)
    /\ forall (i : nat) c, cells !! i = Some c ->
         cellX c = Z.of_nat i
         /\ cellY c = Game.groundY g
         /\ cellRune c = groundChar
         /\ (foreground (cellStyle c) = PaletteColor 240
             <-> Game.redGroundTiles g !! Z.of_nat i = None
                 \/ Game.bloodColorMode g = 3%Z).
Proof.
  unfold drawGround.
  destruct (drawEach_single
              (fun x c =>
                 cellX c = x /\ cellY c = Game.groundY g /\ cellRune c = groundChar
                 /\ (foreground (cellStyle c) = PaletteColor 240
                     <-> Game.redGroundTiles g !! x = None
                         \/ Game.bloodColorMode g = 3%Z))
              (drawGroundTile g) (upto 0 (Game.width g))) as (cells & Hc & HF).
  { intros x Hx. apply upto_elem in Hx. apply drawGroundTile_spec. lia. }
  exists cells. split; [exact Hc|]. split.
  - rewrite <- (Forall2_length _ _ _ HF), upto_length. f_equal. lia.
  - intros i c Hi.
    destruct (Forall2_lookup_r _ _ _ _ _ HF Hi) as (x & Hx & H).
    apply upto_lookup in Hx as [-> _]. exact H.
Qed.

(** The cells of a platform tile, if any, are on a column of the screen. *)
Lemma drawPlatformTile_spec (g : Game) (platformIndex y x : Z) :
  (x < Game.width g)%Z ->
  exists cells,
    drawPlatformTile g platformIndex y x = Some cells
    /\ Forall (fun c => (0 <= cellX c < Game.width g)%Z /\ cellY c = y) cells.
Proof.
  intros Hx. unfold drawPlatformTile. cbv zeta.
  destruct (0 <=? x)%Z eqn:E0; [|exists []; split; [reflexivity|constructor]].
  apply Z.leb_le in E0.
  assert (Hs : exists style,
            match Game.redPlatformTiles g !! int_add (int_mul platformIndex 10000) x with
            | Some _ =>
                if (Game.bloodColorMode g =? 3)%Z
                then Some (Foreground (PaletteColor 51) StyleDefault)
                else bloodStyle (Game.bloodColorMode g) x
            | None => Some (Foreground (PaletteColor 51) StyleDefault)
            end = Some style).
  { destruct (_ !! _); [|eauto]. destruct (_ =? 3)%Z; [eauto|].
    destruct (bloodStyle_found (Game.bloodColorMode g) x) as (s & -> & _); [right; lia|].
    eauto. }
  destruct Hs as [style ->]. eexists. split; [reflexivity|].
  constructor; [cbn; split; [lia|reflexivity]|constructor].
Qed.

Lemma drawPlatformsFrom_spec (g : Game) (platforms : list Platform) :
  forall platformIndex,
  exists cells,
    drawPlatformsFrom g platformIndex platforms = Some cells
    /\ Forall (fun c => (0 <= cellX c < Game.width g)%Z) cells.
Proof.
  induction platforms as [|platform rest IH]; intros platformIndex;
    cbn [drawPlatformsFrom].
  - exists []. split; [reflexivity|constructor].
  - cbv zeta.
    set (y := int (Platform.Y platform)).
    set (xs := upto _ _).
    assert (Hxs : forall x, x ∈ xs -> (x < Game.width g)%Z).
    { intros x Hx. apply upto_elem in Hx. lia. }
    destruct (drawEach_is_Some (drawPlatformTile g platformIndex y) xs) as [cells Hc].
    { intros x Hx.
      destruct (drawPlatformTile_spec g platformIndex y x (Hxs x Hx)) as (cs & -> & _).
      eauto. }
    rewrite Hc.
    destruct (IH (int_add platformIndex 1)) as (more & -> & Hm).
    eexists. split; [reflexivity|]. apply Forall_app. split; [|exact Hm].
    eapply (drawEach_Forall _ (drawPlatformTile g platformIndex y) xs); [|exact Hc].
    intros x cs Hx Hcs.
    destruct (drawPlatformTile_spec g platformIndex y x (Hxs x Hx)) as (cs' & E & HF).
    rewrite Hcs in E. injection E as <-.
    eapply Forall_impl; [exact HF|]. intros c [H _]. exact H.
Qed.

(** X24.  [drawPlatforms] never panics and clips the platforms to the
    screen: every cell it paints is on a column between 0 and the width,
    the width excluded, however far a platform reaches beyond an edge. *)
Lemma drawPlatforms_clips_to_the_screen (g : Game) :
  exists cells,
    drawPlatforms g = Some cells
    /\ Forall (fun c => (0 <= cellX c < Game.width g)%Z) cells.
Proof. apply drawPlatformsFrom_spec. Qed.

Lemma drawPlatforms_is_Some (g : Game) : is_Some (drawPlatforms g).
Proof.
  destruct (drawPlatformsFrom_spec g (Game.platforms g) 0) as (cells & H & _).
  exists cells. exact H.
Qed.

Lemma drawBloodParticle_spec (g : Game) (p : BloodParticle) :
  (Game.bloodColorMode g <> 2 \/ Game.width g + Game.height g <= 2 ^ 63)%Z ->
  exists cells,
    drawBloodParticle g p = Some cells
    /\ (length cells <= 1)%nat
    /\ Forall (fun c => (0 <= cellX c < Game.width g)%Z
                        /\ (0 <= cellY c < Game.height g)%Z) cells.
Proof.
  intros Hm. unfold drawBloodParticle. cbv zeta.
  destruct (negb (BloodParticle.Active p));
    [exists []; split; [reflexivity|split; [cbn; lia|constructor]]|].
  set (x := int (X (BloodParticle.Pos p))).
  set (y := int (Y (BloodParticle.Pos p))).
  destruct (_ && _) eqn:E;
    [|exists []; split; [reflexivity|split; [cbn; lia|constructor]]].
  repeat (apply andb_true_iff in E; destruct E as [E ?]).
  apply Z.leb_le in E.
  repeat match goal with
         | H : (_ <=? _)%Z = true |- _ => apply Z.leb_le in H
         | H : (_ <? _)%Z = true |- _ => apply Z.ltb_lt in H
         end.
  destruct (bloodStyle_found (Game.bloodColorMode g) (int_add x y)) as (s & -> & _).
  { destruct Hm as [Hm|Hm]; [left; exact Hm|right].
    unfold int_add. rewrite wrap64_small by lia. lia. }
  eexists. split; [reflexivity|]. split; [cbn; lia|].
  constructor; [cbn; split; lia|constructor].
Qed.

Lemma drawBloodParticles_spec (g : Game) :
  (Game.bloodColorMode g <> 2 \/ Game.width g + Game.height g <= 2 ^ 63)%Z ->
  exists cells,
    drawBloodParticles g = Some cells
    /\ (Game.bloodColorMode g = 3%Z -> cells = [])
    /\ (length cells <= length (Game.bloodParticles g))%nat
    /\ Forall (fun c => (0 <= cellX c < Game.width g)%Z
                        /\ (0 <= cellY c < Game.height g)%Z) cells.
Proof.
  intros Hm. unfold drawBloodParticles.
  destruct (Game.bloodColorMode g =? 3)%Z eqn:E3.
  { exists []. split; [reflexivity|]. split; [reflexivity|].
    split; [cbn; lia|constructor]. }
  apply Z.eqb_neq in E3.
  induction (Game.bloodParticles g) as [|p ps IH]; cbn [drawEach].
  - exists []. split; [reflexivity|]. split; [reflexivity|].
    split; [cbn; lia|constructor].
  - destruct (drawBloodParticle_spec g p Hm) as (cells & -> & Hl & HF).
    destruct IH as (more & -> & _ & Hl' & HF').
    eexists. split; [reflexivity|]. split; [intros H; contradiction|].
    split; [rewrite length_app; cbn; lia|]. apply Forall_app. split; assumption.
Qed.


(** X25.  [drawBloodParticles] paints nothing when the blood is switched
    off.  Otherwise, on a screen whose width and height add up to no more
    than the largest [int], it never panics and paints at most one cell per
    blood particle, each on the screen. *)
Lemma drawBloodParticles_stays_on_screen (g : Game) :
  (Game.bloodColorMode g <> 2 \/ Game.width g + Game.height g <= 2 ^ 63)%Z ->
  exists cells,
    drawBloodParticles g = Some cells
    /\ (Game.bloodColorMode g = 3%Z -> cells = [])
    /\ (length cells <= length (Game.bloodParticles g))%nat
    /\ Forall (fun c => (0 <= cellX c < Game.width g)%Z
                        /\ (0 <= cellY c < Game.height g)%Z) cells.
Proof. apply drawBloodParticles_spec. Qed.

Lemma fragmentStyle_found (g : Game) (p : DeathParticle) (x y : Z) :
  (Game.bloodColorMode g <> 2 \/ 0 <= int_add x y)%Z ->
  is_Some (fragmentStyle g p x y).
Proof.
  intros Hm. unfold fragmentStyle.
  destruct (DeathParticle.IsRed p).
  - destruct (_ =? 3)%Z.
    + destruct (_ =? 0)%Z; eauto.
    + destruct (bloodStyle_found (Game.bloodColorMode g) (int_add x y))
        as (s & -> & _); [exact Hm|]. eauto.
  - destruct (_ =? 0)%Z; eauto.
Qed.

Lemma pureM_aboutToVanish p : pureM (aboutToVanish p).
Proof. unfold aboutToVanish. pure_tac. Qed.
#[export] Hint Resolve pureM_aboutToVanish : pure.

Lemma pureM_drawDeathParticle g now p : pureM (drawDeathParticle g now p).
Proof. unfold drawDeathParticle. pure_tac. Qed.
#[export] Hint Resolve pureM_drawDeathParticle : pure.

Lemma pureM_drawDeathParticlesFrom g now ps : pureM (drawDeathParticlesFrom g now ps).
Proof. induction ps; cbn [drawDeathParticlesFrom]; pure_tac. Qed.
#[export] Hint Resolve pureM_drawDeathParticlesFrom : pure.

Lemma pureM_drawDeathParticles : pureM drawDeathParticles.
Proof. unfold drawDeathParticles. pure_tac. Qed.
#[export] Hint Resolve pureM_drawDeathParticles : pure.

Lemma wp_drawDeathParticle_safe g now p w :
  (Game.bloodColorMode g <> 2%Z
   \/ ((Game.width g + Game.height g <= 2 ^ 63)%Z /\ fragmentOnScreen g p)) ->
  wp (drawDeathParticle g now p) (fun cells _ => is_Some cells) w.
Proof.
  intros Hm. unfold drawDeathParticle.
  destruct (negb (DeathParticle.Active p)) eqn:Ha; [apply wp_ret; eauto|].
  cbv zeta. apply wp_bind_intro. apply wp_any. intros vanishing w1.
  destruct (_ && _); [apply wp_ret; eauto|].
  destruct (fragmentStyle_found g p (int (X (DeathParticle.Pos p)))
              (int (Y (DeathParticle.Pos p)))) as [style ->].
  { destruct Hm as [Hm|[Hs Hm]]; [left; exact Hm|right].
    apply negb_false_iff in Ha. destruct (Hm Ha) as (Hx & Hy).
    unfold int_add. rewrite wrap64_small by lia. lia. }
  apply wp_ret. eauto.
Qed.

Lemma wp_drawDeathParticlesFrom_safe g now ps : forall w,
  (Game.bloodColorMode g <> 2%Z
   \/ ((Game.width g + Game.height g <= 2 ^ 63)%Z
       /\ Forall (fragmentOnScreen g) ps)) ->
  wp (drawDeathParticlesFrom g now ps) (fun cells _ => is_Some cells) w.
Proof.
  induction ps as [|p ps IH]; intros w Hm; cbn [drawDeathParticlesFrom].
  - apply wp_ret. eauto.
  - assert (Hp : Game.bloodColorMode g <> 2%Z
                 \/ ((Game.width g + Game.height g <= 2 ^ 63)%Z
                     /\ fragmentOnScreen g p)).
    { destruct Hm as [Hm|[Hs Hm]]; [left; exact Hm|right].
      split; [exact Hs|]. inversion Hm; assumption. }
    assert (Hps : Game.bloodColorMode g <> 2%Z
                  \/ ((Game.width g + Game.height g <= 2 ^ 63)%Z
                      /\ Forall (fragmentOnScreen g) ps)).
    { destruct Hm as [Hm|[Hs Hm]]; [left; exact Hm|right].
      split; [exact Hs|]. inversion Hm; assumption. }
    apply wp_bind_intro. wp_call (wp_drawDeathParticle_safe g now p w Hp).
    intros cells w1 [cs ->].
    apply wp_bind_intro. wp_call (IH w1 Hps). intros more w2 [ms ->].
    apply wp_ret. eauto.
Qed.

(** X26.  [render] never panics, and paints the frame, unless the blood
    colour mode is the rainbow; and in the rainbow mode it does not panic
    either as long as every active fragment is on the screen (on a screen
    whose width and height add up to no more than the largest [int]). *)
Lemma render_is_safe (w : World) :
  let g := game w in
  Game.bloodColorMode g <> 2%Z
  \/ ((Game.width g + Game.height g <= 2 ^ 63)%Z
      /\ Forall (fragmentOnScreen g) (Game.deathParticles g)) ->
  exists cells, eval render w = Some cells.
Proof.
  intros g Hm. subst g.
  apply (wp_exec render (fun cells _ => exists cs, cells = Some cs)).
  unfold render. apply wp_bind_intro, wp_getG.
  destruct (drawGround_is_Some (game w)) as [ground ->].
  destruct (drawPlatforms_is_Some (game w)) as [platforms ->].
  cbv zeta. apply wp_bind_intro. unfold drawDeathParticles.
  apply wp_bind_intro. apply wp_pure; [auto with pure|]. intros now r1.
  apply wp_bind_intro, wp_getG. cbn [game].
  wp_call (wp_drawDeathParticlesFrom_safe (game w) now
             (Game.deathParticles (game w)) (mkWorld (game w) r1) Hm).
  intros fragments w2 [fs ->].
  destruct (drawBloodParticles_spec (game w)) as (blood & -> & _).
  { destruct Hm as [Hm|[Hm _]]; [left|right]; exact Hm. }
  apply wp_ret. eauto.
Qed.

Lemma wp_drawDeathParticle_panics g now p w :
  Game.bloodColorMode g = 2%Z ->
  rainbowHazard p ->
  wp (drawDeathParticle g now p) (fun cells _ => cells = None) w.
Proof.
  intros Hm (Ha & Hred & Hid & Hk). unfold drawDeathParticle.
  rewrite Ha. cbn [negb]. cbv zeta.
  assert (Ev : aboutToVanish p = ret false).
  { unfold aboutToVanish. destruct Hid as [->| ->]; [reflexivity|].
    rewrite andb_false_r. reflexivity. }
  rewrite Ev. apply wp_bind_intro, wp_ret. cbn [andb].
  unfold fragmentStyle. rewrite Hred, Hm. cbn [Z.eqb].
  rewrite (bloodStyle_panics _ Hk). apply wp_ret. reflexivity.
Qed.

Lemma wp_drawDeathParticlesFrom_panics g now p ps : forall w,
  Game.bloodColorMode g = 2%Z ->
  p ∈ ps -> rainbowHazard p ->
  wp (drawDeathParticlesFrom g now ps) (fun cells _ => cells = None) w.
Proof.
  induction ps as [|q ps IH]; intros w Hm Hin Hp; [inversion Hin|].
  cbn [drawDeathParticlesFrom]. apply wp_bind_intro.
  apply elem_of_cons in Hin as [<-|Hin].
  - wp_call (wp_drawDeathParticle_panics g now p w Hm Hp).
    intros cells w1 ->. apply wp_ret. reflexivity.
  - apply wp_any. intros [cells|] w1; [|apply wp_ret; reflexivity].
    apply wp_bind_intro. wp_call (IH w1 Hm Hin Hp).
    intros more w2 ->. apply wp_ret. reflexivity.
Qed.

(** X27.  In the rainbow mode [render] panics as soon as some active red
    fragment that is drawn in every frame (a fragment of the player, or one
    in the air) is at a place whose truncated coordinates add up to a
    number with a negative remainder modulo 6, as happens left of or above
    the screen: [drawDeathParticles] then indexes the six rainbow colours
    with that negative remainder. *)
Lemma render_panics_on_rainbow_fragment_off_screen (w : World) (p : DeathParticle) :
  Game.bloodColorMode (game w) = 2%Z ->
  p ∈ Game.deathParticles (game w) ->
  rainbowHazard p ->
  eval render w = None.
Proof.
  intros Hm Hin Hp.
  apply (wp_exec render (fun cells _ => cells = None)).
  unfold render. apply wp_bind_intro, wp_getG.
  destruct (drawGround_is_Some (game w)) as [ground ->].
  destruct (drawPlatforms_is_Some (game w)) as [platforms ->].
  cbv zeta. apply wp_bind_intro. unfold drawDeathParticles.
  apply wp_bind_intro. apply wp_pure; [auto with pure|]. intros now r1.
  apply wp_bind_intro, wp_getG. cbn [game].
  wp_call (wp_drawDeathParticlesFrom_panics (game w) now p
             (Game.deathParticles (game w)) (mkWorld (game w) r1) Hm Hin Hp).
  intros fragments w2 ->. apply wp_ret. reflexivity.
Qed.

(** ** The defeat of the player *)

Lemma enemy_hit_spec (g : Game) :
  existsb (fun e => Enemy.Active e && playerTouchesEnemy (Game.player g) e)
    (Game.enemies g) = true
  <-> exists e, e ∈ Game.enemies g /\ Enemy.Active e = true
                /\ X (Player.Pos (Game.player g))
                   < X (Enemy.Pos e) + float64 (Enemy.Width e)
                /\ X (Enemy.Pos e)
                   < X (Player.Pos (Game.player g))
                     + float64 (Player.Width (Game.player g))
                /\ Y (Player.Pos (Game.player g))
                   < Y (Enemy.Pos e) + float64 (Enemy.Height e)
                /\ Y (Enemy.Pos e)
                   < Y (Player.Pos (Game.player g))
                     + float64 (Player.Height (Game.player g)).
Proof.
  rewrite existsb_exists. split.
  - intros (e & Hin & He). apply andb_true_iff in He as [Ha Ht].
    exists e. split; [apply list_elem_of_In, Hin|]. split; [exact Ha|].
    apply overlaps_spec in Ht. exact Ht.
  - intros (e & Hin & Ha & Ht). exists e. split; [apply list_elem_of_In, Hin|].
    apply andb_true_iff. split; [exact Ha|]. apply overlaps_spec. exact Ht.
Qed.

Lemma shot_hit_spec (g : Game) :
  existsb (fun p => Projectile.Active p && Projectile.IsEnemy p
                    && projectileTouchesPlayer p (Game.player g))
    (Game.projectiles g) = true
  <-> exists p, p ∈ Game.projectiles g
                /\ Projectile.Active p = true /\ Projectile.IsEnemy p = true
                /\ X (Projectile.Pos p)
                   < X (Player.Pos (Game.player g))
                     + float64 (Player.Width (Game.player g))
                /\ X (Player.Pos (Game.player g)) < X (Projectile.Pos p) + 1.0
                /\ Y (Projectile.Pos p)
                   < Y (Player.Pos (Game.player g))
                     + float64 (Player.Height (Game.player g))
                /\ Y (Player.Pos (Game.player g)) < Y (Projectile.Pos p) + 1.0.
Proof.
  rewrite existsb_exists. split.
  - intros (p & Hin & Hp). rewrite !andb_true_iff in Hp. destruct Hp as [[Ha Hi] Ht].
    exists p. split; [apply list_elem_of_In, Hin|]. split; [exact Ha|].
    split; [exact Hi|]. apply overlaps_spec in Ht. exact Ht.
  - intros (p & Hin & Ha & Hi & Ht). exists p.
    split; [apply list_elem_of_In, Hin|].
    rewrite !andb_true_iff. split; [split; [exact Ha|exact Hi]|].
    apply overlaps_spec. exact Ht.
Qed.

Lemma playerStruck_spec (g : Game) :
  playerStruck g
  <-> existsb (fun e => Enemy.Active e && playerTouchesEnemy (Game.player g) e)
        (Game.enemies g)
      || existsb (fun p => Projectile.Active p && Projectile.IsEnemy p
                           && projectileTouchesPlayer p (Game.player g))
           (Game.projectiles g) = true.
Proof.
  rewrite orb_true_iff, enemy_hit_spec, shot_hit_spec. reflexivity.
Qed.

Lemma defeatKept_reads g0 : reads fp_defeat (defeatKept g0).
Proof.
  intros g g' H [H1 H2].
  pose proof (H F_gameOver eq_refl) as E1. pose proof (H F_player eq_refl) as E2.
  cbn in E1, E2. unfold defeatKept. rewrite E1, E2. split; assumption.
Qed.

(** The kills leave the game-over flag and the player alone. *)
Lemma defeatKept_kills g0 ps es :
  preserves (defeatKept g0) (projectilesVsEnemies sweptHit scoreKill ps es).
Proof.
  apply preserves_projectilesVsEnemies.
  - intros e. ginv (defeatKept_reads g0).
  - unfold scoreKill. ginv (defeatKept_reads g0).
Qed.

(** What the defeat does to the game. *)
Lemma wp_playerDefeated w :
  wp playerDefeated
    (fun _ w' =>
       Game.gameOver (game w') = true
       /\ Game.enemies (game w') = Game.enemies (game w)
       /\ Game.projectiles (game w') = Game.projectiles (game w)
       /\ Game.score (game w') = Game.score (game w)
       /\ Game.enemiesDefeated (game w') = Game.enemiesDefeated (game w)
       /\ exists ps,
            Game.deathParticles (game w') = Game.deathParticles (game w) ++ ps
            /\ length ps = 7%nat
            /\ Forall (fun p => DeathParticle.EnemyID p = 0%Z) ps) w.
Proof.
  pose proof (wp_createPlayerDeathParticles w) as (ps & Hps & Hadd & Hrest).
  unfold playerDefeated, wp, bind, modifyG.
  destruct (createPlayerDeathParticles w) as [[] w1]. cbn [fst snd game] in *.
  pose proof (Hrest F_enemies eq_refl) as He.
  pose proof (Hrest F_projectiles eq_refl) as Hp.
  pose proof (Hrest F_score eq_refl) as Hs.
  pose proof (Hrest F_enemiesDefeated eq_refl) as Hd.
  cbn in He, Hp, Hs, Hd. destruct (game w1); cbn in *.
  repeat split; try assumption.
  exists ps. split; [exact Hadd|]. split.
  - rewrite <- (Forall2_length _ _ _ Hps). apply playerPieces_length.
  - eapply pieceOf_EnemyID, Hps.
Qed.

(** X28.  The defeat comes before the kills.  [checkCollisions] ends the
    round when an active enemy or an active projectile of an enemy overlaps
    the player: it appends the seven fragments of the player and returns,
    so that no enemy is killed and nothing is scored in that tick, whatever
    the projectiles of the player have reached.  Otherwise it leaves the
    game-over flag and the player as they are. *)
Lemma checkCollisions_defeat_comes_first (w : World) :
  let g := game w in
  let g' := game (exec checkCollisions w) in
  (playerStruck g ->
   Game.gameOver g' = true
   /\ Game.enemies g' = Game.enemies g
   /\ Game.projectiles g' = Game.projectiles g
   /\ Game.score g' = Game.score g
   /\ Game.enemiesDefeated g' = Game.enemiesDefeated g
   /\ exists ps,
        Game.deathParticles g' = Game.deathParticles g ++ ps
        /\ length ps = 7%nat
        /\ Forall (fun p => DeathParticle.EnemyID p = 0%Z) ps)
  /\ (~ playerStruck g ->
      Game.gameOver g' = Game.gameOver g /\ Game.player g' = Game.player g).
Proof.
  intros g g'. subst g g'. split.
  - intros Hhit. apply playerStruck_spec in Hhit.
    assert (E : exec checkCollisions w = exec playerDefeated w).
    { unfold checkCollisions, exec, bind at 1. cbn [getG fst snd].
      apply orb_true_iff in Hhit as [H|H]; rewrite H; [reflexivity|].
      destruct (existsb _ (Game.enemies (game w))); reflexivity. }
    rewrite E. apply (wp_playerDefeated w).
  - intros Hmiss.
    assert (Hno : existsb (fun e => Enemy.Active e
                                    && playerTouchesEnemy (Game.player (game w)) e)
                    (Game.enemies (game w))
                  || existsb (fun p => Projectile.Active p && Projectile.IsEnemy p
                                       && projectileTouchesPlayer p
                                            (Game.player (game w)))
                       (Game.projectiles (game w)) = false).
    { destruct (_ || _) eqn:E; [|reflexivity].
      exfalso. apply Hmiss, playerStruck_spec, E. }
    apply orb_false_iff in Hno as [H1 H2].
    assert (E : exec checkCollisions w
                = exec (let* '(ps, es) :=
                          projectilesVsEnemies sweptHit scoreKill
                            (Game.projectiles (game w)) (Game.enemies (game w)) in
                        modifyG (Game.setProjectiles ps);;
                        modifyG (Game.setEnemies es)) w).
    { unfold checkCollisions, exec, bind at 1. cbn [getG fst snd].
      rewrite H1, H2. reflexivity. }
    rewrite E.
    pose proof (defeatKept_kills (game w) (Game.projectiles (game w))
                  (Game.enemies (game w)) w (conj eq_refl eq_refl)) as Hk.
    unfold exec, bind, modifyG.
    destruct (projectilesVsEnemies _ _ _ _ w) as [[ps es] w1].
    cbn [fst snd game] in *. destruct Hk as [Hg Hp].
    destruct (game w1); cbn in *. split; assumption.
Qed.

(** ** The screens *)

Lemma sameRound_reads g0 : reads fp_round (sameRound g0).
Proof.
  intros g g' H (H1 & H2 & H3 & H4 & H5).
  pose proof (H F_inMenu eq_refl) as E1. pose proof (H F_gameOver eq_refl) as E2.
  pose proof (H F_score eq_refl) as E3.
  pose proof (H F_enemiesDefeated eq_refl) as E4.
  pose proof (H F_platforms eq_refl) as E5.
  cbn in E1, E2, E3, E4, E5. unfold sameRound.
  rewrite E1, E2, E3, E4, E5. repeat split; assumption.
Qed.

Lemma sameRound_refl g : sameRound g g.
Proof. repeat split. Qed.

Lemma sameRound_afterCollisions g0 dt : preserves (sameRound g0) (afterCollisions dt).
Proof. unfold afterCollisions. ginv (sameRound_reads g0). Qed.

(** A frame of the game-over screen that does not receive Enter. *)
Lemma sameRound_over_frame g0 ev :
  Game.inMenu g0 = false -> Game.gameOver g0 = true ->
  ~ pressesEnter ev ->
  preserves (sameRound g0) (runFrame ev).
Proof.
  intros Hmenu Hover Hev. unfold runFrame.
  apply preserves_bind; [apply preserves_pure, pureM_timeNow|]. intros now.
  apply preserves_bind; [apply preserves_pure, pureM_getG|]. intros g.
  cbv zeta. apply preserves_bind; [ginv (sameRound_reads g0)|]. intros _.
  apply preserves_bind.
  - destruct ev as [[ek|width height]|].
    + destruct (evKey ek) eqn:Hk; try apply preserves_ret;
        try (exfalso; apply Hev; exists ek; split; [reflexivity|exact Hk]);
        (apply preserves_bind; [|intros _; apply preserves_ret]);
        intros w H; pose proof H as (H1 & H2 & _);
        unfold handleInput, bind, getG; cbn [fst snd];
        rewrite H1, Hmenu, H2, Hover, Hk; exact H.
    + apply preserves_bind; [|intros _; apply preserves_ret].
      eapply preserves_reads;
        [apply (sameRound_reads g0)|apply touches_handleResize|fp_disjoint].
    + apply preserves_ret.
  - intros [|]; [|apply preserves_ret].
    apply preserves_bind; [|intros _; apply preserves_ret].
    intros w H. pose proof H as (H1 & H2 & _).
    rewrite update_gameOver by congruence.
    apply sameRound_afterCollisions, H.
Qed.

(** X29.  The game-over screen is left by Enter only (and by Escape, which
    ends the run): over any frames that receive no Enter, a round that is
    over stays over, outside of the menu, with its score, its count of
    defeated enemies and its platforms. *)
Lemma game_over_lasts_until_enter (evs : list (option Event)) (w : World) :
  Game.inMenu (game w) = false ->
  Game.gameOver (game w) = true ->
  Forall (fun ev => ~ pressesEnter ev) evs ->
  let g := game w in
  let g' := game (exec (runFrames evs) w) in
  Game.inMenu g' = false
  /\ Game.gameOver g' = true
  /\ Game.score g' = Game.score g
  /\ Game.enemiesDefeated g' = Game.enemiesDefeated g
  /\ Game.platforms g' = Game.platforms g.
Proof.
  intros Hmenu Hover Hevs g g'. subst g g'.
  assert (H : sameRound (game w) (game (exec (runFrames evs) w))).
  { assert (Hp : preserves (sameRound (game w)) (runFrames evs)).
    { induction Hevs as [|ev evs Hev _ IH]; cbn [runFrames].
      - apply preserves_ret.
      - apply preserves_bind; [apply sameRound_over_frame; assumption|].
        intros [|]; [exact IH|apply preserves_ret]. }
    apply Hp, sameRound_refl. }
  destruct H as (H1 & H2 & H3 & H4 & H5).
  repeat split; congruence.
Qed.

(** A frame of the menu that does not receive Space. *)
Lemma sameRound_menu_frame g0 ev :
  Game.inMenu g0 = true ->
  ~ pressesSpace ev ->
  preserves (sameRound g0) (runFrame ev).
Proof.
  intros Hmenu Hev. unfold runFrame.
  apply preserves_bind; [apply preserves_pure, pureM_timeNow|]. intros now.
  apply preserves_bind; [apply preserves_pure, pureM_getG|]. intros g.
  cbv zeta. apply preserves_bind; [ginv (sameRound_reads g0)|]. intros _.
  apply preserves_bind.
  - destruct ev as [[ek|width height]|].
    + destruct (evKey ek) eqn:Hk; try apply preserves_ret;
        (apply preserves_bind; [|intros _; apply preserves_ret]);
        intros w H;
        unfold handleInput, bind at 1, getG; cbn [fst snd];
        rewrite (proj1 H), Hmenu, Hk; try exact H.
      * destruct (Ascii.eqb (evRune ek) " ") eqn:Hr; [|exact H].
        exfalso. apply Hev. exists ek. apply Ascii.eqb_eq in Hr.
        repeat split; assumption.
      * revert w H.
        change (preserves (sameRound g0) toggleBloodColor).
        eapply preserves_reads;
          [apply (sameRound_reads g0)|apply touches_toggleBloodColor|fp_disjoint].
    + apply preserves_bind; [|intros _; apply preserves_ret].
      eapply preserves_reads;
        [apply (sameRound_reads g0)|apply touches_handleResize|fp_disjoint].
    + apply preserves_ret.
  - intros [|]; [|apply preserves_ret].
    apply preserves_bind; [|intros _; apply preserves_ret].
    intros w H.
    unfold update, bind at 1, getG. cbn [fst snd]. rewrite (proj1 H), Hmenu.
    revert w H. change (preserves (sameRound g0) (updateMenu (clampDeltaTime
      (Seconds (Sub now (Game.lastFrame g)))))).
    eapply preserves_reads;
      [apply (sameRound_reads g0)|apply touches_updateMenu|fp_disjoint].
Qed.

(** X30.  The menu is left by Space only (and by Escape, which ends the
    run): over any frames that receive no Space, a game in the menu stays
    in the menu, and the demo that plays there changes neither the
    game-over flag nor the score, the count of defeated enemies or the
    platforms. *)
Lemma menu_lasts_until_space (evs : list (option Event)) (w : World) :
  Game.inMenu (game w) = true ->
  Forall (fun ev => ~ pressesSpace ev) evs ->
  let g := game w in
  let g' := game (exec (runFrames evs) w) in
  Game.inMenu g' = true
  /\ Game.gameOver g' = Game.gameOver g
  /\ Game.score g' = Game.score g
  /\ Game.enemiesDefeated g' = Game.enemiesDefeated g
  /\ Game.platforms g' = Game.platforms g.
Proof.
  intros Hmenu Hevs g g'. subst g g'.
  assert (H : sameRound (game w) (game (exec (runFrames evs) w))).
  { assert (Hp : preserves (sameRound (game w)) (runFrames evs)).
    { induction Hevs as [|ev evs Hev _ IH]; cbn [runFrames].
      - apply preserves_ret.
      - apply preserves_bind; [apply sameRound_menu_frame; assumption|].
        intros [|]; [exact IH|apply preserves_ret]. }
    apply Hp, sameRound_refl. }
  destruct H as (H1 & H2 & H3 & H4 & H5).
  repeat split; congruence.
Qed.

(** ** Examples *)

(** C1, an instance: the tick after the defeat. *)
Lemma C1_game_over_tick_witness :
  let w := exec (update 0.016) (doomedWorld 0.5) in
  Game.inMenu (game w) = false
  /\ Game.gameOver (game w) = true
  /\ Game.gameOver (game (exec (update 0.016) w)) = true
  /\ Game.projectiles (game (exec (update 0.016) w)) = [].
Proof.
  assert (Hm : Game.inMenu (game (exec (update 0.016) (doomedWorld 0.5))) = false)
    by (vm_compute; reflexivity).
  assert (Ho : Game.gameOver (game (exec (update 0.016) (doomedWorld 0.5))) = true)
    by (vm_compute; reflexivity).
  cbv zeta. split; [exact Hm|]. split; [exact Ho|].
  pose proof (C1_game_over_tick 0.016 _ Hm Ho) as H. cbv zeta in H.
  split; [exact (proj1 H)|exact (proj1 (proj2 (proj2 H)))].
Defined.

(** C1 as stated fails.  In [doomedWorld] the round runs, a projectile of
    the player is active and a fragment of an enemy is in the air.  The
    tick in which the enemy reaches the player ends the round, and at its
    end no projectile is left and no fragment of an enemy: what is left
    are the seven fragments of the player.  The next tick finds the same. *)
Lemma C1_defeat_removes_projectiles_and_debris :
  let w0 := doomedWorld 0.5 in
  let w1 := exec (update 0.016) w0 in
  let w2 := exec (update 0.016) w1 in
  Game.gameOver (game w0) = false
  /\ map Projectile.Active (Game.projectiles (game w0)) = [true]
  /\ map (fun p => (DeathParticle.Active p, DeathParticle.EnemyID p))
       (Game.deathParticles (game w0)) = [(true, 3%Z)]
  /\ Game.gameOver (game w1) = true
  /\ Game.projectiles (game w1) = []
  /\ map DeathParticle.EnemyID (Game.deathParticles (game w1))
     = [0; 0; 0; 0; 0; 0; 0]%Z
  /\ Game.gameOver (game w2) = true
  /\ Game.projectiles (game w2) = []
  /\ map DeathParticle.EnemyID (Game.deathParticles (game w2))
     = [0; 0; 0; 0; 0; 0; 0]%Z.
Proof. vm_compute. repeat split. Qed.

(** C2 as stated fails.  The menu demo alone, 51 frames after the launch
    and without any input, has shot an enemy, and fragments of it have
    passed the ground: their bounce counter holds 999. *)
Lemma C2_mark_exceeds_two :
  let g := game (exec (runFrames (idle 51)) (menuWorld 0.15)) in
  map DeathParticle.Bounces (Game.deathParticles g)
  = [0; 999; 999; 999; 999; 999]%Z.
Proof. vm_compute. reflexivity. Qed.

(** C3, instances: a fall-through fragment at column 70, beside a platform,
    that comes down on the ground with its counter at 0, at 1 and at
    999. *)
Lemma C3_fall_through_once_and_for_all_witness :
  let w := ledgeWorld 15 [] in
  let p0 := DeathParticle.setPosX 70 (shard true 0 21.9 50) in
  let p1 := DeathParticle.setPosX 70 (shard true 1 21.9 50) in
  let p2 := DeathParticle.setPosX 70 (shard true 999 22.5 50) in
  (DeathParticle.Bounces (eval (stepDeathParticle 0.016 p0) w) = 999%Z
   /\ Qred (Y (DeathParticle.Pos (eval (stepDeathParticle 0.016 p0) w)))
      = 28471 # 1250)
  /\ Y (DeathParticle.Pos (eval (stepDeathParticle 0.016 p1) w)) = 22
  /\ eval (stepDeathParticle 0.016 p2) w
     = leaveViewport (game w)
         (integrate 0.016 300.0 (eval (trailBlood p2) w)).
Proof.
  cbv zeta.
  pose proof (C3_fall_through_once_and_for_all 0.016
                (DeathParticle.setPosX 70 (shard true 0 21.9 50))
                (ledgeWorld 15 []) eq_refl) as [_ H0].
  pose proof (C3_fall_through_once_and_for_all 0.016
                (DeathParticle.setPosX 70 (shard true 1 21.9 50))
                (ledgeWorld 15 []) eq_refl) as [_ H1].
  pose proof (C3_fall_through_once_and_for_all 0.016
                (DeathParticle.setPosX 70 (shard true 999 22.5 50))
                (ledgeWorld 15 []) eq_refl) as [_ H2].
  cbv zeta in H0, H1, H2.
  split; [|split].
  - destruct (H0 eq_refl eq_refl) as (_ & H & _).
    { repeat constructor. }
    unfold eval. rewrite H; [|reflexivity|vm_compute; discriminate|vm_compute; reflexivity].
    vm_compute. split; reflexivity.
  - destruct (H1 eq_refl eq_refl) as (_ & _ & H & _).
    { repeat constructor. }
    apply H; [simpl; lia|vm_compute; discriminate].
  - destruct (H2 eq_refl eq_refl) as (_ & _ & _ & H).
    { repeat constructor. }
    unfold eval. rewrite (H eq_refl). reflexivity.
Defined.

(** C3 as stated fails, twice.  A fall-through fragment that has bounced
    once (on a platform) and comes down on the ground for the first time
    does not pass: it is put on the ground line, row 22, and bounces.  A
    fall-through fragment with its counter at 0 passes in the first tick;
    in the second it is below the ground line (row 23.73) and still
    falling, and neither bounces nor settles.  Each entry lists the counter,
    the row, the vertical velocity and [OnGround]. *)
Lemma C3_bounced_fragment_never_passes :
  let summary (w : World) :=
    map (fun p => (DeathParticle.Bounces p,
                   Qred (Y (DeathParticle.Pos p)),
                   Qred (Y (DeathParticle.Vel p)),
                   DeathParticle.OnGround p))
      (Game.deathParticles (game w)) in
  summary (exec (update 0.016) (debrisWorld [shard true 1 21.9 50]))
  = [(2%Z, 22, -548 # 25, false)]
  /\ summary (exec (update 0.016) (debrisWorld [shard true 0 21.9 50]))
     = [(999%Z, 28471 # 1250, 274 # 5, false)]
  /\ summary (exec (update 0.016)
                (exec (update 0.016) (debrisWorld [shard true 0 21.9 50])))
     = [(999%Z, 29663 # 1250, 298 # 5, false)].
Proof. vm_compute. repeat split. Qed.

(** What stops a marked fragment.  The arena with a platform below the
    ground line, and a fall-through fragment above it: in the first tick
    the fragment passes the ground, and in the second it settles on the
    platform, marked and active.  Each entry lists the counter, the row,
    the vertical velocity, [OnGround] and [Active]. *)
Lemma marked_fragment_rests_on_sunken_platform :
  let summary (w : World) :=
    map (fun p => (DeathParticle.Bounces p,
                   Qred (Y (DeathParticle.Pos p)),
                   Qred (Y (DeathParticle.Vel p)),
                   DeathParticle.OnGround p,
                   DeathParticle.Active p))
      (Game.deathParticles (game w)) in
  let w := ledgeWorld 24.5 [shard true 0 21.9 50] in
  summary (exec (update 0.016) w) = [(999%Z, 28471 # 1250, 274 # 5, false, true)]
  /\ summary (exec (update 0.016) (exec (update 0.016) w))
     = [(999%Z, 47 # 2, 0, true, true)].
Proof. vm_compute. repeat split. Qed.

(** C4, an instance: a drop that reaches the ground line. *)
Lemma C4_blood_contact_and_removal_witness :
  let w := bloodWorld [] in
  BloodParticle.Active (drop 22.9 10) = true
  /\ BloodParticle.EnemyID (eval (stepBloodParticle 0.016 (drop 22.9 10)) w) = 3%Z.
Proof.
  cbv zeta. split; [reflexivity|].
  exact (proj1 (C4_blood_contact_and_removal 0.016 (drop 22.9 10)
                  (bloodWorld []) eq_refl)).
Defined.

(** C4 as stated fails.  A drop of blood falls from row 22.9 onto the
    ground line, row 23, of the arena, which has no platform.  The tick
    stains the ground tile of its column with its source id, and the drop
    is still there and active at the end of this tick (row 23.14) and of
    the next (row 23.45). *)
Lemma C4_ground_contact_keeps_particle :
  let summary (w : World) :=
    (map (fun p => (BloodParticle.Active p, Qred (Y (BloodParticle.Pos p))))
       (Game.bloodParticles (game w)),
     Game.redGroundTiles (game w) !! 40%Z) in
  let w1 := exec (update 0.016) (bloodWorld [drop 22.9 10]) in
  let w2 := exec (update 0.016) w1 in
  Game.platforms (game (bloodWorld [drop 22.9 10])) = []
  /\ summary w1 = ([(true, 28921 # 1250)], Some 3%Z)
  /\ summary w2 = ([(true, 29313 # 1250)], Some 3%Z).
Proof. vm_compute. repeat split. Qed.

(** C5 as stated fails.  Every random draw of the runtime of
    [doomedWorld 0.05] is 0.05, below 0.1.  The defeat of an enemy in this
    world decapitates: it leaves one corpse.  The defeat of the player does
    not: the tick that ends the round leaves no corpse and the seven
    fragments of the player, none of them a rolling head. *)
Lemma C5_player_defeat_never_decapitates :
  let w0 := doomedWorld 0.05 in
  let w1 := exec (update 0.016) w0 in
  (randFloats (runtime w0) (randReads (runtime w0)) <? 0.1) = true
  /\ length (Game.corpses (game (exec (createDeathParticles (enemyAt 41)) w0)))
     = 1%nat
  /\ Game.gameOver (game w0) = false
  /\ Game.gameOver (game w1) = true
  /\ Game.corpses (game w1) = []
  /\ map (fun p => (DeathParticle.EnemyID p, DeathParticle.IsRolling p))
       (Game.deathParticles (game w1))
     = [(0%Z, false); (0%Z, false); (0%Z, false); (0%Z, false); (0%Z, false);
        (0%Z, false); (0%Z, false)].
Proof. vm_compute. repeat split. Qed.

(** C6, an instance: one enemy, at columns 50 to 54, and a projectile that
    a tick of 0.04 s has carried from column 48 to column 56. *)
Lemma C6_swept_hit_registers_witness :
  let p := stepProjectile (clampDeltaTime 0.04) 80 (shotAt 48) in
  let g' := game (exec checkCollisions (shotOver [enemyAt 50])) in
  sweptHit p (enemyAt 50) = true
  /\ Game.projectiles g' !! 0%nat = Some (Projectile.setActive false p)
  /\ Game.enemies g' !! 0%nat = Some (Enemy.setActive false (enemyAt 50)).
Proof.
  apply (C6_swept_hit_registers 0.04 80 (shotAt 48) (enemyAt 50) [] [] [] []
           (shotOver [enemyAt 50])).
  - vm_compute. discriminate.
  - reflexivity.
  - reflexivity.
  - left. reflexivity.
  - vm_compute. reflexivity.
  - reflexivity.
  - reflexivity.
  - vm_compute. split; reflexivity.
  - left. vm_compute. split; discriminate.
  - reflexivity.
  - reflexivity.
  - vm_compute. reflexivity.
  - constructor.
  - constructor.
Defined.

(** C6 as stated fails.  Two enemies stand at columns 50 to 54; a tick of
    0.04 s has carried a projectile of the player from column 48 to column
    56, over both of them and overlapping neither.  The resolver deactivates
    the projectile and the first enemy; the second is as active as before. *)
Lemma C6_second_straddled_enemy_survives :
  let p := stepProjectile (clampDeltaTime 0.04) 80 (shotAt 48) in
  let w := shotOver [enemyAt 50; enemyAt 50] in
  let g' := game (exec checkCollisions w) in
  Game.projectiles (game w) = [p]
  /\ Projectile.Active p = true
  /\ straddles p (enemyAt 50)
  /\ sameRows p (enemyAt 50)
  /\ boxOverEnemy (Projectile.Pos p) (enemyAt 50) = false
  /\ boxOverEnemy (Projectile.PrevPos p) (enemyAt 50) = false
  /\ map Enemy.Active (Game.enemies (game w)) = [true; true]
  /\ map Projectile.Active (Game.projectiles g') = [false]
  /\ map Enemy.Active (Game.enemies g') = [false; true].
Proof.
  cbv zeta. split; [reflexivity|]. split; [vm_compute; reflexivity|].
  split; [left; vm_compute; split; discriminate|].
  split; [vm_compute; split; reflexivity|].
  vm_compute. repeat split.
Qed.

(** C9, a run that shows the stale corpse.  Every random draw being 0.05,
    the menu demo decapitates the enemy that it shoots; 51 frames after the
    launch the corpse of that enemy walks the menu.  Space starts the round:
    the round starts with that corpse, active, in [g.corpses], and with the
    id counter back at the id of the corpse. *)
Lemma C9_start_with_stale_corpse :
  let before := exec (runFrames (idle 51)) (menuWorld 0.05) in
  let started := exec (handleInput (mkEventKey KeyRune " "%char)) before in
  Game.inMenu (game before) = true
  /\ Game.inMenu (game started) = false
  /\ Game.gameOver (game started) = false
  /\ Game.deathParticles (game started) = []
  /\ map (fun c => (Corpse.Active c, Corpse.EnemyID c)) (Game.corpses (game started))
     = [(true, 1%Z)]
  /\ Game.nextEnemyID (game started) = 1%Z.
Proof. vm_compute. repeat split. Qed.

(** C10, an instance: three ticks of a world that spawns in every tick. *)
Lemma C10_spawn_capability_alternates_witness :
  exists e,
    spawnLog [0.016; 0.016; 0.016] crowdedWorld !! 1%nat = Some e
    /\ Enemy.CanShoot e = true.
Proof.
  destruct (spawnLog [0.016; 0.016; 0.016] crowdedWorld !! 1%nat) as [e|] eqn:He;
    [|vm_compute in He; discriminate].
  exists e. split; [reflexivity|].
  change (Enemy.CanShoot e = Nat.odd 1).
  apply (C10_spawn_capability_alternates [0.016; 0.016; 0.016] crowdedWorld);
    [reflexivity | reflexivity | simpl; lia | exact He].
Defined.

(** The tick of the defeat, an instance. *)
Lemma defeat_tick_witness :
  let w := doomedWorld 0.5 in
  let w1 := exec (updatePlayer 0.016;; checkCollisions) w in
  Game.gameOver (game w) = false
  /\ Game.gameOver (game w1) = true
  /\ overTick 0.016 (game w1) (game (exec (update 0.016) w)).
Proof.
  assert (H1 : Game.gameOver
                 (game (exec (updatePlayer 0.016;; checkCollisions)
                          (doomedWorld 0.5))) = true)
    by (vm_compute; reflexivity).
  cbv zeta. split; [reflexivity|]. split; [exact H1|].
  apply (defeat_tick 0.016 (doomedWorld 0.5)); [reflexivity|reflexivity|exact H1].
Defined.

(** The reset, an instance: Space after the menu demo has run. *)
Lemma reset_clears_all_but_corpses_witness :
  let w := exec (runFrames (idle 51)) (menuWorld 0.05) in
  Game.inMenu (game w) = true
  /\ freshRound (game w) (game (exec (handleInput (mkEventKey KeyRune " "%char)) w)).
Proof.
  assert (Hm : Game.inMenu (game (exec (runFrames (idle 51)) (menuWorld 0.05)))
               = true) by (vm_compute; reflexivity).
  cbv zeta. split; [exact Hm|].
  apply (reset_clears_all_but_corpses (mkEventKey KeyRune " "%char)).
  left. split; [exact Hm|]. split; reflexivity.
Defined.

(** The fragments of the player, an instance: the first fragment that the
    defeat in [doomedWorld] leaves. *)
Lemma player_fragment_leaves_only_off_screen_witness :
  let w := exec (update 0.016) (doomedWorld 0.5) in
  exists p,
    Game.deathParticles (game w) !! 0%nat = Some p
    /\ DeathParticle.EnemyID p = 0%Z
    /\ DeathParticle.Active p = true
    /\ DeathParticle.Active (eval (stepDeathParticle 0.016 p) w) = true.
Proof.
  cbv zeta.
  destruct (Game.deathParticles (game (exec (update 0.016) (doomedWorld 0.5)))
              !! 0%nat) as [p|] eqn:He;
    [|vm_compute in He; discriminate].
  assert (Hp : DeathParticle.EnemyID p = 0%Z /\ DeathParticle.Active p = true).
  { vm_compute in He. injection He as <-. split; reflexivity. }
  destruct Hp as [Hid Hactive].
  exists p. split; [reflexivity|]. split; [exact Hid|]. split; [exact Hactive|].
  rewrite (player_fragment_leaves_only_off_screen 0.016 p _ Hid Hactive).
  vm_compute in He. injection He as <-. vm_compute. reflexivity.
Defined.

(** The game-over screen, an instance: a frame without an event, Left, a
    resize and Space after the defeat. *)
Lemma game_over_lasts_until_enter_witness :
  let w := exec (update 0.016) (doomedWorld 0.5) in
  let evs := [None; Some (EventKeyPress (mkEventKey KeyLeft "a"%char));
              Some (EventResize 100 30); pressSpace] in
  Game.inMenu (game w) = false
  /\ Game.gameOver (game w) = true
  /\ Forall (fun ev => ~ pressesEnter ev) evs
  /\ Game.gameOver (game (exec (runFrames evs) w)) = true
  /\ Game.score (game (exec (runFrames evs) w)) = Game.score (game w).
Proof.
  assert (Hm : Game.inMenu (game (exec (update 0.016) (doomedWorld 0.5))) = false)
    by (vm_compute; reflexivity).
  assert (Ho : Game.gameOver (game (exec (update 0.016) (doomedWorld 0.5))) = true)
    by (vm_compute; reflexivity).
  assert (He : Forall (fun ev => ~ pressesEnter ev)
                 [None; Some (EventKeyPress (mkEventKey KeyLeft "a"%char));
                  Some (EventResize 100 30); pressSpace]).
  { repeat constructor; intros (ek & E & K); try discriminate E;
      injection E as <-; discriminate K. }
  cbv zeta. split; [exact Hm|]. split; [exact Ho|]. split; [exact He|].
  pose proof (game_over_lasts_until_enter _ _ Hm Ho He) as H. cbv zeta in H.
  split; [exact (proj1 (proj2 H))|exact (proj1 (proj2 (proj2 H)))].
Defined.

(** The menu, an instance: three frames of the demo, Tab and Enter. *)
Lemma menu_lasts_until_space_witness :
  let w := menuWorld 0.5 in
  let evs := idle 3 ++ [Some (EventKeyPress (mkEventKey KeyTab "a"%char));
                        Some (EventKeyPress (mkEventKey KeyEnter "a"%char))] in
  Game.inMenu (game w) = true
  /\ Forall (fun ev => ~ pressesSpace ev) evs
  /\ Game.inMenu (game (exec (runFrames evs) w)) = true.
Proof.
  assert (Hm : Game.inMenu (game (menuWorld 0.5)) = true) by (vm_compute; reflexivity).
  assert (He : Forall (fun ev => ~ pressesSpace ev)
                 (idle 3 ++ [Some (EventKeyPress (mkEventKey KeyTab "a"%char));
                             Some (EventKeyPress (mkEventKey KeyEnter "a"%char))])).
  { repeat constructor; intros (ek & E & K & _); try discriminate E;
      injection E as <-; discriminate K. }
  cbv zeta. split; [exact Hm|]. split; [exact He|].
  exact (proj1 (menu_lasts_until_space _ _ Hm He)).
Defined.


(** The enemies of a tick, an instance: the arena when every draw is 0. *)
Lemma updateEnemies_survivors_witness :
  (0 <= Game.width (game crowdedWorld))%Z
  /\ Forall (enemyInPlay 80)
       (Game.enemies (game (exec (updateEnemies 0.016) crowdedWorld))).
Proof.
  assert (H : (0 <= Game.width (game crowdedWorld))%Z) by (cbn; lia).
  split; [exact H|]. exact (updateEnemies_survivors 0.016 crowdedWorld H).
Defined.

(** The spawn chance, an instance: a draw of 0 spawns an enemy. *)
Lemma spawn_chance_bounds_witness :
  (0 <= Game.enemiesDefeated (game crowdedWorld) < 2 ^ 63)%Z
  /\ length (Game.enemies (game (exec spawnEnemy crowdedWorld))) = 1%nat.
Proof.
  assert (H : (0 <= Game.enemiesDefeated (game crowdedWorld) < 2 ^ 63)%Z)
    by (cbn; lia).
  split; [exact H|].
  apply (proj1 (spawn_chance_bounds crowdedWorld H)).
  vm_compute. reflexivity.
Defined.


(** The corpse at the right edge, an instance. *)
Lemma corpse_stays_on_screen_witness :
  corpseOnScreen 80 (eval (stepCorpse 0.1 1000000000 walker) crowdedWorld).
Proof.
  apply (corpse_stays_on_screen 0.1 1000000000 walker crowdedWorld);
    [reflexivity|vm_compute; intuition congruence].
Defined.

(** The blood of an impact, an instance. *)
Lemma emitBloodFromParticle_count_witness :
  exists new,
    Game.bloodParticles
      (game (exec (emitBloodFromParticle (shard false 0 10 50) 0.5 true) crowdedWorld))
    = [] ++ new
    /\ (1 <= length new <= 6)%nat
    /\ Forall (freshBlood 3) new.
Proof.
  apply (emitBloodFromParticle_count (shard false 0 10 50) 0.5 true crowdedWorld).
  intros _. split; lra.
Defined.

(** The player between the edges, an instance. *)
Lemma updatePlayer_on_screen_witness :
  playerOnScreen (game (exec (updatePlayer 0.016) crowdedWorld)).
Proof.
  apply (updatePlayer_on_screen 0.016 crowdedWorld);
    vm_compute; intuition congruence.
Defined.

(** Tab in a running round, an instance: from red to green. *)
Lemma tab_cycles_blood_mode_witness :
  game (exec (handleInput (mkEventKey KeyTab " "%char)) crowdedWorld)
  = Game.setBloodColorMode 1 arena.
Proof.
  apply (tab_cycles_blood_mode " "%char crowdedWorld). cbn. lia.
Defined.

(** The ground stains, an instance: three frames over a drop of blood that
    falls to the ground. *)
Lemma ground_stains_stay_on_screen_witness :
  stainsOnScreen (game (exec (runFrames (idle 3)) (bloodWorld [drop 22.5 50]))).
Proof.
  apply (ground_stains_stay_on_screen (idle 3) (bloodWorld [drop 22.5 50])).
  - repeat constructor; discriminate.
  - intros x k H. cbn in H. rewrite lookup_empty in H. discriminate H.
Defined.

(** The menu demo, an instance: the first tick after the launch. *)
Lemma menu_demo_leaves_the_round_alone_witness :
  Game.inMenu (game (menuWorld 0.5)) = true
  /\ Game.score (game (exec (update 0.016) (menuWorld 0.5))) = 0%Z.
Proof.
  assert (H : Game.inMenu (game (menuWorld 0.5)) = true) by (vm_compute; reflexivity).
  split; [exact H|].
  destruct (menu_demo_leaves_the_round_alone 0.016 (menuWorld 0.5) H)
    as (_ & _ & Hs & _).
  cbv zeta in Hs. rewrite Hs. vm_compute. reflexivity.
Defined.

(** Space in a running round, an instance: the first shot. *)
Lemma space_fires_after_cooldown_witness :
  Game.lastShot
    (game (exec (handleInput (mkEventKey KeyRune " "%char)) crowdedWorld))
  = 1000000000%Z.
Proof.
  pose proof (space_fires_after_cooldown crowdedWorld eq_refl eq_refl) as H.
  cbv zeta in H.
  change (200 * Millisecond <? Sub (nextTime crowdedWorld)
            (Game.lastShot (game crowdedWorld)))%Z with true in H.
  exact (proj2 H).
Defined.

(** The blood on the screen, an instance. *)
Lemma drawBloodParticles_stays_on_screen_witness :
  exists cells,
    drawBloodParticles (game (bloodWorld [drop 22.5 50])) = Some cells
    /\ (length cells <= 1)%nat.
Proof.
  destruct (drawBloodParticles_stays_on_screen (game (bloodWorld [drop 22.5 50])))
    as (cells & Hc & _ & Hl & _).
  - left. cbn. lia.
  - exists cells. split; [exact Hc|exact Hl].
Defined.

(** The frame of a running round in the red mode, an instance. *)
Lemma render_is_safe_witness :
  exists cells, eval render crowdedWorld = Some cells.
Proof.
  apply (render_is_safe crowdedWorld). left. cbn. lia.
Defined.

(** The panic, an instance: the rainbow mode with a red fragment of the
    player left of the screen. *)
Lemma render_panics_on_rainbow_fragment_off_screen_witness :
  rainbowHazard strayShard /\ eval render rainbowWorld = None.
Proof.
  assert (H : rainbowHazard strayShard).
  { split; [reflexivity|]. split; [reflexivity|]. split; [left; reflexivity|].
    vm_compute. reflexivity. }
  split; [exact H|].
  apply (render_panics_on_rainbow_fragment_off_screen rainbowWorld strayShard);
    [reflexivity|left|exact H].
Defined.

(** The resize, an instance: the screen shrinks to 30 columns. *)
Lemma resize_moves_the_player_only_witness :
  X (Player.Pos (Game.player (game (exec (handleResize 30 20) crowdedWorld))))
  + float64 4 <= float64 30.
Proof.
  assert (H1 : (- 2 ^ 63 <= 30 - Player.Width (Game.player (game crowdedWorld))
                < 2 ^ 63)%Z) by (vm_compute; intuition congruence).
  assert (H2 : (- 2 ^ 63 + 5 <= 20 <= 2 ^ 63)%Z) by lia.
  destruct (resize_moves_the_player_only 30 20 crowdedWorld H1 H2)
    as (_ & _ & _ & _ & _ & H & _).
  exact H.
Defined.
